(* ===== verification/_CoqProject ===== *)
-Q . S2P
Prelude.v
Sha256.v
GoStd.v
Crypto.v
Committee.v
Store.v
Pool.v
Config.v
Logger.v
Network.v
Quorum.v
Verdict.v
Coin.v
Deliver.v
Runtime.v
Triple.v
History.v
System.v
SmvbaMessage.v
SmvbaAggreator.v
SmvbaCommitor.v
SmvbaSpb.v
SmvbaCore.v
SmvbaSafety.v
SmvbaBehaviour.v
MercuryMessage.v
MercuryAggreator.v
MercuryCommitor.v
MercurySpb.v
MercuryCore.v
MercurySafety.v
MercuryBehaviour.v
VabaMessage.v
VabaAggreator.v
VabaCommitor.v
VabaPromote.v
VabaCore.v
VabaSafety.v
VabaBehaviour.v
MvbaMessage.v
MvbaAggreator.v
MvbaElector.v
MvbaCommitor.v
MvbaInstance.v
MvbaInvariant.v
MvbaCore.v
MvbaSafety.v
MvbaBehaviour.v
MvbaHistory.v
MvbaLedger.v
MvbaSystem.v
Wire.v
MvbaAgreement.v
MvbaBlocks.v
MvbaRun.v
MvbaOrder.v
Boot.v
Main.v
