(* ===== verification/Prelude.v ===== *)
(** * BFT-MVBA: a verification development

    The program under src/ runs a node of a Byzantine fault tolerant replicated
    log.  A node (src/node) reads its configuration (src/config), opens a
    key-value store (src/store) and a transaction pool (src/pool), starts the
    network (src/network, src/core/transmitor.go) and runs one of four
    multi-valued agreement protocols (src/core/smvba, mercury, vaba, mvba).  In
    each epoch every node broadcasts a block provably, the nodes elect a leader
    with a common coin, vote on the leader's block and hand the output of the
    epoch to a commitor that delivers blocks in order of epochs.

    ** Files

    - Prelude (this file): record update, Go's 64-bit integers, nested maps, the
      [Outcome] of a call that may panic, the handler monad [M] (state, emitted
      effects, panic) with its weakest precondition [wp], tactics and hints.
    - Sha256, GoStd, Crypto: src/crypto/crypto.go.  SHA-256 is executable;
      ed25519 and the threshold signatures of kyber are the classes [Ed25519] and
      [Kyber], with [Ed25519Laws] and [KyberLaws] stating what the code relies on
      (signatures verify, wrong key sizes panic, any two recoveries of one
      message give the same signature) and [ToyCrypto] an instance of both.
    - Committee: src/core/config.go and error.go.  The committee map, its
      thresholds, the intersection of quorums, the error values.
    - Store: src/store.  The [DB] interface with its laws, the service behind the
      request channel, and the NutsDB adapter on the operations of nutsdb.
    - Pool: src/pool.  The ring buffer and the channel of batches.
    - Config: src/config/config.go.  The files of keys, threshold keys, committee
      and parameters, and the default settings; encoding/json is the class [Json]
      with [JsonLaws] (decoding gives back what was encoded up to the order of the
      fields of an object) and the instance [ToyJson].
    - Logger: src/logger and the first step of NewNode.  The four loggers with their
      levels and outputs, and files written through handles with offsets.
    - Network: src/network and src/core/transmitor.go.  The codec on a stream of gob
      items, the links of the sender, the accepting and receiving loops, and the
      goroutines between a protocol and its links.  Wire gives the messages of the four
      protocols to it, through the interface [Wire].
    - Quorum, Verdict, Coin, Deliver: what the protocol packages share.  Counting
      votes of different authors, aggregators as functions of the votes they were
      given, what their answers amount to over a run, the leader a coin elects,
      delivery in the order of epochs.
    - Runtime: one node as a transition system: a main loop that takes events from
      bounded channels, goroutines that are scheduled in any order, and the
      network, which may deliver any allowed message.  A handler of the main loop
      that reads shared state in between is cut there and goes on with a
      continuation.  [crash_cause] is the shape of the safety theorems: a crash of a
      reachable node is the main loop handling an event of a given set.
    - Triple: specifications of handlers, [triple], against the class [StepRel].
    - History: induction over the steps of a node with the events it has handled and
      everything it has emitted; [token_invariant] bounds what goroutines may still do
      by what was handled.
    - System: several nodes that deliver to each other what they send (addressing as
      in Transmitor.Send), in any order, with any delay, each message to each
      destination once at most.  Each node of a system is a node of Runtime
      ([project]), and what is handled was sent ([deliveries], [heard]).
    - SmvbaMessage, SmvbaAggreator, SmvbaCommitor, SmvbaSpb, SmvbaCore:
      message.go, aggreator.go and elector.go, commitor.go, spb.go and core.go of
      src/core/smvba/consensus.  SmvbaSafety proves the invariants of a running
      node, SmvbaBehaviour what single handlers do.
    - MercuryMessage, MercuryAggreator, MercuryCommitor, MercurySpb, MercuryCore,
      MercurySafety, MercuryBehaviour: the same for src/core/mercury/consensus,
      which counts votes per try and lets blocks refer to blocks of the epoch
      before.
    - VabaMessage, VabaAggreator, VabaCommitor, VabaPromote, VabaCore, VabaSafety,
      VabaBehaviour: the same for src/core/vaba/consensus, which promotes blocks
      through four phases (promote.go) and changes views.
    - MvbaMessage, MvbaAggreator, MvbaElector, MvbaCommitor, MvbaInstance, MvbaCore:
      src/core/mvba/consensus, with the consistent broadcasts (cbc.go) and binary
      agreements (aba.go) in MvbaInstance; MvbaInvariant has their invariants,
      MvbaSafety those of a running node, MvbaBehaviour what single handlers do.
    - MvbaHistory, MvbaLedger, MvbaBlocks: why one mvba node has sent what it has sent
      (every message of the agreement has a cause that was handled), how often it can
      have sent it, and which blocks it stores and commits.
    - MvbaSystem, MvbaAgreement, MvbaOrder: a committee of correct mvba nodes.  The
      causes of messages across nodes, leaders and rounds; agreement of the binary
      agreement; agreement on leaders and total order of delivered blocks.
    - MvbaRun: four concrete nodes and a scheduler, evaluated from the start until
      all have delivered a block; the witness of the theorems on committees.
    - Boot: src/node/node.go and the consensus.go files: logging, reading the files,
      waiting for the peers ([wait_online]; a dial is an oracle, the fuel is how many are
      looked at), and the initial state of the protocol the parameters name.
    - Main: src/main.go: flags and commands, composed to a deployment.

    ** How the model follows the code

    A struct is a record with the same fields, an int64 a [Z] with wrap-around
    ([int64]) where the code computes, a map a [gmap], a pointer that may be nil
    an [option].  A method that may panic (nil dereference, index out of range,
    wrong key size) returns an [Outcome]; a handler is a command of [M] that
    reads and writes the core and emits its sends, its writes to the receive
    channel and its [go] statements in program order.  The handlers of the main
    loop are atomic, since only the main loop touches what they touch; the
    broadcast goroutines share their instance with it and are cut at every atomic
    access, critical section and send.  An operation on a channel that would block
    for ever has no result.  The [Commit] loops recurse on fuel, one more than the
    number of waiting blocks, which is proved to be enough.

    ** What the theorems show

    - Every reachable state of a node under every interleaving: an smvba or mercury
      node never panics ([..._no_crash]); a vaba or mvba node panics only in its main
      loop and only on the events named ([..._crash_cause]); sent messages verify,
      once-only messages are sent once, flags are backed by hashes and quorums,
      epochs with an output are over ([..._node_invariant], [smvba_sent_verify],
      [smvba_one_done]); no step takes back an epoch, a flag or a delivered block
      ([..._step_monotone]).
    - Output: what the handler that ends an epoch delivers, records and proposes,
      with the block present or missing ([..._halt_outputs], [mvba_output]).
    - The composition for mvba, a committee of 3f+1 correct nodes over an asynchronous
      network: one binary agreement gives one answer, only one round of an epoch halts
      with yes ([mvba_agreement]), and of the sequences two nodes have delivered one is
      a prefix of the other ([mvba_total_order]).  The hypotheses on the run: votes
      name a leader (a node that has not elected one votes for NONE) and numbers stay
      below the largest 64-bit integer ([regular]); no two different proposed blocks
      share a hash ([distinct_hashes], Block.Hash has collisions); stores are new.
    - Agreement: a commit decision and a no decision of the final vote exclude each
      other among 3f+1 members with f faulty, two nodes elect the same leaders and
      get the same coin, and the sequences two commitors deliver are prefixes of one
      another.
    - Refinement: each aggregator answers as a function of the different authors
      it has heard, each commitor returns and delivers a gapless chain, the leaders of
      an mvba epoch are a permutation of the nodes.
    - Components: the store is linearizable, the way from a protocol to its links and
      back is FIFO ([transmitor_fifo], [receiver_delivers]), configuration files round
      trip, log files hold the lines of their logger, batch numbers are unique, quorums
      intersect exactly with 3f+1 members.
    - Deployment: the commands that generate keys, and then a run command per node, give
      nodes that have connected to all others and start in states such as the protocol
      theorems assume ([main_deploys]).
    - Behaviours that differ from what names, comments or the sibling packages say.
      In smvba a lost Finish vote, two opposite final votes, a race that votes twice,
      an adopted block nobody votes for, a main loop that waits for itself, a crash on
      an unknown author; in mercury votes filed under the wrong round, tries that are
      never voted on, commitors that diverge; in vaba a race ([vaba_race_crashes]) and
      a single message that crash nodes, view changes signed for everything, an output that depends on
      the order of messages; in mvba messages handled although they do not verify,
      a branch for late blocks that is dead, a crash of nodes that are behind.

    ** What is not modelled

    The Python scripts of src/benchmark start nodes on machines and parse their logs.
    Sockets, parsing the command line (cobra) and opening a database directory are
    parameters: the results of dialling, listening, accepting and opening are arguments.
    The random draws of key generation are arguments of the functions that use them, and
    gob, JSON, nutsdb, ed25519, kyber and math/rand are parameters with the laws the
    code relies on.  Time is not modelled: delays are the scheduler's.  The theorems on
    committees are about correct nodes: a member that forges messages is not part of a
    [System] (for mvba one such member suffices to end an epoch,
    [mvba_unverified_halt]); the theorems on single nodes allow any messages of members. *)

From Stdlib Require Export ZArith Lia.
From Stdlib Require Import Strings.Byte.
From stdpp Require Export prelude numbers gmap fin_maps fin_sets list.

Open Scope Z_scope.

(** ** Field update on records

    [r <| f := v |>] is Go's [r.f = v].  A record declares [Settable] once
    (its eta expansion); the setter of a field is computed from it. *)

Class Settable (R : Type) := mkEta : R -> R.
Class Setter {R T : Type} (proj : R -> T) := set_field : (T -> T) -> R -> R.
#[export] Hint Mode Setter - - + : typeclass_instances.

Ltac solve_setter :=
  match goal with
  | |- @Setter ?R ?T ?proj =>
    let e := constr:(_ : Settable R) in
    let f := fresh "f" in
    let r := fresh "r" in
    intros f r;
    let body := eval hnf in (e r) in
    match eval pattern (proj r) in body with
    | ?h _ => let t := eval cbv beta in (h (f (proj r))) in exact t
    end
  end.
#[export] Hint Extern 1 (Setter _) => solve_setter : typeclass_instances.

Notation "r <| proj := v |>" := (@set_field _ _ proj _ (fun _ => v) r)
  (at level 1, left associativity, proj at level 10, v at level 200).

(** ** Machine integers

    A Go [int], [int64] or [NodeID] is a 64-bit two's complement integer: a
    [Z] whose arithmetic wraps. *)

Definition wrapS (w : Z) (z : Z) : Z := (z + 2 ^ (w - 1)) mod 2 ^ w - 2 ^ (w - 1).
Definition wrapU (w : Z) (z : Z) : Z := z mod 2 ^ w.
Abbreviation int64 := (wrapS 64).
Abbreviation uint64 := (wrapU 64).

Definition in_int64 (z : Z) : Prop := - 2 ^ 63 <= z < 2 ^ 63.

Lemma int64_id (z : Z) : in_int64 z -> int64 z = z.
Proof.
  unfold in_int64, wrapS. change (2 ^ (64 - 1)) with (2 ^ 63).
  change (2 ^ 64) with (2 * 2 ^ 63). intros ?. rewrite Z.mod_small; lia.
Qed.

(** Wrapping a summand first makes no difference. *)
Lemma int64_add_l (a b : Z) : int64 (int64 a + b) = int64 (a + b).
Proof.
  unfold wrapS. f_equal. change (64 - 1) with 63.
  replace ((a + 2 ^ 63) mod 2 ^ 64 - 2 ^ 63 + b + 2 ^ 63) with ((a + 2 ^ 63) mod 2 ^ 64 + b) by lia.
  rewrite Z.add_mod_idemp_l by done. f_equal. lia.
Qed.

Lemma int64_range (z : Z) : in_int64 (int64 z).
Proof.
  unfold in_int64, wrapS. change (2 ^ (64 - 1)) with (2 ^ 63).
  change (2 ^ 64) with (2 * 2 ^ 63).
  pose proof (Z.mod_pos_bound (z + 2 ^ 63) (2 * 2 ^ 63)). lia.
Qed.

(** The last epoch of the counter. *)
Definition last_epoch : Z := 2 ^ 63 - 1.

Lemma int64_next (e : Z) : in_int64 e -> e <> last_epoch -> int64 (e + 1) = e + 1.
Proof. unfold in_int64, last_epoch. intros. apply int64_id. unfold in_int64. lia. Qed.

(** ** Bytes *)

#[export] Instance byte_eq_dec : EqDecision byte.
Proof. intros x y. destruct (Byte.byte_eq_dec x y); [by left | by right]. Defined.

#[export] Program Instance byte_countable : Countable byte :=
  inj_countable Byte.to_N Byte.of_N _.
Next Obligation. intros b. apply Byte.of_to_N. Qed.

Abbreviation bytes := (list byte).

Definition Zbyte (b : byte) : Z := Z.of_N (Byte.to_N b).
Definition byteZ (z : Z) : byte := default x00 (Byte.of_N (Z.to_N (z mod 256))).

Lemma Zbyte_range (b : byte) : 0 <= Zbyte b < 256.
Proof. unfold Zbyte. pose proof (Byte.to_N_bounded b). lia. Qed.

Lemma Zbyte_byteZ (z : Z) : Zbyte (byteZ z) = z mod 256.
Proof.
  unfold Zbyte, byteZ. pose proof (Z.mod_pos_bound z 256 ltac:(lia)) as Hb.
  destruct (Byte.of_N (Z.to_N (z mod 256))) as [b|] eqn:E; cbn.
  - apply Byte.to_of_N in E. rewrite E. lia.
  - apply Byte.of_N_None_iff in E. lia.
Qed.

Lemma byteZ_Zbyte (b : byte) : byteZ (Zbyte b) = b.
Proof.
  unfold byteZ. rewrite Z.mod_small by apply Zbyte_range.
  unfold Zbyte. rewrite N2Z.id, Byte.of_to_N. done.
Qed.

Lemma Zbyte_inj (a b : byte) : Zbyte a = Zbyte b -> a = b.
Proof. intros H. rewrite <-(byteZ_Zbyte a), H. apply byteZ_Zbyte. Qed.

(** ** Outcomes and the handler monad

    A Go call returns or panics.  The code of one goroutine between two
    scheduling points is a value of [M S E A]: it reads and writes the state
    [S], emits the effects [E] (sends, goroutine starts) in program order, and
    returns an [A] unless it panics. *)

Inductive Outcome (A : Type) : Type :=
| Ret (a : A)
| Panic.
Arguments Ret {A} a.
Arguments Panic {A}.

#[export] Instance Outcome_ret : MRet Outcome := fun A a => Ret a.
#[export] Instance Outcome_bind : MBind Outcome := fun A B k o =>
  match o with Ret a => k a | Panic => Panic end.

Definition M (S E A : Type) : Type := S -> Outcome (A * S * list E).

#[export] Instance M_ret {S E : Type} : MRet (M S E) := fun A a s => Ret (a, s, []).

#[export] Instance M_bind {S E : Type} : MBind (M S E) := fun A B k m s =>
  match m s with
  | Panic => Panic
  | Ret (a, s1, e1) =>
      match k a s1 with
      | Panic => Panic
      | Ret (b, s2, e2) => Ret (b, s2, e1 ++ e2)
      end
  end.

Section Monad.
Context {S E : Type}.

Definition get_st : M S E S := fun s => Ret (s, s, []).
Definition gets {A : Type} (f : S -> A) : M S E A := fun s => Ret (f s, s, []).
Definition modify (f : S -> S) : M S E unit := fun s => Ret (tt, f s, []).
Definition emit (e : E) : M S E unit := fun s => Ret (tt, s, [e]).
Definition panic {A : Type} : M S E A := fun _ => Panic.
Definition lift_outcome {A : Type} (o : Outcome A) : M S E A :=
  fun s => match o with Ret a => Ret (a, s, []) | Panic => Panic end.

(** [wp p m s Q]: running [m] from [s] ends in a result satisfying [Q]; a
    panic is accepted when [p] is. *)
Definition wp {A : Type} (p : Prop) (m : M S E A) (s : S)
    (Q : A -> S -> list E -> Prop) : Prop :=
  match m s with
  | Ret (a, s', es) => Q a s' es
  | Panic => p
  end.

Lemma wp_ret {A} p (a : A) s (Q : A -> S -> list E -> Prop) :
  wp p (mret a) s Q <-> Q a s [].
Proof. done. Qed.

Lemma wp_bind {A B} p (m : M S E A) (k : A -> M S E B) s (Q : B -> S -> list E -> Prop) :
  wp p (m ≫= k) s Q <->
  wp p m s (fun a s1 e1 => wp p (k a) s1 (fun b s2 e2 => Q b s2 (e1 ++ e2))).
Proof.
  unfold wp, mbind, M_bind. destruct (m s) as [[[a s1] e1]|]; [|done].
  by destruct (k a s1) as [[[b s2] e2]|].
Qed.

Lemma wp_get p s (Q : S -> S -> list E -> Prop) : wp p get_st s Q <-> Q s s [].
Proof. done. Qed.

Lemma wp_gets {A} p (f : S -> A) s (Q : A -> S -> list E -> Prop) :
  wp p (gets f) s Q <-> Q (f s) s [].
Proof. done. Qed.

Lemma wp_modify p f s (Q : unit -> S -> list E -> Prop) :
  wp p (modify f) s Q <-> Q tt (f s) [].
Proof. done. Qed.

Lemma wp_emit p e s (Q : unit -> S -> list E -> Prop) :
  wp p (emit e) s Q <-> Q tt s [e].
Proof. done. Qed.

Lemma wp_panic {A} p s (Q : A -> S -> list E -> Prop) : wp p panic s Q <-> p.
Proof. done. Qed.

Lemma wp_lift {A} p (o : Outcome A) s (Q : A -> S -> list E -> Prop) :
  wp p (lift_outcome o) s Q <-> match o with Ret a => Q a s [] | Panic => p end.
Proof. unfold wp, lift_outcome. by destruct o. Qed.

Lemma wp_mono {A} (p : Prop) (m : M S E A) s (Q Q' : A -> S -> list E -> Prop) :
  wp p m s Q -> (forall a s' es, Q a s' es -> Q' a s' es) -> wp p m s Q'.
Proof. unfold wp. destruct (m s) as [[[??]?]|]; eauto. Qed.

Lemma wp_panic_mono {A} (p p' : Prop) (m : M S E A) s (Q : A -> S -> list E -> Prop) :
  (p -> p') -> wp p m s Q -> wp p' m s Q.
Proof. unfold wp. destruct (m s) as [[[??]?]|]; auto. Qed.

Lemma wp_safe {A} (p : Prop) (m : M S E A) s (Q : A -> S -> list E -> Prop) :
  wp False m s Q -> wp p m s Q.
Proof. unfold wp. by destruct (m s) as [[[??]?]|]. Qed.

(** A command keeps an invariant of the state and emits only effects that
    satisfy [F]; [p] says whether it may panic. *)
Definition keeps {A} (p : Prop) (I : S -> Prop) (F : E -> Prop) (m : M S E A) : Prop :=
  forall s, I s -> wp p m s (fun _ s' es => I s' /\ Forall F es).

Lemma keeps_ret {A} p I F (a : A) : keeps p I F (mret a).
Proof. intros s HI. apply wp_ret. auto. Qed.

Lemma keeps_bind {A B} p I F (m : M S E A) (k : A -> M S E B) :
  keeps p I F m -> (forall a, keeps p I F (k a)) -> keeps p I F (m ≫= k).
Proof.
  intros Hm Hk s HI. apply wp_bind. eapply wp_mono; [by apply Hm|].
  intros a s1 e1 [HI1 He1]. eapply wp_mono; [by apply Hk|].
  intros b s2 e2 [HI2 He2]. split; [done|]. by apply Forall_app.
Qed.

Lemma keeps_modify p I F f : (forall s, I s -> I (f s)) -> keeps p I F (modify f).
Proof. intros H s HI. apply wp_modify. auto. Qed.

Lemma keeps_gets {A} p I F (f : S -> A) : keeps p I F (gets f).
Proof. intros s HI. apply wp_gets. auto. Qed.

Lemma keeps_emit p I F e : F e -> keeps p I F (emit e).
Proof. intros He s HI. apply wp_emit. auto. Qed.

Lemma keeps_get p I F : keeps p I F get_st.
Proof. intros s HI. apply wp_get. auto. Qed.

(** A call that may panic. *)
Lemma keeps_lift {A} I F (o : Outcome A) : keeps True I F (lift_outcome o).
Proof. intros s HI. apply wp_lift. destruct o; auto. Qed.
End Monad.

Create Rewrite HintDb wp.
#[export] Hint Rewrite @wp_ret @wp_bind @wp_get @wp_gets @wp_modify @wp_emit @wp_panic
  @wp_lift : wp.

Create HintDb keeps.
#[export] Hint Resolve keeps_ret keeps_gets keeps_emit keeps_get keeps_lift : keeps.

(** Normalise a [wp] goal along the program text. *)
Ltac wp_steps := autorewrite with wp; cbn beta iota.

(** ** Nested maps

    Go code reaches [m[a][b]] by creating the inner map on a miss. *)

Section NestedMaps.
Context {K1 K2 V : Type} `{Countable K1} `{Countable K2}.

Definition lookup2 (m : gmap K1 (gmap K2 V)) (a : K1) (b : K2) : option V :=
  m !! a ≫= fun i => i !! b.
Definition insert2 (a : K1) (b : K2) (v : V) (m : gmap K1 (gmap K2 V)) :
    gmap K1 (gmap K2 V) :=
  <[a := <[b := v]> (default ∅ (m !! a))]> m.
(** [if _, ok := m[a]; !ok { m[a] = make(...) }] *)
Definition ensure (a : K1) (m : gmap K1 (gmap K2 V)) : gmap K1 (gmap K2 V) :=
  match m !! a with Some _ => m | None => <[a := ∅]> m end.

Lemma lookup2_insert2 m a b v a' b' :
  lookup2 (insert2 a b v m) a' b' =
  if decide (a = a' /\ b = b') then Some v else lookup2 m a' b'.
Proof.
  unfold lookup2, insert2. destruct (decide (a = a')) as [->|Ha].
  - rewrite lookup_insert_eq. cbn. destruct (decide (b = b')) as [->|Hb].
    + rewrite lookup_insert_eq, decide_True by done. done.
    + rewrite lookup_insert_ne, decide_False by naive_solver.
      by destruct (m !! a').
  - rewrite lookup_insert_ne, decide_False by naive_solver. done.
Qed.

Lemma lookup2_insert2_eq m a b v : lookup2 (insert2 a b v m) a b = Some v.
Proof. rewrite lookup2_insert2, decide_True; done. Qed.

Lemma lookup2_insert2_ne m a b v a' b' :
  ~ (a = a' /\ b = b') -> lookup2 (insert2 a b v m) a' b' = lookup2 m a' b'.
Proof. intros. rewrite lookup2_insert2, decide_False; done. Qed.

Lemma lookup2_ensure m c a b : lookup2 (ensure c m) a b = lookup2 m a b.
Proof.
  unfold lookup2, ensure. destruct (m !! c) eqn:E; [done|].
  destruct (decide (c = a)) as [->|Hne].
  - by rewrite lookup_insert_eq, E.
  - by rewrite lookup_insert_ne.
Qed.

Lemma lookup2_empty a b : lookup2 (∅ : gmap K1 (gmap K2 V)) a b = None.
Proof. done. Qed.
End NestedMaps.

Section NestedMaps3.
Context {K1 K2 K3 V : Type} `{Countable K1} `{Countable K2} `{Countable K3}.

Definition lookup3 (m : gmap K1 (gmap K2 (gmap K3 V))) (a : K1) (b : K2) (c : K3) :
    option V := lookup2 m a b ≫= fun i => i !! c.
Definition insert3 (a : K1) (b : K2) (c : K3) (v : V) (m : gmap K1 (gmap K2 (gmap K3 V))) :
    gmap K1 (gmap K2 (gmap K3 V)) :=
  insert2 a b (<[c := v]> (default ∅ (lookup2 m a b))) m.

Lemma lookup3_insert3 m a b c v a' b' c' :
  lookup3 (insert3 a b c v m) a' b' c' =
  if decide (a = a' /\ b = b' /\ c = c') then Some v else lookup3 m a' b' c'.
Proof.
  unfold lookup3, insert3. rewrite lookup2_insert2.
  destruct (decide (a = a' /\ b = b')) as [[-> ->]|Hne]; cbn.
  - destruct (decide (c = c')) as [->|Hc].
    + by rewrite lookup_insert_eq, decide_True.
    + rewrite lookup_insert_ne, decide_False by naive_solver.
      by destruct (lookup2 m a' b').
  - rewrite decide_False by naive_solver. done.
Qed.

Lemma lookup3_insert3_eq m a b c v : lookup3 (insert3 a b c v m) a b c = Some v.
Proof. rewrite lookup3_insert3, decide_True; done. Qed.

Lemma lookup3_insert3_ne m a b c v a' b' c' :
  ~ (a = a' /\ b = b' /\ c = c') ->
  lookup3 (insert3 a b c v m) a' b' c' = lookup3 m a' b' c'.
Proof. intros. rewrite lookup3_insert3, decide_False; done. Qed.

Lemma lookup3_ensure m d a b c : lookup3 (ensure d m) a b c = lookup3 m a b c.
Proof. unfold lookup3. by rewrite lookup2_ensure. Qed.
End NestedMaps3.

Create Rewrite HintDb nested.
#[export] Hint Rewrite @lookup2_insert2_eq @lookup2_ensure @lookup2_empty
  @lookup3_insert3_eq @lookup3_ensure : nested.

(** ** Finite sets: counting *)

Section Counting.
Context {A : Type} `{Countable A}.

(** Two subsets of a universe overlap in at least the excess of their sizes. *)
Lemma size_overlap (U X Y : gset A) :
  X ⊆ U -> Y ⊆ U -> (size X + size Y <= size U + size (X ∩ Y))%nat.
Proof.
  intros HX HY.
  assert (size (X ∪ Y) + size (X ∩ Y) = size X + size Y)%nat as <-.
  { rewrite size_union_alt.
    assert (size Y = size (Y ∖ X) + size (X ∩ Y))%nat as ->; [|lia].
    rewrite <-size_union by set_solver. f_equal.
    apply set_eq. intros x. destruct (decide (x ∈ X)); set_solver. }
  assert (size (X ∪ Y) <= size U)%nat by (apply subseteq_size; set_solver). lia.
Qed.

Lemma size_insert_new (x : A) (X : gset A) :
  x ∉ X -> size ({[x]} ∪ X) = S (size X).
Proof. intros. rewrite size_union by set_solver. by rewrite size_singleton. Qed.
End Counting.

(** Membership as a boolean, as Go's [_, ok := set[x]]. *)
Definition has {K V : Type} `{Countable K} (m : gmap K V) (k : K) : bool :=
  bool_decide (is_Some (m !! k)).

(** Case analysis on the boolean tests the code makes. *)
Ltac case_bool :=
  match goal with
  | |- context [(?a =? ?b)%Z] => destruct (Z.eqb_spec a b)
  | |- context [(?a <? ?b)%Z] => destruct (Z.ltb_spec a b)
  | |- context [(?a <=? ?b)%Z] => destruct (Z.leb_spec a b)
  | |- context [bool_decide ?P] => destruct (bool_decide_reflect P)
  end.

(** Two sequences that agree wherever both are defined. *)
Lemma prefix_by_index {A : Type} (l1 l2 : list A) :
  (forall k x y, l1 !! k = Some x -> l2 !! k = Some y -> x = y) ->
  l1 `prefix_of` l2 \/ l2 `prefix_of` l1.
Proof.
  revert l2. induction l1 as [|x l1 IH]; intros l2 H; [left; apply prefix_nil|].
  destruct l2 as [|y l2]; [right; apply prefix_nil|].
  rewrite (H 0%nat x y) by done.
  destruct (IH l2) as [|]; [intros k; apply (H (S k))|left|right]; by apply prefix_cons.
Qed.
