(* ===== verification/Sha256.v ===== *)
(** * SHA-256, as Go's [crypto/sha256] computes it

    [crypto.Hasher] (src/crypto/crypto.go) and with it every [Hash] method of
    every message ends in [sha256.Sum256].  This file defines the function of
    FIPS 180-4 on byte strings, executably, so that the digests of the model
    are the digests of the program.  The published test vectors are checked by
    evaluation at the end. *)

From S2P Require Import Prelude.
From Stdlib Require Import Strings.Byte.

Module Sha256.

Definition mask32 : Z := 2 ^ 32 - 1.
Definition add32 (x y : Z) : Z := Z.land (x + y) mask32.
Definition rotr (n x : Z) : Z :=
  Z.lor (Z.shiftr x n) (Z.land (Z.shiftl x (32 - n)) mask32).
Definition xor3 (x y z : Z) : Z := Z.lxor x (Z.lxor y z).

Definition bsig0 (x : Z) : Z := xor3 (rotr 2 x) (rotr 13 x) (rotr 22 x).
Definition bsig1 (x : Z) : Z := xor3 (rotr 6 x) (rotr 11 x) (rotr 25 x).
Definition ssig0 (x : Z) : Z := xor3 (rotr 7 x) (rotr 18 x) (Z.shiftr x 3).
Definition ssig1 (x : Z) : Z := xor3 (rotr 17 x) (rotr 19 x) (Z.shiftr x 10).
Definition choose (x y z : Z) : Z := Z.lxor (Z.land x y) (Z.land (Z.lxor x mask32) z).
Definition majority (x y z : Z) : Z := xor3 (Z.land x y) (Z.land x z) (Z.land y z).

(** The 64 round constants, as one number of 64 words. *)
Definition round_words : Z :=
  0x428a2f9871374491b5c0fbcfe9b5dba53956c25b59f111f1923f82a4ab1c5ed5d807aa9812835b01243185be550c7dc372be5d7480deb1fe9bdc06a7c19bf174e49b69c1efbe47860fc19dc6240ca1cc2de92c6f4a7484aa5cb0a9dc76f988da983e5152a831c66db00327c8bf597fc7c6e00bf3d5a7914706ca63511429296727b70a852e1b21384d2c6dfc53380d13650a7354766a0abb81c2c92e92722c85a2bfe8a1a81a664bc24b8b70c76c51a3d192e819d6990624f40e3585106aa07019a4c1161e376c082748774c34b0bcb5391c0cb34ed8aa4a5b9cca4f682e6ff3748f82ee78a5636f84c878148cc7020890befffaa4506cebbef9a3f7c67178f2.
Definition round_k : list Z := Eval vm_compute in
  (fun i => Z.land (Z.shiftr round_words (32 * (63 - Z.of_nat i))) mask32) <$> seq 0 64.

(** The eight chaining words. *)
Record chain := Chain { ca : Z; cb : Z; cc : Z; cd : Z; ce : Z; cf : Z; cg : Z; ch : Z }.

Definition chain0 : chain :=
  Chain 0x6a09e667 0xbb67ae85 0x3c6ef372 0xa54ff53a
        0x510e527f 0x9b05688c 0x1f83d9ab 0x5be0cd19.

Definition one_round (c : chain) (kw : Z * Z) : chain :=
  let t1 := add32 (add32 (add32 (ch c) (bsig1 (ce c))) (choose (ce c) (cf c) (cg c)))
                  (add32 kw.1 kw.2) in
  let t2 := add32 (bsig0 (ca c)) (majority (ca c) (cb c) (cc c)) in
  Chain (add32 t1 t2) (ca c) (cb c) (cc c) (add32 (cd c) t1) (ce c) (cf c) (cg c).

Definition chain_add (x y : chain) : chain :=
  Chain (add32 (ca x) (ca y)) (add32 (cb x) (cb y)) (add32 (cc x) (cc y))
        (add32 (cd x) (cd y)) (add32 (ce x) (ce y)) (add32 (cf x) (cf y))
        (add32 (cg x) (cg y)) (add32 (ch x) (ch y)).

(** The message schedule, kept newest word first while it is extended. *)
Fixpoint extend_schedule (n : nat) (w : list Z) : list Z :=
  match n with
  | O => w
  | S n' =>
      let at_ i := default 0 (w !! i) in
      extend_schedule n'
        (add32 (add32 (ssig1 (at_ 1%nat)) (at_ 6%nat))
               (add32 (ssig0 (at_ 14%nat)) (at_ 15%nat)) :: w)
  end.

Definition word_of (bs : bytes) : Z := foldl (fun acc b => acc * 256 + Zbyte b) 0 bs.

Fixpoint words_of (n : nat) (bs : bytes) : list Z :=
  match n with
  | O => []
  | S n' => word_of (take 4 bs) :: words_of n' (drop 4 bs)
  end.

Definition block (c : chain) (bs : bytes) : chain :=
  let w := reverse (extend_schedule 48 (reverse (words_of 16 bs))) in
  chain_add c (foldl one_round c (zip round_k w)).

(** Big-endian bytes of a word. *)
Fixpoint be_bytes (n : nat) (z : Z) : bytes :=
  match n with
  | O => []
  | S n' => be_bytes n' (Z.shiftr z 8) ++ [byteZ z]
  end.

Definition pad (msg : bytes) : bytes :=
  let n := Z.of_nat (length msg) in
  msg ++ x80 :: replicate (Z.to_nat ((55 - n) mod 64)) x00 ++ be_bytes 8 (n * 8).

Fixpoint blocks (fuel : nat) (c : chain) (bs : bytes) : chain :=
  match fuel with
  | O => c
  | S fuel' => blocks fuel' (block c (take 64 bs)) (drop 64 bs)
  end.

Definition digest (c : chain) : bytes :=
  mjoin (be_bytes 4 <$> [ca c; cb c; cc c; cd c; ce c; cf c; cg c; ch c]).

(** [sha256.Sum256] *)
Definition Sum256 (msg : bytes) : bytes :=
  let p := pad msg in digest (blocks (length p / 64)%nat chain0 p).

Lemma length_be_bytes (n : nat) (z : Z) : length (be_bytes n z) = n.
Proof. revert z. induction n; intros; cbn; [done|]. rewrite length_app, IHn. cbn. lia. Qed.

Lemma length_Sum256 (msg : bytes) : length (Sum256 msg) = 32%nat.
Proof.
  unfold Sum256, digest. cbn [fmap list_fmap mjoin list_join].
  rewrite !length_app, !length_be_bytes. done.
Qed.

End Sha256.

#[global] Arguments Sha256.Sum256 : simpl never.

Section Vectors.
Import Sha256.

Definition hex_word (ws : list Z) : bytes := mjoin (be_bytes 4 <$> ws).

Example sha256_empty :
  Sum256 [] = hex_word [0xe3b0c442; 0x98fc1c14; 0x9afbf4c8; 0x996fb924;
                        0x27ae41e4; 0x649b934c; 0xa495991b; 0x7852b855].
Proof. vm_compute. reflexivity. Qed.

Example sha256_abc :
  Sum256 [x61; x62; x63] =
  hex_word [0xba7816bf; 0x8f01cfea; 0x414140de; 0x5dae2223;
            0xb00361a3; 0x96177a9c; 0xb410ff61; 0xf20015ad].
Proof. vm_compute. reflexivity. Qed.

(** A message of two blocks: fifty-six letters. *)
Example sha256_two_blocks :
  Sum256 (replicate 56 x61) =
  hex_word [0xb35439a4; 0xac6f0948; 0xb6d6f9e3; 0xc6af0f5f;
            0x590ce20f; 0x1bde7090; 0xef797068; 0x6ec6738a].
Proof. vm_compute. reflexivity. Qed.
End Vectors.
