(* ===== verification/GoStd.v ===== *)
(** * The parts of the Go standard library the program calls

    [strconv.AppendInt] in base 2 and [strconv.AppendBool] (the message hashes
    of smvba, mercury and vaba), [binary.LittleEndian.AppendUint64] and
    [binary.BigEndian.AppendUint64] (the message hashes of mvba),
    [hex.Encode]/[hex.Decode] (key files), [strconv.Itoa]/[strconv.Atoi]
    (committee files). *)

From S2P Require Import Prelude.
From Stdlib Require Import Strings.Byte.

(** ** strconv *)

Fixpoint pos_digits2 (p : positive) : bytes :=
  match p with
  | xH => [x31]
  | xO p' => pos_digits2 p' ++ [x30]
  | xI p' => pos_digits2 p' ++ [x31]
  end.

(** [strconv.AppendInt(nil, v, 2)] *)
Definition AppendInt2 (v : Z) : bytes :=
  match v with
  | Z0 => [x30]
  | Zpos p => pos_digits2 p
  | Zneg p => x2d :: pos_digits2 p
  end.

(** [strconv.AppendBool(nil, b)] *)
Definition AppendBool (b : bool) : bytes :=
  if b then [x74; x72; x75; x65] else [x66; x61; x6c; x73; x65].

Lemma pos_digits2_head (p : positive) : exists l, pos_digits2 p = x31 :: l.
Proof.
  induction p as [p [l E]|p [l E]|]; cbn; rewrite ?E; eexists; cbn; reflexivity.
Qed.

Lemma pos_digits2_app_ne (p : positive) (b c : byte) : pos_digits2 p ++ [b] <> [c].
Proof.
  destruct (pos_digits2_head p) as [l ->]. destruct l; discriminate.
Qed.

Lemma pos_digits2_inj (p q : positive) : pos_digits2 p = pos_digits2 q -> p = q.
Proof.
  revert q. induction p as [p IH|p IH|]; intros [q|q|]; cbn; intros H; try done;
    try (apply app_inj_tail in H as [H1 H2]; first [discriminate | by f_equal; apply IH]);
    exfalso; first [eapply pos_digits2_app_ne, H | eapply pos_digits2_app_ne; symmetry; apply H].
Qed.

Lemma AppendInt2_inj (v w : Z) : AppendInt2 v = AppendInt2 w -> v = w.
Proof.
  destruct v as [|p|p], w as [|q|q]; cbn; intros H; try done;
    try (destruct (pos_digits2_head p) as [l E]; rewrite E in H);
    try (destruct (pos_digits2_head q) as [l' E']; rewrite E' in H);
    simplify_eq; f_equal; apply pos_digits2_inj; congruence.
Qed.

(** ** encoding/binary *)

Fixpoint le_bytes (n : nat) (z : Z) : bytes :=
  match n with
  | O => []
  | S n' => byteZ z :: le_bytes n' (z / 256)
  end.

Fixpoint le_value (bs : bytes) : Z :=
  match bs with
  | [] => 0
  | b :: bs' => Zbyte b + 256 * le_value bs'
  end.

(** [binary.LittleEndian.AppendUint64(nil, uint64(v))] for a signed [v] *)
Definition LittleEndian_AppendUint64 (v : Z) : bytes := le_bytes 8 (uint64 v).
(** [binary.BigEndian.AppendUint64(nil, uint64(v))] *)
Definition BigEndian_AppendUint64 (v : Z) : bytes := reverse (le_bytes 8 (uint64 v)).

Lemma length_le_bytes (n : nat) (z : Z) : length (le_bytes n z) = n.
Proof. revert z. induction n; intros; cbn; auto. Qed.

Lemma le_value_bytes (n : nat) (z : Z) :
  0 <= z -> le_value (le_bytes n z) = z mod 256 ^ Z.of_nat n.
Proof.
  revert z. induction n as [|n IH]; intros z Hz.
  - cbn. by rewrite Z.mod_1_r.
  - cbn [le_bytes le_value]. rewrite IH by (apply Z.div_pos; lia).
    rewrite Zbyte_byteZ, Nat2Z.inj_succ, Z.pow_succ_r by lia.
    rewrite Z.rem_mul_r by (try apply Z.pow_nonzero; lia). lia.
Qed.

Lemma uint64_inj (v w : Z) : in_int64 v -> in_int64 w -> uint64 v = uint64 w -> v = w.
Proof.
  unfold in_int64, wrapU. change (2 ^ 64) with (2 * 2 ^ 63). intros Hv Hw H.
  assert ((v - w) mod (2 * 2 ^ 63) = 0) as Hd.
  { rewrite Zminus_mod, H, Z.sub_diag. done. }
  apply Z.mod_divide in Hd as [k Hk]; [|lia]. nia.
Qed.

Lemma le_bytes_inj (v w : Z) :
  in_int64 v -> in_int64 w -> le_bytes 8 (uint64 v) = le_bytes 8 (uint64 w) -> v = w.
Proof.
  intros Hv Hw H. apply uint64_inj; [done..|].
  assert (forall x, 0 <= uint64 x < 256 ^ 8) as Hr.
  { intros x. unfold wrapU. change (256 ^ 8) with (2 ^ 64). apply Z.mod_pos_bound. lia. }
  apply (f_equal le_value) in H. rewrite !le_value_bytes in H by apply Hr.
  change (256 ^ Z.of_nat 8) with (256 ^ 8) in H.
  rewrite !Z.mod_small in H by apply Hr. done.
Qed.

Lemma LittleEndian_inj (v w : Z) :
  in_int64 v -> in_int64 w ->
  LittleEndian_AppendUint64 v = LittleEndian_AppendUint64 w -> v = w.
Proof. apply le_bytes_inj. Qed.

Lemma BigEndian_inj (v w : Z) :
  in_int64 v -> in_int64 w ->
  BigEndian_AppendUint64 v = BigEndian_AppendUint64 w -> v = w.
Proof.
  intros Hv Hw H. apply le_bytes_inj; [done..|].
  unfold BigEndian_AppendUint64 in H. by apply (inj reverse).
Qed.

Lemma length_LittleEndian (v : Z) : length (LittleEndian_AppendUint64 v) = 8%nat.
Proof. apply length_le_bytes. Qed.

Lemma length_BigEndian (v : Z) : length (BigEndian_AppendUint64 v) = 8%nat.
Proof. unfold BigEndian_AppendUint64. by rewrite length_reverse, length_le_bytes. Qed.

(** ** encoding/hex *)

Definition hex_digit (z : Z) : byte := if z <? 10 then byteZ (48 + z) else byteZ (87 + z).

(** Go's [reverseHexTable]: the value of a digit, lower or upper case. *)
Definition hex_value (b : byte) : option Z :=
  let z := Zbyte b in
  if (48 <=? z) && (z <=? 57) then Some (z - 48)
  else if (97 <=? z) && (z <=? 102) then Some (z - 87)
  else if (65 <=? z) && (z <=? 70) then Some (z - 55)
  else None.

Inductive hex_error := InvalidByteError (b : byte) | ErrLength.

(** [hex.Encode] *)
Definition hex_Encode (src : bytes) : bytes :=
  mjoin ((fun b => [hex_digit (Zbyte b / 16); hex_digit (Zbyte b mod 16)]) <$> src).

(** [hex.Decode] *)
Fixpoint hex_Decode (src : bytes) : bytes + hex_error :=
  match src with
  | [] => inl []
  | [p] => match hex_value p with None => inr (InvalidByteError p) | Some _ => inr ErrLength end
  | p :: q :: rest =>
      match hex_value p with
      | None => inr (InvalidByteError p)
      | Some a =>
          match hex_value q with
          | None => inr (InvalidByteError q)
          | Some b =>
              match hex_Decode rest with
              | inl out => inl (byteZ (a * 16 + b) :: out)
              | inr e => inr e
              end
          end
      end
  end.

Lemma hex_value_digit (z : Z) : 0 <= z < 16 -> hex_value (hex_digit z) = Some z.
Proof.
  assert (forallb (fun z => bool_decide (hex_value (hex_digit z) = Some z)) (seqZ 0 16) = true)
    as H by (vm_compute; reflexivity).
  rewrite forallb_forall in H. intros Hz.
  eapply bool_decide_eq_true, H, list_elem_of_In, elem_of_seqZ. lia.
Qed.

Lemma hex_Decode_Encode (src : bytes) : hex_Decode (hex_Encode src) = inl src.
Proof.
  induction src as [|b src IH]; [done|].
  pose proof (Zbyte_range b).
  change (hex_Encode (b :: src)) with
    (hex_digit (Zbyte b / 16) :: hex_digit (Zbyte b mod 16) :: hex_Encode src).
  cbn [hex_Decode].
  rewrite !hex_value_digit, IH by (try apply Z.mod_pos_bound; try split;
    try apply Z.div_pos; try apply Z.div_lt_upper_bound; lia).
  do 2 f_equal. rewrite Z.mul_comm, <-Z.div_mod by lia. apply byteZ_Zbyte.
Qed.

Lemma length_hex_Encode (src : bytes) : length (hex_Encode src) = (2 * length src)%nat.
Proof.
  induction src as [|b src IH]; [done|].
  change (hex_Encode (b :: src)) with
    (hex_digit (Zbyte b / 16) :: hex_digit (Zbyte b mod 16) :: hex_Encode src).
  cbn [length]. lia.
Qed.

(** ** strconv, base 10 *)

Fixpoint digits10 (fuel : nat) (z : Z) (acc : bytes) : bytes :=
  match fuel with
  | O => acc
  | S fuel' =>
      let acc' := byteZ (48 + z mod 10) :: acc in
      if z <? 10 then acc' else digits10 fuel' (z / 10) acc'
  end.

(** [strconv.Itoa]: twenty digits are enough for a 64-bit integer. *)
Definition Itoa (v : Z) : bytes :=
  if v <? 0 then x2d :: digits10 20 (- v) [] else digits10 20 v [].

Fixpoint parse10 (acc : Z) (bs : bytes) : option Z :=
  match bs with
  | [] => Some acc
  | b :: bs' =>
      let d := Zbyte b - 48 in
      if (0 <=? d) && (d <=? 9) then parse10 (acc * 10 + d) bs' else None
  end.

(** [strconv.Atoi]: the value, or 0 with an error on malformed input; a value
    out of range is clamped, with an error. *)
Definition Atoi (s : bytes) : Z * bool :=
  let body := match s with
              | x2d :: s' => (-1, s') | x2b :: s' => (1, s') | _ => (1, s) end in
  match body.2 with
  | [] => (0, false)
  | _ =>
      match parse10 0 body.2 with
      | None => (0, false)
      | Some v =>
          let z := body.1 * v in
          if z <? - 2 ^ 63 then (- 2 ^ 63, false)
          else if 2 ^ 63 <=? z then (2 ^ 63 - 1, false)
          else (z, true)
      end
  end.

Lemma Zbyte_byteZ_small (z : Z) : 0 <= z < 256 -> Zbyte (byteZ z) = z.
Proof. intros H. rewrite Zbyte_byteZ. by apply Z.mod_small. Qed.

(** Parsing the digits of a number. *)
Lemma parse10_digits (fuel : nat) (z a : Z) (acc : bytes) :
  0 <= z < 10 ^ Z.of_nat fuel -> (0 < fuel)%nat ->
  exists k, 0 <= k /\ parse10 a (digits10 fuel z acc) = parse10 (a * 10 ^ k + z) acc.
Proof.
  revert z a acc. induction fuel as [|fuel IH]; intros z a acc Hz Hf; [lia|]. cbn [digits10]. cbn zeta.
  pose proof (Z.mod_pos_bound z 10 ltac:(lia)) as Hm. pose proof (Z.div_mod z 10 ltac:(lia)) as Hdm.
  assert (forall b, parse10 b (byteZ (48 + z mod 10) :: acc) = parse10 (b * 10 + z mod 10) acc) as Hd.
  { intros b. cbn [parse10]. cbn zeta. rewrite Zbyte_byteZ_small by lia.
    rewrite (proj2 (Z.leb_le _ _)), (proj2 (Z.leb_le _ _)) by lia. cbn [andb]. f_equal. lia. }
  case_bool.
  - exists 1. split; [lia|]. rewrite Hd. f_equal. lia.
  - assert (0 <= z / 10 < 10 ^ Z.of_nat fuel) as Hq.
    { rewrite Nat2Z.inj_succ, Z.pow_succ_r in Hz by lia. split; [apply Z.div_pos; lia|].
      apply Z.div_lt_upper_bound; lia. }
    destruct fuel as [|fuel]; [cbn in Hq; lia|].
    destruct (IH (z / 10) a (byteZ (48 + z mod 10) :: acc)) as (k & Hk & ->); [done|lia|].
    exists (Z.succ k). split; [lia|]. rewrite Hd, Z.pow_succ_r by lia. f_equal. lia.
Qed.

(** The digits begin with a digit. *)
Lemma digits10_head (fuel : nat) (z : Z) (acc : bytes) :
  0 <= z -> (0 < fuel)%nat ->
  exists d rest, 0 <= d < 10 /\ digits10 fuel z acc = byteZ (48 + d) :: rest.
Proof.
  revert z acc. induction fuel as [|fuel IH]; intros z acc Hz Hf; [lia|]. cbn [digits10]. cbn zeta.
  pose proof (Z.mod_pos_bound z 10 ltac:(lia)) as Hm.
  case_bool; [by eexists _, _|]. destruct fuel as [|fuel]; [cbn; by eexists _, _|].
  apply IH; [apply Z.div_pos; lia|lia].
Qed.

(** A number of 64 bits is read back as it was written. *)
Lemma Atoi_Itoa (v : Z) : in_int64 v -> Atoi (Itoa v) = (v, true).
Proof.
  intros Hv. unfold in_int64 in Hv. unfold Itoa.
  assert (forall z, 0 <= z <= 2 ^ 63 -> parse10 0 (digits10 20 z []) = Some z) as Hp.
  { intros z Hz. destruct (parse10_digits 20 z 0 []) as (k & _ & ->); [cbn; lia|lia|].
    cbn. f_equal. }
  case_bool.
  - destruct (digits10_head 20 (- v) []) as (d & rest & Hd & Hh); [lia|lia|].
    unfold Atoi. cbn zeta. cbn [snd fst]. rewrite Hp by lia. rewrite Hh. cbn zeta.
    rewrite (proj2 (Z.ltb_ge _ _)), (proj2 (Z.leb_gt _ _)) by lia. f_equal. lia.
  - destruct (digits10_head 20 v []) as (d & rest & Hd & Hh); [lia|lia|].
    assert (forall b, d = b -> 0 <= b < 10 -> match byteZ (48 + b) :: rest with
      | x2d :: s' => (-1, s') | x2b :: s' => (1, s') | _ => (1, byteZ (48 + b) :: rest) end
      = (1, byteZ (48 + b) :: rest)) as Hbody.
    { intros b _ Hb. assert (b = 0 \/ b = 1 \/ b = 2 \/ b = 3 \/ b = 4 \/ b = 5 \/ b = 6 \/ b = 7 \/ b = 8 \/ b = 9)
        as Hc by lia. by repeat (destruct Hc as [->|Hc]; [reflexivity|]); subst. }
    unfold Atoi. rewrite Hh. cbn zeta. rewrite (Hbody d eq_refl Hd). cbn [snd fst]. rewrite <-Hh, Hp by lia.
    rewrite (proj2 (Z.ltb_ge _ _)), (proj2 (Z.leb_gt _ _)) by lia. f_equal. lia.
Qed.

Lemma Itoa_inj (v w : Z) : in_int64 v -> in_int64 w -> Itoa v = Itoa w -> v = w.
Proof. intros Hv Hw H. pose proof (Atoi_Itoa v Hv) as H1. rewrite H, Atoi_Itoa in H1 by done. congruence. Qed.
