(* ===== verification/Crypto.v ===== *)
(** * crypto: hashing, keys, signatures and the signing service

    Models src/crypto/crypto.go.  SHA-256 and hex are computed.  ed25519 and
    the threshold BLS scheme of kyber are parameters: the classes [Ed25519] and
    [Kyber] hold the operations, [Ed25519Laws] and [KyberLaws] what their
    documentation promises.  [ToyCrypto] instantiates both, so that everything
    built on them can be evaluated. *)

From S2P Require Import Prelude Sha256 GoStd.
From Stdlib Require Import Strings.Byte.

(** ** Digests and the hasher *)

Definition HashSize : nat := 32.

(** [type Digest [HashSize]byte]: the bytes; [Digest{}] is all zeros. *)
Abbreviation Digest := bytes.
Definition Digest0 : Digest := replicate HashSize x00.

Record Hasher := mkHasher { hdata : bytes }.

Definition NewHasher : Hasher := mkHasher [].
Definition Hasher_Add (data : bytes) (h : Hasher) : Hasher := mkHasher (hdata h ++ data).
(** Returns the digest and the hasher, whose data the deferred call resets. *)
Definition Hasher_Sum256 (data : bytes) (h : Hasher) : Digest * Hasher :=
  (Sha256.Sum256 (hdata h ++ data), mkHasher []).

(** [hasher.Add(p1); ...; hasher.Add(pn); return hasher.Sum256(nil)], the body
    every [Hash] method has. *)
Definition hash_parts (parts : list bytes) : Digest :=
  (Hasher_Sum256 [] (foldl (fun h p => Hasher_Add p h) NewHasher parts)).1.

Lemma hash_parts_eq (parts : list bytes) : hash_parts parts = Sha256.Sum256 (mjoin parts).
Proof.
  unfold hash_parts, Hasher_Sum256. cbn [fst]. rewrite app_nil_r. f_equal.
  assert (forall h, hdata (foldl (fun h p => Hasher_Add p h) h parts) = hdata h ++ mjoin parts)
    as H; [|by rewrite H].
  induction parts as [|p ps IH]; intros h; cbn [foldl mjoin list_join].
  - by rewrite app_nil_r.
  - rewrite IH. cbn. by rewrite <-app_assoc.
Qed.

Lemma length_hash_parts (parts : list bytes) : length (hash_parts parts) = HashSize.
Proof. rewrite hash_parts_eq. apply Sha256.length_Sum256. Qed.

(** ** Keys and signatures *)

Record PublickKey := mkPublickKey { Pubkey : bytes }.
Record PrivateKey := mkPrivateKey { Prikey : bytes }.
Record Signature := mkSignature { Sig : bytes }.
Record SignatureShare := mkSignatureShare { PartialSig : bytes }.

#[export] Instance PublickKey_eq_dec : EqDecision PublickKey.
Proof. solve_decision. Defined.
#[export] Instance Signature_eq_dec : EqDecision Signature.
Proof. solve_decision. Defined.
#[export] Instance SignatureShare_eq_dec : EqDecision SignatureShare.
Proof. solve_decision. Defined.

(** [crypto/ed25519] *)
Class Ed25519 := {
  ed_Public : bytes -> bytes;               (* private key -> its public key *)
  ed_Sign : bytes -> bytes -> bytes;        (* private key, message *)
  ed_Verify : bytes -> bytes -> bytes -> bool  (* public key, message, signature *)
}.

(** A signature made with a private key verifies under its public key, which
    has [PublicKeySize] bytes. *)
Class Ed25519Laws (E : Ed25519) := {
  ed_public_size : forall sk, length sk = 64%nat -> length (ed_Public sk) = 32%nat;
  ed_sign_verify : forall sk m, length sk = 64%nat ->
    ed_Verify (ed_Public sk) m (ed_Sign sk m) = true
}.

(** [kyber]: scalars and points of bn256 with their binary form, secret
    sharing ([share]) and threshold BLS signatures ([tbls], [bls]).  [None] is
    an error result. *)
Class Kyber := {
  Scalar : Type;
  Point : Type;
  Scalar_MarshalBinary : Scalar -> option bytes;
  Scalar_UnmarshalBinary : bytes -> option Scalar;
  Point_MarshalBinary : Point -> option bytes;
  Point_UnmarshalBinary : bytes -> option Point;
  tbls_Sign : Z * Scalar -> bytes -> option bytes;
  tbls_Recover : Point * list Point -> bytes -> list bytes -> Z -> Z -> option bytes;
  bls_Verify : Point * list Point -> bytes -> bytes -> bool
}.

(** What the documentation of kyber promises: binary forms decode to what was
    encoded; a recovered signature is [x * H(m)], hence unique; signatures are
    points of the curve, of 64 bytes. *)
Class KyberLaws (K : Kyber) := {
  scalar_roundtrip : forall s b, Scalar_MarshalBinary s = Some b ->
    Scalar_UnmarshalBinary b = Some s;
  point_roundtrip : forall p b, Point_MarshalBinary p = Some b ->
    Point_UnmarshalBinary b = Some p;
  recover_unique : forall pub m l1 l2 t n s1 s2,
    tbls_Recover pub m l1 t n = Some s1 -> tbls_Recover pub m l2 t n = Some s2 -> s1 = s2;
  recover_size : forall pub m l t n s, tbls_Recover pub m l t n = Some s -> length s = 64%nat
}.

Section WithCrypto.
Context {E : Ed25519} {K : Kyber}.

(** [share.PriShare] and [share.PubPoly] (base point and commitments). *)
Record PriShare := mkPriShare { PriShare_I : Z; PriShare_V : Scalar }.
Record PubPoly := mkPubPoly { PubPoly_b : Point; PubPoly_commits : list Point }.

Record SecretShareKey := mkSecretShareKey {
  SSK_PubPoly : PubPoly;
  SSK_PriShare : PriShare;
  SSK_N : Z;
  SSK_T : Z
}.

(** [ed25519.Verify] panics unless the public key has 32 bytes. *)
Definition Signature_Verify (s : Signature) (pub : PublickKey) (digest : Digest) : Outcome bool :=
  if bool_decide (length (Pubkey pub) = 32%nat)
  then Ret (ed_Verify (Pubkey pub) digest (Sig s))
  else Panic.

Definition SignatureShare_Verify (s : SignatureShare) (digest : Digest) : bool := true.

Definition VerifyTs (skey : SecretShareKey) (digest : Digest) (intactSig : bytes) : bool :=
  bls_Verify (PubPoly_b (SSK_PubPoly skey), PubPoly_commits (SSK_PubPoly skey)) digest intactSig.

Definition CombineIntactTSPartial (sigShares : list SignatureShare) (skey : SecretShareKey)
    (digest : Digest) : option bytes :=
  let partialSigs := PartialSig <$> sigShares in
  tbls_Recover (PubPoly_b (SSK_PubPoly skey), PubPoly_commits (SSK_PubPoly skey))
    digest partialSigs (SSK_T skey) (SSK_N skey).

(** ** The signing service

    A request is put on [reqCh]; the service goroutine fills it and sends it
    to the request's own [Done] channel. *)

Inductive sig_typ := SIG | SHARE.

Inductive sig_ret :=
| RetSignature (s : Signature)
| RetShare (s : SignatureShare).

Record sigReq := mkSigReq {
  req_typ : sig_typ;
  req_digest : Digest;
  req_ret : option sig_ret;
  req_err : bool
}.

Record SigService := mkSigService { PriKey : PrivateKey; ShareKey : SecretShareKey }.

(** The body of the service loop for one request; [ed25519.Sign] panics unless
    the private key has 64 bytes. *)
Definition sig_serve (srvc : SigService) (r : sigReq) : Outcome sigReq :=
  match req_typ r with
  | SIG =>
      if bool_decide (length (Prikey (PriKey srvc)) = 64%nat)
      then Ret (mkSigReq SIG (req_digest r)
                  (Some (RetSignature (mkSignature (ed_Sign (Prikey (PriKey srvc)) (req_digest r)))))
                  false)
      else Panic
  | SHARE =>
      let sh := SSK_PriShare (ShareKey srvc) in
      let res := tbls_Sign (PriShare_I sh, PriShare_V sh) (req_digest r) in
      Ret (mkSigReq SHARE (req_digest r)
             (Some (RetShare (mkSignatureShare (default [] res))))
             (bool_decide (res = None)))
  end.

Definition RequestSignature (s : SigService) (digest : Digest) : Outcome Signature :=
  match sig_serve s (mkSigReq SIG digest None false) with
  | Panic => Panic
  | Ret r => Ret (match req_ret r with Some (RetSignature sig) => sig | _ => mkSignature [] end)
  end.

(** The share, and whether the request ended in an error. *)
Definition RequestTsSugnature (s : SigService) (digest : Digest) : Outcome (SignatureShare * bool) :=
  match sig_serve s (mkSigReq SHARE digest None false) with
  | Panic => Panic
  | Ret r => Ret (match req_ret r with Some (RetShare sh) => sh | _ => mkSignatureShare [] end,
                  req_err r)
  end.

(** A service whose private key belongs to [pub]. *)
Definition service_for (s : SigService) (pub : PublickKey) : Prop :=
  length (Prikey (PriKey s)) = 64%nat /\ Pubkey pub = ed_Public (Prikey (PriKey s)).

Lemma RequestSignature_ok (s : SigService) (digest : Digest) :
  length (Prikey (PriKey s)) = 64%nat ->
  RequestSignature s digest = Ret (mkSignature (ed_Sign (Prikey (PriKey s)) digest)).
Proof. intros H. unfold RequestSignature, sig_serve. cbn. by rewrite bool_decide_true. Qed.

Lemma RequestSignature_verifies `{!Ed25519Laws E} (s : SigService) (pub : PublickKey) digest :
  service_for s pub ->
  exists sig, RequestSignature s digest = Ret sig /\ Signature_Verify sig pub digest = Ret true.
Proof.
  intros [Hlen Hpub]. eexists. split; [by apply RequestSignature_ok|].
  unfold Signature_Verify. rewrite Hpub, bool_decide_true by by apply ed_public_size.
  cbn. by rewrite ed_sign_verify.
Qed.

(** ** Key files *)

Definition EncodePublicKey (pub : PublickKey) : bytes := hex_Encode (Pubkey pub).

Definition DecodePublicKey (data : bytes) : PublickKey + hex_error :=
  match hex_Decode data with inl b => inl (mkPublickKey b) | inr e => inr e end.

Definition EncodePrivateKey (pri : PrivateKey) : bytes := hex_Encode (Prikey pri).

Definition DecodePrivateKey (data : bytes) : PrivateKey + hex_error :=
  match hex_Decode data with inl b => inl (mkPrivateKey b) | inr e => inr e end.

Record TSPartialMarshalled := mkTSPartialMarshalled { TSPM_I : Z; TSPM_Binary : bytes }.
Record TSPublicMarshalled := mkTSPublicMarshalled { BaseBytes : bytes; CommitBytes : list bytes }.

Definition MarshallTSPartialKey (priShare : PriShare) : option TSPartialMarshalled :=
  shareAsBytes ← Scalar_MarshalBinary (PriShare_V priShare);
  Some (mkTSPartialMarshalled (PriShare_I priShare) shareAsBytes).

Definition UnMarshallTSPartialKey (par : TSPartialMarshalled) : option PriShare :=
  v ← Scalar_UnmarshalBinary (TSPM_Binary par);
  Some (mkPriShare (TSPM_I par) v).

Definition MarshallTSPublicKey (pubKey : PubPoly) : option TSPublicMarshalled :=
  baseAsBytes ← Point_MarshalBinary (PubPoly_b pubKey);
  commitBytes ← mapM Point_MarshalBinary (PubPoly_commits pubKey);
  Some (mkTSPublicMarshalled baseAsBytes commitBytes).

Definition UnMarshallTSPublicKey (tspm : TSPublicMarshalled) : option PubPoly :=
  baseDecoded ← Point_UnmarshalBinary (BaseBytes tspm);
  commitsDecoded ← mapM Point_UnmarshalBinary (CommitBytes tspm);
  Some (mkPubPoly baseDecoded commitsDecoded).

(** [encode]/[decode]: [encoding/json] on the two intermediate types. *)
Context (json_partial : TSPartialMarshalled -> option bytes)
        (unjson_partial : bytes -> option TSPartialMarshalled)
        (json_public : TSPublicMarshalled -> option bytes)
        (unjson_public : bytes -> option TSPublicMarshalled).

Definition EncodeTSPartialKey (priShare : PriShare) : option bytes :=
  mtspk ← MarshallTSPartialKey priShare; json_partial mtspk.

Definition DecodeTSPartialKey (data : bytes) : option PriShare :=
  par ← unjson_partial data; UnMarshallTSPartialKey par.

Definition EncodeTSPublicKey (pubkey : PubPoly) : option bytes :=
  tspm ← MarshallTSPublicKey pubkey; json_public tspm.

Definition DecodeTSPublicKey (data : bytes) : option PubPoly :=
  tspm ← unjson_public data; UnMarshallTSPublicKey tspm.

Lemma mapM_roundtrip {A B : Type} (f : A -> option B) (g : B -> option A) :
  (forall a b, f a = Some b -> g b = Some a) ->
  forall l l', mapM f l = Some l' -> mapM g l' = Some l.
Proof.
  intros H l l'. rewrite !mapM_Some. intros HF. induction HF; constructor; auto.
Qed.

End WithCrypto.

(** ** Key files round trip *)

(** ** Key generation

    The random draws are arguments: what [ed25519.GenerateKey] has returned, and the
    streams [suite.RandomStream] gives. *)

Definition GenED25519Keys (generated : option (bytes * bytes)) : Outcome (bytes * bytes) :=
  match generated with
  | Some (pubKey, privKey) => Ret (privKey, pubKey)
  | None => Panic
  end.

(** The secret sharing of kyber: a scalar from a stream, a polynomial with a given secret,
    its commitment to the base point of G2, and its shares. *)
Class Sharing (K : Kyber) := {
  RandomStream : Type;
  PriPoly : Type;
  Pick : RandomStream -> Scalar;
  NewPriPoly : Z -> Scalar -> RandomStream -> PriPoly;
  PriPoly_Commit : PriPoly -> PubPoly;
  PriPoly_Shares : PriPoly -> Z -> Outcome (list PriShare)
}.

Definition GenTSKeys {K : Kyber} {S : Sharing K} (stream1 stream2 : RandomStream) (t n : Z) :
    Outcome (list PriShare * PubPoly) :=
  let secret := Pick stream1 in
  let priPoly := NewPriPoly t secret stream2 in
  let pubPoly := PriPoly_Commit priPoly in
  shares ← PriPoly_Shares priPoly n;
  mret (shares, pubPoly).

Section KeyRoundTrip.
Context {K : Kyber} `{!KyberLaws K}.
Context (json_partial : TSPartialMarshalled -> option bytes)
        (unjson_partial : bytes -> option TSPartialMarshalled)
        (json_public : TSPublicMarshalled -> option bytes)
        (unjson_public : bytes -> option TSPublicMarshalled).
(** JSON decodes what it encoded. *)
Context (json_partial_ok : forall m b, json_partial m = Some b -> unjson_partial b = Some m)
        (json_public_ok : forall m b, json_public m = Some b -> unjson_public b = Some m).

Lemma ts_partial_roundtrip (k : PriShare) (b : bytes) :
  EncodeTSPartialKey json_partial k = Some b ->
  DecodeTSPartialKey unjson_partial b = Some k.
Proof using All.
  unfold EncodeTSPartialKey, DecodeTSPartialKey, MarshallTSPartialKey.
  intros H. apply bind_Some in H as (m & Hm & Hj).
  apply bind_Some in Hm as (v & Hv & Hm). injection Hm as <-.
  rewrite (json_partial_ok _ _ Hj). cbn. unfold UnMarshallTSPartialKey. cbn.
  rewrite (scalar_roundtrip _ _ Hv). by destruct k.
Qed.

Lemma ts_public_roundtrip (k : PubPoly) (b : bytes) :
  EncodeTSPublicKey json_public k = Some b ->
  DecodeTSPublicKey unjson_public b = Some k.
Proof using All.
  unfold EncodeTSPublicKey, DecodeTSPublicKey, MarshallTSPublicKey.
  intros H. apply bind_Some in H as (m & Hm & Hj).
  apply bind_Some in Hm as (base & Hb & Hm). apply bind_Some in Hm as (cs & Hc & Hm).
  injection Hm as <-.
  rewrite (json_public_ok _ _ Hj). cbn. unfold UnMarshallTSPublicKey. cbn.
  rewrite (point_roundtrip _ _ Hb). cbn.
  rewrite (mapM_roundtrip _ _ point_roundtrip _ _ Hc). by destruct k.
Qed.
End KeyRoundTrip.

(** ** A concrete instance *)

Module ToyCrypto.

#[export] Instance toy_ed25519 : Ed25519 := {|
  ed_Public := fun sk => take 32 sk;
  ed_Sign := fun sk m => take 32 sk ++ m;
  ed_Verify := fun pk m s => bool_decide (s = pk ++ m)
|}.

#[export] Instance toy_ed25519_laws : Ed25519Laws toy_ed25519.
Proof.
  split; cbn; intros.
  - rewrite length_take. lia.
  - by apply bool_decide_true.
Qed.

(** Shares are tagged by their index; any [t] different shares of the message
    recover a signature that depends on the message alone. *)
Definition toy_recover (m : bytes) (shares : list bytes) (t : Z) : option bytes :=
  let good := remove_dups (filter (fun s => bool_decide (tail s = m)) shares) in
  if t <=? Z.of_nat (length good) then Some (Sha256.Sum256 m ++ Sha256.Sum256 m) else None.

#[export] Instance toy_kyber : Kyber := {|
  Scalar := byte;
  Point := byte;
  Scalar_MarshalBinary := fun s => Some [s];
  Scalar_UnmarshalBinary := fun b => head b;
  Point_MarshalBinary := fun s => Some [s];
  Point_UnmarshalBinary := fun b => head b;
  tbls_Sign := fun sh m => Some (byteZ sh.1 :: m);
  tbls_Recover := fun pub m l t n => toy_recover m l t;
  bls_Verify := fun pub m s => bool_decide (s = Sha256.Sum256 m ++ Sha256.Sum256 m)
|}.

#[export] Instance toy_kyber_laws : KyberLaws toy_kyber.
Proof.
  assert (forall m l t s, toy_recover m l t = Some s -> s = Sha256.Sum256 m ++ Sha256.Sum256 m)
    as Hr.
  { intros m l t s. unfold toy_recover. case_match; congruence. }
  split.
  - by intros s b [= <-].
  - by intros s b [= <-].
  - intros pub m l1 l2 t n s1 s2 ->%Hr ->%Hr. done.
  - intros pub m l t n s ->%Hr. by rewrite length_app, !Sha256.length_Sum256.
Qed.

End ToyCrypto.
