(* ===== verification/Committee.v ===== *)
(** * core: parameters, errors, the committee and its thresholds

    Models src/core/config.go and src/core/error.go.  A committee is the map
    from node ids to authorities; its thresholds are computed from its size
    with Go's truncating division.  The theorems say when two quorums of
    [HightThreshold] nodes are guaranteed to share a correct one. *)

From S2P Require Import Prelude Crypto.
From Stdlib Require Import Strings.Byte.
From stdpp Require Import strings.

Open Scope Z_scope.

(** ** Errors *)

(** [core.ErrSignature], [core.ErrReference], [core.ErrOneMoreMessage],
    [store.ErrNotFoundKey], the vote check error of mvba, and the errors of
    code outside the repository ([ErrExternal]: database, codec, BLS). *)
Inductive error :=
| ErrSignature (msgTyp : Z)
| ErrReference (msgTyp round node : Z)
| ErrOneMoreMessage (msgTyp epoch round author : Z)
| ErrNotFoundKey
| ErrVoteCheck (epoch round author leader : Z)
| ErrExternal.

#[export] Instance error_eq_dec : EqDecision error.
Proof. solve_decision. Defined.

(** ** Parameters *)

Definition MVBA : Z := 0.
Definition SMVBA : Z := 1.
Definition VABA : Z := 2.
Definition MERCURY : Z := 3.

Record Parameters := mkParameters {
  SyncTimeout : Z;
  NetwrokDelay : Z;
  MinBlockDelay : Z;
  DDos : bool;
  Faults : Z;
  RetryDelay : Z;
  Protocol : Z
}.

Definition DefaultParameters : Parameters :=
  mkParameters 500 2000 0 false 0 5000 SMVBA.

(** ** Committee *)

Abbreviation NodeID := Z.
Definition NONE : NodeID := -1.

Record Authority := mkAuthority {
  Authority_Name : PublickKey;
  Authority_Id : NodeID;
  Authority_Addr : string
}.

(** The zero value a missing map key yields. *)
Definition Authority0 : Authority := mkAuthority (mkPublickKey []) 0 ""%string.

Record Committee := mkCommittee { Authorities : gmap NodeID Authority }.

Definition members (c : Committee) : gset NodeID := dom (Authorities c).

(** The order in which [range] visits the map: some enumeration of its keys. *)
Definition range_order (c : Committee) (order : list NodeID) : Prop :=
  order ≡ₚ elements (members c).

Fixpoint Committee_ID (c : Committee) (order : list NodeID) (name : PublickKey) : NodeID :=
  match order with
  | [] => NONE
  | id :: order' =>
      if bool_decide (Pubkey (Authority_Name (default Authority0 (Authorities c !! id)))
                      = Pubkey name)
      then id else Committee_ID c order' name
  end.

Definition Committee_Size (c : Committee) : Z := Z.of_nat (size (Authorities c)).

Definition Committee_Name (c : Committee) (id : NodeID) : PublickKey :=
  Authority_Name (default Authority0 (Authorities c !! id)).

Definition Committee_Address (c : Committee) (id : NodeID) : string :=
  Authority_Addr (default Authority0 (Authorities c !! id)).

Definition BroadCast (c : Committee) (order : list NodeID) (id : NodeID) : list string :=
  Committee_Address c <$> filter (fun nodeid => nodeid <> id) order.

Definition HightThreshold (c : Committee) : Z :=
  let n := Committee_Size c in 2 * ((n - 1) ÷ 3) + 1.

Definition LowThreshold (c : Committee) : Z :=
  let n := Committee_Size c in (n - 1) ÷ 3 + 1.

(** The number of faults the thresholds are computed for. *)
Definition max_faults (c : Committee) : Z := (Committee_Size c - 1) ÷ 3.

(** ** Thresholds *)

Lemma Committee_Size_members (c : Committee) : Committee_Size c = Z.of_nat (size (members c)).
Proof. unfold Committee_Size, members. by rewrite size_dom. Qed.

Lemma Committee_Size_nonneg (c : Committee) : 0 <= Committee_Size c.
Proof. unfold Committee_Size. lia. Qed.

Lemma max_faults_bounds (c : Committee) :
  0 <= max_faults c /\ (1 <= Committee_Size c -> 3 * max_faults c + 1 <= Committee_Size c <= 3 * max_faults c + 3).
Proof.
  unfold max_faults. pose proof (Committee_Size_nonneg c).
  destruct (decide (Committee_Size c = 0)) as [->|Hn]; [change ((0 - 1) ÷ 3) with 0; lia|].
  rewrite Z.quot_div_nonneg by lia.
  pose proof (Z.div_mod (Committee_Size c - 1) 3 ltac:(lia)).
  pose proof (Z.mod_pos_bound (Committee_Size c - 1) 3 ltac:(lia)). lia.
Qed.

Lemma HightThreshold_eq (c : Committee) : HightThreshold c = 2 * max_faults c + 1.
Proof. done. Qed.

Lemma LowThreshold_eq (c : Committee) : LowThreshold c = max_faults c + 1.
Proof. done. Qed.

Lemma thresholds_pos (c : Committee) : 1 <= LowThreshold c <= HightThreshold c.
Proof. rewrite HightThreshold_eq, LowThreshold_eq. pose proof (max_faults_bounds c). lia. Qed.

(** Any two quorums of a committee of [3f + 1] members share a member outside
    any set of at most [f] faulty ones. *)
Lemma quorum_intersection (c : Committee) (B Q1 Q2 : gset NodeID) :
  Committee_Size c = 3 * max_faults c + 1 ->
  Z.of_nat (size B) <= max_faults c ->
  Q1 ⊆ members c -> Q2 ⊆ members c ->
  HightThreshold c <= Z.of_nat (size Q1) -> HightThreshold c <= Z.of_nat (size Q2) ->
  exists x, x ∈ Q1 /\ x ∈ Q2 /\ x ∉ B.
Proof.
  rewrite Committee_Size_members, HightThreshold_eq. intros Hn HB H1 H2 Hs1 Hs2.
  pose proof (size_overlap _ _ _ H1 H2) as Ho.
  destruct (set_choose_or_empty ((Q1 ∩ Q2) ∖ B)) as [[x Hx]|He].
  - exists x. set_solver.
  - exfalso. assert (Q1 ∩ Q2 ⊆ B) as Hsub.
    { intros x Hx. destruct (decide (x ∈ B)); set_solver. }
    apply subseteq_size in Hsub. lia.
Qed.

Section Sharpness.
Context (c : Committee).

Let l := elements (members c).
Let h := Z.to_nat (HightThreshold c).
Let n := size (members c).

Lemma size_list_to_set_sub (l' : list NodeID) :
  l' `sublist_of` l -> size (list_to_set l' : gset NodeID) = length l' /\ list_to_set l' ⊆ members c.
Proof.
  intros Hs. split.
  - rewrite size_list_to_set; [done|]. eapply sublist_NoDup; [apply (NoDup_elements (members c))|done].
  - intros x. rewrite elem_of_list_to_set. intros Hx.
    apply elem_of_elements. eapply elem_of_submseteq; [done|]. by apply sublist_submseteq.
Qed.

(** With another number of members, two quorums overlap only inside a set of
    [f] members. *)
Lemma quorum_overlap_faulty :
  1 <= Committee_Size c -> Committee_Size c <> 3 * max_faults c + 1 ->
  exists B Q1 Q2 : gset NodeID,
    Z.of_nat (size B) <= max_faults c /\ B ⊆ members c /\
    Q1 ⊆ members c /\ Q2 ⊆ members c /\
    HightThreshold c <= Z.of_nat (size Q1) /\ HightThreshold c <= Z.of_nat (size Q2) /\
    Q1 ∩ Q2 ⊆ B.
Proof.
  intros Hn Hne. pose proof (max_faults_bounds c) as [Hf Hb]. specialize (Hb Hn).
  assert (length l = n) as Hl by done.
  assert (Z.of_nat n = Committee_Size c) as Hn' by (symmetry; apply Committee_Size_members).
  assert (Z.of_nat h = HightThreshold c) as Hh.
  { unfold h. pose proof (thresholds_pos c). lia. }
  pose proof (HightThreshold_eq c) as HH.
  assert (h <= n)%nat by lia.
  destruct (size_list_to_set_sub (take h l)) as [S1 M1]; [apply sublist_take|].
  destruct (size_list_to_set_sub (drop (n - h) l)) as [S2 M2];
    [apply sublist_drop|].
  destruct (size_list_to_set_sub (drop (n - h) (take h l))) as [S3 M3].
  { etrans; [apply sublist_drop|apply sublist_take]. }
  rewrite ?length_drop, ?length_take in *.
  exists (list_to_set (drop (n - h) (take h l))), (list_to_set (take h l)),
    (list_to_set (drop (n - h) l)).
  split_and!; [lia|done..|lia|lia|].
  intros x. rewrite elem_of_intersection, !elem_of_list_to_set, !list_elem_of_lookup.
  intros [[i Hi] [j Hj]]. apply lookup_take_Some in Hi as [Hi Hih].
  rewrite lookup_drop in Hj.
  assert (i = n - h + j)%nat as -> by
    (eapply NoDup_lookup; [apply (NoDup_elements (members c))|done..]).
  exists j. by rewrite lookup_drop, lookup_take_lt.
Qed.
End Sharpness.

(** C20. Two quorums of [HightThreshold] members are certain to share a correct
    member, whatever [max_faults] members are faulty, exactly when the committee
    has [3f + 1] members. *)
Theorem quorum_intersection_iff (c : Committee) :
  1 <= Committee_Size c ->
  (forall B Q1 Q2 : gset NodeID,
     Z.of_nat (size B) <= max_faults c ->
     Q1 ⊆ members c -> Q2 ⊆ members c ->
     HightThreshold c <= Z.of_nat (size Q1) -> HightThreshold c <= Z.of_nat (size Q2) ->
     exists x, x ∈ Q1 /\ x ∈ Q2 /\ x ∉ B)
  <-> Committee_Size c = 3 * max_faults c + 1.
Proof.
  intros Hn. split.
  - intros H. destruct (decide (Committee_Size c = 3 * max_faults c + 1)) as [|Hne]; [done|].
    destruct (quorum_overlap_faulty c Hn Hne) as (B & Q1 & Q2 & HB & _ & M1 & M2 & H1 & H2 & Ho).
    destruct (H B Q1 Q2) as (x & ? & ? & ?); [done..|]. set_solver.
  - intros H3 B Q1 Q2 ?????. by apply (quorum_intersection c B Q1 Q2).
Qed.

(** A committee of [n] members with empty keys and addresses. *)
Definition bare_committee (n : nat) : Committee :=
  mkCommittee (list_to_map ((fun i => (Z.of_nat i, Authority0)) <$> seq 0 n)).

Lemma quorum_intersection_iff_witness :
  (Committee_Size (bare_committee 4) = 3 * max_faults (bare_committee 4) + 1) /\
  (forall B Q1 Q2 : gset NodeID,
     Z.of_nat (size B) <= 1 ->
     Q1 ⊆ members (bare_committee 4) -> Q2 ⊆ members (bare_committee 4) ->
     3 <= Z.of_nat (size Q1) -> 3 <= Z.of_nat (size Q2) ->
     exists x, x ∈ Q1 /\ x ∈ Q2 /\ x ∉ B).
Proof.
  split; [vm_compute; reflexivity|].
  apply (quorum_intersection_iff (bare_committee 4)); vm_compute; [discriminate|reflexivity].
Defined.

(** ** Broadcast *)

(** Whatever order the committee map is ranged over in, [BroadCast] lists
    the address of every member except the sender, each once. *)
Theorem BroadCast_complete (c : Committee) (order : list NodeID) (id : NodeID) :
  range_order c order ->
  BroadCast c order id ≡ₚ Committee_Address c <$> elements (members c ∖ {[id]}).
Proof.
  intros Ho. unfold BroadCast. apply fmap_Permutation.
  rewrite Ho. apply NoDup_Permutation.
  - apply NoDup_filter, NoDup_elements.
  - apply NoDup_elements.
  - intros x. rewrite list_elem_of_filter, !elem_of_elements. set_solver.
Qed.

Lemma BroadCast_complete_witness :
  BroadCast (bare_committee 3) [2; 0; 1] 1 ≡ₚ
  Committee_Address (bare_committee 3) <$> elements (members (bare_committee 3) ∖ {[1]}).
Proof.
  apply BroadCast_complete. unfold range_order.
  apply NoDup_Permutation.
  - repeat constructor; set_solver.
  - apply NoDup_elements.
  - intros x. rewrite elem_of_elements. unfold members, bare_committee. cbn.
    rewrite !dom_insert_L, dom_empty_L. set_solver.
Defined.

(** ** Signatures of committee members

    Every message type verifies its signature with the key the committee lists
    for its author ([committee.Name(author)]). *)

Section Verification.
Context {E : Ed25519} (committee : Committee).

Definition verify_sig (author : NodeID) (s : Signature) (hash : Digest) : Outcome bool :=
  Signature_Verify s (Committee_Name committee author) hash.

(** A committee whose keys all have the size ed25519 requires. *)
Definition keys_sized : Prop :=
  forall id, id ∈ members committee -> length (Pubkey (Committee_Name committee id)) = 32%nat.

Lemma verify_sig_member (author : NodeID) (s : Signature) (h : Digest) :
  keys_sized -> author ∈ members committee -> exists b, verify_sig author s h = Ret b.
Proof.
  intros Hk Hm. unfold verify_sig, Signature_Verify.
  rewrite bool_decide_true by by apply Hk. eauto.
Qed.

Lemma verify_sig_stranger (author : NodeID) (s : Signature) (h : Digest) :
  author ∉ members committee -> verify_sig author s h = Panic.
Proof.
  intros Hm. unfold verify_sig, Signature_Verify, Committee_Name.
  unfold members in Hm. apply not_elem_of_dom in Hm. by rewrite Hm.
Qed.

End Verification.

Section SignedMessages.
Context {E : Ed25519} {K : Kyber} `{!Ed25519Laws E}.
Context (srv : SigService) (committee : Committee) (name : NodeID).
(** The service signs with the key the committee lists for [name]. *)
Context (Hsrv : service_for srv (Committee_Name committee name)).

Lemma sign_with_name (hash : Digest) :
  exists sig, RequestSignature srv hash = Ret sig /\ verify_sig committee name sig hash = Ret true.
Proof using All. by apply RequestSignature_verifies. Qed.

End SignedMessages.

(** Run a signing constructor: name the signature and rewrite with it. *)
Ltac run_sign Hsrv :=
  match goal with
  | |- context [RequestSignature ?srv ?h] =>
      let sig := fresh "sig" in
      let Hs := fresh "Hs" in
      let Hv := fresh "Hv" in
      destruct (sign_with_name srv _ _ Hsrv h) as (sig & Hs & Hv); rewrite Hs; cbn
  end.

(** ** The setting of a node *)

Section Setting.
Context {E : Ed25519} {K : Kyber}.

(** The node, its committee and its keys. *)
Record setting := mkSetting { s_name : NodeID; s_com : Committee; s_srv : SigService }.

(** The node is a member, the committee's keys are ed25519 keys, the node's
    service signs with the node's key, and threshold signing does not fail. *)
Record setting_ok (s : setting) : Prop := {
  st_member : s_name s ∈ members (s_com s);
  st_keys : keys_sized (s_com s);
  st_srv : service_for (s_srv s) (Committee_Name (s_com s) (s_name s));
  st_tbls : forall sh m, is_Some (tbls_Sign sh m)
}.
End Setting.

(** The numbers of the members are the indices of a slice of the committee's size. *)
Definition dense (c : Committee) : Prop := forall n, n ∈ members c -> 0 <= n < Committee_Size c.

Lemma committee_pos (c : Committee) (n : NodeID) : n ∈ members c -> 0 < Committee_Size c.
Proof.
  intros Hm. rewrite Committee_Size_members.
  assert (size (members c) <> 0%nat); [|lia].
  intros H0. apply size_empty_inv, leibniz_equiv in H0. rewrite H0 in Hm.
  by apply elem_of_empty in Hm.
Qed.

(** A committee of [n] members for the witnesses: member [i] has the 32 bytes
    [i] as key, and signs with them doubled. *)
Module ToyNode.
Import ToyCrypto.

Definition key_of (i : nat) : bytes := replicate 32 (byteZ (Z.of_nat i)).
Definition toy_committee (n : nat) : Committee :=
  mkCommittee (list_to_map
    ((fun i => (Z.of_nat i, mkAuthority (mkPublickKey (key_of i)) (Z.of_nat i) ""%string))
       <$> seq 0 n)).
Definition toy_service (n i : nat) : SigService (K := toy_kyber) :=
  mkSigService (mkPrivateKey (key_of i ++ key_of i))
    (mkSecretShareKey (@mkPubPoly toy_kyber x00 [x00]) (@mkPriShare toy_kyber (Z.of_nat i) x00) (Z.of_nat n) (Z.of_nat n - 1)).
End ToyNode.

Lemma toy_committee_sized : keys_sized (ToyNode.toy_committee 4).
Proof.
  intros id Hid. assert (forallb (fun id => bool_decide (length (Pubkey (Committee_Name
    (ToyNode.toy_committee 4) id)) = 32%nat)) (elements (members (ToyNode.toy_committee 4))) = true)
    as H by (vm_compute; reflexivity).
  rewrite forallb_forall in H. eapply bool_decide_eq_true_1, H, list_elem_of_In.
  by apply elem_of_elements.
Qed.

Lemma toy_service_for (n i : nat) :
  bool_decide (Pubkey (Committee_Name (ToyNode.toy_committee n) (Z.of_nat i)) = ToyNode.key_of i) ->
  service_for (E := ToyCrypto.toy_ed25519) (ToyNode.toy_service n i)
    (Committee_Name (ToyNode.toy_committee n) (Z.of_nat i)).
Proof.
  intros H%bool_decide_unpack. split; [done|]. rewrite H. done.
Qed.

(** Node 1 of four. *)
Definition toy_setting : setting :=
  mkSetting 1 (ToyNode.toy_committee 4) (ToyNode.toy_service 4 1).

Lemma toy_setting_ok : setting_ok (E := ToyCrypto.toy_ed25519) toy_setting.
Proof.
  split.
  - apply (bool_decide_eq_true_1 _). vm_compute. reflexivity.
  - apply toy_committee_sized.
  - apply (toy_service_for 4 1). vm_compute. done.
  - intros sh m. by eexists.
Qed.

Lemma toy_dense : dense (ToyNode.toy_committee 4).
Proof.
  assert (forall n, n ∈ members (ToyNode.toy_committee 4) -> bool_decide (0 <= n < Committee_Size (ToyNode.toy_committee 4)) = true) as H;
    [|intros n Hn; by apply (bool_decide_eq_true_1 _), H].
  apply (set_Forall_elements (fun n => bool_decide (0 <= n < Committee_Size (ToyNode.toy_committee 4)) = true)).
  vm_compute. by repeat constructor.
Qed.
