(* ===== verification/Store.v ===== *)
(** * store: the key-value store behind a request channel

    Models src/store/store.go and src/store/nutsdb.go.  [DB] is the Go
    interface of the same name: the protocols are proved against it and its
    laws.  [NutsDB] implements it on the operations of the nutsdb package, which
    are parameters.  The service goroutine takes requests from [reqCh] in order
    and answers each on its own channel. *)

From S2P Require Import Prelude Committee.

Open Scope Z_scope.

(** ** The interface *)

(** [type DB interface { Put; Get }]: a [Get] returns a value and an error. *)
Class DB (db : Type) := {
  db_Put : db -> bytes -> bytes -> db * option error;
  db_Get : db -> bytes -> bytes * option error
}.

(** A successful [Put] is read back and leaves other keys alone; a failed one
    changes nothing that can be read. *)
Class DBLaws (db : Type) `{DB db} := {
  get_put_eq : forall d k v d', db_Put d k v = (d', None) -> db_Get d' k = (v, None);
  get_put_ne : forall d k v d' k', k <> k' -> db_Put d k v = (d', None) ->
    db_Get d' k' = db_Get d k';
  get_put_err : forall d k v d' e k', db_Put d k v = (d', Some e) -> db_Get d' k' = db_Get d k'
}.

(** ** The service *)

Inductive req_kind := READ | WRITE.

Record storeReq := mkStoreReq {
  sr_typ : req_kind;
  sr_key : bytes;
  sr_val : bytes;
  sr_err : option error
}.

Section Service.
Context {db : Type} `{DB db}.

Record Store := mkStore { st_db : db; st_reqCh : list storeReq }.

Definition NewStore (d : db) : Store := mkStore d [].

(** The loop body of the service goroutine: the request as it is sent to its
    [Done] channel. *)
Definition store_serve (d : db) (req : storeReq) : db * storeReq :=
  match sr_typ req with
  | READ =>
      let '(val, err) := db_Get d (sr_key req) in
      (d, mkStoreReq READ (sr_key req) val err)
  | WRITE =>
      let '(d', err) := db_Put d (sr_key req) (sr_val req) in
      (d', mkStoreReq WRITE (sr_key req) (sr_val req) err)
  end.

Fixpoint store_drain (d : db) (reqs : list storeReq) : db * list storeReq :=
  match reqs with
  | [] => (d, [])
  | r :: rs =>
      let '(d1, r') := store_serve d r in
      let '(d2, rs') := store_drain d1 rs in
      (d2, r' :: rs')
  end.

(** The caller queues its request behind those already waiting and blocks until
    the service has answered it. *)
Definition store_call (s : Store) (req : storeReq) : Store * storeReq :=
  let '(d1, _) := store_drain (st_db s) (st_reqCh s) in
  let '(d2, r) := store_serve d1 req in
  (mkStore d2 [], r).

Definition Store_Read (s : Store) (key : bytes) : Store * (bytes * option error) :=
  let '(s', r) := store_call s (mkStoreReq READ key [] None) in
  (s', (sr_val r, sr_err r)).

Definition Store_Write (s : Store) (key val : bytes) : Store * option error :=
  let '(s', r) := store_call s (mkStoreReq WRITE key val None) in
  (s', sr_err r).

(** ** Laws of the service *)

Lemma Store_Read_idle (d : db) (key : bytes) :
  Store_Read (mkStore d []) key = (mkStore d [], db_Get d key).
Proof.
  unfold Store_Read, store_call, store_serve. cbn. by destruct (db_Get d key).
Qed.

Lemma Store_Write_idle (d : db) (key val : bytes) :
  Store_Write (mkStore d []) key val =
  (mkStore (db_Put d key val).1 [], (db_Put d key val).2).
Proof.
  unfold Store_Write, store_call, store_serve. cbn. by destruct (db_Put d key val).
Qed.

Lemma store_drain_app (d : db) (rs1 rs2 : list storeReq) :
  (store_drain d (rs1 ++ rs2)).1 = (store_drain (store_drain d rs1).1 rs2).1.
Proof.
  revert d. induction rs1 as [|r rs1 IH]; intros d; [done|]. cbn.
  destruct (store_serve d r) as [d1 r']. specialize (IH d1).
  destruct (store_drain d1 (rs1 ++ rs2)), (store_drain d1 rs1). done.
Qed.

Lemma store_drain_snoc (d : db) (rs : list storeReq) (r : storeReq) :
  (store_drain d (rs ++ [r])).2 = (store_drain d rs).2 ++ [(store_serve (store_drain d rs).1 r).2].
Proof.
  revert d. induction rs as [|r' rs IH]; intros d; cbn.
  - by destruct (store_serve d r).
  - destruct (store_serve d r') as [d1 r1]. specialize (IH d1).
    destruct (store_drain d1 (rs ++ [r])), (store_drain d1 rs). cbn in *. by rewrite IH.
Qed.

(** The value of the last write to a key among answered requests that has succeeded. *)
Definition last_write (k : bytes) (rs : list storeReq) : option bytes :=
  foldl (fun acc r => match sr_typ r, sr_err r with
                      | WRITE, None => if bool_decide (sr_key r = k) then Some (sr_val r) else acc
                      | _, _ => acc end) None rs.

End Service.

Arguments Store : clear implicits.

Section ServiceLaws.
Context {db : Type} `{HDB : DB db} `{!DBLaws db}.

Lemma store_drain_reads (d : db) (rs : list storeReq) (k : bytes) :
  db_Get (store_drain d rs).1 k =
  match last_write k (store_drain d rs).2 with Some v => (v, None) | None => db_Get d k end.
Proof.
  induction rs as [|r rs IH] using rev_ind; [done|].
  rewrite store_drain_app, store_drain_snoc. unfold last_write. rewrite foldl_app. cbn.
  fold (last_write k (store_drain d rs).2). unfold store_serve. destruct (sr_typ r); cbn.
  - by destruct (db_Get (store_drain d rs).1 (sr_key r)).
  - destruct (db_Put (store_drain d rs).1 (sr_key r) (sr_val r)) as [d' [e|]] eqn:Ep; cbn.
    + rewrite <-IH. by eapply get_put_err in Ep.
    + case_bool_decide as Hk; [subst k; by apply get_put_eq in Ep|].
      rewrite <-IH. by eapply get_put_ne in Ep.
Qed.

(** C28. However many requests other goroutines have queued, reads and writes that succeed
    or fail in any order, a [Read] returns the value of the last of the queued writes to
    its key that has succeeded, and without one what the database held: the request
    channel makes the store linearizable. *)
Theorem store_read_linearizable (s : Store db) (k : bytes) :
  (Store_Read s k).2 =
  match last_write k (store_drain (st_db s) (st_reqCh s)).2 with
  | Some v => (v, None)
  | None => db_Get (st_db s) k
  end.
Proof.
  unfold Store_Read, store_call. rewrite <-store_drain_reads.
  destruct (store_drain (st_db s) (st_reqCh s)) as [d1 rs]. cbn.
  unfold store_serve. cbn. by destruct (db_Get d1 k).
Qed.
End ServiceLaws.

(** ** An in-memory database *)

#[export] Instance mem_db : DB (gmap bytes bytes) := {|
  db_Put := fun d k v => (<[k := v]> d, None);
  db_Get := fun d k => match d !! k with
                       | Some v => (v, None) | None => ([], Some ErrNotFoundKey) end
|}.

#[export] Instance mem_db_laws : DBLaws (gmap bytes bytes).
Proof.
  split; cbn.
  - intros d k v d' [= <-]. by rewrite lookup_insert_eq.
  - intros d k v d' k' Hne [= <-]. by rewrite lookup_insert_ne.
  - done.
Qed.

(** A read of a missing key fails between the writes. *)
Lemma store_read_linearizable_witness :
  (Store_Read (mkStore (∅ : gmap bytes bytes)
     [mkStoreReq WRITE [Byte.x01] [Byte.x02] None; mkStoreReq READ [Byte.x07] [] None;
      mkStoreReq WRITE [Byte.x01] [Byte.x03] None]) [Byte.x01]).2 = ([Byte.x03], None).
Proof.
  etrans; [apply (store_read_linearizable (mkStore (∅ : gmap bytes bytes) _) [Byte.x01])|]. reflexivity.
Defined.

(** ** NutsDB *)

(** The operations of the nutsdb package: whether a read transaction can be
    opened, [tx.Get] inside it, and an update transaction around [tx.Put]. *)
Class Nuts := {
  nuts : Type;
  nuts_view_opens : nuts -> bool;
  nuts_tx_Get : nuts -> bytes -> option bytes;
  nuts_update_Put : nuts -> bytes -> bytes -> option nuts
}.

Class NutsLaws (N : Nuts) := {
  nuts_get_put_eq : forall d k v d', nuts_update_Put d k v = Some d' ->
    nuts_view_opens d' = true /\ nuts_tx_Get d' k = Some v;
  nuts_get_put_ne : forall d k v d' k', k <> k' -> nuts_update_Put d k v = Some d' ->
    nuts_view_opens d = true /\ nuts_tx_Get d' k' = nuts_tx_Get d k'
}.

Section NutsDB.
Context {N : Nuts}.

(** The result of [db.View] is dropped: when no transaction can be opened, the
    named results keep their zero values and [Get] reports success. *)
Definition NutsDB_Get (d : nuts) (key : bytes) : bytes * option error :=
  if nuts_view_opens d
  then match nuts_tx_Get d key with
       | Some val => (val, None)
       | None => ([], Some ErrExternal)
       end
  else ([], None).

Definition NutsDB_Put (d : nuts) (key val : bytes) : nuts * option error :=
  match nuts_update_Put d key val with
  | Some d' => (d', None)
  | None => (d, Some ErrExternal)
  end.

#[export] Instance NutsDB : DB nuts := {| db_Put := NutsDB_Put; db_Get := NutsDB_Get |}.

#[export] Instance NutsDB_laws `{!NutsLaws N} : DBLaws nuts.
Proof.
  split; cbn; unfold NutsDB_Put, NutsDB_Get.
  - intros d k v d' Hp. case_match eqn:E; simplify_eq.
    destruct (nuts_get_put_eq _ _ _ _ E) as [-> ->]. done.
  - intros d k v d' k' Hne Hp. case_match eqn:E; simplify_eq.
    destruct (nuts_get_put_ne _ _ _ _ _ Hne E) as [-> ->].
    by destruct (nuts_get_put_eq _ _ _ _ E) as [-> _].
  - intros d k v d' e k' Hp. by case_match; simplify_eq.
Qed.

(** A missing key is an error of nutsdb, not [store.ErrNotFoundKey]. *)
Lemma nutsdb_not_found_free (s : Store nuts) (k : bytes) :
  (Store_Read s k).2.2 <> Some ErrNotFoundKey.
Proof.
  unfold Store_Read, store_call.
  destruct (store_drain (st_db s) (st_reqCh s)) as [d1 rs].
  unfold store_serve. cbn. unfold NutsDB_Get. by repeat case_match; simplify_eq.
Qed.
End NutsDB.

(** [NewDefaultNutsDB]: [nuts_Open] is [nutsdb.Open] on a directory, [nuts_NewBucket] the
    update that makes the bucket; [None] is an error. *)
Definition NewDefaultNutsDB {N : Nuts} (nuts_Open : bytes -> option nuts)
    (nuts_NewBucket : nuts -> option nuts) (dir : bytes) : Outcome nuts :=
  match nuts_Open dir with
  | None => Panic
  | Some db => match nuts_NewBucket db with None => Panic | Some db' => Ret db' end
  end.

(** A nutsdb with the promised behaviour, in memory. *)
Module ToyNuts.
#[export] Instance toy_nuts : Nuts := {|
  nuts := gmap bytes bytes;
  nuts_view_opens := fun _ => true;
  nuts_tx_Get := fun d k => d !! k;
  nuts_update_Put := fun d k v => Some (<[k := v]> d)
|}.
#[export] Instance toy_nuts_laws : NutsLaws toy_nuts.
Proof.
  split; cbn.
  - intros d k v d' [= <-]. by rewrite lookup_insert_eq.
  - intros d k v d' k' Hne [= <-]. by rewrite lookup_insert_ne.
Qed.
End ToyNuts.
