(* ===== verification/Pool.v ===== *)
(** * pool: the transaction pool

    Models src/pool/pool.go, message.go and config.go.  The queue is the ring
    buffer with its write and read indices, the batch counter and the buffered
    channel of batches.  A channel operation that would block has no result. *)

From S2P Require Import Prelude Committee.
From Stdlib Require Import Strings.Byte.

Open Scope Z_scope.

(** [type Transaction []byte] *)
Abbreviation Transaction := bytes.

(** [Txs] is [None] for a nil slice. *)
Record Batch := mkBatch { Batch_ID : Z; Batch_Txs : option (list Transaction) }.


#[export] Instance Batch_eq_dec : EqDecision Batch.
Proof. solve_decision. Defined.

Module PoolParams.
Record t := mk { Rate : Z; TxSize : Z; BatchSize : Z; MaxQueueSize : Z }.
Definition DefaultParameters : t := mk 1000 16 200 10000.
End PoolParams.

Record txQueue := mkTxQueue {
  queue : list Transaction;
  batchChannel : list Batch;
  wind : Z;
  rind : Z;
  nums : Z;
  maxQueueSize : Z;
  batchSize : Z;
  txSize : Z;
  q_N : Z;
  q_Id : Z;
  bcnt : Z
}.

#[export] Instance txQueue_eta : Settable txQueue := fun q =>
  mkTxQueue (queue q) (batchChannel q) (wind q) (rind q) (nums q) (maxQueueSize q)
    (batchSize q) (txSize q) (q_N q) (q_Id q) (bcnt q).

(** The capacity of [batchChannel]. *)
Definition batch_cap : nat := 1000.

(** The composite literal of [newTxQueue] sets no [txSize]: it stays 0. *)
Definition newTxQueue (max bsize : Z) (ch : list Batch) (N Id txsize : Z) : txQueue :=
  mkTxQueue (replicate (Z.to_nat max) []) ch 0 (-1) 0 max bsize 0 N Id 0.

(** [make]: build a batch of [batchSize] zeroed transactions and send it.
    [None]: the channel is full and the send blocks. *)
Definition txQueue_make (q : txQueue) : option txQueue :=
  let txs := replicate (Z.to_nat (batchSize q)) (replicate (Z.to_nat (txSize q)) x00) in
  let batch := mkBatch (int64 (q_Id q + q_N q * bcnt q))
                       (if 0 <? batchSize q then Some txs else None) in
  if bool_decide (length (batchChannel q) < batch_cap)%nat
  then Some (q <| batchChannel := batchChannel q ++ [batch] |> <| bcnt := int64 (bcnt q + 1) |>)
  else None.

Definition txQueue_put (q : txQueue) (b : Batch) : option txQueue :=
  if bool_decide (length (batchChannel q) < batch_cap)%nat
  then Some (q <| batchChannel := batchChannel q ++ [b] |>) else None.

(** [get]: take a queued batch, or make one and take that. *)
Definition txQueue_get (q : txQueue) : option (Batch * txQueue) :=
  match batchChannel q with
  | b :: rest => Some (b, q <| batchChannel := rest |>)
  | [] =>
      q' ← txQueue_make q;
      match batchChannel q' with
      | b :: rest => Some (b, q' <| batchChannel := rest |>)
      | [] => None
      end
  end.

(** What the loop of [run] does with one transaction. *)
Inductive run_result :=
| RunFull                      (* "Transaction pool is full": the loop returns *)
| RunPanic                     (* index out of range *)
| RunBlocked                   (* [make] blocks on a full channel *)
| RunNext (q : txQueue).

Definition txQueue_run_tx (q : txQueue) (tx : Transaction) : run_result :=
  if wind q =? rind q then RunFull
  else if negb (bool_decide (0 <= wind q < Z.of_nat (length (queue q)))) then RunPanic
  else
    let q1 := q <| queue := <[Z.to_nat (wind q) := tx]> (queue q) |>
                <| wind := Z.rem (wind q + 1) (maxQueueSize q) |>
                <| nums := int64 (nums q + 1) |> in
    if batchSize q1 <=? nums q1
    then match txQueue_make q1 with Some q2 => RunNext q2 | None => RunBlocked end
    else RunNext q1.

Record Pool := mkPool { parameters : PoolParams.t; p_queue : txQueue }.

Definition NewPool (params : PoolParams.t) (N Id : Z) : Pool :=
  mkPool params
    (newTxQueue (PoolParams.MaxQueueSize params) (PoolParams.BatchSize params) [] N Id
       (PoolParams.TxSize params)).

Definition GetBatch (p : Pool) : option (Batch * Pool) :=
  '(b, q) ← txQueue_get (p_queue p); Some (b, mkPool (parameters p) q).

Definition PutBatch (p : Pool) (b : Batch) : option Pool :=
  q ← txQueue_put (p_queue p) b; Some (mkPool (parameters p) q).

(** *** The transaction maker *)

Record txMaker := mkTxMaker { tm_txSize : Z; tm_rate : Z }.

Definition newTxMaker (txSize rate : Z) : txMaker := mkTxMaker txSize rate.

(** What [txMaker.run] sends: its body is commented out. *)
Definition txMaker_run (maker : txMaker) : list Transaction := [].

(** [txQueue.run] on the transactions of its channel; [RunNext]: it waits for more. *)
Fixpoint txQueue_run (q : txQueue) (txs : list Transaction) : run_result :=
  match txs with
  | [] => RunNext q
  | tx :: txs' => match txQueue_run_tx q tx with RunNext q' => txQueue_run q' txs' | r => r end
  end.

(** The two goroutines of [Pool.Run]. *)
Definition Pool_Run (p : Pool) : run_result :=
  txQueue_run (p_queue p)
    (txMaker_run (newTxMaker (PoolParams.TxSize (parameters p)) (PoolParams.Rate (parameters p)))).

(** The pool gets no transactions: its batches are those [get] makes. *)
Lemma Pool_Run_idle (p : Pool) : Pool_Run p = RunNext (p_queue p).
Proof. done. Qed.

(** ** Histories of the pool *)

(** The operations in the order they take effect: a received transaction, a
    [GetBatch] of the protocol, a [PutBatch] of a batch that lost its epoch. *)
Inductive pool_op :=
| OpTx (tx : Transaction)
| OpGet
| OpPut (b : Batch).

Definition pool_step (q : txQueue) (o : pool_op) : option txQueue :=
  match o with
  | OpTx tx => match txQueue_run_tx q tx with RunNext q' => Some q' | _ => None end
  | OpGet => '(_, q') ← txQueue_get q; Some q'
  | OpPut b => txQueue_put q b
  end.

Definition pool_run (q : txQueue) (os : list pool_op) : option txQueue :=
  foldl (fun acc o => q ← acc; pool_step q o) (Some q) os.

(** The indices stay in the ring, and the read index never moves. *)
Definition ring_ok (q : txQueue) : Prop :=
  length (queue q) = Z.to_nat (maxQueueSize q) /\ 0 <= wind q < maxQueueSize q /\
  rind q = -1.

Lemma txQueue_make_fields (q q' : txQueue) :
  txQueue_make q = Some q' ->
  queue q' = queue q /\ wind q' = wind q /\ rind q' = rind q /\ nums q' = nums q /\
  maxQueueSize q' = maxQueueSize q /\ batchSize q' = batchSize q /\ txSize q' = txSize q /\
  q_N q' = q_N q /\ q_Id q' = q_Id q /\ bcnt q' = int64 (bcnt q + 1).
Proof. unfold txQueue_make. case_match; [|done]. intros [= <-]. done. Qed.

Lemma txQueue_get_fields (q q' : txQueue) (b : Batch) :
  txQueue_get q = Some (b, q') ->
  queue q' = queue q /\ wind q' = wind q /\ rind q' = rind q /\ nums q' = nums q /\
  maxQueueSize q' = maxQueueSize q /\ batchSize q' = batchSize q /\ txSize q' = txSize q /\
  q_N q' = q_N q /\ q_Id q' = q_Id q /\
  bcnt q' = if bool_decide (batchChannel q = []) then int64 (bcnt q + 1) else bcnt q.
Proof.
  unfold txQueue_get. destruct (batchChannel q) as [|b0 rest] eqn:Ec.
  - intros H. apply bind_Some in H as (q1 & Hm & H).
    apply txQueue_make_fields in Hm. case_match; simplify_eq. cbn. naive_solver.
  - intros [= <- <-]. done.
Qed.

Lemma txQueue_put_fields (q q' : txQueue) (b : Batch) :
  txQueue_put q b = Some q' -> q' = q <| batchChannel := batchChannel q ++ [b] |>.
Proof. unfold txQueue_put. case_match; congruence. Qed.

Lemma ring_ok_step (q q' : txQueue) (o : pool_op) :
  ring_ok q -> pool_step q o = Some q' -> ring_ok q'.
Proof.
  intros (Hl & Hw & Hr). destruct o as [tx| |b]; cbn.
  - unfold txQueue_run_tx. destruct (wind q =? rind q); [done|].
    destruct (negb _); [done|]. cbv zeta.
    assert (ring_ok (q <| queue := <[Z.to_nat (wind q) := tx]> (queue q) |>
                <| wind := Z.rem (wind q + 1) (maxQueueSize q) |> <| nums := int64 (nums q + 1) |>)) as Hok.
    { unfold ring_ok. cbn. rewrite length_insert. pose proof (Z.rem_bound_pos (wind q + 1) (maxQueueSize q)). lia. }
    destruct (_ <=? _); [|by intros [= <-]].
    destruct (txQueue_make _) as [q2|] eqn:Em; [|done]. intros [= <-].
    apply txQueue_make_fields in Em as (E1 & E2 & E3 & _ & E5 & _).
    unfold ring_ok in *. by rewrite E1, E2, E3, E5.
  - intros H. apply bind_Some in H as ([b q1] & Hg & H). injection H as <-.
    apply txQueue_get_fields in Hg as (E1 & E2 & E3 & _ & E5 & _).
    unfold ring_ok. by rewrite E1, E2, E3, E5.
  - intros H. apply txQueue_put_fields in H as ->. done.
Qed.

Lemma pool_run_inv (I : txQueue -> Prop) (q q' : txQueue) (os : list pool_op) :
  (forall q1 o q2, I q1 -> pool_step q1 o = Some q2 -> I q2) ->
  I q -> pool_run q os = Some q' -> I q'.
Proof.
  intros Hstep. unfold pool_run. revert q. induction os as [|o os IH]; intros q Hq; cbn.
  - by intros [= <-].
  - destruct (pool_step q o) as [q1|] eqn:E.
    + apply IH. by eapply Hstep.
    + intros H. exfalso. revert H. clear. induction os; [done|]. cbn. done.
Qed.

(** C31. Whatever the pool has done since [NewPool], it accepts the next
    transaction without an index panic and never finds itself full: the read
    index stays at -1 while the write index wraps, so the ring overwrites. *)
Theorem pool_never_full (params : PoolParams.t) (N Id : Z) (os : list pool_op)
    (q : txQueue) (tx : Transaction) :
  0 < PoolParams.MaxQueueSize params ->
  pool_run (p_queue (NewPool params N Id)) os = Some q ->
  txQueue_run_tx q tx <> RunFull /\ txQueue_run_tx q tx <> RunPanic.
Proof.
  intros Hmax Hrun.
  assert (ring_ok q) as (Hl & Hw & Hr).
  { eapply pool_run_inv; [by eauto using ring_ok_step| |done].
    unfold ring_ok, NewPool, newTxQueue. cbn. rewrite length_replicate. lia. }
  unfold txQueue_run_tx. rewrite Hr, Hl.
  destruct (Z.eqb_spec (wind q) (-1)) as [|_]; [lia|].
  rewrite bool_decide_true by lia. cbn. by repeat case_match.
Qed.

Lemma pool_never_full_witness :
  exists q, pool_run (p_queue (NewPool (PoolParams.mk 0 16 2 1) 4 1)) [OpTx [x01]; OpTx [x02]; OpGet]
            = Some q /\
  txQueue_run_tx q [x03] <> RunFull /\ txQueue_run_tx q [x03] <> RunPanic.
Proof.
  eexists. split; [vm_compute; reflexivity|].
  apply (pool_never_full (PoolParams.mk 0 16 2 1) 4 1 [OpTx [x01]; OpTx [x02]; OpGet]);
    [reflexivity|vm_compute; reflexivity].
Defined.

(** ** Batches *)





Section Made.
Context (params : PoolParams.t) (N Id : Z).





End Made.



(** ** The length of the batch channel *)

Lemma pool_get_len (p p' : Pool) (b : Batch) :
  GetBatch p = Some (b, p') ->
  (length (batchChannel (p_queue p')) <= length (batchChannel (p_queue p)))%nat.
Proof.
  unfold GetBatch, txQueue_get. destruct (batchChannel (p_queue p)) as [|b0 rest] eqn:Ec.
  - destruct (txQueue_make (p_queue p)) as [q|] eqn:Em; [|done]. cbn.
    unfold txQueue_make in Em. rewrite Ec in Em. case_match; [|done]. injection Em as <-. cbn.
    intros [= <- <-]. cbn. lia.
  - cbn. intros [= <- <-]. cbn. lia.
Qed.

(** Taking a batch never blocks: one is made when none waits. *)
Lemma pool_get_some (p : Pool) : is_Some (GetBatch p).
Proof.
  unfold GetBatch, txQueue_get.
  destruct (batchChannel (p_queue p)) as [|b0 rest] eqn:Ec; [|by eexists].
  unfold txQueue_make. rewrite Ec. by eexists.
Qed.

(** An empty pool makes a batch and stays empty. *)
Lemma pool_get_empty (p : Pool) :
  length (batchChannel (p_queue p)) = 0%nat ->
  exists b p', GetBatch p = Some (b, p') /\ length (batchChannel (p_queue p')) = 0%nat.
Proof.
  unfold GetBatch, txQueue_get, txQueue_make.
  destruct (batchChannel (p_queue p)) as [|b0 rest] eqn:Ec; [|done]. intros _. cbn.
  by do 2 eexists.
Qed.

(** A pool for the witnesses. *)
Definition toy_pool : PoolParams.t := PoolParams.mk 0 16 1 2.

(** ** Codes of batches

    A countable type's elements as bytes, for the concrete encodings of the
    protocols' blocks. *)

Module ToyBits.
#[export] Instance Batch_countable : Countable Batch.
Proof.
  refine (inj_countable' (fun b => (Batch_ID b, Batch_Txs b)) (fun '(i, t) => mkBatch i t) _).
  by intros [].
Defined.

Fixpoint bits (p : positive) : bytes :=
  match p with
  | xH => []
  | xO p => x00 :: bits p
  | xI p => x01 :: bits p
  end.
Fixpoint unbits (d : bytes) : positive :=
  match d with
  | [] => xH
  | x00 :: d => xO (unbits d)
  | _ :: d => xI (unbits d)
  end.
Lemma unbits_bits (p : positive) : unbits (bits p) = p.
Proof. induction p as [p IH|p IH|]; cbn; by rewrite ?IH. Qed.
End ToyBits.
