(* ===== verification/Config.v ===== *)
(** * config: key files, committee files and the default committee

    Models src/config/config.go.  A file is the sequence of its bytes; a write does
    not truncate, so the tail of a longer old file stays behind the new text.
    [encoding/json] is a parameter: [Json] holds the operations on the values the
    package writes and reads, [JsonLaws] what its documentation promises, with
    [ToyJson] as an instance.  Key generation is a parameter too: the keys the
    libraries have drawn.  The theorems say that what is written is read back, and
    that the default committee is one that the protocols assume. *)

From Stdlib Require Import Strings.Byte.
From stdpp Require Import strings.
From S2P Require Import Prelude GoStd Crypto Committee Pool.

Open Scope Z_scope.

(** The bytes of a string constant. *)
Definition text (s : string) : bytes := String.list_byte_of_string s.

(** ** JSON *)

(** The values of the files.  A number is decoded as a [float64] and converted to an
    integer wherever it is used: [JNumber] has the converted value. *)
#[local] Unset Elimination Schemes.
Inductive json :=
| JNull
| JString (s : bytes)
| JNumber (z : Z)
| JObject (fields : list (bytes * json))
| JOther.                                   (* booleans and arrays *)
#[local] Set Elimination Schemes.

(** [data[key]] *)
Fixpoint field (fields : list (bytes * json)) (key : bytes) : option json :=
  match fields with
  | [] => None
  | (k, v) :: rest => if bool_decide (k = key) then Some v else field rest key
  end.

(** What survives encoding and decoding: text in ASCII, integers a [float64] holds
    exactly, objects without repeated keys. *)
Definition ascii (s : bytes) : bool := forallb (fun b => Zbyte b <? 128) s.
Fixpoint exact (v : json) : bool :=
  match v with
  | JString s => ascii s
  | JNumber z => (- 2 ^ 53 <=? z) && (z <=? 2 ^ 53)
  | JObject fields =>
      bool_decide (NoDup fields.*1) &&
      (fix go (fs : list (bytes * json)) : bool :=
         match fs with [] => true | (k, v) :: rest => ascii k && exact v && go rest end) fields
  | JNull | JOther => false
  end.

(** Equal values: the fields of an object have no order ([encoding/json] sorts the keys of
    a map, and a decoded map has none). *)
#[local] Unset Elimination Schemes.
Inductive json_eqv : json -> json -> Prop :=
| eqv_null : json_eqv JNull JNull
| eqv_string s : json_eqv (JString s) (JString s)
| eqv_number z : json_eqv (JNumber z) (JNumber z)
| eqv_object fs1 fs2 fs3 :
    fs1 ≡ₚ fs2 -> Forall2 (fun x y => x.1 = y.1 /\ json_eqv x.2 y.2) fs2 fs3 ->
    json_eqv (JObject fs1) (JObject fs3)
| eqv_other : json_eqv JOther JOther.
#[local] Set Elimination Schemes.

(** The fields of equal objects. *)
Definition fields_eqv (fs fs' : list (bytes * json)) : Prop := json_eqv (JObject fs) (JObject fs').

(** [Encoder.Encode] and [Decoder.Decode]; [None] is an error. *)
Class Json := {
  json_encode : json -> bytes;
  json_decode : bytes -> option json
}.
(** Decoding reads the next value from the input and no further, and gives the value that
    was encoded up to the order of fields. *)
Class JsonLaws (J : Json) :=
  json_roundtrip : forall v rest, exact v = true ->
    exists v', json_decode (json_encode v ++ rest) = Some v' /\ json_eqv v v'.

(** The files by their paths. *)
Abbreviation files := (gmap bytes bytes).

Section Config.
Context {E : Ed25519} {K : Kyber} {J : Json}.

(** ** Files *)

(** The paths a file can be opened for writing at. *)
Context (writable : bytes -> bool).

(** Writing from the start of a file that is not truncated. *)
Definition overwrite (new old : bytes) : bytes := new ++ drop (length new) old.

Definition savetoFile (fs : files) (filename : bytes) (data : json) : Outcome files :=
  if writable filename
  then Ret (<[filename := overwrite (json_encode data) (default [] (fs !! filename))]> fs)
  else Panic.

(** The fields of the object in a file, or the error of the decoder. *)
Definition readFromFile (fs : files) (filename : bytes) : Outcome (list (bytes * json) + error) :=
  match fs !! filename with
  | None => Panic
  | Some content =>
      match json_decode content with
      | Some (JObject fields) => Ret (inl fields)
      | Some JNull => Ret (inl [])
      | _ => Ret (inr ErrExternal)
      end
  end.

(** The type assertions [v.(string)], [v.(float64)] and [v.(map[string]interface{})]. *)
Definition as_string (v : option json) : Outcome bytes :=
  match v with Some (JString s) => Ret s | _ => Panic end.
Definition as_number (v : option json) : Outcome Z :=
  match v with Some (JNumber z) => Ret z | _ => Panic end.
Definition as_object (v : json) : Outcome (list (bytes * json)) :=
  match v with JObject fields => Ret fields | _ => Panic end.

(** ** Key files *)

(** [fmt.Sprintf("%s/.node-key-%d.json", path, i)] and the like *)
Definition key_file (path : bytes) (i : nat) : bytes :=
  path ++ text "/.node-key-" ++ Itoa (Z.of_nat i) ++ text ".json".
Definition ts_key_file (path : bytes) (i : nat) : bytes :=
  path ++ text "/.node-ts-key-" ++ Itoa (Z.of_nat i) ++ text ".json".

(** [ed25519.GenerateKey]: the private and public keys drawn, in order. *)
Abbreviation drawn := (nat -> bytes * bytes).

Definition key_json (pri pub : bytes) : json :=
  JObject [(text "public", JString (EncodePublicKey (mkPublickKey pub)));
           (text "private", JString (EncodePrivateKey (mkPrivateKey pri)))].

(** The iterations [i, i+1, ...] of a loop over files. *)
Fixpoint save_all (file : nat -> bytes) (data : nat -> json) (n i : nat) (fs : files) : Outcome files :=
  match n with
  | O => Ret fs
  | S n' => fs' ← savetoFile fs (file i) (data i); save_all file data n' (S i) fs'
  end.

Definition GenerateKeyFiles (keys : drawn) (pairs : nat) (path : bytes) (fs : files) : Outcome files :=
  save_all (key_file path) (fun i => key_json (keys i).1 (keys i).2) pairs 0 fs.

Definition GenKeysFromFile (fs : files) (filename : bytes) :
    Outcome ((PublickKey * PrivateKey) + error) :=
  r ← readFromFile fs filename;
  match r with
  | inr e => Ret (inr e)
  | inl data =>
      pub ← as_string (field data (text "public"));
      pri ← as_string (field data (text "private"));
      match DecodePublicKey pub with
      | inr _ => Ret (inr ErrExternal)
      | inl pubKey =>
          match DecodePrivateKey pri with
          | inr _ => Ret (inr ErrExternal)
          | inl priKey => Ret (inl (pubKey, priKey))
          end
      end
  end.

(** *** Threshold keys *)

(** [encoding/json] on the two intermediate types of the threshold keys. *)
Context (json_partial : TSPartialMarshalled -> option bytes)
        (unjson_partial : bytes -> option TSPartialMarshalled)
        (json_public : TSPublicMarshalled -> option bytes)
        (unjson_public : bytes -> option TSPublicMarshalled).

(** An encoding that fails leaves a nil slice: its error is dropped. *)
Definition ts_key_json (share : PriShare) (pub : PubPoly) (N T : Z) : json :=
  JObject [(text "share", JString (default [] (EncodeTSPartialKey json_partial share)));
           (text "pub", JString (default [] (EncodeTSPublicKey json_public pub)));
           (text "N", JNumber N); (text "T", JNumber T)].

(** [shares] and [pub] are what [GenTSKeys(T, N)] has returned. *)
Definition GenerateTsKeyFiles (shares : nat -> PriShare) (pub : PubPoly) (N : nat) (T : Z)
    (path : bytes) (fs : files) : Outcome files :=
  save_all (ts_key_file path) (fun i => ts_key_json (shares i) pub (Z.of_nat N) T) N 0 fs.

Definition GenTsKeyFromFile (fs : files) (filename : bytes) : Outcome (SecretShareKey + error) :=
  r ← readFromFile fs filename;
  match r with
  | inr e => Ret (inr e)
  | inl data =>
      share ← as_string (field data (text "share"));
      pub ← as_string (field data (text "pub"));
      N ← as_number (field data (text "N"));
      T ← as_number (field data (text "T"));
      match DecodeTSPartialKey unjson_partial share with
      | None => Ret (inr ErrExternal)
      | Some priShare =>
          match DecodeTSPublicKey unjson_public pub with
          | None => Ret (inr ErrExternal)
          | Some pubPoly => Ret (inl (mkSecretShareKey pubPoly priShare N T))
          end
      end
  end.

(** ** Committee files *)

Definition member_json (id : NodeID) (a : Authority) : bytes * json :=
  (Itoa id, JObject [(text "name", JString (EncodePublicKey (Authority_Name a)));
                     (text "node_id", JNumber id);
                     (text "addr", JString (text (Authority_Addr a)))]).

(** The object that [GenerateSmapleCommittee] builds from a committee, its fields in some
    order. *)
Definition committee_json (c : Committee) : json :=
  JObject ((fun x => member_json x.1 x.2) <$> map_to_list (Authorities c)).

(** One iteration over the fields; the errors of [Atoi] and [DecodePublicKey] are
    dropped. *)
Definition read_member (acc : gmap NodeID Authority) (x : bytes * json) :
    Outcome (gmap NodeID Authority) :=
  let ID := (Atoi x.1).1 in
  info ← as_object x.2;
  name ← as_string (field info (text "name"));
  addr ← as_string (field info (text "addr"));
  let name := match DecodePublicKey name with inl k => k | inr _ => mkPublickKey [] end in
  mret (<[ID := mkAuthority name ID (String.string_of_list_byte addr)]> acc).

Fixpoint read_members (fields : list (bytes * json)) (acc : gmap NodeID Authority) :
    Outcome (gmap NodeID Authority) :=
  match fields with
  | [] => Ret acc
  | x :: rest => acc' ← read_member acc x; read_members rest acc'
  end.

Definition GenCommitteeFromFile (fs : files) (filename : bytes) : Outcome (Committee + error) :=
  r ← readFromFile fs filename;
  match r with
  | inr e => Ret (inr e)
  | inl data => m ← read_members data ∅; Ret (inl (mkCommittee m))
  end.

(** ** Defaults *)

Definition DefaultPort : Z := 9000.

Definition default_authority (keys : drawn) (i : nat) : Authority :=
  mkAuthority (mkPublickKey (keys i).2) (Z.of_nat i)
    (String.string_of_list_byte (text "127.0.0.1:" ++ Itoa (DefaultPort + Z.of_nat i))).

(** The loop that fills the committee. *)
Definition default_committee (keys : drawn) (n : nat) : Committee :=
  mkCommittee (foldl (fun m i => <[Z.of_nat i := default_authority keys i]> m) ∅ (seq 0 n)).

(** [ts t n] is what [GenTSKeys(t, n)] returns. *)
Definition GenDefaultCommittee (keys : drawn) (ts : Z -> nat -> (nat -> PriShare) * PubPoly) (n : nat) :
    Committee * list PrivateKey * list SecretShareKey :=
  let committee := default_committee keys n in
  let priKeys := (fun i => mkPrivateKey (keys i).1) <$> seq 0 n in
  let '(shares, pub) := ts (HightThreshold committee) n in
  let shareKeys := (fun i => mkSecretShareKey pub (shares i) (Z.of_nat n) (HightThreshold committee))
                     <$> seq 0 n in
  (committee, priKeys, shareKeys).

Definition GenerateSmapleCommittee (keys : drawn) (ts : Z -> nat -> (nat -> PriShare) * PubPoly)
    (fs : files) : Outcome files :=
  let '(committee, _, _) := GenDefaultCommittee keys ts 4 in
  savetoFile fs (text "./.committee.json") (committee_json committee).

(** *** Parameters *)

(** The struct [Parameters]: those of the pool and those of the protocols. *)
Record ConfigParameters := mkConfigParameters { cfg_Pool : PoolParams.t; cfg_Consensus : Parameters }.

Definition GenDefaultParameters : ConfigParameters :=
  mkConfigParameters PoolParams.DefaultParameters DefaultParameters.

(** [encoding/json] on the struct. *)
Context (json_params : ConfigParameters -> bytes) (unjson_params : bytes -> option ConfigParameters).

Definition GenerateSampleParameters (fs : files) : Outcome files :=
  let file := text "./.parameters.json" in
  if writable file
  then Ret (<[file := overwrite (json_params GenDefaultParameters) (default [] (fs !! file))]> fs)
  else Panic.

Definition GenParamatersFromFile (fs : files) (filename : bytes) :
    (PoolParams.t * Parameters) + error :=
  match fs !! filename with
  | None => inr ErrExternal
  | Some content =>
      match unjson_params content with
      | None => inr ErrExternal
      | Some p => inl (cfg_Pool p, cfg_Consensus p)
      end
  end.

End Config.

(** ** Specifications *)

Lemma ascii_app (a b : bytes) : ascii (a ++ b) = ascii a && ascii b.
Proof. apply forallb_app. Qed.

Lemma ascii_byteZ (z : Z) (s : bytes) : 0 <= z < 128 -> ascii (byteZ z :: s) = ascii s.
Proof.
  intros Hz. unfold ascii. cbn [forallb]. rewrite Zbyte_byteZ_small by lia.
  by rewrite (proj2 (Z.ltb_lt _ _)) by lia.
Qed.

Lemma ascii_hex (b : bytes) : ascii (hex_Encode b) = true.
Proof.
  induction b as [|x b IH]; [done|].
  change (hex_Encode (x :: b)) with (hex_digit (Zbyte x / 16) :: hex_digit (Zbyte x mod 16) :: hex_Encode b).
  pose proof (Zbyte_range x) as Hx. pose proof (Z.mod_pos_bound (Zbyte x) 16 ltac:(lia)) as Hm.
  assert (0 <= Zbyte x / 16 < 16) as Hd
    by (split; [apply Z.div_pos; lia|apply Z.div_lt_upper_bound; lia]).
  unfold hex_digit. by repeat case_bool; rewrite !ascii_byteZ by lia.
Qed.

Lemma ascii_digits (fuel : nat) (z : Z) (acc : bytes) : ascii (digits10 fuel z acc) = ascii acc.
Proof.
  revert z acc. induction fuel as [|fuel IH]; intros z acc; [done|]. cbn [digits10]. cbn zeta.
  pose proof (Z.mod_pos_bound z 10 ltac:(lia)) as Hm. case_bool; rewrite ?IH, ascii_byteZ by lia; done.
Qed.

Lemma ascii_Itoa (v : Z) : ascii (Itoa v) = true.
Proof.
  unfold Itoa. case_bool; [|by rewrite ascii_digits]. change x2d with (byteZ 45).
  by rewrite ascii_byteZ, ascii_digits by lia.
Qed.

(** An object of simple fields is exact when they are. *)
Lemma exact_object (fields : list (bytes * json)) :
  NoDup fields.*1 -> Forall (fun x => ascii x.1 = true /\ exact x.2 = true) fields ->
  exact (JObject fields) = true.
Proof.
  intros Hn Hf. cbn [exact]. rewrite bool_decide_true by done. cbn [andb].
  clear Hn. induction Hf as [|[k v] fs [Hk Hv] _ IH]; [done|]. cbn [fst snd] in *. by rewrite Hk, Hv.
Qed.

(** *** Equal objects *)

Lemma json_eqv_refl : forall v, json_eqv v v.
Proof.
  fix IH 1. intros [| | |fields|]; try constructor. apply (eqv_object _ fields); [done|].
  revert fields. fix IHf 1. intros [|[k v] fields]; constructor; [|apply IHf]. split; [reflexivity|apply IH].
Qed.

Lemma fields_eqv_inv (fs fs' : list (bytes * json)) :
  fields_eqv fs fs' -> exists fs2, fs ≡ₚ fs2 /\ Forall2 (fun x y => x.1 = y.1 /\ json_eqv x.2 y.2) fs2 fs'.
Proof. intros H. inversion H; subst. eauto. Qed.

Lemma field_elem (fields : list (bytes * json)) (k : bytes) (v : json) :
  NoDup fields.*1 -> field fields k = Some v <-> (k, v) ∈ fields.
Proof.
  induction fields as [|[k' v'] fields IH]; cbn; [by rewrite elem_of_nil|].
  intros [Hk Hn]%NoDup_cons. rewrite elem_of_cons. case_bool_decide as Heq.
  - subst k'. split; [intros [= ->]; by left|]. intros [[= ->]|Hin]; [done|].
    destruct Hk. apply list_elem_of_fmap. by exists (k, v).
  - rewrite IH by done. split; [by right|]. by intros [[= -> ->]|?].
Qed.

(** A field is found in every equal object. *)
Lemma field_eqv (fs fs' : list (bytes * json)) (k : bytes) (v : json) :
  fields_eqv fs fs' -> NoDup fs.*1 -> field fs k = Some v ->
  exists v', field fs' k = Some v' /\ json_eqv v v'.
Proof.
  intros (fs2 & Hp & H2)%fields_eqv_inv Hn Hv. apply field_elem in Hv; [|done]. rewrite Hp in Hv.
  assert (fs2.*1 = fs'.*1) as Hk.
  { clear -H2. induction H2 as [|x y ? ? [Hx _] _ IH]; [done|]. cbn. by rewrite Hx, IH. }
  rewrite Hp, Hk in Hn. apply list_elem_of_lookup in Hv as [i Hi].
  destruct (Forall2_lookup_l _ _ _ _ _ H2 Hi) as ([k' v'] & Hi' & [Hkk He]). cbn in Hkk, He. subst k'.
  exists v'. split; [|done]. apply field_elem; [done|]. by eapply list_elem_of_lookup_2.
Qed.

Lemma field_string (fs fs' : list (bytes * json)) (k s : bytes) :
  fields_eqv fs fs' -> NoDup fs.*1 -> field fs k = Some (JString s) -> field fs' k = Some (JString s).
Proof. intros He Hn Hf. destruct (field_eqv _ _ _ _ He Hn Hf) as (v' & -> & H). by inversion H. Qed.

Lemma field_number (fs fs' : list (bytes * json)) (k : bytes) (z : Z) :
  fields_eqv fs fs' -> NoDup fs.*1 -> field fs k = Some (JNumber z) -> field fs' k = Some (JNumber z).
Proof. intros He Hn Hf. destruct (field_eqv _ _ _ _ He Hn Hf) as (v' & -> & H). by inversion H. Qed.

Section Files.
Context {J : Json} `{!JsonLaws J} (writable : bytes -> bool).

Lemma read_saved (fs : files) (f old : bytes) (fields : list (bytes * json)) :
  exact (JObject fields) = true ->
  fs !! f = Some (overwrite (json_encode (JObject fields)) old) ->
  exists fields', readFromFile fs f = Ret (inl fields') /\ fields_eqv fields fields'.
Proof using JsonLaws0.
  intros Hx Hf. unfold readFromFile, overwrite in *. rewrite Hf.
  destruct (json_roundtrip _ (drop (length (json_encode (JObject fields))) old) Hx) as (v' & -> & He).
  inversion He; subst. eauto.
Qed.

(** A loop over different files leaves in each what it wrote there, before whatever tail
    the old file had. *)
Lemma save_all_spec (file : nat -> bytes) (data : nat -> json) (n i : nat) (fs : files) :
  (forall j k, (i <= j < i + n)%nat -> (i <= k < i + n)%nat -> file j = file k -> j = k) ->
  (forall j, (i <= j < i + n)%nat -> writable (file j) = true) ->
  exists fs', save_all writable file data n i fs = Ret fs' /\
    (forall j, (i <= j < i + n)%nat -> exists old, fs' !! file j = Some (overwrite (json_encode (data j)) old)) /\
    (forall f, (forall j, (i <= j < i + n)%nat -> f <> file j) -> fs' !! f = fs !! f).
Proof using.
  revert i fs. induction n as [|n IH]; intros i fs Hinj Hw; cbn [save_all].
  { exists fs. split_and!; [done|intros; lia|done]. }
  unfold savetoFile. rewrite Hw by lia. cbn [mbind Outcome_bind].
  match goal with |- context [save_all _ _ _ n (S i) ?fs1] => destruct (IH (S i) fs1) as (fs' & Hs & Hin & Hout) end.
  { intros j k Hj Hk. apply Hinj; lia. }
  { intros j Hj. apply Hw. lia. }
  exists fs'. split_and!; [exact Hs|..].
  - intros j Hj. destruct (decide (j = i)) as [->|Hne]; [|apply Hin; lia]. eexists.
    rewrite Hout; [by rewrite lookup_insert_eq|]. intros k Hk Heq. apply Hinj in Heq; lia.
  - intros f Hf. rewrite Hout by (intros j Hj; apply Hf; lia).
    rewrite lookup_insert_ne; [done|]. intros Heq. by apply (Hf i ltac:(lia)).
Qed.
End Files.

Lemma numbered_inj (pre post : bytes) (j k : nat) :
  (Z.of_nat j < 2 ^ 63) -> (Z.of_nat k < 2 ^ 63) ->
  pre ++ Itoa (Z.of_nat j) ++ post = pre ++ Itoa (Z.of_nat k) ++ post -> j = k.
Proof.
  intros Hj Hk H. apply app_inv_head, app_inv_tail, Itoa_inj in H; [lia|unfold in_int64; lia..].
Qed.

Lemma key_json_exact (pri pub : bytes) : exact (key_json pri pub) = true.
Proof.
  apply exact_object; [apply (bool_decide_eq_true_1 _); by vm_compute|].
  repeat apply Forall_cons_2; [..|by apply Forall_nil]; (split; [by vm_compute|]); apply ascii_hex.
Qed.

(** A file with a pair of keys in it, before whatever tail, gives them back. *)
Lemma GenKeysFromFile_saved {E : Ed25519} {J : Json} `{!JsonLaws J} (fs : files) (f old pri pub : bytes) :
  fs !! f = Some (overwrite (json_encode (key_json pri pub)) old) ->
  GenKeysFromFile fs f = Ret (inl (mkPublickKey pub, mkPrivateKey pri)).
Proof.
  intros Hf. assert (NoDup [text "public"; text "private"]) as Hn
    by (apply (bool_decide_eq_true_1 _); by vm_compute).
  destruct (read_saved _ _ _ _ (key_json_exact pri pub) Hf) as (data & Hr & He).
  unfold GenKeysFromFile. rewrite Hr. cbn [mbind Outcome_bind].
  rewrite (field_string _ _ (text "public") (hex_Encode pub) He Hn eq_refl).
  rewrite (field_string _ _ (text "private") (hex_Encode pri) He Hn eq_refl).
  cbn [as_string mbind Outcome_bind]. unfold DecodePublicKey, DecodePrivateKey. by rewrite !hex_Decode_Encode.
Qed.

Lemma key_file_inj (path : bytes) (j k : nat) :
  Z.of_nat j < 2 ^ 63 -> Z.of_nat k < 2 ^ 63 -> key_file path j = key_file path k -> j = k.
Proof. unfold key_file. rewrite !(assoc_L (++) path). apply numbered_inj. Qed.

Lemma ts_key_file_inj (path : bytes) (j k : nat) :
  Z.of_nat j < 2 ^ 63 -> Z.of_nat k < 2 ^ 63 -> ts_key_file path j = ts_key_file path k -> j = k.
Proof. unfold ts_key_file. rewrite !(assoc_L (++) path). apply numbered_inj. Qed.

Lemma key_file_not_ts (path : bytes) (j k : nat) : key_file path j <> ts_key_file path k.
Proof. unfold key_file, ts_key_file. by intros ?%app_inv_head. Qed.

(** Key files.  After [GenerateKeyFiles] every node's file gives back the pair of
    keys that was drawn for it, whatever the files had in them before: the text is
    written over the old one without truncating it, but the decoder stops at the end of
    the first value. *)
Theorem config_key_files {E : Ed25519} {J : Json} `{!JsonLaws J} (writable : bytes -> bool)
    (keys : nat -> bytes * bytes) (pairs : nat) (path : bytes) (fs : files) :
  Z.of_nat pairs < 2 ^ 63 ->
  (forall i, (i < pairs)%nat -> writable (key_file path i) = true) ->
  exists fs', GenerateKeyFiles writable keys pairs path fs = Ret fs' /\
    forall i, (i < pairs)%nat ->
      GenKeysFromFile fs' (key_file path i) = Ret (inl (mkPublickKey (keys i).2, mkPrivateKey (keys i).1)).
Proof.
  intros Hp Hw.
  destruct (save_all_spec writable (key_file path) (fun i => key_json (keys i).1 (keys i).2) pairs 0 fs)
    as (fs' & Hs & Hin & _).
  { intros j k Hj Hk. apply key_file_inj; lia. }
  { intros j Hj. apply Hw. lia. }
  exists fs'. split; [exact Hs|]. intros i Hi. destruct (Hin i ltac:(lia)) as [old Hf].
  by eapply GenKeysFromFile_saved.
Qed.

(** What is assumed of [encoding/json] on the intermediate types of the threshold keys. *)
Definition ts_codec (json_partial : TSPartialMarshalled -> option bytes)
    (unjson_partial : bytes -> option TSPartialMarshalled)
    (json_public : TSPublicMarshalled -> option bytes)
    (unjson_public : bytes -> option TSPublicMarshalled) : Prop :=
  (forall m b, json_partial m = Some b -> unjson_partial b = Some m /\ ascii b = true) /\
  (forall m b, json_public m = Some b -> unjson_public b = Some m /\ ascii b = true).

Section TsKeys.
Context {K : Kyber} `{!KyberLaws K} {J : Json} `{!JsonLaws J}.
Context (json_partial : TSPartialMarshalled -> option bytes) (unjson_partial : bytes -> option TSPartialMarshalled)
        (json_public : TSPublicMarshalled -> option bytes) (unjson_public : bytes -> option TSPublicMarshalled).
Hypothesis Hcodec : ts_codec json_partial unjson_partial json_public unjson_public.

(** A file with a share and the group key in it, before whatever tail, gives them back. *)
Lemma GenTsKeyFromFile_saved (fs : files) (f old : bytes) (share : PriShare) (pub : PubPoly) (N T : Z) :
  is_Some (EncodeTSPartialKey json_partial share) -> is_Some (EncodeTSPublicKey json_public pub) ->
  0 <= N <= 2 ^ 53 -> 0 <= T <= 2 ^ 53 ->
  fs !! f = Some (overwrite (json_encode (ts_key_json json_partial json_public share pub N T)) old) ->
  GenTsKeyFromFile unjson_partial unjson_public fs f = Ret (inl (mkSecretShareKey pub share N T)).
Proof using Type*.
  destruct Hcodec as [Hpa Hpu]. intros [bs Hbs] [bp Hbp] HN HT Hf.
  unfold ts_key_json in Hf. rewrite Hbp, Hbs in Hf. cbn [default] in Hf.
  assert (NoDup [text "share"; text "pub"; text "N"; text "T"]) as Hn
    by (apply (bool_decide_eq_true_1 _); by vm_compute).
  apply read_saved in Hf as (data & Hr & He).
  - unfold GenTsKeyFromFile. rewrite Hr. cbn [mbind Outcome_bind].
    rewrite (field_string _ _ (text "share") bs He Hn eq_refl), (field_string _ _ (text "pub") bp He Hn eq_refl),
      (field_number _ _ (text "N") N He Hn eq_refl), (field_number _ _ (text "T") T He Hn eq_refl).
    cbn [as_string as_number mbind Outcome_bind].
    rewrite (ts_partial_roundtrip json_partial unjson_partial json_public unjson_public
      (fun m b H => proj1 (Hpa m b H)) (fun m b H => proj1 (Hpu m b H)) _ _ Hbs).
    by rewrite (ts_public_roundtrip json_partial unjson_partial json_public unjson_public
      (fun m b H => proj1 (Hpa m b H)) (fun m b H => proj1 (Hpu m b H)) _ _ Hbp).
  - apply exact_object; [exact Hn|].
    repeat apply Forall_cons_2; [..|by apply Forall_nil]; (split; [by vm_compute|]).
    + apply bind_Some in Hbs as (m & _ & Hm). by apply (Hpa m).
    + apply bind_Some in Hbp as (m & _ & Hm). by apply (Hpu m).
    + cbn [exact snd]. by rewrite !(proj2 (Z.leb_le _ _)) by lia.
    + cbn [exact snd]. by rewrite !(proj2 (Z.leb_le _ _)) by lia.
Qed.

(** Files of threshold keys.  After [GenerateTsKeyFiles] every node's file gives back
    the group key, the node's share, and the numbers of shares and of the threshold. *)
Theorem config_ts_key_files (writable : bytes -> bool)
    (shares : nat -> PriShare) (pub : PubPoly) (N : nat) (T : Z) (path : bytes) (fs : files) :
  (forall i, (i < N)%nat -> is_Some (EncodeTSPartialKey json_partial (shares i))) ->
  is_Some (EncodeTSPublicKey json_public pub) ->
  Z.of_nat N <= 2 ^ 53 -> 0 <= T <= 2 ^ 53 ->
  (forall i, (i < N)%nat -> writable (ts_key_file path i) = true) ->
  exists fs', GenerateTsKeyFiles writable json_partial json_public shares pub N T path fs = Ret fs' /\
    forall i, (i < N)%nat ->
      GenTsKeyFromFile unjson_partial unjson_public fs' (ts_key_file path i) =
      Ret (inl (mkSecretShareKey pub (shares i) (Z.of_nat N) T)).
Proof using Type*.
  intros Hsh Hpub HN HT Hw.
  destruct (save_all_spec writable (ts_key_file path)
    (fun i => ts_key_json json_partial json_public (shares i) pub (Z.of_nat N) T) N 0 fs) as (fs' & Hs & Hin & _).
  { intros j k Hj Hk. apply ts_key_file_inj; lia. }
  { intros j Hj. apply Hw. lia. }
  exists fs'. split; [exact Hs|]. intros i Hi. destruct (Hin i ltac:(lia)) as [old Hf].
  eapply GenTsKeyFromFile_saved; [by apply Hsh|done|lia|lia|exact Hf].
Qed.
End TsKeys.

(** ** Committees *)

(** A member under its own number, with an address in ASCII. *)
Definition member_ok (id : NodeID) (a : Authority) : Prop :=
  Authority_Id a = id /\ - 2 ^ 53 <= id <= 2 ^ 53 /\ ascii (text (Authority_Addr a)) = true.

Lemma member_id64 (id : NodeID) (a : Authority) : member_ok id a -> in_int64 id.
Proof. intros (_ & H & _). unfold in_int64. lia. Qed.

Lemma read_member_json (acc : gmap NodeID Authority) (id : NodeID) (a : Authority) (x : bytes * json) :
  member_ok id a -> (member_json id a).1 = x.1 -> json_eqv (member_json id a).2 x.2 ->
  read_member acc x = Ret (<[id := a]> acc).
Proof.
  intros Ha Hk He. destruct x as [key info]. cbn [fst snd member_json] in Hk, He. subst key.
  assert (exists fields, info = JObject fields) as [info' ->] by (inversion He; eauto).
  assert (NoDup [text "name"; text "node_id"; text "addr"]) as Hn
    by (apply (bool_decide_eq_true_1 _); by vm_compute).
  unfold read_member. cbn zeta. cbn [fst snd as_object mbind Outcome_bind].
  rewrite (field_string _ _ (text "name") (hex_Encode (Pubkey (Authority_Name a))) He Hn eq_refl).
  rewrite (field_string _ _ (text "addr") (text (Authority_Addr a)) He Hn eq_refl).
  cbn [as_string mbind Outcome_bind mret Outcome_ret]. unfold DecodePublicKey.
  rewrite hex_Decode_Encode, (Atoi_Itoa id) by by eapply member_id64. cbn [fst].
  unfold text. rewrite String.string_of_list_byte_of_string.
  destruct Ha as (Hid & _). destruct a as [[k] i ad]. cbn in *. by subst.
Qed.

Lemma read_members_json (l : list (NodeID * Authority)) (fields : list (bytes * json))
    (acc : gmap NodeID Authority) :
  Forall (fun x => member_ok x.1 x.2) l ->
  Forall2 (fun x y => x.1 = y.1 /\ json_eqv x.2 y.2) ((fun x => member_json x.1 x.2) <$> l) fields ->
  read_members fields acc = Ret (foldl (fun m x => <[x.1 := x.2]> m) acc l).
Proof.
  intros Hl. revert acc fields. induction Hl as [|x l Hx _ IH]; intros acc fields; cbn.
  { intros ->%Forall2_nil_inv_l. done. }
  intros (y & fields' & [Hy1 Hy2] & H2 & ->)%Forall2_cons_inv_l. cbn [read_members].
  rewrite (read_member_json _ _ _ _ Hx Hy1 Hy2). cbn [mbind Outcome_bind]. by apply IH.
Qed.

Lemma foldl_insert_list {A : Type} (l : list (NodeID * A)) (acc : gmap NodeID A) :
  foldl (fun m x => <[x.1 := x.2]> m) acc l = list_to_map (reverse l) ∪ acc.
Proof.
  revert acc. induction l as [|[k v] l IH]; intros acc; cbn [foldl].
  { change (list_to_map (reverse [])) with (∅ : gmap NodeID A). by rewrite (left_id_L ∅ (∪)). }
  rewrite IH, reverse_cons, list_to_map_app, <-(assoc_L (∪)). cbn [fst snd]. f_equal.
  change (list_to_map [(k, v)]) with (<[k := v]> (∅ : gmap NodeID A)). rewrite insert_empty.
  apply insert_union_singleton_l.
Qed.

(** The map is filled in any order. *)
Lemma foldl_insert_map {A : Type} (m : gmap NodeID A) (l : list (NodeID * A)) :
  map_to_list m ≡ₚ l -> foldl (fun m x => <[x.1 := x.2]> m) ∅ l = m.
Proof.
  intros Hl. rewrite foldl_insert_list, (right_id_L ∅ (∪)).
  rewrite <-(list_to_map_to_list m). symmetry. apply list_to_map_proper.
  - apply NoDup_fst_map_to_list.
  - by rewrite reverse_Permutation.
Qed.

Lemma committee_json_exact (c : Committee) :
  (forall id a, Authorities c !! id = Some a -> member_ok id a) -> exact (committee_json c) = true.
Proof.
  intros Hc. apply exact_object.
  - rewrite <-list_fmap_compose. cbn.
    assert (NoDup ((Itoa ∘ fst) <$> map_to_list (Authorities c))) as Hn; [|exact Hn].
    rewrite list_fmap_compose. apply NoDup_fmap_2_strong; [|apply NoDup_fst_map_to_list].
    intros i j (x & -> & Hx)%list_elem_of_fmap (y & -> & Hy)%list_elem_of_fmap.
    destruct x as [i a], y as [j b]. apply elem_of_map_to_list in Hx, Hy.
    apply Itoa_inj; eapply member_id64; eauto.
  - apply Forall_fmap, Forall_forall. intros [id a] Hin%elem_of_map_to_list. cbn [compose fst snd member_json].
    destruct (Hc _ _ Hin) as (_ & Hid & Had). split; [apply ascii_Itoa|].
    apply exact_object; [apply (bool_decide_eq_true_1 _); by vm_compute|].
    repeat apply Forall_cons_2; [..|by apply Forall_nil]; (split; [by vm_compute|]).
    + apply ascii_hex.
    + cbn [exact snd]. by rewrite !(proj2 (Z.leb_le _ _)) by lia.
    + exact Had.
Qed.

(** A file with a committee in it, before whatever tail, gives it back. *)
Lemma GenCommitteeFromFile_saved {J : Json} `{!JsonLaws J} (fs : files) (f old : bytes) (c : Committee) :
  (forall id a, Authorities c !! id = Some a -> member_ok id a) ->
  fs !! f = Some (overwrite (json_encode (committee_json c)) old) ->
  GenCommitteeFromFile fs f = Ret (inl c).
Proof.
  intros Hc Hf. pose proof (committee_json_exact c Hc) as Hx. unfold committee_json in Hf, Hx.
  destruct (read_saved _ _ _ _ Hx Hf) as (data & Hr & (fs2 & Hp & H2)%fields_eqv_inv).
  unfold GenCommitteeFromFile. rewrite Hr. cbn [mbind Outcome_bind].
  apply Permutation_sym, Permutation_map_inv in Hp as (l & -> & Hl).
  rewrite (read_members_json l _ _); [| |exact H2].
  - cbn [mbind Outcome_bind]. rewrite (foldl_insert_map (Authorities c)); [by destruct c|by symmetry].
  - rewrite <-Hl. apply Forall_forall. intros [id a] Hin%elem_of_map_to_list. eauto.
Qed.

(** Committee files.  The file written for a committee whose members are listed under
    their own numbers gives back that committee, whatever the file had in it before. *)
Theorem config_committee_file {J : Json} `{!JsonLaws J} (writable : bytes -> bool) (fs : files)
    (filename : bytes) (c : Committee) :
  writable filename = true ->
  (forall id a, Authorities c !! id = Some a -> member_ok id a) ->
  exists fs', savetoFile writable fs filename (committee_json c) = Ret fs' /\
    GenCommitteeFromFile fs' filename = Ret (inl c).
Proof.
  intros Hw Hc. unfold savetoFile. rewrite Hw. eexists. split; [done|].
  eapply GenCommitteeFromFile_saved; [done|by rewrite lookup_insert_eq].
Qed.

(** The sample file of parameters gives back the default ones. *)
Lemma parameters_file_roundtrip (writable : bytes -> bool) (json_params : ConfigParameters -> bytes)
    (unjson_params : bytes -> option ConfigParameters) (fs : files) :
  (forall p rest, unjson_params (json_params p ++ rest) = Some p) ->
  writable (text "./.parameters.json") = true ->
  exists fs', GenerateSampleParameters writable json_params fs = Ret fs' /\
    GenParamatersFromFile unjson_params fs' (text "./.parameters.json") =
    inl (PoolParams.DefaultParameters, DefaultParameters).
Proof.
  intros Hj Hw. unfold GenerateSampleParameters. cbn zeta. rewrite Hw. eexists. split; [done|].
  unfold GenParamatersFromFile, overwrite. by rewrite lookup_insert_eq, Hj.
Qed.

(** ** The default committee *)

Section Default.
Context {E : Ed25519} {K : Kyber} `{!Ed25519Laws E}.
Context (keys : nat -> bytes * bytes) (ts : Z -> nat -> (nat -> PriShare) * PubPoly).

Lemma default_committee_S (n : nat) :
  Authorities (default_committee keys (S n)) =
  <[Z.of_nat n := default_authority keys n]> (Authorities (default_committee keys n)).
Proof. unfold default_committee. cbn [Authorities]. by rewrite seq_S, foldl_app. Qed.

Lemma default_committee_lookup (n : nat) (id : NodeID) (a : Authority) :
  Authorities (default_committee keys n) !! id = Some a <->
  exists i, (i < n)%nat /\ id = Z.of_nat i /\ a = default_authority keys i.
Proof.
  induction n as [|n IH]; [split; [done|intros (i & ? & _); lia]|].
  rewrite default_committee_S, lookup_insert_Some, IH. split.
  - intros [[<- <-]|[_ (i & Hi & -> & ->)]]; [exists n|exists i]; split_and!; auto.
  - intros (i & Hi & -> & ->). destruct (decide (i = n)) as [->|Hne]; [by left|right].
    split; [lia|]. exists i. split_and!; [lia|done|done].
Qed.

Lemma default_committee_size (n : nat) : Committee_Size (default_committee keys n) = Z.of_nat n.
Proof.
  unfold Committee_Size. f_equal. induction n as [|n IH]; [done|].
  rewrite default_committee_S, map_size_insert_None; [by rewrite IH|].
  apply eq_None_not_Some. intros [a (i & Hi & Heq & _)%default_committee_lookup]. lia.
Qed.

Lemma default_committee_name (n i : nat) :
  (i < n)%nat -> Committee_Name (default_committee keys n) (Z.of_nat i) = mkPublickKey (keys i).2.
Proof.
  intros Hi. unfold Committee_Name.
  by rewrite (proj2 (default_committee_lookup n (Z.of_nat i) (default_authority keys i))) by eauto.
Qed.

Lemma default_member_ok (n i : nat) :
  (i < n)%nat -> Z.of_nat n <= 2 ^ 53 -> member_ok (Z.of_nat i) (default_authority keys i).
Proof.
  intros Hi Hn. split_and!; [done|lia..|]. unfold default_authority, text. cbn [Authority_Addr].
  rewrite String.list_byte_of_string_of_list_byte, ascii_app, ascii_Itoa. by vm_compute.
Qed.
End Default.

(** C26. The default committee is one the protocols assume.  For every number of nodes,
    [GenDefaultCommittee] gives a committee of that size whose members are numbered
    without gap and which its file gives back, and for every node a private key and a
    share with which it is a correctly configured member: its service signs what the
    committee's key for it verifies, and the threshold is that of the committee.  (That
    [GenerateKey] returns a key of 64 bytes with its public key, and that [tbls.Sign]
    does not fail, is what the libraries promise.) *)
Theorem config_default_settings {E : Ed25519} {K : Kyber} `{!Ed25519Laws E}
    (keys : nat -> bytes * bytes) (ts : Z -> nat -> (nat -> PriShare) * PubPoly) (n : nat) :
  (forall i, length (keys i).1 = 64%nat /\ (keys i).2 = ed_Public (keys i).1) ->
  (forall sh m, is_Some (tbls_Sign sh m)) -> Z.of_nat n <= 2 ^ 53 ->
  let '(committee, priKeys, shareKeys) := GenDefaultCommittee keys ts n in
  Committee_Size committee = Z.of_nat n /\ dense committee /\
  (forall id a, Authorities committee !! id = Some a -> member_ok id a) /\
  (forall i, (i < n)%nat -> exists pri share,
     priKeys !! i = Some pri /\ shareKeys !! i = Some share /\
     SSK_T share = HightThreshold committee /\ SSK_N share = Z.of_nat n /\
     setting_ok (mkSetting (Z.of_nat i) committee (mkSigService pri share))).
Proof.
  intros Hk Ht Hn. unfold GenDefaultCommittee. cbn zeta.
  destruct (ts (HightThreshold (default_committee keys n)) n) as [shares pub].
  assert (forall id, id ∈ members (default_committee keys n) -> exists i, (i < n)%nat /\ id = Z.of_nat i) as Hmem.
  { intros id Hid. unfold members in Hid. apply elem_of_dom in Hid as [a (i & Hi & -> & _)%default_committee_lookup]. eauto. }
  split_and!.
  - apply default_committee_size.
  - intros id Hid. rewrite default_committee_size. destruct (Hmem _ Hid) as (i & Hi & ->). lia.
  - intros id a (i & Hi & -> & ->)%default_committee_lookup. by eapply default_member_ok.
  - intros i Hi. exists (mkPrivateKey (keys i).1),
      (mkSecretShareKey pub (shares i) (Z.of_nat n) (HightThreshold (default_committee keys n))).
    rewrite !list_lookup_fmap, lookup_seq_lt by done. split_and!; try done. split; cbn [s_name s_com s_srv].
    + unfold members. apply elem_of_dom. exists (default_authority keys i). apply default_committee_lookup. eauto.
    + intros id Hid. destruct (Hmem _ Hid) as (j & Hj & ->). rewrite default_committee_name by done.
      cbn. destruct (Hk j) as [Hl ->]. by apply ed_public_size.
    + rewrite default_committee_name by done. by split; apply Hk.
    + exact Ht.
Qed.

(** ** Witnesses *)

(** An encoding with the promised behaviour: the code of the value's tree in binary, with
    a byte that ends it.  Decoding changes the order of the fields. *)
Module ToyJson.

Fixpoint to_tree (v : json) : gen_tree (bytes + Z) :=
  match v with
  | JNull => GenNode 0 []
  | JOther => GenNode 1 []
  | JString s => GenLeaf (inl s)
  | JNumber z => GenLeaf (inr z)
  | JObject fields =>
      GenNode 2 ((fix go (fs : list (bytes * json)) : list (gen_tree (bytes + Z)) :=
        match fs with [] => [] | (k, v) :: rest => GenLeaf (inl k) :: to_tree v :: go rest end) fields)
  end.

Fixpoint of_tree (t : gen_tree (bytes + Z)) : json :=
  match t with
  | GenLeaf (inl s) => JString s
  | GenLeaf (inr z) => JNumber z
  | GenNode 0 _ => JNull
  | GenNode 1 _ => JOther
  | GenNode _ ts =>
      JObject ((fix go (ts : list (gen_tree (bytes + Z))) : list (bytes * json) :=
        match ts with GenLeaf (inl k) :: t :: rest => (k, of_tree t) :: go rest | _ => [] end) ts)
  end.

Lemma of_to_tree : forall v, of_tree (to_tree v) = v.
Proof.
  fix IH 1. intros [| | |fields|]; try reflexivity. cbn. f_equal.
  revert fields. fix IHf 1. intros [|[k v] fields]; [reflexivity|]. cbn. f_equal; [f_equal; apply IH|apply IHf].
Qed.

Fixpoint put (p : positive) (rest : bytes) : bytes :=
  match p with
  | xH => x02 :: rest
  | xO p => x00 :: put p rest
  | xI p => x01 :: put p rest
  end.
Fixpoint take_pos (d : bytes) : option positive :=
  match d with
  | x00 :: d => xO <$> take_pos d
  | x01 :: d => xI <$> take_pos d
  | x02 :: _ => Some xH
  | _ => None
  end.

Definition reorder (v : json) : json :=
  match v with JObject fields => JObject (reverse fields) | _ => v end.

#[export] Instance toy_json : Json := {|
  json_encode := fun v => put (encode (to_tree v)) [];
  json_decode := fun d => p ← take_pos d; t ← decode p; Some (reorder (of_tree t))
|}.

Lemma take_put (p : positive) (rest : bytes) : take_pos (put p [] ++ rest) = Some p.
Proof. induction p as [p IH|p IH|]; cbn; by rewrite ?IH. Qed.

#[export] Instance toy_json_laws : JsonLaws toy_json.
Proof.
  intros v rest _. cbn. rewrite take_put. cbn. rewrite decode_encode. cbn. rewrite of_to_tree.
  eexists. split; [done|]. destruct v as [| | |fields|]; cbn; try apply json_eqv_refl.
  eapply eqv_object; [symmetry; apply reverse_Permutation|].
  apply Forall2_same_length_lookup_2; [done|]. intros i x y Hx Hy. simplify_eq. split; [done|apply json_eqv_refl].
Qed.

End ToyJson.

Section Witness.
Import ToyCrypto ToyNode ToyJson.

Definition toy_keys (i : nat) : bytes * bytes := (key_of i ++ key_of i, key_of i).
Definition toy_ts (t : Z) (n : nat) : (nat -> PriShare) * PubPoly :=
  (fun i => @mkPriShare toy_kyber (Z.of_nat i) x00, @mkPubPoly toy_kyber x00 [x00]).
Definition anywhere (path : bytes) : bool := true.

(** The file of node 0 has an old, longer text in it. *)
Definition old_files : gmap bytes bytes := {[ key_file (text ".") 0 := replicate 5000 x02 ]}.

Lemma config_key_files_witness :
  exists fs', GenerateKeyFiles anywhere toy_keys 3 (text ".") old_files = Ret fs' /\
    forall i, (i < 3)%nat -> GenKeysFromFile fs' (key_file (text ".") i) =
      Ret (inl (mkPublickKey (key_of i), mkPrivateKey (key_of i ++ key_of i))).
Proof. apply (config_key_files anywhere toy_keys 3 (text ".") old_files); [lia|reflexivity]. Defined.

(** Encodings of one share and one key. *)
Definition toy_partial (m : TSPartialMarshalled) : option bytes :=
  match TSPM_I m, TSPM_Binary m with 1, [x00] => Some (text "one") | _, _ => None end.
Definition toy_unpartial (b : bytes) : option TSPartialMarshalled :=
  if bool_decide (b = text "one") then Some (mkTSPartialMarshalled 1 [x00]) else None.
Definition toy_public (m : TSPublicMarshalled) : option bytes :=
  match BaseBytes m, CommitBytes m with [x00], [[x00]] => Some (text "key") | _, _ => None end.
Definition toy_unpublic (b : bytes) : option TSPublicMarshalled :=
  if bool_decide (b = text "key") then Some (mkTSPublicMarshalled [x00] [[x00]]) else None.

Lemma toy_codec : ts_codec toy_partial toy_unpartial toy_public toy_unpublic.
Proof.
  split.
  - intros [i b] d. unfold toy_partial. cbn. repeat case_match; try done. intros [= <-]. by split.
  - intros [a b] d. unfold toy_public. cbn. repeat case_match; try done. intros [= <-]. by split.
Qed.

Lemma config_ts_key_files_witness :
  exists fs', GenerateTsKeyFiles anywhere toy_partial toy_public
      (fun _ => @mkPriShare toy_kyber 1 x00) (@mkPubPoly toy_kyber x00 [x00]) 4 3 (text ".") ∅ = Ret fs' /\
    forall i, (i < 4)%nat -> GenTsKeyFromFile toy_unpartial toy_unpublic fs' (ts_key_file (text ".") i) =
      Ret (inl (mkSecretShareKey (@mkPubPoly toy_kyber x00 [x00]) (@mkPriShare toy_kyber 1 x00) 4 3)).
Proof.
  apply (config_ts_key_files toy_partial toy_unpartial toy_public toy_unpublic toy_codec anywhere
    (fun _ => @mkPriShare toy_kyber 1 x00) (@mkPubPoly toy_kyber x00 [x00]) 4 3 (text ".") ∅).
  - intros i _. by eexists.
  - by eexists.
  - lia.
  - lia.
  - reflexivity.
Defined.

Lemma config_committee_file_witness :
  exists fs', savetoFile anywhere ∅ (text "./.committee.json") (committee_json (default_committee toy_keys 4)) =
      Ret fs' /\
    GenCommitteeFromFile fs' (text "./.committee.json") = Ret (inl (default_committee toy_keys 4)).
Proof.
  apply (config_committee_file anywhere ∅ (text "./.committee.json") (default_committee toy_keys 4)); [reflexivity|].
  intros id a (i & Hi & -> & ->)%default_committee_lookup. by apply (default_member_ok toy_keys 4).
Defined.

Lemma config_default_settings_witness :
  dense (default_committee toy_keys 4) /\
  exists pri share, setting_ok (mkSetting 2 (default_committee toy_keys 4) (mkSigService pri share)).
Proof.
  destruct (config_default_settings (K := toy_kyber) toy_keys toy_ts 4) as (_ & Hd & _ & Hs).
  - intros i. split; reflexivity.
  - intros sh m. by eexists.
  - lia.
  - split; [exact Hd|]. destruct (Hs 2%nat) as (pri & share & _ & _ & _ & _ & Hok); [lia|]. by exists pri, share.
Defined.

End Witness.
