(* ===== verification/Logger.v ===== *)
(** * logger: levels, outputs and log files

    Models src/logger/logger.go and writer.go, with the part of NewNode
    (src/node/node.go) that sets the loggers up.  The four loggers share a table of
    outputs; a file is written through a handle with an offset of its own, and the
    standard library's header of a line (date, time and place) is a parameter.  The
    theorem says what is in the log files of a node after any number of lines. *)

From Stdlib Require Import Strings.Byte.
From stdpp Require Import strings.
From S2P Require Import Prelude GoStd Crypto Config.

Open Scope Z_scope.

Module Logger.

(** ** Definitions *)

Abbreviation Level := Z.
Definition InfoLevel : Level := 0x1.
Definition DebugLevel : Level := 0x2.
Definition ErrorLevel : Level := 0x4.
Definition WarnLevel : Level := 0x8.
Definition TestLevel : Level := Z.lor (Z.lor (Z.lor InfoLevel DebugLevel) ErrorLevel) WarnLevel.
Definition DeployLevel : Level := Z.lor (Z.lor InfoLevel ErrorLevel) WarnLevel.
Definition LevelNum : nat := 4.

(** The loggers [Info], [Debug], [Error] and [Warn], in the order of [logs], and the
    prefixes they were made with. *)
Inductive Logger := Info | Debug | Error | Warn.

#[export] Instance Logger_eq_dec : EqDecision Logger.
Proof. solve_decision. Defined.

Definition index (k : Logger) : nat :=
  match k with Info => 0 | Debug => 1 | Error => 2 | Warn => 3 end.

Definition prefix (k : Logger) : bytes :=
  text match k with Info => "[INFO] " | Debug => "[DUBUG] " | Error => "[ERROR] " | Warn => "[WARN] " end.

(** What implements [io.Writer] here; a file is a handle of the process. *)
Inductive Writer := Stdout | Discard | File (handle : nat).

(** The process: the files, its handles with their offsets, what it has printed, the
    outputs of the four loggers, the table [out], and the number of lines logged. *)
Record Host := mkHost {
  h_files : files;
  h_handles : list (bytes * nat);
  h_stdout : bytes;
  logs : list Writer;
  out : list Writer;
  h_lines : nat
}.

#[global] Instance Host_eta : Settable Host := fun h =>
  mkHost (h_files h) (h_handles h) (h_stdout h) (logs h) (out h) (h_lines h).

Definition start (fs : files) : Host :=
  mkHost fs [] [] (replicate LevelNum Stdout) (replicate LevelNum Stdout) 0.

(** [((level >> i) & 1) == 1] *)
Definition level_on (level : Level) (i : nat) : bool := Z.land (Z.shiftr level (Z.of_nat i)) 1 =? 1.

(** An indexed read or assignment out of range panics. *)
Definition at_index (ws : list Writer) (i : nat) : Outcome Writer :=
  match ws !! i with Some w => Ret w | None => Panic end.

Definition set_logs (i : nat) (w : Writer) (h : Host) : Outcome Host :=
  _ ← at_index (logs h) i; mret (h <| logs := <[i := w]> (logs h) |>).

Definition set_out (i : nat) (w : Writer) (h : Host) : Outcome Host :=
  _ ← at_index (out h) i; mret (h <| out := <[i := w]> (out h) |>).

(** [for i := 0; i < LevelNum; i++] *)
Definition for_levels (body : nat -> Host -> Outcome Host) (h : Host) : Outcome Host :=
  foldl (fun m i => h ← m; body i h) (Ret h) (seq 0 LevelNum).

Definition SetLevel (level : Level) : Host -> Outcome Host :=
  for_levels (fun i h =>
    if level_on level i then w ← at_index (out h) i; set_logs i w h
    else set_logs i Discard h).

Definition SetOutput (level : Level) (w : Writer) : Host -> Outcome Host :=
  for_levels (fun i h =>
    if level_on level i then h' ← set_logs i w h; set_out i w h' else mret h).

(** [os.OpenFile(path, os.O_CREATE|os.O_WRONLY, 0600)]: an existing file keeps its content.
    If it cannot be opened, the error is logged and the call panics. *)
Definition NewFileWriter (writable : bytes -> bool) (path : bytes) (h : Host) : Outcome (Writer * Host) :=
  if writable path
  then Ret (File (length (h_handles h)),
            h <| h_files := <[path := default [] (h_files h !! path)]> (h_files h) |>
              <| h_handles := h_handles h ++ [(path, O)] |>)
  else Panic.

(** Writing at an offset: a gap is filled with zeros, what lies behind stays. *)
Definition write_at (off : nat) (data old : bytes) : bytes :=
  take off old ++ replicate (off - length old) x00 ++ data ++ drop (off + length data) old.

Definition write (w : Writer) (data : bytes) (h : Host) : Host :=
  match w with
  | Stdout => h <| h_stdout := h_stdout h ++ data |>
  | Discard => h
  | File i =>
      match h_handles h !! i with
      | Some (path, off) =>
          h <| h_files := <[path := write_at off data (default [] (h_files h !! path))]> (h_files h) |>
            <| h_handles := <[i := (path, (off + length data)%nat)]> (h_handles h) |>
      | None => h
      end
  end.

Section Lines.
(** The header of the [n]-th line: date, time and place in the source. *)
Context (header : nat -> bytes).

Definition line (k : Logger) (n : nat) (s : bytes) : bytes := prefix k ++ header n ++ s.

(** [Printf] and [Println] with the formatted text, which ends a line. *)
Definition Println (k : Logger) (s : bytes) (h : Host) : Host :=
  match logs h !! index k with
  | Some w => write w (line k (h_lines h) s) h
  | None => h
  end <| h_lines := S (h_lines h) |>.

Definition print_all (ls : list (Logger * bytes)) (h : Host) : Host :=
  foldl (fun h x => Println x.1 x.2 h) h ls.

(** What goes to one logger of a sequence of lines. *)
Fixpoint lines_of (k : Logger) (n : nat) (ls : list (Logger * bytes)) : bytes :=
  match ls with
  | [] => []
  | (k', s) :: ls' => (if decide (k' = k) then line k n s else []) ++ lines_of k (S n) ls'
  end.
End Lines.

(** *** The first step of NewNode *)

(** [fmt.Sprintf("%s/node-info-%d.log", logPath, nodeID)] and the like *)
Definition log_file (logPath : bytes) (nodeID : Z) (k : Logger) : bytes :=
  logPath ++ text match k with
    | Info => "/node-info-" | Debug => "/node-debug-" | Error => "/node-error-" | Warn => "/node-warn-"
    end ++ Itoa nodeID ++ text ".log".

Definition level_of (k : Logger) : Level :=
  match k with Info => InfoLevel | Debug => DebugLevel | Error => ErrorLevel | Warn => WarnLevel end.

(** [logger.SetOutput(level, logger.NewFileWriter(path))] *)
Definition redirect (writable : bytes -> bool) (path : bytes) (level : Level) (h : Host) : Outcome Host :=
  x ← NewFileWriter writable path h; SetOutput level x.1 x.2.

Definition init_log (writable : bytes -> bool) (logPath : bytes) (logLevel nodeID : Z) (h : Host) :
    Outcome Host :=
  h1 ← redirect writable (log_file logPath nodeID Info) (level_of Info) h;
  h2 ← redirect writable (log_file logPath nodeID Debug) (level_of Debug) h1;
  h3 ← redirect writable (log_file logPath nodeID Warn) (level_of Warn) h2;
  h4 ← redirect writable (log_file logPath nodeID Error) (level_of Error) h3;
  SetLevel logLevel h4.

(** ** Specifications *)

(** There is a writer for each of the four loggers. *)
Definition wired (h : Host) : Prop := length (logs h) = LevelNum /\ length (out h) = LevelNum.

Lemma level_on_testbit (level : Level) (i : nat) : level_on level i = Z.testbit level (Z.of_nat i).
Proof.
  unfold level_on. rewrite <-(Z.add_0_l (Z.of_nat i)), <-Z.shiftr_spec by lia.
  rewrite Z.bit0_odd, (Z.land_ones _ 1) by lia. change (2 ^ 1) with 2.
  rewrite Zmod_odd, Z.add_0_l. by destruct (Z.odd _).
Qed.

(** Both loops visit each logger once and never leave the tables. *)
Lemma SetLevel_spec (level : Level) (h : Host) :
  wired h -> exists ws, SetLevel level h = Ret (h <| logs := ws |>) /\ length ws = LevelNum /\
    forall i, (i < LevelNum)%nat ->
      ws !! i = if Z.testbit level (Z.of_nat i) then out h !! i else Some Discard.
Proof.
  destruct h as [fs hs so [|a [|b [|c [|d []]]]] [|a' [|b' [|c' [|d' []]]]] n]; intros [Hl Ho]; try done.
  eexists [if level_on level 0 then a' else Discard; if level_on level 1 then b' else Discard;
           if level_on level 2 then c' else Discard; if level_on level 3 then d' else Discard].
  split_and!; [|done|].
  - unfold SetLevel, for_levels. cbn [seq foldl LevelNum].
    by destruct (level_on level 0), (level_on level 1), (level_on level 2), (level_on level 3).
  - intros i Hi. rewrite <-level_on_testbit.
    destruct i as [|[|[|[|i]]]]; [..|unfold LevelNum in Hi; lia]; cbn; by case_match.
Qed.

Lemma SetOutput_spec (level : Level) (w : Writer) (h : Host) :
  wired h -> exists ws os, SetOutput level w h = Ret (h <| logs := ws |> <| out := os |>) /\
    length ws = LevelNum /\ length os = LevelNum /\
    forall i, (i < LevelNum)%nat ->
      ws !! i = (if Z.testbit level (Z.of_nat i) then Some w else logs h !! i) /\
      os !! i = (if Z.testbit level (Z.of_nat i) then Some w else out h !! i).
Proof.
  destruct h as [fs hs so [|a [|b [|c [|d []]]]] [|a' [|b' [|c' [|d' []]]]] n]; intros [Hl Ho]; try done.
  eexists [if level_on level 0 then w else a; if level_on level 1 then w else b;
           if level_on level 2 then w else c; if level_on level 3 then w else d],
          [if level_on level 0 then w else a'; if level_on level 1 then w else b';
           if level_on level 2 then w else c'; if level_on level 3 then w else d'].
  split_and!; [|done|done|].
  - unfold SetOutput, for_levels. cbn [seq foldl LevelNum].
    by destruct (level_on level 0), (level_on level 1), (level_on level 2), (level_on level 3).
  - intros i Hi. rewrite <-level_on_testbit.
    destruct i as [|[|[|[|i]]]]; [..|unfold LevelNum in Hi; lia]; cbn; by case_match.
Qed.

(** A logger that a level has silenced writes again after [SetOutput]. *)
Lemma SetOutput_unmutes (w : Writer) (h h1 : Host) :
  wired h -> SetLevel 0 h = Ret h1 ->
  exists h2, SetOutput DebugLevel w h1 = Ret h2 /\ logs h1 !! index Debug = Some Discard /\
             logs h2 !! index Debug = Some w.
Proof.
  intros Hw Hs. destruct (SetLevel_spec 0 h Hw) as (ws & Hs' & Hl & Hi). rewrite Hs' in Hs. simplify_eq.
  destruct (SetOutput_spec DebugLevel w (h <| logs := ws |>)) as (ws' & os & -> & _ & _ & Hi').
  { split; [done|]. by destruct Hw. }
  eexists. split; [done|]. split; [by apply (Hi 1%nat); unfold LevelNum; lia|].
  by apply (Hi' 1%nat); unfold LevelNum; lia.
Qed.

(** *** Files *)

Lemma write_at_overwrite (d data old : bytes) :
  write_at (length d) data (overwrite d old) = overwrite (d ++ data) old.
Proof.
  unfold write_at, overwrite. rewrite take_app_length, length_app, <-app_assoc. f_equal.
  replace (length d - (length d + length (drop (length d) old)))%nat with 0%nat by lia.
  cbn. f_equal. rewrite drop_app_ge by lia. rewrite drop_drop, length_app. f_equal. lia.
Qed.

(** A logger and its file: the handle stands behind what was written, and the rest of the
    file is what it was. *)
Definition logged (h : Host) (i : nat) (path d old : bytes) : Prop :=
  h_handles h !! i = Some (path, length d) /\ h_files h !! path = Some (overwrite d old).

Lemma write_own (h : Host) (i : nat) (path d old data : bytes) :
  logged h i path d old -> logged (write (File i) data h) i path (d ++ data) old.
Proof.
  intros [Hh Hf]. unfold logged. cbn [write]. rewrite Hh. cbn. split.
  - rewrite list_lookup_insert_eq by by eapply lookup_lt_Some. by rewrite length_app.
  - rewrite lookup_insert_eq, Hf. cbn. by rewrite write_at_overwrite.
Qed.

Lemma write_other (h : Host) (w : Writer) (i : nat) (path d old data : bytes) :
  (forall j, w = File j -> j <> i /\ fst <$> h_handles h !! j <> Some path) ->
  logged h i path d old -> logged (write w data h) i path d old.
Proof.
  intros Hw [Hh Hf]. destruct w as [| |j]; [done|done|]. destruct (Hw j eq_refl) as [Hj Hp].
  unfold logged. cbn [write]. destruct (h_handles h !! j) as [[p off]|]; [|done]. cbn. split.
  - by rewrite list_lookup_insert_ne.
  - rewrite lookup_insert_ne; [done|]. intros ->. by apply Hp.
Qed.

(** *** A node's log *)

Section Init.
Context (writable : bytes -> bool) (logPath : bytes) (logLevel nodeID : Z).
Context (Hopen : forall k, writable (log_file logPath nodeID k) = true).

Lemma log_file_inj (k k' : Logger) : log_file logPath nodeID k = log_file logPath nodeID k' -> k = k'.
Proof using Type. unfold log_file. intros H%app_inv_head. by destruct k, k'. Qed.

(** The handle of a logger: the files are opened in the order of NewNode. *)
Definition handle (h : Host) (k : Logger) : nat :=
  (length (h_handles h) + match k with Info => 0 | Debug => 1 | Warn => 2 | Error => 3 end)%nat.

(** What the four calls of [OpenFile] leave in the file system. *)
Definition touch (fs : files) (k : Logger) : files :=
  <[log_file logPath nodeID k := default [] (fs !! log_file logPath nodeID k)]> fs.

Lemma touch_lookup (fs : files) (k : Logger) (f : bytes) :
  touch fs k !! f = if decide (f = log_file logPath nodeID k) then Some (default [] (fs !! f)) else fs !! f.
Proof using Type.
  unfold touch. case_decide as Hf; [subst; by rewrite lookup_insert_eq|by rewrite lookup_insert_ne].
Qed.

Lemma touch_keeps (fs : files) (k : Logger) (f c : bytes) :
  fs !! f = Some c -> touch fs k !! f = Some c.
Proof using Type. intros Hf. rewrite touch_lookup. case_decide; [by rewrite Hf|done]. Qed.

Definition touched (fs : files) : files := touch (touch (touch (touch fs Info) Debug) Warn) Error.

Lemma touched_log (fs : files) (k : Logger) :
  touched fs !! log_file logPath nodeID k = Some (default [] (fs !! log_file logPath nodeID k)).
Proof using Type.
  unfold touched. rewrite !touch_lookup.
  repeat case_decide; destruct (fs !! log_file logPath nodeID k); try done.
  all: exfalso; destruct k; by eauto using log_file_inj.
Qed.

Lemma redirect_eq (k : Logger) (h : Host) :
  wired h -> redirect writable (log_file logPath nodeID k) (level_of k) h =
    Ret (mkHost (touch (h_files h) k) (h_handles h ++ [(log_file logPath nodeID k, 0%nat)]) (h_stdout h)
           (<[index k := File (length (h_handles h))]> (logs h))
           (<[index k := File (length (h_handles h))]> (out h)) (h_lines h)).
Proof using Hopen.
  destruct h as [fs hs so [|a [|b [|c [|d []]]]] [|a' [|b' [|c' [|d' []]]]] n]; intros [Hl Ho]; try done.
  unfold redirect, NewFileWriter. rewrite Hopen. by destruct k.
Qed.

Lemma init_log_spec (h : Host) :
  wired h -> exists h', init_log writable logPath logLevel nodeID h = Ret h' /\ wired h' /\
    h_lines h' = h_lines h /\ h_files h' = touched (h_files h) /\
    (forall k, logs h' !! index k =
       Some (if Z.testbit logLevel (Z.of_nat (index k)) then File (handle h k) else Discard)) /\
    forall k, logged h' (handle h k) (log_file logPath nodeID k) []
                (default [] (h_files h !! log_file logPath nodeID k)).
Proof using Hopen.
  destruct h as [fs hs so [|a [|b [|c [|d []]]]] [|a' [|b' [|c' [|d' []]]]] n]; intros [Hl Ho]; try done.
  pose (ws := File <$> [length hs; length hs + 1; length hs + 3; length hs + 2]%nat).
  pose (hs' := hs ++ ((fun k => (log_file logPath nodeID k, 0%nat)) <$> [Info; Debug; Warn; Error])).
  destruct (SetLevel_spec logLevel (mkHost (touched fs) hs' so ws ws n)) as (ws' & Hs & Hlw & Hw); [done|].
  eexists. split.
  { unfold init_log. repeat (rewrite redirect_eq by done; cbn [mbind Outcome_bind h_files h_handles h_stdout logs out h_lines]).
    rewrite <-!app_assoc, !length_app. cbn [length Nat.add app]. exact Hs. }
  split_and!; [done..| |].
  - intros k. change (ws' !! index k = Some (if Z.testbit logLevel (Z.of_nat (index k))
      then File (handle (mkHost fs hs so [a; b; c; d] [a'; b'; c'; d'] n) k) else Discard)).
    rewrite Hw by (destruct k; unfold LevelNum; cbn; lia). case_match; [|done].
    unfold handle. destruct k; cbn; repeat f_equal; lia.
  - intros k. split; [|apply touched_log]. unfold handle. cbn [h_handles].
    change (hs' !! (length hs + match k with Info => 0 | Debug => 1 | Warn => 2 | Error => 3 end)%nat =
            Some (log_file logPath nodeID k, 0%nat)).
    unfold hs'. rewrite lookup_app_r by lia. rewrite Nat.add_comm, Nat.add_sub. by destruct k.
Qed.

(** *** Lines *)

Context (header : nat -> bytes).

(** What the loggers [logLevel] selects have written so far, from host [h0] on. *)
Definition state (h0 h : Host) (d : Logger -> bytes) : Prop :=
  (forall k, logs h !! index k =
     Some (if Z.testbit logLevel (Z.of_nat (index k)) then File (handle h0 k) else Discard)) /\
  forall k, logged h (handle h0 k) (log_file logPath nodeID k)
              (if Z.testbit logLevel (Z.of_nat (index k)) then d k else [])
              (default [] (h_files h0 !! log_file logPath nodeID k)).

Lemma write_logs (w : Writer) (data : bytes) (h : Host) : logs (write w data h) = logs h.
Proof using Type. destruct w; cbn; [done..|]. by destruct (h_handles h !! handle0) as [[??]|]. Qed.

Lemma handle_inj (h : Host) (k k' : Logger) : handle h k = handle h k' -> k = k'.
Proof using Type. unfold handle. destruct k, k'; cbn; (done || lia). Qed.

Lemma Println_state (h0 h : Host) (d : Logger -> bytes) (k : Logger) (s : bytes) :
  state h0 h d -> state h0 (Println header k s h)
    (fun k' => d k' ++ if decide (k = k') then line header k (h_lines h) s else []).
Proof using Type.
  intros [Hl Hf]. unfold Println. rewrite Hl. split.
  { intros k'. rewrite <-(Hl k'). cbn. by rewrite write_logs. }
  intros k'. assert (forall h' n i p d o, logged h' i p d o -> logged (h' <| h_lines := n |>) i p d o) as Hn by done.
  apply Hn. clear Hn. destruct (decide (k = k')) as [<-|Hne].
  - specialize (Hf k). case_match; [by apply write_own|done].
  - rewrite app_nil_r. apply write_other; [|apply Hf].
    intros j Hj. case_match; [|done]. injection Hj as <-. split; [by intros ?%handle_inj|].
    destruct (Hf k) as [-> _]. cbn. by intros [= ?%log_file_inj].
Qed.

Lemma print_all_state (h0 : Host) (ls : list (Logger * bytes)) : forall (h : Host) (d : Logger -> bytes),
  state h0 h d -> state h0 (print_all header ls h) (fun k => d k ++ lines_of header k (h_lines h) ls).
Proof using Type.
  induction ls as [|[k s] ls IH]; intros h d Hs; cbn [print_all foldl lines_of].
  - destruct Hs as [Hl Hf]. split; [done|]. intros k. rewrite app_nil_r. apply Hf.
  - apply (Println_state _ _ _ k s) in Hs as Hs1. apply IH in Hs1 as [Hl Hf]. split; [done|].
    intros k'. specialize (Hf k'). cbn beta in Hf. rewrite <-app_assoc in Hf.
    assert (h_lines (Println header k s h) = S (h_lines h)) as Hn by done. rewrite Hn in Hf.
    case_match; [|done]. replace (if decide (k = k') then line header k' (h_lines h) s else [])
      with (if decide (k = k') then line header k (h_lines h) s else []); [exact Hf|].
    by case_decide; subst.
Qed.

(** C34. The log files of a node.  After the first step of [NewNode] each of the four loggers
    writes to a file of its own if [logLevel] has its bit, and nowhere otherwise: whatever
    lines the program logs, in whatever order, a file holds exactly the lines of its
    logger, in order.  An old file is written over from its start without being cut, so
    that what it had beyond the new lines is still there. *)
Theorem logger_files (fs : files) (ls : list (Logger * bytes)) :
  exists h, init_log writable logPath logLevel nodeID (start fs) = Ret h /\
    h_files h = touched fs /\
    forall k, h_files (print_all header ls h) !! log_file logPath nodeID k =
      Some (overwrite (if Z.testbit logLevel (Z.of_nat (index k)) then lines_of header k 0 ls else [])
                      (default [] (fs !! log_file logPath nodeID k))).
Proof using Hopen.
  destruct (init_log_spec (start fs)) as (h & Hi & _ & Hn & Hfs & Hl & Hf); [done|].
  exists h. split_and!; [done..|].
  assert (state (start fs) h (fun _ => [])) as Hs.
  { split; [done|]. intros k. case_match; apply Hf. }
  apply (print_all_state _ ls) in Hs as [_ Hf']. intros k. destruct (Hf' k) as [_ H]. by rewrite Hn in H.
Qed.
End Init.

(** A second run logs a shorter line over the first run's: the end of the old line stays. *)
Lemma logger_files_witness :
  exists h, init_log (fun _ => true) [] DeployLevel 3 (start {[ log_file [] 3 Warn := text "0123456789abcdef" ]}) = Ret h /\
    h_files (print_all (fun _ => []) [(Debug, text "x"); (Warn, text "!"); (Info, text "y")] h) !! log_file [] 3 Warn =
      Some (text "[WARN] !89abcdef") /\
    h_files (print_all (fun _ => []) [(Debug, text "x"); (Warn, text "!"); (Info, text "y")] h) !! log_file [] 3 Debug =
      Some [].
Proof.
  destruct (logger_files (fun _ => true) [] DeployLevel 3 (fun _ => eq_refl) (fun _ => [])
    {[ log_file [] 3 Warn := text "0123456789abcdef" ]} [(Debug, text "x"); (Warn, text "!"); (Info, text "y")])
    as (h & Hi & _ & Hk).
  exists h. split; [exact Hi|]. split; [refine (eq_trans (Hk Warn) _)|refine (eq_trans (Hk Debug) _)];
    vm_compute; reflexivity.
Defined.
End Logger.
