(* ===== verification/Network.v ===== *)
(** * network and core.Transmitor: links, codec and addressing

    Models src/network/network.go, src/network/codec.go and
    src/core/transmitor.go.  A connection is the channel its writer goroutine
    drains: here, the list of the messages put on it.  Dialling is an oracle.
    The gob stream of a connection is the sequence of the values encoded on it. *)

From S2P Require Import Prelude Crypto Committee.
From stdpp Require Import strings.

Open Scope Z_scope.

Section Network.
Context {Msg : Type}.

(** ** Sender *)

Record NetMessage := mkNetMessage { NM_Msg : Msg; NM_Address : list string }.

Record Sender := mkSender { conns : gmap string (list Msg) }.

Definition NewSender : Sender := mkSender ∅.

(** The inner loop body of [Sender.Run] for one address; [dial] says whether
    [net.Dial] succeeds. *)
Definition sender_addr (dial : string -> bool) (msg : Msg) (s : Sender) (addr : string) : Sender :=
  match conns s !! addr with
  | Some q => mkSender (<[addr := q ++ [msg]]> (conns s))
  | None => if dial addr then mkSender (<[addr := [msg]]> (conns s)) else s
  end.

Definition sender_msg (dial : string -> bool) (s : Sender) (m : NetMessage) : Sender :=
  foldl (sender_addr dial (NM_Msg m)) s (NM_Address m).

(** [Sender.Run] on the messages of [msgCh], with the oracle at each of them. *)
Definition Sender_Run (s : Sender) (ms : list ((string -> bool) * NetMessage)) : Sender :=
  foldl (fun s dm => sender_msg dm.1 s dm.2) s ms.

(** What a message adds to the link to [addr]. *)
Definition copies (addr : string) (m : NetMessage) : list Msg :=
  (fun _ => NM_Msg m) <$> filter (fun a => a = addr) (NM_Address m).

Lemma sender_msg_link dial s (m : NetMessage) addr q :
  conns s !! addr = Some q ->
  conns (sender_msg dial s m) !! addr = Some (q ++ copies addr m).
Proof.
  unfold sender_msg, copies. destruct m as [msg addrs]. cbn.
  revert s q. induction addrs as [|a addrs IH]; intros s q Hq; cbn [foldl].
  - cbn. by rewrite app_nil_r.
  - rewrite filter_cons. unfold sender_addr at 2.
    destruct (decide (a = addr)) as [->|Hne].
    + rewrite Hq. erewrite IH; [|cbn; apply lookup_insert_eq].
      cbn. by rewrite <-app_assoc.
    + apply IH. repeat case_match; cbn; rewrite ?lookup_insert_ne by done; done.
Qed.

(** A link is first-in first-out and loses nothing once it is established:
    whatever else is sent and whichever dials fail, the messages put on it are
    exactly those addressed to it, in the order they were sent. *)
Theorem sender_link_fifo (s : Sender) (ms : list ((string -> bool) * NetMessage)) addr q :
  conns s !! addr = Some q ->
  conns (Sender_Run s ms) !! addr = Some (q ++ mjoin (copies addr <$> ms.*2)).
Proof.
  unfold Sender_Run. revert s q. induction ms as [|[dial m] ms IH]; intros s q Hq; cbn.
  - by rewrite app_nil_r.
  - erewrite IH; [|by apply sender_msg_link]. by rewrite <-app_assoc.
Qed.

(** A message whose dial fails is dropped: the loop moves on to the next
    address. *)
Lemma sender_dial_fails s msg addr dial :
  conns s !! addr = None -> dial addr = false -> sender_addr dial msg s addr = s.
Proof. unfold sender_addr. by intros -> ->. Qed.

(** ** Codec *)

Inductive gob_item :=
| GobInt (typeId : Z)
| GobMsg (m : Msg).

(** The message types of a protocol ([DefaultMessageTypeMap]), the type id of a
    message, and gob's decoding of an encoded message into the struct type of a
    type id. *)
Context (types : gset Z) (MsgType : Msg -> Z) (gob_into : Z -> Msg -> option Msg).

(** [Codec.Write]: [ok1], [ok2] are the outcomes of the two [Encode] calls. *)
Definition Codec_Write (ok1 ok2 : bool) (msg : Msg) (stream : list gob_item) :
    list gob_item * bool :=
  if ok1 then
    let stream1 := stream ++ [GobInt (MsgType msg)] in
    if ok2 then (stream1 ++ [GobMsg msg], true) else (stream1, false)
  else (stream, false).

(** [Codec.Read]: [reflect.New] panics on the nil type of an unknown id.
    [None] is a returned error. *)
Definition Codec_Read (stream : list gob_item) : Outcome (option (Msg * list gob_item)) :=
  match stream with
  | GobInt typeId :: rest =>
      if bool_decide (typeId ∈ types) then
        match rest with
        | GobMsg m :: rest' =>
            match gob_into typeId m with
            | Some m' => Ret (Some (m', rest'))
            | None => Ret None
            end
        | _ => Ret None
        end
      else Panic
  | _ => Ret None
  end.

Fixpoint write_all (ms : list Msg) (stream : list gob_item) : list gob_item :=
  match ms with
  | [] => stream
  | m :: ms' => write_all ms' (Codec_Write true true m stream).1
  end.

(** [serveConn]: read until an error; [Panic] takes the process down. *)
Fixpoint serveConn (fuel : nat) (stream : list gob_item) : Outcome (list Msg) :=
  match fuel with
  | O => Ret []
  | S fuel' =>
      match Codec_Read stream with
      | Panic => Panic
      | Ret None => Ret []
      | Ret (Some (m, rest)) =>
          match serveConn fuel' rest with Ret ms => Ret (m :: ms) | Panic => Panic end
      end
  end.

Lemma write_all_app ms stream : write_all ms stream = stream ++ write_all ms [].
Proof.
  revert stream. induction ms as [|m ms IH]; intros stream; cbn.
  - by rewrite app_nil_r.
  - rewrite IH, (IH [_; _]). by rewrite <-!app_assoc.
Qed.

(** What a peer writes on a connection is what the receiver delivers, in order, each message
    as gob decodes it; any fuel above the number of messages suffices. *)
Lemma codec_roundtrip (arrived : Msg -> Msg) (ms : list Msg) (fuel : nat) :
  Forall (fun m => MsgType m ∈ types /\ gob_into (MsgType m) m = Some (arrived m)) ms ->
  (length ms < fuel)%nat ->
  serveConn fuel (write_all ms []) = Ret (arrived <$> ms).
Proof.
  intros Hms. revert fuel. induction Hms as [|m ms [Hty Hgob] _ IH]; intros fuel Hf.
  - destruct fuel; [lia|]. done.
  - destruct fuel as [|fuel]; [lia|].
    cbn [write_all Codec_Write fst]. rewrite write_all_app. cbn.
    rewrite bool_decide_true, Hgob, IH by (done || cbn in Hf; lia). done.
Qed.

(** A peer that sends a type id outside the protocol's type map crashes
    the receiver: [reflect.New] is called on a nil type. *)
Theorem codec_unknown_type_panics (typeId : Z) (rest : list gob_item) (fuel : nat) :
  typeId ∉ types -> serveConn (S fuel) (GobInt typeId :: rest) = Panic.
Proof. intros H. cbn. by rewrite bool_decide_false. Qed.

End Network.

Arguments NetMessage : clear implicits.
Arguments Sender : clear implicits.

Lemma sender_link_fifo_witness :
  conns (Sender_Run (mkSender {[ "a"%string := [1] ]})
           [(fun _ => false, mkNetMessage 2 ["b"%string; "a"%string]);
            (fun _ => true, mkNetMessage 3 ["a"%string])]) !! "a"%string = Some [1; 2; 3].
Proof.
  etrans; [apply (sender_link_fifo (mkSender {[ "a"%string := [1] ]}) _ _ [1])|]; reflexivity.
Defined.

Lemma codec_unknown_type_panics_witness :
  serveConn (Msg := Z) {[ 0; 1 ]} (fun _ m => Some m) 1 [GobInt 7] = Panic.
Proof. apply codec_unknown_type_panics. set_solver. Defined.

(** ** Transmitor *)

(** [Transmitor.Send]: the broadcast addresses for [NONE], else the one of the
    recipient; [order] is the order of the [range] over the committee. *)
Definition Transmitor_Send {Msg : Type} (committee : Committee) (order : list NodeID)
    (from to : NodeID) (msg : Msg) : NetMessage Msg :=
  let addr := if to =? NONE then BroadCast committee order from
              else [Committee_Address committee to] in
  mkNetMessage msg addr.

(** ** Receiver *)

Section Receiver.
Context {Msg : Type} (types : gset Z) (gob_into : Z -> Msg -> option Msg).

Record Receiver := mkReceiver { rc_addr : bytes; rc_msg : list Msg }.

Definition NewReceiver (addr : bytes) : Receiver := mkReceiver addr [].

(** The loop of [Receiver.Run] over the calls of [Accept]: [None] is an error, and the
    stream of a connection is served by a goroutine of its own.  The result is what each
    of them puts on the channel; a panic of one is one of the process. *)
Fixpoint accept_all (fuel : nat) (accepts : list (option (list (gob_item (Msg := Msg))))) :
    Outcome (list (list Msg)) :=
  match accepts with
  | [] => Ret []
  | None :: rest => accept_all fuel rest
  | Some stream :: rest =>
      ms ← serveConn types gob_into fuel stream;
      mss ← accept_all fuel rest;
      mret (ms :: mss)
  end.

(** [listens] says whether [net.Listen] binds the address. *)
Definition Receiver_Run (listens : bool) (fuel : nat)
    (accepts : list (option (list (gob_item (Msg := Msg))))) : Outcome (list (list Msg)) :=
  if listens then accept_all fuel accepts else Panic.

Lemma accept_all_delivers (MsgType : Msg -> Z) (arrived : Msg -> Msg) (peers : list (option (list Msg)))
    (fuel : nat) :
  Forall (fun p => Forall (fun m => MsgType m ∈ types /\ gob_into (MsgType m) m = Some (arrived m)) (default [] p) /\
                   (length (default [] p) < fuel)%nat) peers ->
  accept_all fuel (map (option_map (fun ms => write_all MsgType ms [])) peers) =
  Ret (map (map arrived) (omap (fun p : option (list Msg) => p) peers)).
Proof.
  induction 1 as [|[ms|] peers [Hty Hf] _ IH]; cbn; [done| |exact IH].
  cbn in Hty, Hf. rewrite (codec_roundtrip types MsgType gob_into arrived) by done. cbn. by rewrite IH.
Qed.
End Receiver.
Arguments Receiver : clear implicits.

(** *** What a protocol package promises to the network

    Its type map, the type of a message, the messages it sends (pointers that are not
    nil), and what arrives of a message: gob omits empty slices, which arrive as nil. *)
Class Wire (Msg : Type) := {
  wire_types : gset Z;
  wire_MsgType : Msg -> Z;
  wire_ok : Msg -> Prop;
  wire_arrived : Msg -> Msg
}.

(** The types of the messages sent are in the map. *)
Class WireLaws (Msg : Type) `{Wire Msg} :=
  wire_registered : forall m : Msg, wire_ok m -> wire_MsgType m ∈ wire_types.

(** gob on the messages of a protocol: a message decodes into a struct of its own type, with
    its empty slices nil. *)
Definition gob_decodes {Msg : Type} `{Wire Msg} (gob_into : Z -> Msg -> option Msg) : Prop :=
  forall m, wire_ok m -> gob_into (wire_MsgType m) m = Some (wire_arrived m).

(** ** The goroutines between a protocol and its links

    [NewTransmitor] starts two goroutines: one moves messages from [Transmitor.msgCh] to
    the channel of the sender, one from the channel of the receiver to [recvCh].  Each
    may hold a message it has taken and cannot yet put. *)

Section Pipeline.
Context {Msg : Type}.

(** The capacity of all these channels. *)
Definition net_cap : nat := 1000.

(** [ch <- x], unless it blocks *)
Definition push {A : Type} (x : A) (ch : list A) : option (list A) :=
  if bool_decide (length ch < net_cap)%nat then Some (ch ++ [x]) else None.

Record Transmitor := mkTransmitor {
  tr_msgCh : list (NetMessage Msg);
  tr_out : option (NetMessage Msg);        (* held by the first goroutine *)
  snd_msgCh : list (NetMessage Msg);       (* of the sender *)
  tr_sender : Sender Msg;
  rcv_msg : list Msg;                      (* of the receiver *)
  tr_in : option Msg;                      (* held by the second goroutine *)
  tr_recvCh : list Msg
}.

Definition NewTransmitor (sender : Sender Msg) : Transmitor := mkTransmitor [] None [] sender [] None [].

(** What can happen: [Send] of the protocol, the two halves of the first goroutine, one
    iteration of [Sender.Run], a message read from a connection, the two halves of the
    second goroutine, and [Recv] of the protocol. *)
Inductive tr_op :=
| TrSend (m : NetMessage Msg)
| TrTake
| TrPut
| TrRun (dial : string -> bool)
| TrRead (m : Msg)
| TrTakeIn
| TrPutIn
| TrRecv.

(** An operation that would block has no result; [Recv] gives a message. *)
Definition tr_step (t : Transmitor) (o : tr_op) : option (Transmitor * option Msg) :=
  let '(mkTransmitor ms out ss snd rs inn us) := t in
  match o with
  | TrSend m => ms' ← push m ms; Some (mkTransmitor ms' out ss snd rs inn us, None)
  | TrTake => match ms, out with
              | m :: ms', None => Some (mkTransmitor ms' (Some m) ss snd rs inn us, None)
              | _, _ => None
              end
  | TrPut => m ← out; ss' ← push m ss; Some (mkTransmitor ms None ss' snd rs inn us, None)
  | TrRun dial => match ss with
                  | m :: ss' => Some (mkTransmitor ms out ss' (sender_msg dial snd m) rs inn us, None)
                  | [] => None
                  end
  | TrRead m => rs' ← push m rs; Some (mkTransmitor ms out ss snd rs' inn us, None)
  | TrTakeIn => match rs, inn with
                | m :: rs', None => Some (mkTransmitor ms out ss snd rs' (Some m) us, None)
                | _, _ => None
                end
  | TrPutIn => m ← inn; us' ← push m us; Some (mkTransmitor ms out ss snd rs None us', None)
  | TrRecv => match us with
              | m :: us' => Some (mkTransmitor ms out ss snd rs inn us', Some m)
              | [] => None
              end
  end.

(** A sequence of operations, with what [Recv] has given. *)
Fixpoint tr_run (t : Transmitor) (os : list tr_op) : option (Transmitor * list Msg) :=
  match os with
  | [] => Some (t, [])
  | o :: os' =>
      '(t1, r) ← tr_step t o;
      '(t2, rs) ← tr_run t1 os';
      Some (t2, option_list r ++ rs)
  end.

(** What was sent and read, and what is under way in each direction, in order. *)
Definition sent_by (os : list tr_op) : list (NetMessage Msg) :=
  omap (fun o => match o with TrSend m => Some m | _ => None end) os.
Definition read_by (os : list tr_op) : list Msg :=
  omap (fun o => match o with TrRead m => Some m | _ => None end) os.
Definition outgoing (t : Transmitor) : list (NetMessage Msg) :=
  snd_msgCh t ++ option_list (tr_out t) ++ tr_msgCh t.
Definition incoming (t : Transmitor) : list Msg := tr_recvCh t ++ option_list (tr_in t) ++ rcv_msg t.

Lemma push_Some {A : Type} (x : A) (ch ch' : list A) : push x ch = Some ch' -> ch' = ch ++ [x].
Proof. unfold push. case_bool_decide; by intros [= <-]. Qed.

Lemma tr_step_link (t t' : Transmitor) (o : tr_op) (r : option Msg) addr q :
  tr_step t o = Some (t', r) -> conns (tr_sender t) !! addr = Some q -> exists q',
    conns (tr_sender t') !! addr = Some q' /\
    q' ++ mjoin (copies addr <$> outgoing t') =
    q ++ mjoin (copies addr <$> outgoing t ++ sent_by [o]).
Proof.
  destruct t as [ms out ss snd rs inn us]. intros Hs Hq. unfold outgoing.
  destruct o; cbn in Hs |- *; unfold mbind, option_bind in Hs; repeat case_match; simplify_eq; cbn in *;
    try (exists q; split; [exact Hq|]; rewrite ?app_nil_r; done);
    repeat match goal with H : push _ _ = Some _ |- _ => apply push_Some in H; subst end.
  all: try (exists q; split; [exact Hq|]; by rewrite ?app_nil_r, <-?app_assoc).
  eexists. split; [by apply sender_msg_link|]. by rewrite ?app_nil_r, <-?app_assoc.
Qed.

Lemma tr_step_in (t t' : Transmitor) (o : tr_op) (r : option Msg) :
  tr_step t o = Some (t', r) -> option_list r ++ incoming t' = incoming t ++ read_by [o].
Proof.
  destruct t as [ms out ss snd rs inn us]. intros Hs. unfold incoming.
  destruct o; cbn in Hs |- *; unfold mbind, option_bind in Hs; repeat case_match; simplify_eq; cbn in *;
    repeat match goal with H : push _ _ = Some _ |- _ => apply push_Some in H; subst end;
    by rewrite ?app_nil_r, <-?app_assoc.
Qed.

(** C27. The way between a protocol and its links loses nothing and keeps the order, in both
    directions and under every schedule of the goroutines: on an established link are
    the messages sent to its address without those still under way, and the protocol
    has received what was read without that under way. *)
Theorem transmitor_fifo (os : list tr_op) (t t' : Transmitor) (rs : list Msg) addr q :
  tr_run t os = Some (t', rs) -> conns (tr_sender t) !! addr = Some q -> exists q',
    conns (tr_sender t') !! addr = Some q' /\
    q' ++ mjoin (copies addr <$> outgoing t') =
    q ++ mjoin (copies addr <$> outgoing t ++ sent_by os) /\
    rs ++ incoming t' = incoming t ++ read_by os.
Proof.
  revert t q rs. induction os as [|o os IH]; intros t q rs Hr Hq; cbn in Hr.
  { simplify_eq. exists q. by rewrite !app_nil_r. }
  destruct (tr_step t o) as [[t1 r]|] eqn:Hs; cbn in Hr; [|done].
  destruct (tr_run t1 os) as [[t2 rs']|] eqn:Hr'; cbn in Hr; simplify_eq.
  destruct (tr_step_link _ _ _ _ _ _ Hs Hq) as (q1 & Hq1 & He1). apply tr_step_in in Hs.
  destruct (IH _ _ _ Hr' Hq1) as (q' & Hq' & He & Hin). exists q'. split; [exact Hq'|].
  split.
  - rewrite He, fmap_app, join_app, app_assoc, He1, <-app_assoc, <-join_app, <-fmap_app, <-app_assoc.
    by destruct o.
  - rewrite <-app_assoc, Hin, app_assoc, Hs, <-app_assoc. by destruct o.
Qed.
End Pipeline.
Arguments Transmitor : clear implicits.
Arguments tr_op : clear implicits.

Definition toy_transmitor : Transmitor Z := NewTransmitor (mkSender {[ "a"%string := [] ]}).
Definition toy_ops : list (tr_op Z) :=
  [TrSend (mkNetMessage 1 ["a"%string]); TrRead 7; TrTake; TrSend (mkNetMessage 2 ["b"%string; "a"%string]);
   TrPut; TrTakeIn; TrRun (fun _ => false); TrTake; TrPutIn; TrRecv; TrPut; TrRun (fun _ => false)].

Lemma transmitor_fifo_witness :
  exists t, tr_run toy_transmitor toy_ops = Some (t, [7]) /\ conns (tr_sender t) !! "a"%string = Some [1; 2].
Proof.
  assert ((fun x => (x.2, outgoing x.1)) <$> tr_run toy_transmitor toy_ops = Some ([7], [])) as Hr
    by (vm_compute; reflexivity).
  destruct (tr_run toy_transmitor toy_ops) as [[t rs]|] eqn:Hrun; [|discriminate].
  cbn in Hr. injection Hr as -> Ho.
  destruct (transmitor_fifo toy_ops toy_transmitor t [7] "a"%string [] Hrun) as (q & Hq & He & _).
  - vm_compute. reflexivity.
  - exists t. split; [reflexivity|]. rewrite Hq, <-(app_nil_r q). f_equal. rewrite Ho in He. exact He.
Defined.
