(* ===== verification/Quorum.v ===== *)
(** * Vote collection

    Every aggregator of the four protocols keeps the set of authors it has heard
    from, refuses a second message of an author and acts when a counter reaches a
    threshold.  This file is their common specification: [firsts] is the votes
    that count (the first of each author), and the lemmas relate thresholds on
    counters to quorums of nodes.  [add_item] is the lookup-or-create access to
    the per (epoch, round) aggregators. *)

From S2P Require Import Prelude Committee.

Open Scope Z_scope.

(** ** The first vote of each author *)

Section Firsts.
Context {V : Type} (author : V -> NodeID).

Definition voters (vs : list V) : gset NodeID := list_to_set (author <$> vs).

Fixpoint firsts_from (seen : gset NodeID) (vs : list V) : list V :=
  match vs with
  | [] => []
  | v :: vs' =>
      if bool_decide (author v ∈ seen) then firsts_from seen vs'
      else v :: firsts_from ({[author v]} ∪ seen) vs'
  end.

Definition firsts (vs : list V) : list V := firsts_from ∅ vs.

(** The number of counted votes satisfying [p]. *)
Definition tally (p : V -> bool) (vs : list V) : Z :=
  Z.of_nat (length (filter (fun v => p v = true) (firsts vs))).

Lemma voters_app (vs ws : list V) : voters (vs ++ ws) = voters vs ∪ voters ws.
Proof. unfold voters. by rewrite fmap_app, list_to_set_app_L. Qed.

Lemma voters_singleton (v : V) : voters [v] = {[author v]}.
Proof. unfold voters. set_solver. Qed.

Lemma voters_snoc (vs : list V) (v : V) :
  voters (vs ++ [v]) =
  if bool_decide (author v ∈ voters vs) then voters vs else {[author v]} ∪ voters vs.
Proof.
  rewrite voters_app, voters_singleton. generalize (voters vs). intros X.
  case_bool_decide; set_solver.
Qed.

Lemma size_voters_snoc (vs : list V) (v : V) :
  size (voters (vs ++ [v])) =
  if bool_decide (author v ∈ voters vs) then size (voters vs) else S (size (voters vs)).
Proof. rewrite voters_snoc. case_bool_decide; [done|]. by apply size_insert_new. Qed.

Lemma firsts_from_snoc (seen : gset NodeID) (vs : list V) (v : V) :
  firsts_from seen (vs ++ [v]) =
  firsts_from seen vs ++ (if bool_decide (author v ∈ seen ∪ voters vs) then [] else [v]).
Proof.
  revert seen. induction vs as [|w vs IH]; intros seen; cbn.
  - rewrite (right_id_L ∅ (∪)). by case_bool_decide.
  - unfold voters in *. cbn. case_bool_decide as Hw; rewrite IH; cbn.
    + generalize (list_to_set (author <$> vs) : gset NodeID). intros X.
      erewrite (bool_decide_ext (author v ∈ seen ∪ ({[author w]} ∪ X))); [done|].
      destruct (decide (author v = author w)) as [->|]; set_solver.
    + generalize (list_to_set (author <$> vs) : gset NodeID). intros X.
      erewrite (bool_decide_ext (author v ∈ seen ∪ ({[author w]} ∪ X))); [done|]. set_solver.
Qed.

Lemma firsts_snoc (vs : list V) (v : V) :
  firsts (vs ++ [v]) = firsts vs ++ (if bool_decide (author v ∈ voters vs) then [] else [v]).
Proof. unfold firsts. rewrite firsts_from_snoc. by rewrite (left_id_L ∅ (∪)). Qed.

Lemma firsts_from_fresh (seen : gset NodeID) (vs : list V) (v : V) :
  v ∈ firsts_from seen vs -> (author v ∉ seen) /\ v ∈ vs.
Proof.
  revert seen. induction vs as [|w vs IH]; intros seen; cbn; [set_solver|].
  case_bool_decide; rewrite ?elem_of_cons.
  - intros Hv%IH. set_solver.
  - intros [->|Hv%IH]; set_solver.
Qed.

Lemma firsts_sub (vs : list V) (v : V) : v ∈ firsts vs -> v ∈ vs.
Proof. by intros [_ ?]%firsts_from_fresh. Qed.

Lemma firsts_NoDup (vs : list V) : NoDup (author <$> firsts vs).
Proof.
  unfold firsts. generalize (∅ : gset NodeID).
  induction vs as [|w vs IH]; intros seen; cbn; [constructor|].
  case_bool_decide; [done|]. cbn. constructor; [|done].
  intros (v & Heq & Hv)%list_elem_of_fmap. apply firsts_from_fresh in Hv. set_solver.
Qed.

Lemma firsts_voters (vs : list V) : voters (firsts vs) = voters vs.
Proof.
  induction vs as [|v vs IH] using rev_ind; [done|].
  rewrite firsts_snoc, !voters_app, IH, voters_singleton. case_bool_decide.
  - unfold voters at 2. cbn. set_solver.
  - by rewrite voters_singleton.
Qed.

Lemma length_firsts (vs : list V) : length (firsts vs) = size (voters vs).
Proof.
  rewrite <-firsts_voters. unfold voters.
  rewrite size_list_to_set by apply firsts_NoDup. by rewrite length_fmap.
Qed.

Lemma tally_snoc (p : V -> bool) (vs : list V) (v : V) :
  tally p (vs ++ [v]) =
  tally p vs + (if bool_decide (author v ∈ voters vs) then 0 else if p v then 1 else 0).
Proof.
  unfold tally. rewrite firsts_snoc, filter_app, length_app.
  case_bool_decide; [rewrite filter_nil; cbn; lia|]. rewrite filter_cons, filter_nil.
  destruct (p v); [rewrite decide_True by done|rewrite decide_False by done]; cbn; lia.
Qed.

Lemma tally_nil (p : V -> bool) : tally p [] = 0.
Proof. done. Qed.

Lemma tally_nonneg (p : V -> bool) (vs : list V) : 0 <= tally p vs.
Proof. unfold tally. lia. Qed.

Lemma tally_split (p : V -> bool) (vs : list V) :
  tally p vs + tally (fun v => negb (p v)) vs = Z.of_nat (size (voters vs)).
Proof.
  rewrite <-length_firsts. unfold tally. induction (firsts vs) as [|v l IH]; [done|].
  rewrite !filter_cons.
  destruct (p v); cbn [negb]; repeat first [rewrite decide_True by done
    |rewrite decide_False by done]; cbn [length]; lia.
Qed.

(** The nodes whose counted vote satisfies [p]. *)
Definition supporters (p : V -> bool) (vs : list V) : gset NodeID :=
  voters (filter (fun v => p v = true) (firsts vs)).

Lemma size_supporters (p : V -> bool) (vs : list V) :
  Z.of_nat (size (supporters p vs)) = tally p vs.
Proof.
  unfold supporters, tally, voters. rewrite size_list_to_set; [by rewrite length_fmap|].
  eapply sublist_NoDup; [apply firsts_NoDup|]. apply fmap_sublist, sublist_filter.
Qed.

Lemma elem_of_supporters (p : V -> bool) (vs : list V) (x : NodeID) :
  x ∈ supporters p vs <-> exists v, v ∈ firsts vs /\ p v = true /\ author v = x.
Proof.
  unfold supporters, voters. rewrite elem_of_list_to_set, list_elem_of_fmap.
  setoid_rewrite list_elem_of_filter. naive_solver.
Qed.

Lemma firsts_unique (vs : list V) (v w : V) :
  v ∈ firsts vs -> w ∈ firsts vs -> author v = author w -> v = w.
Proof.
  intros [i Hi]%list_elem_of_lookup [j Hj]%list_elem_of_lookup Ha.
  assert (i = j) as ->; [|congruence].
  eapply (NoDup_lookup (author <$> firsts vs)); [apply firsts_NoDup| |].
  - rewrite list_lookup_fmap, Hi. done.
  - rewrite list_lookup_fmap, Hj. cbn. by rewrite Ha.
Qed.

Lemma voters_prefix (vs ws : list V) : vs `prefix_of` ws -> voters vs ⊆ voters ws.
Proof. intros [l ->]. rewrite voters_app. set_solver. Qed.

End Firsts.

(** Two collectors, one of which counted a quorum of votes for [p] and the other
    a quorum against: with at most [f] faulty members, some correct member's
    counted vote differs between them. *)
Lemma opposed_quorums {V : Type} (author : V -> NodeID) (c : Committee) (B : gset NodeID)
    (p q : V -> bool) (vs ws : list V) :
  Committee_Size c = 3 * max_faults c + 1 ->
  Z.of_nat (size B) <= max_faults c ->
  voters author vs ⊆ members c -> voters author ws ⊆ members c ->
  HightThreshold c <= tally author p vs -> HightThreshold c <= tally author q ws ->
  exists v w, v ∈ firsts author vs /\ w ∈ firsts author ws /\ author v = author w /\
    (author v ∉ B) /\ p v = true /\ q w = true.
Proof.
  intros Hn HB Hvs Hws Hp Hq.
  assert (forall p l, supporters author p l ⊆ voters author l) as Hsub.
  { intros p' l x (v & Hv & _ & <-)%elem_of_supporters. apply elem_of_list_to_set.
    apply list_elem_of_fmap. exists v. split; [done|]. by eapply firsts_sub. }
  destruct (quorum_intersection c B (supporters author p vs) (supporters author q ws))
    as (x & H1 & H2 & H3); rewrite ?size_supporters; try done.
  1,2: etrans; [apply Hsub|done].
  apply elem_of_supporters in H1 as (v & ? & ? & <-).
  apply elem_of_supporters in H2 as (w & ? & ? & ?). exists v, w. done.
Qed.

(** ** Access to the aggregator of an epoch, (epoch, round) or (epoch, round, try)

    [items, ok := m[epoch]; if !ok {...}; item, ok := items[round]; if !ok {...};
    return item.Append(...)], for one, two or three levels of maps. *)

Definition add_item1 {I R : Type} (m : gmap Z I) (epoch : Z) (new : I)
    (append : I -> I * R) : gmap Z I * R :=
  let '(item, r) := append (default new (m !! epoch)) in (<[epoch := item]> m, r).

Definition add_item {I R : Type} (m : gmap Z (gmap Z I)) (epoch round : Z) (new : I)
    (append : I -> I * R) : gmap Z (gmap Z I) * R :=
  let items := ensure epoch m in
  let '(item, r) := append (default new (lookup2 items epoch round)) in
  (insert2 epoch round item items, r).

(** The same with a mistake: on a miss the message is appended to one new item and
    another new one is stored. *)
Definition add_item_lost {I R : Type} (m : gmap Z (gmap Z I)) (epoch round : Z) (new : I)
    (append : I -> I * R) : gmap Z (gmap Z I) * R :=
  let items := ensure epoch m in
  match lookup2 items epoch round with
  | Some item => let '(item, r) := append item in (insert2 epoch round item items, r)
  | None => let '(_, r) := append new in (insert2 epoch round new items, r)
  end.

Definition add_item3 {I R : Type} (m : gmap Z (gmap Z (gmap Z I))) (epoch round try : Z) (new : I)
    (append : I -> I * R) : gmap Z (gmap Z (gmap Z I)) * R :=
  let '(item, r) := append (default new (lookup3 m epoch round try)) in
  (insert3 epoch round try item m, r).

(** A sequence of calls of a method: the last state and the answers. *)
Fixpoint run_calls {S V R : Type} (f : S -> V -> S * R) (s : S) (vs : list V) : S * list R :=
  match vs with
  | [] => (s, [])
  | v :: vs' => let '(s1, r) := f s v in let '(s2, rs) := run_calls f s1 vs' in (s2, r :: rs)
  end.

(** A method that works on one field of its receiver. *)
Lemma run_calls_field {S S' V R : Type} (proj : S -> S') (Inv : S -> Prop)
    (f : S -> V -> S * R) (f' : S' -> V -> S' * R) (s : S) (vs : list V) :
  Inv s ->
  (forall s v, Inv s -> Inv (f s v).1 /\ proj (f s v).1 = (f' (proj s) v).1 /\ (f s v).2 = (f' (proj s) v).2) ->
  (run_calls f s vs).2 = (run_calls f' (proj s) vs).2.
Proof.
  intros Hi Hf. revert s Hi. induction vs as [|v vs IH]; intros s Hi; cbn; [done|].
  destruct (Hf s v Hi) as (Hi1 & Hp & Hr).
  destruct (f s v) as [s1 r1], (f' (proj s) v) as [s1' r1']. cbn in *. subst.
  specialize (IH s1 Hi1).
  destruct (run_calls f s1 vs), (run_calls f' (proj s1) vs). cbn in *. by subst.
Qed.

(** ** Aggregators as functions of the history

    An aggregator refines a [verdict]: what it answers to a message is a
    function of the messages with the same key (epoch, round, ...) it was given
    before.  [look] reads the item of a key, [add] is the method. *)

Section Refinement.
Context {Map Key I V R : Type} `{EqDecision Key}.
Context (look : Map -> Key -> option I) (key : V -> Key).
Context (new : I) (append : V -> I -> I * R) (add : Map -> V -> Map * R).
Context (Abs : I -> list V -> Prop) (verdict : list V -> V -> R).

(** The messages of one key. *)
Definition at_key (k : Key) (vs : list V) : list V := filter (fun v => key v = k) vs.

(** What the specification answers to the messages [vs] after [hist]. *)
Fixpoint verdicts (hist vs : list V) : list R :=
  match vs with
  | [] => []
  | v :: vs' => verdict (at_key (key v) hist) v :: verdicts (hist ++ [v]) vs'
  end.

(** The method appends to the item of the message's key and leaves the others. *)
Definition adds_at_key : Prop :=
  forall m v,
    (add m v).2 = (append v (default new (look m (key v)))).2 /\
    (forall k, look (add m v).1 k =
       if decide (key v = k) then Some (append v (default new (look m (key v)))).1
       else look m k).

(** One item and the messages it was given. *)
Definition refines_verdict : Prop :=
  Abs new [] /\
  forall i vs v, Abs i vs -> Abs (append v i).1 (vs ++ [v]) /\ (append v i).2 = verdict vs v.

Definition abs_map (m : Map) (hist : list V) : Prop :=
  forall k, Abs (default new (look m k)) (at_key k hist).

Lemma at_key_snoc (k : Key) (vs : list V) (v : V) :
  at_key k (vs ++ [v]) = at_key k vs ++ (if decide (key v = k) then [v] else []).
Proof. unfold at_key. by rewrite filter_app, filter_cons, filter_nil. Qed.

Lemma at_key_all (k : Key) (vs : list V) : Forall (fun v => key v = k) vs -> at_key k vs = vs.
Proof.
  unfold at_key. induction 1 as [|v vs Hv _ IH]; [done|].
  by rewrite filter_cons, decide_True, IH.
Qed.

Lemma add_refines (m : Map) (hist : list V) (v : V) :
  adds_at_key -> refines_verdict -> abs_map m hist ->
  abs_map (add m v).1 (hist ++ [v]) /\ (add m v).2 = verdict (at_key (key v) hist) v.
Proof.
  intros Hadd [_ Hv] Hm. destruct (Hadd m v) as [Hres Hlook]. split.
  - intros k. rewrite Hlook, at_key_snoc. case_decide as Hd; cbn.
    + subst k. apply Hv, Hm.
    + rewrite app_nil_r. apply Hm.
  - rewrite Hres. apply Hv, Hm.
Qed.

Lemma run_refines (m : Map) (hist vs : list V) :
  adds_at_key -> refines_verdict -> abs_map m hist ->
  abs_map (run_calls add m vs).1 (hist ++ vs) /\ (run_calls add m vs).2 = verdicts hist vs.
Proof.
  intros Hadd Hv. revert m hist. induction vs as [|v vs IH]; intros m hist Hm; cbn.
  - by rewrite app_nil_r.
  - destruct (add_refines m hist v Hadd Hv Hm) as [Hm1 Hr].
    destruct (add m v) as [m1 r]. cbn in Hm1, Hr.
    destruct (IH m1 (hist ++ [v]) Hm1) as [Hm2 Hrs].
    destruct (run_calls add m1 vs) as [m2 rs]. cbn in *. rewrite <-app_assoc in Hm2.
    split; [done|]. by rewrite Hr, Hrs.
Qed.

(** From a map without items. *)
Lemma length_verdicts (hist vs : list V) : length (verdicts hist vs) = length vs.
Proof. revert hist. induction vs as [|v vs IH]; intros hist; cbn; [done|]. by rewrite IH. Qed.

Lemma run_verdicts (m : Map) (vs : list V) :
  adds_at_key -> refines_verdict -> (forall k, look m k = None) ->
  (run_calls add m vs).2 = verdicts [] vs.
Proof.
  intros Hadd Hv Hm. apply (run_refines m [] vs Hadd Hv).
  intros k. rewrite Hm. apply Hv.
Qed.

End Refinement.

(** The three ways to reach an item. *)
Section Adders.
Context {I V R : Type} (new : I) (append : V -> I -> I * R).

Definition look1 (m : gmap Z I) (k : Z) : option I := m !! k.
Definition look2 (m : gmap Z (gmap Z I)) (k : Z * Z) : option I := lookup2 m k.1 k.2.
Definition look3 (m : gmap Z (gmap Z (gmap Z I))) (k : Z * Z * Z) : option I :=
  lookup3 m k.1.1 k.1.2 k.2.

Lemma add_item1_at_key (key : V -> Z) :
  adds_at_key look1 key new append (fun m v => add_item1 m (key v) new (append v)).
Proof.
  intros m v. unfold add_item1, look1. destruct (append v _) as [item r]. split; [done|].
  intros k. cbn. by rewrite lookup_insert.
Qed.

Lemma add_item_at_key (key : V -> Z * Z) :
  adds_at_key look2 key new append (fun m v => add_item m (key v).1 (key v).2 new (append v)).
Proof.
  intros m v. unfold add_item, look2. rewrite lookup2_ensure.
  destruct (append v _) as [item r]. split; [done|]. intros [e rd]. cbn.
  rewrite lookup2_insert2, lookup2_ensure. destruct (key v) as [e' rd']. cbn.
  repeat case_decide; naive_solver.
Qed.

Lemma add_item3_at_key (key : V -> Z * Z * Z) :
  adds_at_key look3 key new append
    (fun m v => add_item3 m (key v).1.1 (key v).1.2 (key v).2 new (append v)).
Proof.
  intros m v. unfold add_item3, look3.
  destruct (append v _) as [item r]. split; [done|]. intros [[e rd] t]. cbn.
  rewrite lookup3_insert3. destruct (key v) as [[e' rd'] t']. cbn.
  repeat case_decide; naive_solver.
Qed.

(** An item after [add_item_lost]: nothing before the first message, then one that
    has not seen it. *)
Definition append_lost (v : V) (i : option I) : option I * R :=
  match i with
  | Some i => let '(i, r) := append v i in (Some i, r)
  | None => (Some new, (append v new).2)
  end.

Lemma add_item_lost_at_key (key : V -> Z * Z) :
  adds_at_key (fun m k => Some <$> look2 m k) key None append_lost
    (fun m v => add_item_lost m (key v).1 (key v).2 new (append v)).
Proof.
  intros m v. unfold add_item_lost, look2. rewrite lookup2_ensure.
  assert (forall x, forall k : Z * Z,
    lookup2 (insert2 (key v).1 (key v).2 x (ensure (key v).1 m)) k.1 k.2 =
    if decide (key v = k) then Some x else lookup2 m k.1 k.2) as Hk.
  { intros x [e rd]. rewrite lookup2_insert2, lookup2_ensure. destruct (key v) as [e' rd']. cbn.
    repeat case_decide; naive_solver. }
  destruct (lookup2 m _ _) as [i|]; cbn.
  - destruct (append v i) as [i' r]. split; [done|]. intros k. cbn. rewrite Hk. by case_decide.
  - destruct (append v new) as [i' r]. split; [done|]. intros k. cbn. rewrite Hk. by case_decide.
Qed.

Lemma append_lost_refines (Abs : I -> list V -> Prop) (verdict : list V -> V -> R) :
  refines_verdict new append Abs verdict ->
  refines_verdict None append_lost
    (fun i vs => match i with None => vs = [] | Some i => vs <> [] /\ Abs i (tail vs) end)
    (fun prior => verdict (tail prior)).
Proof.
  intros [H0 Hs]. split; [done|]. intros [i|] vs v; cbn.
  - intros [Hne Hi]. destruct (Hs i (tail vs) v Hi) as [Ha Hr].
    destruct (append v i) as [i' r]. destruct vs; [done|]. done.
  - intros ->. cbn. split; [done|]. apply (Hs new [] v H0).
Qed.
End Adders.

(** ** One round at a time *)

Section Solo.
Context {V R : Type} (verdict : list V -> V -> R).

(** The answers to the messages of a single round. *)
Fixpoint solo (hist vs : list V) : list R :=
  match vs with
  | [] => []
  | v :: vs' => verdict hist v :: solo (hist ++ [v]) vs'
  end.

Lemma solo_elem (hist vs : list V) (r : R) :
  r ∈ solo hist vs -> exists l v l', vs = l ++ v :: l' /\ r = verdict (hist ++ l) v.
Proof.
  revert hist. induction vs as [|v vs IH]; intros hist; cbn; [set_solver|].
  rewrite elem_of_cons. intros [->|(l & w & l' & -> & ->)%IH].
  - exists [], v, vs. by rewrite app_nil_r.
  - exists (v :: l), w, l'. by rewrite <-app_assoc.
Qed.

Context {Key : Type} `{EqDecision Key} (key : V -> Key).

(** The answers to the messages of one key among all. *)
Definition answers (k : Key) (vs : list V) (rs : list R) : list R :=
  snd <$> filter (fun x => key x.1 = k) (zip vs rs).

Lemma answers_verdicts (k : Key) (hist vs : list V) :
  answers k vs (verdicts key verdict hist vs) = solo (at_key key k hist) (at_key key k vs).
Proof.
  revert hist. unfold answers, at_key. induction vs as [|v vs IH]; intros hist; [done|].
  cbn [verdicts zip_with]. rewrite !filter_cons. cbn [fst].
  case_decide as Hd; [rewrite fmap_cons|]; cbn [snd solo]; rewrite IH.
  - subst k. unfold at_key. rewrite filter_app, filter_cons, filter_nil, decide_True; done.
  - rewrite filter_app, filter_cons, filter_nil, decide_False, app_nil_r; done.
Qed.
End Solo.

Section Hits.
Context {V : Type} (author : V -> NodeID).

(** [v] is the message with which the number of voters reaches [t]. *)
Definition hit (t : Z) (prior : list V) (v : V) : bool :=
  bool_decide (author v ∉ voters author prior) &&
  (Z.of_nat (size (voters author (prior ++ [v]))) =? t).

Lemma hit_seen (t : Z) (prior : list V) (v : V) :
  author v ∈ voters author prior -> hit t prior v = false.
Proof. intros Hv. unfold hit. by rewrite bool_decide_false by (intros H; by apply H). Qed.

Lemma hit_new (t : Z) (prior : list V) (v : V) :
  author v ∉ voters author prior ->
  hit t prior v = (Z.of_nat (size (voters author (prior ++ [v]))) =? t).
Proof. intros Hv. unfold hit. by rewrite bool_decide_true. Qed.

(** How often an answer is given that is given exactly when the number of
    voters reaches [t]: once if [t] voters are reached, never otherwise. *)
Lemma hit_once {R : Type} (verdict : list V -> V -> R) (p : R -> bool) (t : Z) (hist vs : list V) :
  (forall h v, p (verdict h v) = hit t h v) ->
  length (filter (fun r => p r = true) (solo verdict hist vs)) =
  if decide (Z.of_nat (size (voters author hist)) < t <=
             Z.of_nat (size (voters author (hist ++ vs)))) then 1%nat else 0%nat.
Proof.
  intros Hp. revert hist. induction vs as [|v vs IH]; intros hist; cbn [solo].
  - rewrite app_nil_r, decide_False by lia. done.
  - rewrite filter_cons, Hp. specialize (IH (hist ++ [v])). rewrite <-app_assoc in IH.
    cbn in IH. pose proof (size_voters_snoc author hist v) as Hs.
    assert (size (voters author (hist ++ [v])) <= size (voters author (hist ++ v :: vs)))%nat
      as Hle by (apply subseteq_size, voters_prefix; exists vs; by rewrite <-app_assoc).
    unfold hit. destruct (bool_decide_reflect (author v ∈ voters author hist)) as [Hv|Hv].
    + rewrite bool_decide_false by tauto. cbn [andb]. rewrite decide_False by done.
      rewrite IH, Hs. done.
    + rewrite bool_decide_true by done. rewrite Hs in *. cbn [andb].
      case_bool; [rewrite decide_True by done|rewrite decide_False by done]; cbn [length];
        rewrite IH; repeat case_decide; lia.
Qed.

(** An answer given only then is given at most once. *)
Lemma hit_most {R : Type} (verdict : list V -> V -> R) (p : R -> bool) (t : Z) (hist vs : list V) :
  (forall h v, p (verdict h v) = true -> hit t h v = true) ->
  (length (filter (fun r => p r = true) (solo verdict hist vs)) <= 1)%nat.
Proof.
  intros Hp.
  assert (length (filter (fun r => p r = true) (solo verdict hist vs)) <=
    length (filter (fun r => r = true) (solo (hit t) hist vs)))%nat as Hle.
  { revert hist. induction vs as [|v vs IH]; intros hist; cbn [solo]; [done|].
    specialize (IH (hist ++ [v])). specialize (Hp hist v). rewrite !filter_cons.
    case_decide; [rewrite (decide_True (P := hit _ _ _ = true)) by auto|case_decide]; cbn; lia. }
  etrans; [exact Hle|]. rewrite (hit_once (hit t) (fun b => b) t hist vs) by done.
  case_decide; lia.
Qed.
End Hits.

Section FirstsPrefix.
Context {V : Type} (author : V -> NodeID).

Lemma firsts_app (vs ws : list V) : firsts author vs `prefix_of` firsts author (vs ++ ws).
Proof.
  induction ws as [|w ws IH] using rev_ind; [by rewrite app_nil_r|].
  rewrite app_assoc, firsts_snoc. etrans; [exact IH|]. apply prefix_app_r. done.
Qed.

Lemma firsts_app_elem (vs ws : list V) (v : V) :
  v ∈ firsts author vs -> v ∈ firsts author (vs ++ ws).
Proof. destruct (firsts_app vs ws) as [l ->]. set_solver. Qed.
End FirstsPrefix.

Lemma tally_mono {V : Type} (author : V -> NodeID) (p : V -> bool) (vs ws : list V) :
  tally author p vs <= tally author p (vs ++ ws).
Proof.
  unfold tally. destruct (firsts_app author vs ws) as [l ->].
  rewrite filter_app, length_app. lia.
Qed.

Lemma solo_snoc {V R : Type} (verdict : list V -> V -> R) (hist vs : list V) (v : V) :
  solo verdict hist (vs ++ [v]) = solo verdict hist vs ++ [verdict (hist ++ vs) v].
Proof.
  revert hist. induction vs as [|w vs IH]; intros hist; cbn; [by rewrite app_nil_r|].
  rewrite IH, <-app_assoc. done.
Qed.

(** Messages of different authors: all count. *)
Lemma NoDup_voters {V : Type} (author : V -> NodeID) (vs : list V) :
  NoDup (author <$> vs) ->
  size (voters author vs) = length vs /\
  (forall l v l', vs = l ++ v :: l' -> author v ∉ voters author l).
Proof.
  intros Hnd. split.
  - unfold voters. rewrite size_list_to_set by done. by rewrite length_fmap.
  - intros l v l' ->. rewrite fmap_app, NoDup_app in Hnd. destruct Hnd as (_ & Hd & _).
    unfold voters. rewrite elem_of_list_to_set. intros Hv. eapply Hd; [exact Hv|].
    cbn. constructor.
Qed.

Lemma tally_none {V : Type} (author : V -> NodeID) (p : V -> bool) (vs : list V) :
  Forall (fun v => p v = false) vs -> tally author p vs = 0.
Proof.
  intros Hp. unfold tally. destruct (filter _ _) as [|v l] eqn:Ef; [done|].
  assert (v ∈ v :: l) as Hv by constructor. rewrite <-Ef in Hv.
  apply list_elem_of_filter in Hv as [Ht Hv%firsts_sub].
  rewrite Forall_forall in Hp. specialize (Hp v Hv). congruence.
Qed.

Lemma forallb_pairs {A : Type} (p : A -> A -> bool) (l1 l2 : list A) :
  forallb (fun x => forallb (p x) l2) l1 = true ->
  forall x y, x ∈ l1 -> y ∈ l2 -> p x y = true.
Proof.
  intros H x y Hx Hy. rewrite forallb_forall in H.
  specialize (H x (proj1 (list_elem_of_In _ _) Hx)). rewrite forallb_forall in H.
  apply H. by apply list_elem_of_In.
Qed.
