(* ===== verification/Verdict.v ===== *)
(** * What a vote counter answers

    The aggregators of the protocols count, per key, the votes of different
    authors.  This file states their answers as functions of the votes given so far
    ([..._verdict]), for any type of vote, and proves what such answers amount to
    over a whole run: which flag is returned how often, and which votes stand
    behind it.  The flags are those all protocol packages declare. *)

From S2P Require Import Prelude Committee Quorum.

Open Scope Z_scope.

(** How often an answer was given. *)
Definition times {R : Type} `{EqDecision R} (x : R) (rs : list R) : nat :=
  length (filter (fun r => bool_decide (r = x) = true) rs).

Lemma times_cons_ne {R : Type} `{EqDecision R} (x y : R) (rs : list R) :
  y <> x -> times x (y :: rs) = times x rs.
Proof. intros H. unfold times. rewrite filter_cons_False; [done|]. by rewrite bool_decide_eq_true. Qed.

(** A counter that ignores its first vote. *)
Lemma solo_tail {V R : Type} (verdict : list V -> V -> R) (v : V) (h l : list V) :
  solo (fun prior => verdict (tail prior)) (v :: h) l = solo verdict h l.
Proof. revert h. induction l as [|w l IH]; intros h; cbn; [done|]. by rewrite IH. Qed.

(** An answer other than the flag for no action (3) and other than an error. *)
Definition is_decision (r : Z * option error) : bool :=
  bool_decide (r.2 = None) && negb (r.1 =? 3).

Section Verdicts.
Context {V : Type} (author : V -> NodeID) (err : V -> error).

(** Report the vote that completes [th] authors. *)
Definition count_verdict (th : Z) (prior : list V) (v : V) : bool * option error :=
  if bool_decide (author v ∈ voters author prior) then (false, Some (err v))
  else (hit author th prior v, None).

(** Flag 0 for the vote that completes [low] authors, 1 for [high], else 2. *)
Definition levels_verdict (low high : Z) (prior : list V) (v : V) : Z * option error :=
  if bool_decide (author v ∈ voters author prior) then (0, Some (err v))
  else if hit author low prior v then (0, None)
  else if hit author high prior v then (1, None)
  else (2, None).

(** The first yes is answered 0; as long as there is none, the [th]-th no is
    answered 1. *)
Definition first_yes_verdict (no : V -> bool) (th : Z) (prior : list V) (v : V) :
    Z * option error :=
  if bool_decide (author v ∈ voters author prior) then (3, Some (err v))
  else if 0 <? tally author (fun v => negb (no v)) prior then (3, None)
  else if negb (no v) then (0, None)
  else if hit author th prior v then (1, None)
  else (3, None).

(** The [th]-th vote decides: 2 if all are yes, 1 if all are no, else 0. *)
Definition unanimity_verdict (yes : V -> bool) (th : Z) (prior : list V) (v : V) :
    Z * option error :=
  if bool_decide (author v ∈ voters author prior) then (3, Some (err v))
  else if hit author th prior v then
    let ys := tally author yes (prior ++ [v]) in
    let ns := tally author (fun v => negb (yes v)) (prior ++ [v]) in
    (if ns =? 0 then 2 else if ys =? 0 then 1 else 0, None)
  else (3, None).

(** ** Runs *)

Lemma count_once (th : Z) (vs : list V) :
  0 < th ->
  times (true, None) (solo (count_verdict th) [] vs) =
  (if decide (th <= Z.of_nat (size (voters author vs))) then 1%nat else 0%nat).
Proof.
  intros Hth. unfold times. rewrite (hit_once author _ _ th).
  - cbn [app]. change (size (voters _ [])) with 0%nat. repeat case_decide; lia || done.
  - intros h v. unfold count_verdict.
    destruct (bool_decide_reflect (author v ∈ voters author h)).
    + by rewrite hit_seen.
    + by destruct (hit _ _ _ _).
Qed.

(** The same counter, when the first vote was lost. *)
Lemma lost_count_once (th : Z) (vs : list V) :
  1 < th ->
  times (true, None) (solo (fun prior => count_verdict th (tail prior)) [] vs) =
  (if decide (th <= Z.of_nat (size (voters author (tail vs)))) then 1%nat else 0%nat).
Proof.
  intros Hth. destruct vs as [|v vs]; cbn [solo tail].
  - rewrite decide_False; [done|]. change (size (voters _ [])) with 0%nat. lia.
  - rewrite times_cons_ne, (solo_tail (count_verdict th) v []).
    + apply count_once. lia.
    + unfold count_verdict. cbn [tail].
      rewrite bool_decide_false, hit_new by apply not_elem_of_empty.
      change (voters _ _) with (voters author [v]). rewrite voters_singleton, size_singleton.
      rewrite (proj2 (Z.eqb_neq _ _)) by lia. done.
Qed.

Lemma levels_low_once (low high : Z) (vs : list V) :
  0 < low ->
  times (0, None) (solo (levels_verdict low high) [] vs) =
  (if decide (low <= Z.of_nat (size (voters author vs))) then 1%nat else 0%nat).
Proof.
  intros Hlow. unfold times. rewrite (hit_once author _ _ low).
  - cbn [app]. change (size (voters _ [])) with 0%nat. repeat case_decide; lia || done.
  - intros h v. unfold levels_verdict.
    destruct (bool_decide_reflect (author v ∈ voters author h)).
    + by rewrite hit_seen.
    + destruct (hit _ low _ _); [done|]. by destruct (hit _ _ _ _).
Qed.

Lemma levels_high_once (low high : Z) (vs : list V) :
  0 < low <= high ->
  times (1, None) (solo (levels_verdict low high) [] vs) =
  (if decide (low < high <= Z.of_nat (size (voters author vs))) then 1%nat else 0%nat).
Proof.
  intros Hth. unfold times. destruct (decide (low = high)) as [->|Hne].
  - rewrite decide_False by lia.
    destruct (filter _ _) as [|x l] eqn:Ef; [done|].
    assert (x ∈ x :: l) as Hx by constructor. rewrite <-Ef in Hx.
    apply list_elem_of_filter in Hx as [Hb (l1 & v & l2 & _ & ->)%solo_elem].
    apply bool_decide_eq_true in Hb. revert Hb. unfold levels_verdict.
    case_bool_decide; [done|]. by destruct (hit _ _ _ _).
  - rewrite (hit_once author _ _ high).
    + cbn [app]. change (size (voters _ [])) with 0%nat. repeat case_decide; lia || done.
    + intros h v. unfold levels_verdict.
      destruct (bool_decide_reflect (author v ∈ voters author h)).
      * by rewrite hit_seen.
      * rewrite !hit_new by done. repeat case_bool; done || lia.
Qed.

Lemma unanimity_once (yes : V -> bool) (th : Z) (vs : list V) :
  0 < th ->
  length (filter (fun a => is_decision a = true) (solo (unanimity_verdict yes th) [] vs)) =
  (if decide (th <= Z.of_nat (size (voters author vs))) then 1%nat else 0%nat).
Proof.
  intros Hth. rewrite (hit_once author _ _ th).
  - cbn [app]. change (size (voters _ [])) with 0%nat. repeat case_decide; lia || done.
  - intros h v. unfold unanimity_verdict.
    destruct (bool_decide_reflect (author v ∈ voters author h)).
    + by rewrite hit_seen.
    + destruct (hit _ _ _ _); [|done]. cbn zeta. by repeat case_bool.
Qed.

(** A unanimous decision is backed by a quorum of votes for it. *)
Lemma unanimity_backed (yes : V -> bool) (th : Z) (vs : list V) (act : Z) :
  (act, None) ∈ solo (unanimity_verdict yes th) [] vs ->
  exists l, l `prefix_of` vs /\ (act = 2 -> th = tally author yes l) /\
    (act = 1 -> th = tally author (fun v => negb (yes v)) l).
Proof.
  intros (l & v & l' & -> & Ha)%solo_elem. exists (l ++ [v]).
  split; [exists l'; by rewrite <-app_assoc|]. revert Ha. cbn [app]. unfold unanimity_verdict.
  destruct (bool_decide_reflect (author v ∈ voters author l)); [done|].
  rewrite hit_new by done. pose proof (tally_split author yes (l ++ [v])) as Hs.
  case_bool; [|by intros [= ->]]. cbn zeta.
  case_bool; [intros [= ->]; split; [lia|done]|].
  case_bool; [intros [= ->]; split; [done|lia]|by intros [= ->]].
Qed.

(** One counter deciding yes excludes another one deciding no, when at most
    [max_faults] authors vote differently towards the two. *)
Lemma unanimity_agreement (yes : V -> bool) (c : Committee) (B : gset NodeID) (vs ws : list V) :
  Committee_Size c = 3 * max_faults c + 1 ->
  Z.of_nat (size B) <= max_faults c ->
  voters author vs ⊆ members c -> voters author ws ⊆ members c ->
  (forall v w, v ∈ firsts author vs -> w ∈ firsts author ws ->
     author v = author w -> author v ∉ B -> yes v = yes w) ->
  (2, None) ∈ solo (unanimity_verdict yes (HightThreshold c)) [] vs ->
  (1, None) ∈ solo (unanimity_verdict yes (HightThreshold c)) [] ws -> False.
Proof.
  intros Hn HB Hvs Hws Hsame Hc Hno.
  apply unanimity_backed in Hc as (l1 & [k1 E1] & Hl1 & _).
  apply unanimity_backed in Hno as (l2 & [k2 E2] & _ & Hl2).
  specialize (Hl1 eq_refl). specialize (Hl2 eq_refl). rewrite E1, E2 in *.
  destruct (opposed_quorums author c B yes (fun v => negb (yes v)) l1 l2)
    as (v & w & Hv & Hw & Ha & HnB & Hy & Hnw); [done|done|..|lia|lia|].
  - etrans; [|exact Hvs]. rewrite voters_app. apply union_subseteq_l.
  - etrans; [|exact Hws]. rewrite voters_app. apply union_subseteq_l.
  - assert (yes v = yes w) as Hf by (apply Hsame; auto using firsts_app_elem).
    rewrite Hf in Hy. by rewrite Hy in Hnw.
Qed.

Lemma first_yes_once (no : V -> bool) (th : Z) (vs : list V) :
  times (0, None) (solo (first_yes_verdict no th) [] vs) =
  (if decide (0 < tally author (fun v => negb (no v)) vs) then 1%nat else 0%nat).
Proof.
  unfold times. induction vs as [|v vs IH] using rev_ind; [done|].
  rewrite solo_snoc, filter_app, length_app, IH, tally_snoc.
  pose proof (tally_nonneg author (fun v => negb (no v)) vs).
  rewrite filter_cons, filter_nil. unfold first_yes_verdict. cbn [app].
  destruct (bool_decide_reflect (author v ∈ voters author vs)).
  { rewrite Z.add_0_r, (decide_False (P := _ = true)) by done. cbn. lia. }
  case_bool; [|destruct (no v) eqn:En; [destruct (hit _ _ _ _)|]]; cbn [negb];
    first [rewrite (decide_False (P := bool_decide _ = true)) by done
          |rewrite (decide_True (P := bool_decide _ = true)) by done];
    cbn [length]; repeat case_decide; first [lia|destruct (no v); cbn in *; lia].
Qed.

Lemma first_yes_no_quorum (no : V -> bool) (th : Z) (vs : list V) :
  (1, None) ∈ solo (first_yes_verdict no th) [] vs -> th <= tally author no vs.
Proof.
  intros (l & v & l' & -> & Ha)%solo_elem. revert Ha. unfold first_yes_verdict. cbn [app].
  destruct (bool_decide_reflect (author v ∈ voters author l)); [done|].
  case_bool; [done|]. destruct (no v) eqn:En; [|done]. cbn [negb]. rewrite hit_new by done.
  case_bool; [|done]. intros _.
  pose proof (tally_split author no (l ++ [v])) as Hs.
  rewrite (tally_snoc _ (fun v => negb (no v))), En, bool_decide_false in Hs by done.
  pose proof (tally_mono author no (l ++ [v]) l') as Hm.
  rewrite <-app_assoc in Hm. cbn in Hm, Hs. lia.
Qed.

(** A quorum of no votes followed by a yes is answered twice. *)
Lemma first_yes_no_then_yes (no : V -> bool) (th : Z) (vs : list V) (v : V) :
  0 < th -> NoDup (author <$> (vs ++ [v])) -> Forall (fun v => no v = true) vs ->
  no v = false -> Z.of_nat (length vs) = th ->
  exists l, solo (first_yes_verdict no th) [] (vs ++ [v]) = l ++ [(1, None); (0, None)].
Proof.
  intros Hth Hnd Hno Hyes Hlen.
  destruct vs as [|w ws _] using rev_ind; [cbn in Hlen; lia|].
  rewrite !solo_snoc. cbn [app]. exists (solo (first_yes_verdict no th) [] ws).
  rewrite <-app_assoc. cbn [app]. do 2 f_equal; [|f_equal].
  - rewrite fmap_app in Hnd. apply NoDup_app in Hnd as (Hnd & _ & _).
    pose proof (NoDup_voters author (ws ++ [w]) Hnd) as [Hsz Hfr].
    apply Forall_app in Hno as [Hws Hw]. apply Forall_inv in Hw.
    unfold first_yes_verdict. rewrite bool_decide_false by by apply (Hfr ws w []).
    rewrite tally_none. 2:{ eapply Forall_impl; [exact Hws|]. intros x Hx. by rewrite Hx. }
    rewrite Hw. cbn. rewrite hit_new by by apply (Hfr ws w []).
    rewrite Hsz, Hlen. by rewrite Z.eqb_refl.
  - pose proof (NoDup_voters author _ Hnd) as [_ Hfr].
    unfold first_yes_verdict. rewrite bool_decide_false by by apply (Hfr (ws ++ [w]) v []).
    rewrite tally_none. 2:{ eapply Forall_impl; [exact Hno|]. intros x Hx. by rewrite Hx. }
    by rewrite Hyes.
Qed.

(** ** Which votes stand behind an answer *)

(** The votes of the first [th] authors. *)
Definition quorum (th : Z) (vs : list V) : list V := take (Z.to_nat th) (firsts author vs).

(** An answer that is given only to the vote that completes [th] authors, and then if the
    votes of these satisfy [q]. *)
Lemma quorum_once {R : Type} (verdict : list V -> V -> R) (p : R -> bool) (q : list V -> bool) (th : Z)
    (vs : list V) :
  0 < th ->
  (forall h v, p (verdict h v) = hit author th h v && q (firsts author (h ++ [v]))) ->
  length (filter (fun r => p r = true) (solo verdict [] vs)) =
  if decide (th <= Z.of_nat (size (voters author vs)) /\ q (quorum th vs) = true) then 1%nat else 0%nat.
Proof.
  intros Hth Hp. unfold quorum. induction vs as [|v vs IH] using rev_ind.
  { rewrite decide_False; [done|]. change (size (voters author [])) with 0%nat. lia. }
  rewrite solo_snoc, filter_app, length_app, IH, filter_cons, filter_nil, Hp. cbn [app].
  pose proof (length_firsts author vs) as Hlen. rewrite firsts_snoc.
  destruct (decide (author v ∈ voters author vs)) as [Hs|Hs].
  { rewrite hit_seen, size_voters_snoc, !bool_decide_true, app_nil_r by done. cbn [andb].
    rewrite (decide_False (P := false = true)) by done. apply Nat.add_0_r. }
  rewrite hit_new, size_voters_snoc, !bool_decide_false by done.
  destruct (Z.eqb_spec (Z.of_nat (S (size (voters author vs)))) th) as [Heq|Hne]; cbn [andb].
  - rewrite (decide_False (P := th <= Z.of_nat (size (voters author vs)) /\ _)) by lia.
    rewrite take_ge by (rewrite length_app; cbn; lia).
    destruct (decide (q (firsts author vs ++ [v]) = true)) as [Hq|Hq].
    + by rewrite decide_True by (split; [lia|done]).
    + by rewrite decide_False by (by intros [_ ?]).
  - rewrite (decide_False (P := false = true)) by done. cbn [length]. rewrite Nat.add_0_r.
    destruct (decide (th <= Z.of_nat (size (voters author vs)))) as [Hle|Hgt].
    + rewrite take_app_le by lia. destruct (decide (q (take (Z.to_nat th) (firsts author vs)) = true)).
      * by rewrite !decide_True by (split; [lia|done]).
      * by rewrite !decide_False by (by intros [_ ?]).
    + rewrite !decide_False by lia. done.
Qed.

Lemma tally_zero (p : V -> bool) (vs : list V) :
  (tally author p vs =? 0) = forallb (fun v => negb (p v)) (firsts author vs).
Proof.
  unfold tally. induction (firsts author vs) as [|v l IH]; [done|]. rewrite filter_cons. cbn [forallb].
  destruct (p v); [rewrite decide_True by done|rewrite decide_False by done]; cbn [negb andb length]; [|exact IH].
  apply Z.eqb_neq. lia.
Qed.

Lemma forallb_negb_negb (p : V -> bool) (l : list V) :
  forallb (fun v => negb (negb (p v))) l = forallb p l.
Proof. induction l as [|v l IH]; cbn; [done|]. by rewrite negb_involutive, IH. Qed.

Section Unanimity.
Context (yes : V -> bool) (th : Z) (Hth : 0 < th).

(** All of the first [th] authors say yes: 2. *)
Lemma unanimity_all (vs : list V) :
  times (2, None) (solo (unanimity_verdict yes th) [] vs) =
  if decide (th <= Z.of_nat (size (voters author vs)) /\ forallb yes (quorum th vs) = true) then 1%nat else 0%nat.
Proof using Hth.
  apply quorum_once; [done|]. intros h v. unfold unanimity_verdict.
  destruct (bool_decide_reflect (author v ∈ voters author h)) as [Hs|Hs]; [by rewrite hit_seen|]. destruct (hit _ _ _ _); [|done]. cbn zeta.
  rewrite tally_zero, forallb_negb_negb. cbn [andb].
  destruct (forallb yes _); [done|]. by case_bool.
Qed.

(** All of them say no: 1. *)
Lemma unanimity_none (vs : list V) :
  times (1, None) (solo (unanimity_verdict yes th) [] vs) =
  if decide (th <= Z.of_nat (size (voters author vs)) /\
             forallb (fun v => negb (yes v)) (quorum th vs) = true) then 1%nat else 0%nat.
Proof using Hth.
  apply quorum_once; [done|]. intros h v. unfold unanimity_verdict.
  destruct (bool_decide_reflect (author v ∈ voters author h)) as [Hs|Hs]; [by rewrite hit_seen|]. destruct (hit _ _ _ _); [|done]. cbn zeta.
  rewrite !tally_zero, forallb_negb_negb, firsts_snoc, (bool_decide_false (author v ∈ voters author h)) by done.
  rewrite !forallb_app. cbn [forallb andb].
  destruct (yes v), (forallb yes _), (forallb _ _); done.
Qed.

(** Some say yes and some no: 0. *)
Lemma unanimity_mixed (vs : list V) :
  times (0, None) (solo (unanimity_verdict yes th) [] vs) =
  if decide (th <= Z.of_nat (size (voters author vs)) /\
             negb (forallb yes (quorum th vs)) && negb (forallb (fun v => negb (yes v)) (quorum th vs)) = true)
  then 1%nat else 0%nat.
Proof using Hth.
  apply (quorum_once _ _ (fun l => negb (forallb yes l) && negb (forallb (fun v => negb (yes v)) l))); [done|].
  intros h v. unfold unanimity_verdict.
  destruct (bool_decide_reflect (author v ∈ voters author h)) as [Hs|Hs]; [by rewrite hit_seen|]. destruct (hit _ _ _ _); [|done]. cbn zeta.
  rewrite !tally_zero, forallb_negb_negb. cbn [andb].
  destruct (forallb yes _), (forallb (fun v => negb (yes v)) _); done.
Qed.
End Unanimity.

(** The first [th] authors all say no before anyone says yes: 1. *)
Lemma first_yes_none (no : V -> bool) (th : Z) (vs : list V) :
  0 < th ->
  times (1, None) (solo (first_yes_verdict no th) [] vs) =
  if decide (th <= Z.of_nat (size (voters author vs)) /\ forallb no (quorum th vs) = true) then 1%nat else 0%nat.
Proof.
  intros Hth. apply quorum_once; [done|]. intros h v. unfold first_yes_verdict.
  destruct (bool_decide_reflect (author v ∈ voters author h)) as [Hs|Hs]; [by rewrite hit_seen|].
  rewrite firsts_snoc, (bool_decide_false (author v ∈ voters author h)), forallb_app by done. cbn [forallb].
  pose proof (tally_zero (fun v => negb (no v)) h) as Ht. cbn beta in Ht. rewrite forallb_negb_negb in Ht.
  pose proof (tally_nonneg author (fun v => negb (no v)) h). rewrite <-Ht.
  destruct (Z.ltb_spec 0 (tally author (fun v => negb (no v)) h)).
  { rewrite (proj2 (Z.eqb_neq _ _)) by lia. by rewrite andb_false_r. }
  rewrite (proj2 (Z.eqb_eq _ _)) by lia. by destruct (no v), (hit _ _ _ _).
Qed.

(** The votes of authors that have voted before are refused, and no others. *)
Lemma refused_count {R : Type} (verdict : list V -> V -> R) (p : R -> bool) (vs : list V) :
  (forall h v, p (verdict h v) = bool_decide (author v ∈ voters author h)) ->
  (length (filter (fun r => p r = true) (solo verdict [] vs)) + size (voters author vs))%nat = length vs.
Proof.
  intros Hp. induction vs as [|v vs IH] using rev_ind; [done|].
  rewrite solo_snoc, filter_app, !length_app, filter_cons, filter_nil, Hp, size_voters_snoc. cbn [app length].
  case_bool_decide; [rewrite decide_True by done|rewrite decide_False by done]; cbn; lia.
Qed.

End Verdicts.
