(* ===== verification/Coin.v ===== *)
(** * The leader a common coin elects

    The computation packages smvba and mercury share word for word in
    [ElectAggreator.Append]: the shares of a quorum are combined into a signature
    that does not depend on the shares chosen, and its first bytes are read as the
    index of the leader. *)

From Stdlib Require Import Strings.Byte.
From S2P Require Import Prelude GoStd Crypto Committee.

Open Scope Z_scope.

Definition RANDOM_LEN : nat := 3.

(** The loop over the first [RANDOM_LEN] bytes of the coin; indexing past its
    end panics.  Negation of a byte is modulo 256. *)
Definition coin_step (coin : bytes) (rand : Outcome Z) (i : nat) : Outcome Z :=
  rand ← rand;
  match coin !! i with
  | None => Panic
  | Some b =>
      if 0 <? Zbyte b then Ret (int64 (Z.shiftl rand 8 + Zbyte b))
      else Ret (int64 (Z.shiftl rand 8 + wrapU 8 (- Zbyte b)))
  end.
Definition coin_rand (coin : bytes) : Outcome Z :=
  foldl (coin_step coin) (Ret 0) (seq 0 RANDOM_LEN).

(** Combine the shares and take the remainder by the size of the committee. *)
Definition combine_leader {K : Kyber} (committee : Committee) (sigService : SigService)
    (shares : list SignatureShare) (hash : Digest) : Outcome (NodeID * option error) :=
  match CombineIntactTSPartial shares (ShareKey sigService) hash with
  | None => Ret (NONE, Some ErrExternal)
  | Some coin =>
      rand ← coin_rand coin;
      if Committee_Size committee =? 0 then Panic
      else Ret (Z.rem rand (Committee_Size committee), None)
  end.

(** The loop over the coin is the big-endian value of its first three bytes. *)
Lemma coin_rand_eq (coin : bytes) (a b c : byte) (rest : bytes) :
  coin = a :: b :: c :: rest ->
  coin_rand coin = Ret (65536 * Zbyte a + 256 * Zbyte b + Zbyte c).
Proof.
  intros ->. unfold coin_rand, RANDOM_LEN. cbn.
  pose proof (Zbyte_range a) as Ha. pose proof (Zbyte_range b) as Hb.
  pose proof (Zbyte_range c) as Hc.
  assert (forall x, 0 <= x < 2 ^ 40 -> int64 x = x) as Hid
    by (intros; apply int64_id; unfold in_int64; lia).
  assert (forall r x, 0 <= r < 2 ^ 16 -> 0 <= x < 256 ->
    (if 0 <? x then Ret (int64 (Z.shiftl r 8 + x))
     else Ret (int64 (Z.shiftl r 8 + wrapU 8 (- x)))) = Ret (256 * r + x)) as Hstep.
  { intros r x Hr Hx. rewrite Z.shiftl_mul_pow2 by lia.
    case_bool; [|assert (x = 0) as -> by lia; change (wrapU 8 (- 0)) with 0];
      rewrite Hid; f_equal; lia. }
  unfold coin_step. cbn. rewrite Hstep by lia. cbn. rewrite Hstep by lia. cbn.
  rewrite Hstep by lia. f_equal. lia.
Qed.

Lemma coin_rand_range (coin : bytes) :
  (3 <= length coin)%nat -> exists n, coin_rand coin = Ret n /\ 0 <= n < 2 ^ 24.
Proof.
  destruct coin as [|a [|b [|c rest]]]; cbn [length]; try lia. intros _.
  eexists. split; [by eapply coin_rand_eq|].
  pose proof (Zbyte_range a). pose proof (Zbyte_range b). pose proof (Zbyte_range c). lia.
Qed.

(** The leader a combined coin elects. *)
Definition coin_leader (c : Committee) (coin : bytes) : option NodeID :=
  match coin_rand coin with
  | Ret n => Some (n mod Committee_Size c)
  | Panic => None
  end.

(** [combine_leader] returns: no leader, or the one the coin elects. *)
Lemma combine_leader_spec {K : Kyber} `{!KyberLaws K} (c : Committee) (srv : SigService)
    (shares : list SignatureShare) (hash : Digest) :
  0 < Committee_Size c ->
  exists node err, combine_leader c srv shares hash = Ret (node, err) /\
    (node = NONE \/
     exists coin, CombineIntactTSPartial shares (ShareKey srv) hash = Some coin /\
       err = None /\ coin_leader c coin = Some node /\ 0 <= node < Committee_Size c).
Proof.
  intros Hn. unfold combine_leader.
  destruct (CombineIntactTSPartial _ _ _) as [coin|] eqn:Ec; [|by eauto 10].
  pose proof Ec as Hsz. unfold CombineIntactTSPartial in Hsz. apply recover_size in Hsz.
  destruct (coin_rand_range coin) as (n & Hr & Hb); [lia|].
  rewrite Hr. cbn [mbind Outcome_bind]. rewrite (proj2 (Z.eqb_neq _ _)) by lia.
  do 2 eexists. split; [done|]. right. exists coin.
  unfold coin_leader. rewrite Hr, Z.rem_mod_nonneg by lia.
  pose proof (Z.mod_pos_bound n (Committee_Size c) Hn). done.
Qed.

(** The coins of two nodes with the same group key are the same. *)
Lemma coins_agree {K : Kyber} `{!KyberLaws K} (srv1 srv2 : SigService)
    (l1 l2 : list SignatureShare) (hash : Digest) (c1 c2 : bytes) :
  SSK_PubPoly (ShareKey srv2) = SSK_PubPoly (ShareKey srv1) ->
  SSK_T (ShareKey srv2) = SSK_T (ShareKey srv1) ->
  SSK_N (ShareKey srv2) = SSK_N (ShareKey srv1) ->
  CombineIntactTSPartial l1 (ShareKey srv1) hash = Some c1 ->
  CombineIntactTSPartial l2 (ShareKey srv2) hash = Some c2 -> c1 = c2.
Proof.
  unfold CombineIntactTSPartial. intros -> -> -> H1 H2. by eapply recover_unique.
Qed.
