(* ===== verification/Deliver.v ===== *)
(** * Ordered delivery

    The commitor of the packages smvba and vaba, word for word the same in both
    (src/core/smvba/consensus/commitor.go, src/core/vaba/consensus/commitor.go), for
    any type of block with an epoch.  [commitCh] is the sequence of blocks sent on
    the channel of that name; the goroutine [run] takes from it, so that a send does
    not block for ever.  The calls always return, blocks are delivered in epoch
    order without gap or repetition, and two nodes that agree on the block of each
    epoch deliver the same sequence up to how far they got. *)

From S2P Require Import Prelude.

Open Scope Z_scope.

Record Committor (Block : Type) := mkCommittor {
  Index : Z;
  Blocks : gmap Z Block;
  commitCh : list Block
}.
Arguments mkCommittor {_}.
Arguments Index {_}.
Arguments Blocks {_}.
Arguments commitCh {_}.
#[export] Instance Committor_eta {Block : Type} : Settable (Committor Block) := fun c =>
  mkCommittor (Index c) (Blocks c) (commitCh c).

Section Deliver.
Context {Block : Type} (Block_Epoch : Block -> Z).
Abbreviation Committor := (Committor Block).

Definition NewCommittor : Committor := mkCommittor 0 ∅ [].

(** The loop of [Commit]; [None] when the fuel does not suffice. *)
Fixpoint commit_loop (fuel : nat) (c : Committor) : option Committor :=
  match fuel with
  | O => None
  | S fuel =>
      match Blocks c !! Index c with
      | Some b =>
          commit_loop fuel
            (mkCommittor (int64 (Index c + 1)) (delete (Index c) (Blocks c)) (commitCh c ++ [b]))
      | None => Some c
      end
  end.

(** A nil block is dereferenced.  Every iteration removes a block, so one more
    than the number of blocks is enough fuel ([Commit_returns]). *)
Definition Commit (c : Committor) (block : option Block) : Outcome Committor :=
  match block with
  | None => Panic
  | Some block =>
      if Block_Epoch block <? Index c then Ret c
      else
        let c := c <| Blocks := <[Block_Epoch block := block]> (Blocks c) |> in
        match commit_loop (S (size (Blocks c))) c with
        | Some c => Ret c
        | None => Panic
        end
  end.

(** A sequence of calls. *)
Fixpoint commit_all (c : Committor) (bs : list Block) : Outcome Committor :=
  match bs with
  | [] => Ret c
  | b :: bs' => c' ← Commit c (Some b); commit_all c' bs'
  end.

(** ** Termination *)

Lemma commit_loop_fuel (fuel : nat) (c : Committor) :
  (size (Blocks c) < fuel)%nat -> exists c', commit_loop fuel c = Some c'.
Proof.
  revert c. induction fuel as [|fuel IH]; intros c Hf; [lia|]. cbn.
  destruct (Blocks c !! Index c) as [b|] eqn:Eb; [|eauto].
  apply IH. cbn. rewrite map_size_delete_Some by by eexists.
  assert (size (Blocks c) <> 0%nat); [|lia].
  intros H0%map_size_empty_iff. by rewrite H0 in Eb.
Qed.

Lemma Commit_returns (c : Committor) (b : Block) : exists c', Commit c (Some b) = Ret c'.
Proof.
  unfold Commit. case_bool; [eauto|]. cbn zeta.
  destruct (commit_loop_fuel (S (size (Blocks (c <| Blocks := <[Block_Epoch b := b]> (Blocks c) |>))))
    (c <| Blocks := <[Block_Epoch b := b]> (Blocks c) |>)) as [c' ->]; [lia|eauto].
Qed.

Lemma commit_all_returns (c : Committor) (bs : list Block) : exists c', commit_all c bs = Ret c'.
Proof.
  revert c. induction bs as [|b bs IH]; intros c; cbn [commit_all]; [eauto|].
  destruct (Commit_returns c b) as [c1 ->]. apply IH.
Qed.

Lemma commit_loop_prefix (fuel : nat) (c c' : Committor) :
  commit_loop fuel c = Some c' -> commitCh c `prefix_of` commitCh c'.
Proof.
  revert c. induction fuel as [|fuel IH]; intros c; cbn; [done|].
  destruct (Blocks c !! Index c) as [b|]; [|by intros [= <-]].
  intros Hl%IH. cbn in Hl. etrans; [|exact Hl]. by apply prefix_app_r.
Qed.

Lemma Commit_prefix (c c' : Committor) (b : option Block) :
  Commit c b = Ret c' -> commitCh c `prefix_of` commitCh c'.
Proof.
  unfold Commit. destruct b as [b|]; [|done]. case_bool; [by intros [= <-]|]. cbn zeta.
  destruct (commit_loop _ _) as [c1|] eqn:El; [|done]. intros [= <-].
  by apply commit_loop_prefix in El.
Qed.

(** ** The invariant *)

(** Epochs below the last 64-bit integer: [Index] does not wrap. *)
Definition epoch_ok (b : Block) : Prop := Block_Epoch b < 2 ^ 63 - 1.

(** [c] after the calls [bs], up to the loop still having to run. *)
Record commit_inv (bs : list Block) (c : Committor) : Prop := {
  ci_index : Index c = Z.of_nat (length (commitCh c));
  ci_sent : forall (k : nat) b, commitCh c !! k = Some b -> Block_Epoch b = Z.of_nat k /\ b ∈ bs;
  ci_blocks : forall i b, Blocks c !! i = Some b -> Block_Epoch b = i /\ b ∈ bs /\ Index c <= i;
  ci_kept : forall b, b ∈ bs -> 0 <= Block_Epoch b ->
    Block_Epoch b < Index c \/ is_Some (Blocks c !! Block_Epoch b)
}.

Lemma commit_inv_loop (bs : list Block) (fuel : nat) (c c' : Committor) :
  Forall epoch_ok bs -> commit_inv bs c -> commit_loop fuel c = Some c' ->
  commit_inv bs c' /\ Blocks c' !! Index c' = None.
Proof.
  intros Hok. revert c. induction fuel as [|fuel IH]; intros c Hinv; [done|]. cbn.
  destruct (Blocks c !! Index c) as [b|] eqn:Eb; [|by intros [= <-]].
  apply IH. destruct Hinv as [Hi Hs Hb Hk].
  destruct (Hb _ _ Eb) as (Hbe & Hbin & _).
  rewrite Forall_forall in Hok. pose proof (Hok b Hbin) as Hbok. unfold epoch_ok in Hbok.
  assert (int64 (Index c + 1) = Index c + 1) as Hw by (apply int64_id; unfold in_int64; lia).
  split; cbn; rewrite ?Hw.
  - rewrite length_app. cbn. lia.
  - intros k b' [Hl|[Hge Hl]]%lookup_app_Some; [by apply Hs|].
    apply list_lookup_singleton_Some in Hl as [Hl ->]. split; [lia|done].
  - intros i b' [Hne Hl]%lookup_delete_Some. destruct (Hb i b' Hl) as (-> & ? & ?).
    split_and!; [done..|lia].
  - intros b' Hb' H0. destruct (Hk b' Hb' H0) as [Hlt|Hsome]; [lia|].
    destruct (decide (Block_Epoch b' = Index c)) as [->|Hne]; [lia|].
    right. by rewrite lookup_delete_ne.
Qed.

Lemma commit_inv_step (bs : list Block) (b : Block) (c c' : Committor) :
  Forall epoch_ok (bs ++ [b]) -> commit_inv bs c -> Blocks c !! Index c = None ->
  Commit c (Some b) = Ret c' -> commit_inv (bs ++ [b]) c' /\ Blocks c' !! Index c' = None.
Proof.
  intros Hok [Hi Hs Hb Hk] Hgap. unfold Commit. case_bool.
  - intros [= <-]. split; [|done]. split; [done|..].
    + intros k b' Hl. destruct (Hs k b' Hl). set_solver.
    + intros i b' Hl. destruct (Hb i b' Hl). set_solver.
    + intros b'. rewrite elem_of_app, list_elem_of_singleton. intros [Hin| ->]; auto.
  - cbn zeta. destruct (commit_loop _ _) as [c1|] eqn:El; [|done]. intros [= <-].
    eapply commit_inv_loop; [done| |exact El]. split; cbn; [done|..].
    + intros k b' Hl. destruct (Hs k b' Hl). set_solver.
    + intros i b'. rewrite lookup_insert_Some. intros [[<- <-]|[Hne Hl]].
      * split_and!; [done|set_solver|done].
      * destruct (Hb i b' Hl) as (? & ? & ?). split_and!; [done|set_solver|done].
    + intros b'. rewrite elem_of_app, list_elem_of_singleton, lookup_insert_is_Some'.
      intros [Hin| ->] H0; [|by auto]. destruct (Hk b' Hin H0); auto.
Qed.

Lemma commit_inv_all (bs : list Block) (c : Committor) :
  Forall epoch_ok bs -> commit_all NewCommittor bs = Ret c ->
  commit_inv bs c /\ Blocks c !! Index c = None.
Proof.
  assert (forall bs1 c1, Forall epoch_ok (bs1 ++ bs) -> commit_inv bs1 c1 ->
    Blocks c1 !! Index c1 = None -> commit_all c1 bs = Ret c ->
    commit_inv (bs1 ++ bs) c /\ Blocks c !! Index c = None) as H.
  { induction bs as [|b bs IH]; intros bs1 c1 Hok Hinv Hgap; cbn [commit_all].
    - intros [= <-]. by rewrite app_nil_r.
    - destruct (Commit c1 (Some b)) as [c2|] eqn:Ec; [|done]. cbn. intros Hall.
      assert (bs1 ++ b :: bs = (bs1 ++ [b]) ++ bs) as Heq by by rewrite <-app_assoc.
      rewrite Heq in *. apply Forall_app in Hok as Hok'. destruct Hok' as [Hok1 _].
      destruct (commit_inv_step bs1 b c1 c2 Hok1 Hinv Hgap Ec). by apply (IH (bs1 ++ [b]) c2). }
  intros Hok Hall. apply (H [] NewCommittor); try done.
  split; cbn; [done|..]; try by intros. intros b Hb. by apply elem_of_nil in Hb.
Qed.

(** ** What is delivered *)

Lemma deliver_in_order (bs : list Block) :
  Forall epoch_ok bs ->
  exists c, commit_all NewCommittor bs = Ret c /\
    (forall (k : nat) b, commitCh c !! k = Some b -> Block_Epoch b = Z.of_nat k /\ b ∈ bs) /\
    (forall k : nat, (k < length (commitCh c))%nat <->
       forall j : nat, (j <= k)%nat -> exists b, b ∈ bs /\ Block_Epoch b = Z.of_nat j).
Proof.
  intros Hok. destruct (commit_all_returns NewCommittor bs) as [c Hc]. exists c.
  destruct (commit_inv_all bs c Hok Hc) as [[Hi Hs Hb Hk] Hgap]. split_and!; [done..|].
  intros k. split.
  - intros Hlt j Hj. destruct (lookup_lt_is_Some_2 (commitCh c) j) as [b Hl]; [lia|].
    exists b. destruct (Hs j b Hl). done.
  - intros Hall. destruct (decide (k < length (commitCh c))%nat) as [|Hge]; [done|exfalso].
    destruct (Hall (length (commitCh c))) as (b & Hin & Heb); [lia|].
    destruct (Hk b Hin) as [Hlt|[x Hx]]; [lia|lia|]. rewrite Heb, <-Hi, Hgap in Hx. done.
Qed.

Lemma deliver_total_order (bs1 bs2 : list Block) (c1 c2 : Committor) :
  Forall epoch_ok bs1 -> Forall epoch_ok bs2 ->
  (forall b1 b2, b1 ∈ bs1 -> b2 ∈ bs2 -> Block_Epoch b1 = Block_Epoch b2 -> b1 = b2) ->
  commit_all NewCommittor bs1 = Ret c1 -> commit_all NewCommittor bs2 = Ret c2 ->
  commitCh c1 `prefix_of` commitCh c2 \/ commitCh c2 `prefix_of` commitCh c1.
Proof.
  intros Hok1 Hok2 Hagree H1 H2.
  destruct (commit_inv_all bs1 c1 Hok1 H1) as [[_ Hs1 _ _] _].
  destruct (commit_inv_all bs2 c2 Hok2 H2) as [[_ Hs2 _ _] _].
  apply prefix_by_index. intros k b1 b2 Hb1 Hb2.
  destruct (Hs1 k b1 Hb1), (Hs2 k b2 Hb2). apply Hagree; [done..|congruence].
Qed.

End Deliver.
