(* ===== verification/Runtime.v ===== *)
(** * The runtime of a protocol node: goroutines, channels, scheduling

    Every protocol package runs the same way (the [Run] method of its [Core]):
    one main goroutine takes events from channels in a [select] loop and handles
    them; handlers send messages, write to channels, including the one the loop
    reads, and start goroutines with [go], which share the protocol's instances
    with the loop.  This file is that machine, for any protocol:

    - [handle] is the body of the select loop for one event, up to where it ends
      or next reads memory it shares with a goroutine;
    - [tstep] is one atomic step of a started goroutine, or of what remains of a
      handler (between two accesses to shared memory or channels), with what
      remains of it;
    - the effects of either are performed one at a time, and a write to a full
      channel blocks.

    [nstep] runs one scheduling choice, [step] relates two states of a node,
    [reachable] closes it.  [node_invariant] is the induction rule the protocols
    use; [main_blocked_reachable] shows that a loop blocked on its own channel
    never resumes. *)

From S2P Require Import Prelude Committee.

Open Scope Z_scope.

Section Effects.
Context {Ev Msg Thread : Type}.

Inductive Effect :=
| ESend (from to : NodeID) (m : Msg)   (* Transimtor.Send(from, to, m) *)
| EPush (ch : nat) (ev : Ev)           (* ch <- ev *)
| EGo (t : Thread).                    (* go t *)
End Effects.
Arguments Effect : clear implicits.

Section Runtime.
Context {Core Ev Msg Thread : Type}.

Abbreviation effect := (Effect Ev Msg Thread).

Context (cap : nat -> nat)
        (handle : Ev -> M Core effect (option Thread))
        (tstep : Thread -> M Core effect (option Thread)).

(** A goroutine: the effects it still has to perform, then what it continues as. *)
Record goroutine := mkGo { g_effects : list effect; g_cont : option Thread }.

(** [n_main] and [n_cont] are what the main goroutine still has to do.  The rest is
    history: [n_sent] the messages sent, [n_log] all effects emitted, [n_recv] the
    events the network delivered, [n_hist] the events the main loop has taken. *)
Record Node := mkNode {
  n_core : Core;
  n_main : list effect;
  n_cont : option Thread;
  n_gos : list goroutine;
  n_chans : gmap nat (list Ev);
  n_sent : list (NodeID * NodeID * Msg);
  n_log : list effect;
  n_recv : list Ev;
  n_hist : list Ev
}.

#[local] Instance Node_eta : Settable Node := fun n =>
  mkNode (n_core n) (n_main n) (n_cont n) (n_gos n) (n_chans n) (n_sent n) (n_log n)
    (n_recv n) (n_hist n).

Definition chan (n : Node) (ch : nat) : list Ev := default [] (n_chans n !! ch).

(** Perform one effect; [None] when it blocks. *)
Definition exec (e : effect) (n : Node) : option Node :=
  match e with
  | ESend from to m => Some (n <| n_sent := n_sent n ++ [(from, to, m)] |>)
  | EPush ch ev =>
      if bool_decide (length (chan n ch) < cap ch)%nat
      then Some (n <| n_chans := <[ch := chan n ch ++ [ev]]> (n_chans n) |>)
      else None
  | EGo t => Some (n <| n_gos := n_gos n ++ [mkGo [] (Some t)] |>)
  end.

(** What the scheduler and the network choose. *)
Inductive choice :=
| CRecv (ev : Ev)      (* the receiver puts an incoming message on channel 0 *)
| CHandle (ch : nat)   (* the idle main loop takes an event from a channel *)
| CMain                (* the main goroutine goes on with the event it handles *)
| CGo (i : nat).       (* goroutine [i] makes its next step *)

Inductive result :=
| Next (n : Node)
| Crash
| Disabled.

Definition is_next (r : result) : bool := match r with Next _ => true | _ => false end.

Definition of_option (o : option Node) : result :=
  match o with Some n => Next n | None => Disabled end.

Definition nstep (c : choice) (n : Node) : result :=
  match c with
  | CRecv ev => of_option (exec (EPush 0 ev) (n <| n_recv := n_recv n ++ [ev] |>))
  | CHandle ch =>
      match n_main n, n_cont n, chan n ch with
      | [], None, ev :: rest =>
          match handle ev (n_core n) with
          | Panic => Crash
          | Ret (t, core', es) =>
              Next (n <| n_core := core' |> <| n_main := es |> <| n_cont := t |>
                      <| n_chans := <[ch := rest]> (n_chans n) |>
                      <| n_log := n_log n ++ es |> <| n_hist := n_hist n ++ [ev] |>)
          end
      | _, _, _ => Disabled
      end
  | CMain =>
      match n_main n, n_cont n with
      | e :: es, _ => of_option (exec e (n <| n_main := es |>))
      | [], Some t =>
          match tstep t (n_core n) with
          | Panic => Crash
          | Ret (t', core', es) =>
              Next (n <| n_core := core' |> <| n_main := es |> <| n_cont := t' |>
                      <| n_log := n_log n ++ es |>)
          end
      | [], None => Disabled
      end
  | CGo i =>
      match n_gos n !! i with
      | Some (mkGo (e :: es) t) =>
          of_option (exec e (n <| n_gos := <[i := mkGo es t]> (n_gos n) |>))
      | Some (mkGo [] (Some t)) =>
          match tstep t (n_core n) with
          | Panic => Crash
          | Ret (t', core', es) =>
              Next (n <| n_core := core' |>
                      <| n_gos := <[i := mkGo es t']> (n_gos n) |>
                      <| n_log := n_log n ++ es |>)
          end
      | Some (mkGo [] None) => Disabled
      | None => Disabled
      end
  end.

(** Run a schedule. *)
Fixpoint nrun (cs : list choice) (n : Node) : result :=
  match cs with
  | [] => Next n
  | c :: cs' => match nstep c n with Next n' => nrun cs' n' | r => r end
  end.

(** Steps in an environment that delivers only events satisfying [env]. *)
Definition allowed (env : Ev -> Prop) (c : choice) : Prop :=
  match c with CRecv ev => env ev | _ => True end.

Definition step (env : Ev -> Prop) (n n' : Node) : Prop :=
  exists c, allowed env c /\ nstep c n = Next n'.

Inductive reachable (env : Ev -> Prop) (n0 : Node) : Node -> Prop :=
| reach_init : reachable env n0 n0
| reach_step n n' : reachable env n0 n -> step env n n' -> reachable env n0 n'.

(** The start of a node: the main goroutine has run the first lines of [Run],
    which leave it with effects to perform. *)
Definition start (c : Core) (es : list effect) : Node := mkNode c es None [] ∅ [] es [] [].

Lemma nrun_reachable (env : Ev -> Prop) (n0 n n' : Node) (cs : list choice) :
  reachable env n0 n -> Forall (allowed env) cs -> nrun cs n = Next n' -> reachable env n0 n'.
Proof.
  revert n. induction cs as [|c cs IH]; intros n Hr Hall Hrun; cbn in Hrun.
  - by simplify_eq.
  - apply Forall_cons in Hall as [Hc Hall]. destruct (nstep c n) as [n1| |] eqn:E; try done.
    eapply IH; [|done..]. eapply reach_step; [done|]. by exists c.
Qed.

(** ** The induction rule *)

Section Invariant.
Context (env : Ev -> Prop)                       (* what the network may deliver *)
        (J : Core -> list effect -> Prop)        (* state and effects emitted so far *)
        (P : Ev -> Prop)                         (* events on the channels *)
        (G : Core -> Thread -> Prop).            (* goroutines, stable under steps *)

Definition effect_ok (s : Core) (e : effect) : Prop :=
  match e with
  | ESend _ _ _ => True
  | EPush _ ev => P ev
  | EGo t => G s t
  end.

(** The postcondition of a handler or goroutine step started in [s]. *)
Definition step_post (s : Core) (log : list effect) (s' : Core) (es : list effect) : Prop :=
  J s' (log ++ es) /\ Forall (effect_ok s') es /\ (forall t, G s t -> G s' t).

Definition go_ok (s : Core) (g : goroutine) : Prop :=
  Forall (effect_ok s) (g_effects g) /\ (forall t, g_cont g = Some t -> G s t).

Definition node_ok (n : Node) : Prop :=
  J (n_core n) (n_log n) /\ go_ok (n_core n) (mkGo (n_main n) (n_cont n)) /\
  Forall (go_ok (n_core n)) (n_gos n) /\ (forall ch, Forall P (chan n ch)).

Lemma chan_insert (n : Node) (ch ch' : nat) (l : list Ev) :
  chan (n <| n_chans := <[ch := l]> (n_chans n) |>) ch' =
  if decide (ch = ch') then l else chan n ch'.
Proof. unfold chan. cbn. rewrite lookup_insert. by case_decide. Qed.

Lemma exec_ok (e : effect) (n n' : Node) :
  node_ok n -> effect_ok (n_core n) e -> exec e n = Some n' -> node_ok n'.
Proof.
  intros (HJ & HM & HGo & HC) He. destruct e as [f t m|ch ev|t]; cbn.
  - intros [= <-]. done.
  - case_match; [|done]. intros [= <-]. split_and!; [done..|].
    intros ch'. rewrite chan_insert. destruct (decide (ch = ch')) as [<-|]; [|done].
    apply Forall_app. split; [done|]. by constructor.
  - intros [= <-]. split_and!; [done..| |done]. cbn. apply Forall_app. split; [done|].
    constructor; [|done]. split; [constructor|]. cbn. by intros ? [= <-].
Qed.

Context (bad : Core -> Ev -> Prop)               (* when an event may crash the handler *)
        (handle_ok : forall ev s log, P ev -> J s log ->
           wp (bad s ev) (handle ev) s (fun t' s' es =>
             step_post s log s' es /\ (forall t'', t' = Some t'' -> G s' t'')))
        (tstep_ok : forall t s log, G s t -> J s log ->
           wp False (tstep t) s (fun t' s' es =>
             step_post s log s' es /\ (forall t'', t' = Some t'' -> G s' t'')))
        (env_ok : forall ev, env ev -> P ev).

Lemma go_ok_mono (s s' : Core) (g : goroutine) :
  (forall t, G s t -> G s' t) -> go_ok s g -> go_ok s' g.
Proof.
  intros Hm [He Hc]. split; [|eauto].
  eapply Forall_impl; [exact He|]. intros [] ?; cbn in *; auto.
Qed.

Lemma effects_mono (s s' : Core) (es : list effect) :
  (forall t, G s t -> G s' t) -> Forall (effect_ok s) es -> Forall (effect_ok s') es.
Proof. intros Hm He. eapply Forall_impl; [exact He|]. intros [] ?; cbn in *; auto. Qed.

(** A crash is one of the handler on a bad event. *)
Definition crash_cause (c : choice) (n : Node) : Prop :=
  exists ch ev rest, c = CHandle ch /\ n_main n = [] /\ n_cont n = None /\
    chan n ch = ev :: rest /\ bad (n_core n) ev.

Lemma nstep_ok (c : choice) (n : Node) :
  node_ok n -> allowed env c ->
  match nstep c n with Next n' => node_ok n' | Crash => crash_cause c n | Disabled => True end.
Proof using env_ok handle_ok tstep_ok.
  intros Hok Hall. pose proof Hok as (HJ & HM & HGo & HC). destruct c as [ev|ch| |i]; cbn.
  - destruct (exec (EPush 0 ev) (n <| n_recv := n_recv n ++ [ev] |>)) as [n'|] eqn:E; cbn in E;
      rewrite E; [|done].
    eapply (exec_ok (EPush 0 ev) (n <| n_recv := n_recv n ++ [ev] |>)); [done| |exact E].
    cbn. by apply env_ok.
  - destruct (n_main n) as [|e es] eqn:Em; [|done]. destruct (n_cont n) eqn:Et; [done|].
    destruct (chan n ch) as [|ev rest] eqn:Ech; [done|].
    pose proof (HC ch) as Hch. rewrite Ech in Hch. apply Forall_cons in Hch as [Hev Hrest].
    pose proof (handle_ok ev (n_core n) (n_log n) Hev HJ) as Hw. unfold wp in Hw.
    destruct (handle ev (n_core n)) as [[[u s'] es']|]; [|by exists ch, ev, rest].
    destruct Hw as ((HJ' & Hes & Hm) & Hu). split_and!; [done|by split|..]; cbn.
    + eapply Forall_impl; [exact HGo|]. intros g. by apply go_ok_mono.
    + intros ch'. pose proof (HC ch') as Hc'. unfold chan in *. cbn. rewrite lookup_insert.
      by case_decide.
  - destruct HM as [HM Hk]. cbn in HM, Hk. destruct (n_main n) as [|e es] eqn:Em.
    + destruct (n_cont n) as [t|] eqn:Et; [|done]. specialize (Hk t eq_refl).
      pose proof (tstep_ok t (n_core n) (n_log n) Hk HJ) as Hw. unfold wp in Hw.
      destruct (tstep t (n_core n)) as [[[t' s'] es']|]; [|done].
      destruct Hw as ((HJ' & Hes & Hm) & Ht'). split_and!; [done|by split| |done]; cbn.
      eapply Forall_impl; [exact HGo|]. intros g. by apply go_ok_mono.
    + apply Forall_cons in HM as [He Hes].
      destruct (exec e (n <| n_main := es |>)) as [n'|] eqn:E; [|done].
      eapply (exec_ok e (n <| n_main := es |>)); [|exact He|exact E]. done.
  - destruct (n_gos n !! i) as [[[|e es] [t|]]|] eqn:Ei; try done.
    + pose proof (Forall_lookup_1 _ _ _ _ HGo Ei) as [_ Ht]. specialize (Ht t eq_refl).
      pose proof (tstep_ok t (n_core n) (n_log n) Ht HJ) as Hw. unfold wp in Hw.
      destruct (tstep t (n_core n)) as [[[t' s'] es']|]; [|done].
      destruct Hw as ((HJ' & Hes & Hm) & Ht'). split_and!; [done|..|done]; cbn.
      * by eapply go_ok_mono.
      * apply Forall_insert; [|by split].
        eapply Forall_impl; [exact HGo|]. intros g. by apply go_ok_mono.
    + pose proof (Forall_lookup_1 _ _ _ _ HGo Ei) as [He Ht]. apply Forall_cons in He as [He Hes].
      match goal with |- context [exec e ?n1] =>
        destruct (exec e n1) as [n'|] eqn:E; [|done];
        eapply (exec_ok e n1); [|exact He|exact E] end.
      split_and!; [done..| |done]. cbn. apply Forall_insert; [done|]. by split.
    + pose proof (Forall_lookup_1 _ _ _ _ HGo Ei) as [He Ht]. apply Forall_cons in He as [He Hes].
      match goal with |- context [exec e ?n1] =>
        destruct (exec e n1) as [n'|] eqn:E; [|done];
        eapply (exec_ok e n1); [|exact He|exact E] end.
      split_and!; [done..| |done]. cbn. apply Forall_insert; [done|]. by split.
Qed.

Lemma node_invariant (n0 n : Node) : node_ok n0 -> reachable env n0 n -> node_ok n.
Proof using env_ok handle_ok tstep_ok.
  intros H0 Hr. induction Hr as [|n n' _ IH (c & Hc & Hs)]; [done|].
  pose proof (nstep_ok c n IH Hc) as H. by rewrite Hs in H.
Qed.

Lemma node_crash_cause (n0 n : Node) (c : choice) :
  node_ok n0 -> reachable env n0 n -> allowed env c -> nstep c n = Crash -> crash_cause c n.
Proof using env_ok handle_ok tstep_ok.
  intros H0 Hr Hc Hs. pose proof (nstep_ok c n (node_invariant _ _ H0 Hr) Hc) as H.
  by rewrite Hs in H.
Qed.

Lemma node_no_crash (n0 n : Node) (c : choice) :
  (forall s ev, ~ bad s ev) ->
  node_ok n0 -> reachable env n0 n -> allowed env c -> nstep c n <> Crash.
Proof using env_ok handle_ok tstep_ok.
  intros Hbad H0 Hr Hc Hs. by destruct (node_crash_cause n0 n c) as (? & ev & ? & _ & _ & _ & _ & ?%Hbad).
Qed.

(** How a step changes the core: not at all, or by a handler or a goroutine that
    the invariant allows. *)
Lemma nstep_core (c : choice) (n n' : Node) :
  node_ok n -> nstep c n = Next n' ->
  n_core n' = n_core n \/
  (exists ev u es, P ev /\ handle ev (n_core n) = Ret (u, n_core n', es)) \/
  (exists t t' es, G (n_core n) t /\ tstep t (n_core n) = Ret (t', n_core n', es)).
Proof.
  intros (HJ & HM & HGo & HC) Hs.
  assert (forall e n1, of_option (exec e n1) = Next n' -> n_core n' = n_core n1) as Hex.
  { intros e n1. destruct e; cbn; [by intros [= <-]| |by intros [= <-]].
    case_match; [by intros [= <-]|done]. }
  unfold nstep in Hs. destruct c as [ev|ch| |i].
  - left. by apply Hex in Hs.
  - destruct (n_main n); [|done]. destruct (n_cont n); [done|].
    destruct (chan n ch) as [|ev rest] eqn:Ech; [done|]. pose proof (HC ch) as Hch. rewrite Ech in Hch. apply Forall_cons in Hch as [Hev _].
    destruct (handle ev (n_core n)) as [[[u s'] es]|] eqn:Eh; [|done]. injection Hs as <-.
    right. left. exists ev, u, es. done.
  - destruct (n_main n); [|left; by apply Hex in Hs]. destruct (n_cont n) as [t|] eqn:Ec; [|done].
    destruct HM as [_ Ht].
    destruct (tstep t (n_core n)) as [[[t' s'] es']|] eqn:Et; [|done]. injection Hs as <-.
    right. right. exists t, t', es'. auto.
  - destruct (n_gos n !! i) as [[[|e es] [t|]]|] eqn:Ei; try done; try (left; by apply Hex in Hs).
    pose proof (Forall_lookup_1 _ _ _ _ HGo Ei) as [_ Ht].
    destruct (tstep t (n_core n)) as [[[t' s'] es']|] eqn:Et; [|done]. injection Hs as <-.
    right. right. exists t, t', es'. auto.
Qed.

Lemma start_ok (c : Core) (es : list effect) :
  J c es -> Forall (effect_ok c) es -> node_ok (start c es).
Proof. intros HJ He. split_and!; cbn; [done|by split|constructor|]. intros ch. constructor. Qed.

End Invariant.

(** ** Sent messages

    What was sent is what was emitted less what is still to be performed. *)

Definition sends (es : list effect) : list (NodeID * NodeID * Msg) :=
  omap (fun e => match e with ESend f t m => Some (f, t, m) | _ => None end) es.

Definition pending (n : Node) : list effect :=
  n_main n ++ concat (g_effects <$> n_gos n).

Lemma sends_app (es1 es2 : list effect) : sends (es1 ++ es2) = sends es1 ++ sends es2.
Proof. apply omap_app. Qed.

Lemma pending_insert (gos : list goroutine) (i : nat) (g g' : goroutine) :
  gos !! i = Some g ->
  sends (concat (g_effects <$> <[i := g']> gos)) ++ sends (g_effects g) ≡ₚ
  sends (concat (g_effects <$> gos)) ++ sends (g_effects g').
Proof.
  revert i. induction gos as [|h gos IH]; intros [|i] Hi; cbn in Hi; simplify_eq; cbn.
  - rewrite !sends_app, <-!(assoc (++)). rewrite (Permutation_app_comm (sends _) (sends (g_effects g))).
    rewrite (assoc (++)), (Permutation_app_comm (sends (g_effects g'))), <-(assoc (++)).
    apply Permutation_app_head, Permutation_app_comm.
  - rewrite !sends_app, <-!(assoc (++)). apply Permutation_app_head. by apply IH.
Qed.

Definition sent_inv (n : Node) : Prop := sends (n_log n) ≡ₚ n_sent n ++ sends (pending n).

Lemma exec_sent (e : effect) (n n' : Node) :
  exec e n = Some n' ->
  n_log n' = n_log n /\ n_sent n' = n_sent n ++ sends [e] /\ sends (pending n') = sends (pending n).
Proof.
  destruct e as [f t m|ch ev|t]; cbn.
  - intros [= <-]. done.
  - case_match; [|done]. intros [= <-]. cbn. by rewrite app_nil_r.
  - intros [= <-]. cbn. rewrite app_nil_r. split_and!; [done..|]. unfold pending. cbn.
    by rewrite fmap_app, concat_app, app_nil_r.
Qed.

Lemma exec_sent_inv (e : effect) (n n1 n' : Node) :
  exec e n1 = Some n' -> sent_inv n -> n_log n1 = n_log n -> n_sent n1 = n_sent n ->
  sends (pending n) ≡ₚ sends [e] ++ sends (pending n1) -> sent_inv n'.
Proof.
  intros (Hl & Hs & Hp)%exec_sent Hinv Hl1 Hs1 Hp1. unfold sent_inv in *.
  by rewrite Hl, Hs, Hp, Hl1, Hs1, Hinv, Hp1, (assoc (++)).
Qed.

Lemma go_sent_inv (n n' : Node) (i : nat) (e : effect) (es : list effect) (t : option Thread) :
  n_gos n !! i = Some (mkGo (e :: es) t) -> sent_inv n ->
  of_option (exec e (n <| n_gos := <[i := mkGo es t]> (n_gos n) |>)) = Next n' -> sent_inv n'.
Proof.
  intros Hi Hinv Hs. destruct (exec e _) as [n1|] eqn:Ee; [|done]. injection Hs as <-.
  eapply exec_sent_inv; [exact Ee|exact Hinv|done|done|].
  pose proof (pending_insert _ _ _ (mkGo es t) Hi) as Hp. cbn [g_effects] in Hp.
  change (e :: es) with ([e] ++ es) in Hp. rewrite sends_app, (assoc (++)) in Hp.
  apply Permutation_app_inv_r in Hp. unfold pending. cbn [n_main n_gos].
  rewrite !sends_app, <-Hp, (assoc (++)). apply Permutation_app_comm.
Qed.

Lemma nstep_sent (c : choice) (n n' : Node) : nstep c n = Next n' -> sent_inv n -> sent_inv n'.
Proof.
  intros Hs Hinv. unfold nstep in Hs. destruct c as [ev|ch| |i].
  - destruct (exec (EPush 0 ev) (n <| n_recv := n_recv n ++ [ev] |>)) as [n1|] eqn:Ee; [|done].
    injection Hs as <-. by eapply exec_sent_inv.
  - destruct (n_main n) eqn:Em; [|done]. destruct (n_cont n); [done|]. destruct (chan n ch); [done|].
    destruct (handle _ _) as [[[u s'] es]|]; [|done]. injection Hs as <-.
    unfold sent_inv, pending in *. cbn. rewrite !sends_app, Hinv, Em. cbn.
    rewrite <-(assoc (++)). apply Permutation_app_head, Permutation_app_comm.
  - destruct (n_main n) as [|e es] eqn:Em.
    + destruct (n_cont n) as [t|]; [|done].
      destruct (tstep _ _) as [[[t' s'] es]|]; [|done]. injection Hs as <-.
      unfold sent_inv, pending in *. cbn. rewrite !sends_app, Hinv, Em. cbn.
      rewrite <-(assoc (++)). apply Permutation_app_head, Permutation_app_comm.
    + destruct (exec e _) as [n1|] eqn:Ee; [|done]. injection Hs as <-.
      eapply exec_sent_inv; [exact Ee|exact Hinv|done|done|].
      unfold pending. rewrite Em. cbn [app n_main n_gos]. by rewrite <-sends_app.
  - destruct (n_gos n !! i) as [[[|e es] [t|]]|] eqn:Ei; try done.
    + destruct (tstep _ _) as [[[t' s'] es]|]; [|done]. injection Hs as <-.
      pose proof (pending_insert _ _ _ (mkGo es t') Ei) as Hp. cbn in Hp. rewrite app_nil_r in Hp.
      unfold sent_inv, pending in *. cbn. rewrite !sends_app, Hp, Hinv, sends_app.
      by rewrite <-!(assoc (++)).
    + eapply go_sent_inv; eauto.
    + eapply go_sent_inv; eauto.
Qed.

Lemma reachable_sent (env : Ev -> Prop) (n0 n : Node) :
  sent_inv n0 -> reachable env n0 n -> sent_inv n.
Proof. intros H0. induction 1 as [|n n' _ IH (c & _ & Hs)]; [done|]. by eapply nstep_sent. Qed.

Lemma sent_in_log (n : Node) (f t : NodeID) (m : Msg) :
  sent_inv n -> (f, t, m) ∈ n_sent n -> ESend f t m ∈ n_log n.
Proof.
  intros Hinv Hin. assert ((f, t, m) ∈ sends (n_log n)) as Hs.
  { unfold sent_inv in Hinv. rewrite Hinv. apply elem_of_app. by left. }
  apply list_elem_of_omap in Hs as ([] & He & Hx); simplify_eq. done.
Qed.

Lemma start_sent (c : Core) (es : list effect) : sent_inv (start c es).
Proof. unfold sent_inv, pending. cbn. by rewrite app_nil_r. Qed.

(** ** A loop blocked on its own channel *)

(** The main goroutine is about to write to a full channel, which it alone
    reads. *)
Definition main_blocked (n : Node) : Prop :=
  exists ch ev es, n_main n = EPush ch ev :: es /\ (cap ch <= length (chan n ch))%nat.

Lemma exec_grows (e : effect) (n n' : Node) :
  exec e n = Some n' ->
  n_main n' = n_main n /\ n_hist n' = n_hist n /\
  (forall ch, (length (chan n ch) <= length (chan n' ch))%nat).
Proof.
  destruct e; cbn.
  - intros [= <-]. done.
  - case_match; [|done]. intros [= <-]. split_and!; [done..|]. intros ch'. rewrite chan_insert.
    destruct (decide (ch = ch')) as [<-|]; [rewrite length_app; lia|lia].
  - intros [= <-]. done.
Qed.

(** What stays of a blocked main goroutine: that it is blocked, on the same write, and
    the events it has taken. *)
Definition still_blocked (n n' : Node) : Prop :=
  main_blocked n' /\ n_main n' = n_main n /\ n_hist n' = n_hist n.

Lemma main_blocked_step (n n' : Node) (c : choice) :
  main_blocked n -> nstep c n = Next n' -> still_blocked n n'.
Proof.
  intros (ch & ev & es & Hm & Hf). unfold still_blocked. rewrite Hm.
  assert (forall n1 n2 : Node, n_main n1 = EPush ch ev :: es -> n_chans n1 = n_chans n ->
    n_hist n1 = n_hist n -> (exists e, exec e n1 = Some n2) ->
    main_blocked n2 /\ n_main n2 = EPush ch ev :: es /\ n_hist n2 = n_hist n) as Hex.
  { intros n1 n2 Hm1 Hc1 Hh1 [e He]. apply exec_grows in He as (Hm2 & Hh2 & Hc2).
    split_and!; [|congruence..]. exists ch, ev, es. split; [congruence|].
    specialize (Hc2 ch). unfold chan in *. rewrite Hc1 in Hc2. lia. }
  destruct c as [ev'|ch'| |i]; cbn; rewrite ?Hm.
  - intros Hs. apply (Hex (n <| n_recv := n_recv n ++ [ev'] |>)); [done..|]. exists (EPush 0 ev').
    cbn. destruct (bool_decide _); cbn in *; congruence.
  - done.
  - unfold exec. rewrite bool_decide_false by (unfold chan in *; cbn; lia). done.
  - destruct (n_gos n !! i) as [[[|e es'] [t|]]|]; try done.
    + destruct (tstep t (n_core n)) as [[[t' s'] es'']|]; [|done]. intros [= <-].
      split; [|done]. exists ch, ev, es. done.
    + intros Hs. apply (Hex (n <| n_gos := <[i := mkGo es' (Some t)]> (n_gos n) |>)); [done..|].
      exists e. destruct (exec e _); cbn in Hs; congruence.
    + intros Hs. apply (Hex (n <| n_gos := <[i := mkGo es' None]> (n_gos n) |>)); [done..|].
      exists e. destruct (exec e _); cbn in Hs; congruence.
Qed.

(** Once blocked on its own channel the main goroutine is blocked in every
    later state: nothing else takes from that channel. *)
Lemma main_blocked_reachable (env : Ev -> Prop) (n n' : Node) :
  main_blocked n -> reachable env n n' -> still_blocked n n'.
Proof.
  intros Hb Hr. induction Hr as [|n1 n2 _ (IH1 & IH2 & IH3) (c & _ & Hs)]; [done|].
  destruct (main_blocked_step n1 n2 c IH1 Hs) as (H1 & H2 & H3). split_and!; [done|congruence..].
Qed.

Lemma reachable_trans (env : Ev -> Prop) (n1 n2 n3 : Node) :
  reachable env n1 n2 -> reachable env n2 n3 -> reachable env n1 n3.
Proof. intros H12. induction 1 as [|n n' _ IH Hs]; [done|]. by eapply reach_step. Qed.

(** The network may put messages on channel 0, as long as there is room, without the
    main goroutine doing anything. *)
Lemma deliver_all (env : Ev -> Prop) (ms : list Ev) (n : Node) :
  Forall env ms -> (length (chan n 0) + length ms <= cap 0)%nat ->
  exists n', reachable env n n' /\ n_main n' = n_main n /\ n_hist n' = n_hist n /\
    chan n' 0 = chan n 0 ++ ms.
Proof.
  intros Hms. revert n. induction Hms as [|m ms Hm _ IH]; intros n Hlen.
  - exists n. split_and!; [apply reach_init|done|done|by rewrite app_nil_r].
  - set (n1 := n <| n_recv := n_recv n ++ [m] |>
                 <| n_chans := <[0%nat := chan n 0 ++ [m]]> (n_chans n) |>).
    assert (chan n1 0 = chan n 0 ++ [m]) as Hc by (unfold n1, chan; cbn; by rewrite lookup_insert_eq).
    assert (step env n n1) as Hs.
    { exists (CRecv m). split; [done|]. unfold chan in Hlen. cbn in Hlen |- *. unfold chan. cbn.
      by rewrite bool_decide_true by lia. }
    destruct (IH n1) as (n' & Hr & Hmain & Hh & Hc').
    + rewrite Hc, length_app. cbn in *. lia.
    + exists n'. rewrite Hc', Hc, <-app_assoc. split_and!; try done.
      eapply reachable_trans; [|exact Hr]. eapply reach_step; [apply reach_init|exact Hs].
Qed.

End Runtime.
