(* ===== verification/Triple.v ===== *)
(** * Specifications of handler commands

    The protocols specify their handlers by [triple]: from a good state with
    enough room the command does not panic, ends in a good state, and relates the
    states before and after and the effects by a relation that composes along
    the program.  The relation is graded by how much of a bounded resource (places
    in the pool's channel) a command may use.  [StepRel] is what a protocol has to
    provide; the rules are proved against it. *)

From S2P Require Import Prelude.

Class StepRel {S E : Type} (ok : S -> Prop) (room : nat -> S -> Prop)
    (rel : nat -> S -> S -> list E -> Prop) := {
  rel_refl : forall s, rel 0%nat s s [];
  rel_trans : forall k1 k2 s1 s2 s3 e1 e2,
    rel k1 s1 s2 e1 -> rel k2 s2 s3 e2 -> rel (k1 + k2)%nat s1 s3 (e1 ++ e2);
  rel_weaken : forall k1 k2 s1 s2 e, rel k1 s1 s2 e -> rel (k1 + k2)%nat s1 s2 e;
  room_weaken : forall k1 k2 s, room (k1 + k2)%nat s -> room k1 s;
  room_step : forall k1 k2 s1 s2 e, room (k1 + k2)%nat s1 -> rel k1 s1 s2 e -> room k2 s2
}.

Section Triples.
Context {S E : Type} (ok : S -> Prop) (room : nat -> S -> Prop)
        (rel : nat -> S -> S -> list E -> Prop).

Definition triple {A : Type} (k : nat) (I : S -> Prop) (m : M S E A) (Q : A -> S -> Prop) : Prop :=
  forall s, ok s -> room k s -> I s ->
    wp False m s (fun a s' es => ok s' /\ rel k s s' es /\ Q a s').

(** A command without pre- and postcondition of its own. *)
Definition safe {A : Type} (m : M S E A) : Prop :=
  triple 0 (fun _ => True) m (fun _ _ => True).

End Triples.

Section Rules.
Context {S E : Type} {ok : S -> Prop} {room : nat -> S -> Prop}
        {rel : nat -> S -> S -> list E -> Prop} `{!StepRel ok room rel}.

Abbreviation triple := (triple ok room rel).
Abbreviation safe := (safe ok room rel).

Lemma triple_conseq {A} k (I I' : S -> Prop) (m : M S E A) (Q Q' : A -> S -> Prop) :
  triple k I' m Q' -> (forall s, I s -> I' s) -> (forall a s, Q' a s -> Q a s) -> triple k I m Q.
Proof.
  intros Hm HI HQ s Hs Hp Hi. eapply wp_mono; [by apply Hm; auto|]. naive_solver.
Qed.

Lemma safe_triple {A} (I : S -> Prop) (m : M S E A) :
  safe m -> triple 0 I m (fun _ _ => True).
Proof. intros H. by eapply triple_conseq. Qed.

Lemma triple_bind {A B} k1 k2 (I : S -> Prop) (m : M S E A) (f : A -> M S E B)
    (Q : A -> S -> Prop) (R : B -> S -> Prop) :
  triple k1 I m Q -> (forall a, triple k2 (Q a) (f a) R) -> triple (k1 + k2) I (m ≫= f) R.
Proof using Type*.
  intros Hm Hf s Hs Hp Hi. apply wp_bind.
  eapply wp_mono; [apply Hm; [done|by eapply room_weaken|done]|].
  intros a s1 es1 (Hs1 & Hx1 & Hq). eapply wp_mono.
  { apply Hf; [done| |exact Hq]. by eapply room_step. }
  intros b s2 es2 (Hs2 & Hx2 & Hr). split_and!; [done|by eapply rel_trans|done].
Qed.

Lemma safe_bind {A B} (m : M S E A) (f : A -> M S E B) :
  safe m -> (forall a, safe (f a)) -> safe (m ≫= f).
Proof using Type*. intros Hm Hf. by apply (triple_bind 0 0 _ _ _ (fun _ _ => True)). Qed.

Lemma triple_pre {A} k (I : S -> Prop) (m : M S E A) (Q : A -> S -> Prop) :
  (forall s0, ok s0 -> I s0 -> triple k (fun s => s = s0) m Q) -> triple k I m Q.
Proof. intros H s Hs Hp Hi. by apply (H s). Qed.

Lemma triple_get {A} k (I : S -> Prop) (f : S -> M S E A) (Q : A -> S -> Prop) :
  (forall s0, ok s0 -> I s0 -> triple k (fun s => s = s0) (f s0) Q) ->
  triple k I (get_st ≫= f) Q.
Proof.
  intros H s Hs Hp Hi. apply wp_bind, wp_get. eapply wp_mono; [by apply (H s)|]. done.
Qed.

(** Read, then go on with a command that is safe from every good state. *)
Lemma safe_get {A} (f : S -> M S E A) :
  (forall s0, ok s0 -> safe (f s0)) -> safe (get_st ≫= f).
Proof.
  intros H. apply triple_get. intros s0 Hs0 _. apply safe_triple. by apply H.
Qed.

Lemma triple_ret {A} (I : S -> Prop) (a : A) (Q : A -> S -> Prop) :
  (forall s, I s -> Q a s) -> triple 0 I (mret a) Q.
Proof using Type*. intros H s Hs Hp Hi. apply wp_ret. split_and!; [done|apply rel_refl|auto]. Qed.

Lemma safe_ret {A} (a : A) : safe (mret a).
Proof using Type*. by apply triple_ret. Qed.

Lemma safe_gets {A} (f : S -> A) : safe (gets f).
Proof using Type*. intros s Hs Hp Hi. apply wp_gets. split_and!; [done|apply rel_refl|auto]. Qed.

Lemma triple_modify k (I : S -> Prop) (f : S -> S) (Q : unit -> S -> Prop) :
  (forall s, ok s -> I s -> ok (f s) /\ rel k s (f s) [] /\ Q tt (f s)) ->
  triple k I (modify f) Q.
Proof. intros H s Hs Hp Hi. apply wp_modify. by apply H. Qed.

Lemma triple_lift {A} k (I : S -> Prop) (o : Outcome A) (Q : A -> S -> Prop) (a : A) :
  o = Ret a -> triple k I (mret a) Q -> triple k I (lift_outcome o) Q.
Proof. intros -> H s Hs Hp Hi. apply wp_lift. by apply (H s). Qed.

Lemma safe_lift {A B} (o : Outcome A) (a : A) (f : A -> M S E B) :
  o = Ret a -> safe (f a) -> safe (lift_outcome o ≫= f).
Proof.
  intros -> Hf s Hs Hp Hi. apply wp_bind, wp_lift. eapply wp_mono; [by apply Hf|]. done.
Qed.

Lemma safe_emit (x : E) : (forall s, ok s -> rel 0 s s [x]) -> safe (emit x).
Proof. intros Hx s Hs Hp Hi. apply wp_emit. auto. Qed.

Lemma safe_weaken {A} (k : nat) (I : S -> Prop) (m : M S E A) :
  safe m -> triple k I m (fun _ _ => True).
Proof using Type*.
  intros Hm s Hs Hp _. eapply wp_mono; [apply Hm; [done|by apply (room_weaken 0 k)|done]|].
  intros a s' es (H1 & H2 & _). split_and!; [done| |done]. by apply (rel_weaken 0 k).
Qed.

Lemma triple_ret_weaken {A} (k : nat) (I : S -> Prop) (a : A) (Q : A -> S -> Prop) :
  (forall s, I s -> Q a s) -> triple k I (mret a) Q.
Proof using Type*.
  intros H s Hs Hp Hi. apply wp_ret. split_and!; [done| |auto]. apply (rel_weaken 0 k), rel_refl.
Qed.

End Rules.

Create HintDb safe.
#[export] Hint Resolve safe_ret safe_gets : safe.

(** Step over the control structure of a handler: binds, reads, returns. *)
Ltac safe_step :=
  match goal with
  | |- safe _ _ _ (get_st ≫= _) => apply safe_get; intros ? ?
  | |- safe _ _ _ (_ ≫= _) => apply safe_bind; [|intros ?]
  | |- safe _ _ _ (mret _) => apply safe_ret
  | |- safe _ _ _ (gets _) => apply safe_gets
  end.
