(* ===== verification/History.v ===== *)
(** * Histories of a node

    What a node has been given and what it has done.  [moves] is what one step of the
    machine of [Runtime] does to the state of the core, to the goroutines in existence
    ([threads]) and to the histories of handled events and of emitted effects; every
    other lemma of this file follows from it.  [event_inv]: an event that was handled,
    that waits on a channel or that is about to be written to one was delivered by the
    network or emitted by the node, each as often.  [history_invariant] and
    [token_invariant] are induction rules: for facts on core, histories and goroutines,
    and for what the goroutines may still spend. *)

From S2P Require Import Prelude Committee Runtime.
From AAC_tactics Require AAC Instances.
Import AAC_tactics.AAC.
Import AAC_tactics.Instances.Lists.

Open Scope Z_scope.

(** ** Lists *)

(** Permutations that hold by associativity and commutativity of [++]. *)
Ltac perm :=
  match goal with
  | |- @Permutation ?A _ _ =>
      assert (AAC_lift (@Permutation A) (@Permutation A)) by typeclasses eauto;
      repeat match goal with
             | |- context [?x :: ?l] => lazymatch l with [] => fail | _ => change (x :: l) with ([x] ++ l) end
             end;
      rewrite ?app_nil_r; aac_reflexivity
  end.

Lemma concat_insert {A B : Type} (f : A -> list B) (l : list A) (i : nat) (x y : A) :
  l !! i = Some x -> concat (f <$> <[i := y]> l) ++ f x ≡ₚ concat (f <$> l) ++ f y.
Proof.
  revert i. induction l as [|z l IH]; intros [|i] Hi; cbn in Hi; simplify_eq; cbn.
  - perm.
  - rewrite <-!(assoc (++)). by apply Permutation_app_head, IH.
Qed.

Lemma omap_perm {A B : Type} (f : A -> option B) (l k : list A) : l ≡ₚ k -> omap f l ≡ₚ omap f k.
Proof. apply omap_Permutation. Qed.

(** Sums over lists. *)
Definition sumZ {A : Type} (f : A -> Z) (l : list A) : Z := foldr (fun x z => f x + z) 0 l.

Lemma sumZ_app {A : Type} (f : A -> Z) (l k : list A) : sumZ f (l ++ k) = sumZ f l + sumZ f k.
Proof. unfold sumZ. induction l as [|x l IH]; cbn; [done|]. rewrite IH. lia. Qed.

Lemma sumZ_perm {A : Type} (f : A -> Z) (l k : list A) : l ≡ₚ k -> sumZ f l = sumZ f k.
Proof. unfold sumZ. induction 1; cbn; lia. Qed.

(** The number of elements that satisfy [p]. *)
Lemma sumZ_count {A : Type} (p : A -> bool) (l : list A) :
  sumZ (fun x => if p x then 1 else 0) l = Z.of_nat (length (filter (fun x => p x = true) l)).
Proof.
  induction l as [|x l IH]; [done|]. cbn [sumZ foldr]. fold (sumZ (fun x => if p x then 1 else 0) l).
  rewrite IH, filter_cons. destruct (p x); [rewrite decide_True by done|rewrite decide_False by done]; cbn [length]; lia.
Qed.

Lemma sumZ_nonneg {A : Type} (f : A -> Z) (l : list A) : (forall x, 0 <= f x) -> 0 <= sumZ f l.
Proof. unfold sumZ. intros Hf. induction l as [|x l IH]; cbn; [lia|]. specialize (Hf x). lia. Qed.

Section History.
Context {Core Ev Msg Thread : Type}.
Abbreviation effect := (Effect Ev Msg Thread).
Context (cap : nat -> nat)
        (handle : Ev -> M Core effect (option Thread))
        (tstep : Thread -> M Core effect (option Thread)).

Abbreviation Node := (Node (Core := Core) (Ev := Ev) (Msg := Msg) (Thread := Thread)).
Abbreviation nstep := (nstep cap handle tstep).
Abbreviation exec := (exec cap (Core := Core) (Ev := Ev) (Msg := Msg) (Thread := Thread)).

(** The channel writes and the [go] statements among effects. *)
Definition pushes (es : list effect) : list Ev :=
  omap (fun x => match x with EPush _ ev => Some ev | _ => None end) es.
Definition spawned (es : list effect) : list Thread :=
  omap (fun x => match x with EGo t => Some t | _ => None end) es.

#[local] Arguments pushes : simpl never.
#[local] Arguments spawned : simpl never.

(** What waits on the channels. *)
Definition queued (n : Node) : list Ev := concat (snd <$> map_to_list (n_chans n)).

(** The goroutines: about to be started, and running. *)
Definition conts (n : Node) : list Thread :=
  option_list (n_cont n) ++ concat ((fun g => option_list (g_cont g)) <$> n_gos n).
Definition threads (n : Node) : list Thread := spawned (pending n) ++ conts n.

Lemma pushes_app (es1 es2 : list effect) : pushes (es1 ++ es2) = pushes es1 ++ pushes es2.
Proof. apply omap_app. Qed.
Lemma spawned_app (es1 es2 : list effect) : spawned (es1 ++ es2) = spawned es1 ++ spawned es2.
Proof. apply omap_app. Qed.

Lemma elem_of_pushes (es : list effect) (ev : Ev) : ev ∈ pushes es <-> exists ch, EPush ch ev ∈ es.
Proof.
  unfold pushes. rewrite list_elem_of_omap. split.
  - intros ([] & Hin & [= ->]). eauto.
  - intros [ch Hin]. by eexists.
Qed.

Lemma elem_of_spawned (es : list effect) (t : Thread) : t ∈ spawned es <-> EGo t ∈ es.
Proof.
  unfold spawned. rewrite list_elem_of_omap. split.
  - by intros ([] & Hin & [= ->]).
  - intros Hin. by eexists.
Qed.

Lemma queued_insert (n : Node) (ch : nat) (l : list Ev) :
  concat (snd <$> map_to_list (<[ch := l]> (n_chans n))) ++ chan n ch ≡ₚ queued n ++ l.
Proof.
  unfold queued, chan. rewrite <-insert_delete_eq, map_to_list_insert by apply lookup_delete_eq. cbn.
  destruct (n_chans n !! ch) as [k|] eqn:Ek; cbn.
  - rewrite <-(map_to_list_delete (n_chans n) ch k Ek). cbn.
    rewrite (Permutation_app_comm l), (Permutation_app_comm _ k). by rewrite (assoc (++)).
  - rewrite app_nil_r, delete_id by done. apply Permutation_app_comm.
Qed.

Lemma elem_of_queued (n : Node) (ch : nat) (ev : Ev) : ev ∈ chan n ch -> ev ∈ queued n.
Proof.
  intros Hin. pose proof (queued_insert n ch []) as Hq. rewrite app_nil_r in Hq.
  rewrite <-Hq. apply elem_of_app. by right.
Qed.

(** ** What an effect does *)

Lemma exec_view (e : effect) (n n' : Node) :
  exec e n = Some n' ->
  n_core n' = n_core n /\ n_log n' = n_log n /\ n_recv n' = n_recv n /\ n_hist n' = n_hist n /\
  threads n' ≡ₚ spawned [e] ++ threads n /\ queued n' ≡ₚ queued n ++ pushes [e] /\
  pending n' = pending n.
Proof.
  destruct e as [f to m|ch ev|t]; cbn.
  - intros [= <-]. split_and!; try done. cbn. by rewrite app_nil_r.
  - case_match; [|done]. intros [= <-]. split_and!; try done. cbn.
    pose proof (queued_insert n ch (chan n ch ++ [ev])) as Hq.
    eapply Permutation_app_inv_r. rewrite Hq, <-(assoc (++)). apply Permutation_app_head.
    apply Permutation_app_comm.
  - intros [= <-].
    assert (concat (g_effects <$> n_gos n ++ [mkGo [] (Some t)]) = concat (g_effects <$> n_gos n)) as He
      by by rewrite fmap_app, concat_app, app_nil_r.
    split_and!; try done.
    + unfold threads, pending, conts. cbn. rewrite He. rewrite fmap_app, concat_app. cbn.
      rewrite !(assoc (++)), <-(Permutation_cons_append _ t). done.
    + cbn. by rewrite app_nil_r.
    + unfold pending. cbn. by rewrite He.
Qed.

(** One step: nothing of interest, a handler, or a step of a goroutine. *)
Inductive moves (n n' : Node) : Prop :=
| moves_quiet :
    n_core n' = n_core n -> n_log n' = n_log n -> n_hist n' = n_hist n -> threads n' ≡ₚ threads n ->
    moves n n'
| moves_handle ev t es :
    ev ∈ queued n -> handle ev (n_core n) = Ret (t, n_core n', es) ->
    n_log n' = n_log n ++ es -> n_hist n' = n_hist n ++ [ev] ->
    threads n' ≡ₚ threads n ++ spawned es ++ option_list t -> moves n n'
| moves_tstep t t' es rest :
    threads n ≡ₚ t :: rest -> tstep t (n_core n) = Ret (t', n_core n', es) ->
    n_log n' = n_log n ++ es -> n_hist n' = n_hist n ->
    threads n' ≡ₚ rest ++ spawned es ++ option_list t' -> moves n n'.

(** The same with the events of the node. *)
Definition event_inv (n : Node) : Prop :=
  n_hist n ++ queued n ++ pushes (pending n) ≡ₚ n_recv n ++ pushes (n_log n).

(** An effect of a goroutine or of the main loop is performed. *)
Lemma exec_moves (e : effect) (n n1 n' : Node) :
  exec e n1 = Some n' -> n_core n1 = n_core n -> n_log n1 = n_log n -> n_hist n1 = n_hist n ->
  n_recv n1 = n_recv n -> queued n1 = queued n -> conts n1 ≡ₚ conts n ->
  e :: pending n1 ≡ₚ pending n ->
  moves n n' /\ n_recv n' = n_recv n /\ (event_inv n -> event_inv n').
Proof.
  intros He Hc Hl Hh Hr Hq Hk Hp. destruct (exec_view e n1 n' He) as (C & L & R & H & T & Q & P).
  split_and!; [|congruence|].
  - apply moves_quiet; [congruence..|]. rewrite T. unfold threads. rewrite Hk, (assoc (++)).
    apply Permutation_app; [|done]. unfold spawned. rewrite <-omap_app. by apply omap_perm.
  - intros Hinv. unfold event_inv in *. rewrite H, Q, P, R, Hh, Hq, Hr, L, Hl, <-Hinv.
    apply Permutation_app_head. rewrite <-(assoc (++)). apply Permutation_app_head.
    rewrite <-pushes_app. by apply omap_perm.
Qed.

(** What a step takes from the network. *)
Definition received (c : choice) : list Ev := match c with CRecv ev => [ev] | _ => [] end.

#[local] Instance Node_eta : Settable Node := fun n =>
  mkNode (n_core n) (n_main n) (n_cont n) (n_gos n) (n_chans n) (n_sent n) (n_log n)
    (n_recv n) (n_hist n).

(** A goroutine, or the main loop, emits. *)
Lemma event_inv_emit (n n' : Node) (es : list effect) :
  n_hist n' = n_hist n -> queued n' = queued n -> n_recv n' = n_recv n -> n_log n' = n_log n ++ es ->
  pending n' ≡ₚ pending n ++ es -> event_inv n -> event_inv n'.
Proof.
  intros Hh Hq Hr Hl Hp Hinv. unfold event_inv in *. rewrite Hh, Hq, Hr, Hl, pushes_app.
  rewrite (omap_perm _ _ _ Hp : pushes (pending n') ≡ₚ pushes (pending n ++ es)), pushes_app.
  rewrite (assoc (++) (n_recv n)), <-Hinv. perm.
Qed.

Lemma nstep_recv (ev : Ev) (n n' : Node) :
  nstep (CRecv ev) n = Next n' ->
  moves n n' /\ n_recv n' = n_recv n ++ [ev] /\ (event_inv n -> event_inv n').
Proof.
  cbn [Runtime.nstep]. intros Hs.
  destruct (exec (EPush 0 ev) (n <| n_recv := n_recv n ++ [ev] |>)) as [n1|] eqn:Ee; [|done].
  injection Hs as <-. destruct (exec_view _ _ _ Ee) as (C & L & R & H & T & Q & P).
  split_and!; [by apply moves_quiet|by rewrite R|]. unfold event_inv. intros Hinv. rewrite L, R, H, P, Q.
  change (queued (n <| n_recv := n_recv n ++ [ev] |>)) with (queued n).
  change (pending (n <| n_recv := n_recv n ++ [ev] |>)) with (pending n). cbn [n_hist n_recv n_log set_field].
  change (pushes [EPush 0 ev]) with [ev]. trans ((n_hist n ++ queued n ++ pushes (pending n)) ++ [ev]); [perm|].
  rewrite Hinv. perm.
Qed.

Lemma nstep_handle (ch : nat) (n n' : Node) :
  nstep (CHandle ch) n = Next n' ->
  moves n n' /\ n_recv n' = n_recv n /\ (event_inv n -> event_inv n').
Proof.
  cbn [Runtime.nstep]. intros Hs.
  destruct (n_main n) eqn:Em; [|done]. destruct (n_cont n) eqn:Et; [done|].
  destruct (chan n ch) as [|ev rest] eqn:Ech; [done|].
  destruct (handle ev (n_core n)) as [[[t s'] es]|] eqn:Eh; [|done]. injection Hs as <-.
  pose proof (queued_insert n ch rest) as Hq. rewrite Ech in Hq. split_and!; [|done|].
  - eapply (moves_handle _ _ ev t es); try done; [eapply elem_of_queued; rewrite Ech; left|].
    unfold threads, pending, conts. cbn. rewrite Em, Et, spawned_app. cbn. perm.
  - unfold event_inv, pending. rewrite Em. intros Hinv.
    match goal with |- n_hist ?n2 ++ _ ≡ₚ _ => set (q := queued n2) end.
    assert (queued n ≡ₚ [ev] ++ q) as Hev.
    { apply (Permutation_app_inv_r rest). rewrite <-Hq. unfold q, queued. cbn [n_chans set_field].
      perm. }
    cbn [n_hist n_main n_gos n_recv n_log set_field]. rewrite !pushes_app in *.
    change (pushes []) with (@nil Ev) in Hinv. cbn [app] in Hinv. rewrite (assoc (++) (n_recv n)), <-Hinv, Hev. perm.
Qed.

Lemma nstep_tstep (n n' : Node) (t : Thread) (t' : option Thread) (es : list effect) (rest : list Thread) :
  tstep t (n_core n) = Ret (t', n_core n', es) -> n_log n' = n_log n ++ es ->
  n_hist n' = n_hist n -> n_recv n' = n_recv n -> n_chans n' = n_chans n ->
  pending n' ≡ₚ pending n ++ es -> conts n ≡ₚ t :: rest -> conts n' ≡ₚ option_list t' ++ rest ->
  moves n n' /\ n_recv n' = n_recv n /\ (event_inv n -> event_inv n').
Proof.
  intros Ht Hl Hh Hr Hc Hp Hk Hk'. split_and!; [|done|].
  - eapply (moves_tstep _ _ t t' es (spawned (pending n) ++ rest)); try done; unfold threads.
    + rewrite Hk. perm.
    + rewrite Hk'. rewrite (omap_perm _ _ _ Hp : spawned (pending n') ≡ₚ spawned (pending n ++ es)), spawned_app.
      perm.
  - apply event_inv_emit with es; try done. unfold queued. by rewrite Hc.
Qed.

Lemma nstep_main (n n' : Node) :
  nstep CMain n = Next n' -> moves n n' /\ n_recv n' = n_recv n /\ (event_inv n -> event_inv n').
Proof.
  cbn [Runtime.nstep]. intros Hs. destruct (n_main n) as [|e es] eqn:Em.
  - destruct (n_cont n) as [t|] eqn:Et; [|done].
    destruct (tstep t (n_core n)) as [[[t' s'] es]|] eqn:Eh; [|done]. injection Hs as <-.
    apply (nstep_tstep _ _ t t' es (concat ((fun g => option_list (g_cont g)) <$> n_gos n))); try done;
      unfold pending, conts; cbn; rewrite ?Em, ?Et; [|done]. cbn. perm.
  - destruct (exec e _) as [n1|] eqn:Ee; [|done]. injection Hs as <-.
    eapply exec_moves; [exact Ee|done..|]. unfold pending. cbn. by rewrite Em.
Qed.

Lemma nstep_go (i : nat) (n n' : Node) :
  nstep (CGo i) n = Next n' -> moves n n' /\ n_recv n' = n_recv n /\ (event_inv n -> event_inv n').
Proof.
  cbn [Runtime.nstep]. intros Hs. destruct (n_gos n !! i) as [[[|e es] t]|] eqn:Ei; [|..|done].
  - destruct t as [t|]; [|done].
    destruct (tstep t (n_core n)) as [[[t' s'] es]|] eqn:Eh; [|done]. injection Hs as <-.
    pose proof (concat_insert g_effects _ _ _ (mkGo es t') Ei) as He.
    pose proof (concat_insert (fun g => option_list (g_cont g)) _ _ _ (mkGo es t') Ei) as Hk.
    cbn in He, Hk. rewrite app_nil_r in He. unfold conts.
    set (rest := option_list (n_cont n) ++
      concat ((fun g => option_list (g_cont g)) <$> <[i := mkGo es None]> (n_gos n))).
    pose proof (concat_insert (fun g => option_list (g_cont g)) _ _ _ (mkGo es None) Ei) as Hk0.
    cbn in Hk0. rewrite app_nil_r in Hk0.
    eapply (nstep_tstep _ _ t t' es rest); try done; unfold pending, conts, rest; cbn.
    + rewrite He. perm.
    + rewrite <-Hk0. perm.
    + rewrite (assoc (++)). apply (Permutation_app_inv_r [t]). rewrite <-!(assoc (++)), Hk, Hk0. perm.
  - destruct (exec e _) as [n1|] eqn:Ee; [|done]. injection Hs as <-.
    pose proof (concat_insert g_effects _ _ _ (mkGo es t) Ei) as He.
    pose proof (concat_insert (fun g => option_list (g_cont g)) _ _ _ (mkGo es t) Ei) as Hk.
    cbn [g_effects g_cont] in He, Hk. apply Permutation_app_inv_r in Hk.
    eapply exec_moves; [exact Ee|done..| |]; unfold conts, pending; cbn [n_cont n_gos n_main set_field].
    + by rewrite Hk.
    + apply (Permutation_app_inv_r es). rewrite <-(assoc (++)), <-He. perm.
Qed.

Lemma nstep_moves (c : choice) (n n' : Node) :
  nstep c n = Next n' ->
  moves n n' /\ n_recv n' = n_recv n ++ received c /\ (event_inv n -> event_inv n').
Proof.
  destruct c; cbn [received]; rewrite ?app_nil_r;
    [apply nstep_recv|apply nstep_handle|apply nstep_main|apply nstep_go].
Qed.

(** ** Induction over the steps *)

Section Rules.
Context (env : Ev -> Prop) (n0 : Node).
Abbreviation reachable := (reachable cap handle tstep env n0).

Hypothesis start_inv : event_inv n0.
Hypothesis start_recv : Forall env (n_recv n0).

Lemma reachable_events (n : Node) : reachable n -> event_inv n /\ Forall env (n_recv n).
Proof using start_inv start_recv.
  induction 1 as [|n n' _ [IH1 IH2] (c & Hc & Hs)]; [done|].
  destruct (nstep_moves c n n' Hs) as (_ & Hr & He). split; [auto|]. rewrite Hr. apply Forall_app.
  split; [done|]. destruct c; cbn in *; auto.
Qed.

(** Where a waiting or handled event comes from. *)
Definition origin (log : list effect) (ev : Ev) : Prop := env ev \/ exists ch, EPush ch ev ∈ log.

Lemma event_origin (n : Node) (ev : Ev) :
  reachable n -> ev ∈ n_hist n ++ queued n -> origin (n_log n) ev.
Proof using start_inv start_recv.
  intros (Hinv & Hr)%reachable_events Hin.
  assert (ev ∈ n_recv n ++ pushes (n_log n)) as Hx.
  { unfold event_inv in Hinv. rewrite <-Hinv, (assoc (++)). apply elem_of_app. by left. }
  apply elem_of_app in Hx as [Hx|Hx]; [left; by eapply Forall_forall|right; by apply elem_of_pushes].
Qed.

(** Facts on the core and the histories ([J]) and on every goroutine ([G]), given what
    is [known] of reachable nodes. *)
Section Facts.
Context (known : Node -> Prop).
Context (J : Core -> list Ev -> list effect -> Prop)
        (G : Core -> list Ev -> list effect -> Thread -> Prop).

Definition hist_ok (n : Node) : Prop :=
  J (n_core n) (n_hist n) (n_log n) /\ Forall (G (n_core n) (n_hist n) (n_log n)) (threads n).

Definition hist_post (s : Core) (h : list Ev) (l : list effect) (s' : Core) (h' : list Ev)
    (es : list effect) (t' : option Thread) : Prop :=
  J s' h' (l ++ es) /\ Forall (G s' h' (l ++ es)) (spawned es ++ option_list t') /\
  (forall t, G s h l t -> G s' h' (l ++ es) t).

Hypothesis reachable_known : forall n, reachable n -> known n.
Hypothesis handle_hist : forall n ev t s' es,
  known n -> hist_ok n -> ev ∈ queued n -> origin (n_log n) ev -> handle ev (n_core n) = Ret (t, s', es) ->
  hist_post (n_core n) (n_hist n) (n_log n) s' (n_hist n ++ [ev]) es t.
Hypothesis tstep_hist : forall n t t' s' es,
  known n -> hist_ok n -> t ∈ threads n -> tstep t (n_core n) = Ret (t', s', es) ->
  hist_post (n_core n) (n_hist n) (n_log n) s' (n_hist n) es t'.

Lemma history_invariant (n : Node) : hist_ok n0 -> reachable n -> hist_ok n.
Proof using start_inv start_recv reachable_known handle_hist tstep_hist.
  intros H0. induction 1 as [|n n' Hr IH (c & Hc & Hs)]; [done|].
  pose proof (reachable_known n Hr) as Hk. pose proof IH as [HJ HG].
  destruct (nstep_moves c n n' Hs) as ([Ec El Eh Et|ev t es Hq Hh El Eh Et|t t' es rest Hth Hst El Eh Et] & _ & _);
    unfold hist_ok; rewrite El, Eh, Et, ?Ec; [done|..].
  - destruct (handle_hist n ev t (n_core n') es Hk IH Hq) as (HJ' & HG' & Hm); [|done|].
    { apply event_origin; [done|]. apply elem_of_app. by right. }
    split; [done|]. apply Forall_app. split; [|done]. eapply Forall_impl; [exact HG|]. auto.
  - destruct (tstep_hist n t t' (n_core n') es Hk IH) as (HJ' & HG' & Hm); [rewrite Hth; left|done|].
    split; [done|]. apply Forall_app. split; [|done]. rewrite Hth in HG. apply Forall_cons in HG as [_ HG].
    eapply Forall_impl; [exact HG|]. auto.
Qed.
End Facts.

(** What goroutines may still spend is covered: the effects emitted ([cost]) and the
    goroutines ([weight]) do not exceed the [credit] of the core and what the handled
    events [earn]. *)
Section Tokens.
Context (known : Node -> Prop).
Context (credit : Core -> Z) (weight : Thread -> Z) (earn : Ev -> Z) (cost : effect -> Z).

Definition covered (n : Node) : Prop :=
  sumZ cost (n_log n) + sumZ weight (threads n) <= credit (n_core n) + sumZ earn (n_hist n).

Hypothesis reachable_known : forall n, reachable n -> known n.
Hypothesis handle_pays : forall n ev t s' es,
  known n -> ev ∈ queued n -> handle ev (n_core n) = Ret (t, s', es) ->
  sumZ cost es + sumZ weight (spawned es ++ option_list t) + credit (n_core n) <= credit s' + earn ev.
Hypothesis tstep_pays : forall n t t' s' es,
  known n -> t ∈ threads n -> tstep t (n_core n) = Ret (t', s', es) ->
  sumZ cost es + sumZ weight (spawned es ++ option_list t') + credit (n_core n) <= credit s' + weight t.

Lemma token_invariant (n : Node) : covered n0 -> reachable n -> covered n.
Proof using reachable_known handle_pays tstep_pays.
  intros H0. induction 1 as [|n n' Hr IH (c & Hc & Hs)]; [done|]. pose proof (reachable_known n Hr) as Hk.
  destruct (nstep_moves c n n' Hs) as ([Ec El Eh Et|ev t es Hq Hh El Eh Et|t t' es rest Hth Hst El Eh Et] & _ & _);
    unfold covered in *; rewrite El, Eh, (sumZ_perm _ _ _ Et), ?Ec, ?sumZ_app; [done|..].
  - specialize (handle_pays n ev t (n_core n') es Hk Hq Hh). rewrite sumZ_app in handle_pays. cbn [sumZ foldr]. lia.
  - specialize (tstep_pays n t t' (n_core n') es Hk). rewrite Hth, sumZ_app in tstep_pays.
    specialize (tstep_pays ltac:(left) Hst). rewrite (sumZ_perm _ _ _ Hth) in IH. cbn [sumZ foldr] in IH.
    fold (sumZ weight rest) in IH. lia.
Qed.
End Tokens.

End Rules.

Lemma start_event_inv (c : Core) (es : list effect) : event_inv (start c es).
Proof. unfold event_inv, pending, queued. cbn. rewrite map_to_list_empty. cbn. by rewrite app_nil_r. Qed.

(** A node reaches more with a network that may deliver more. *)
Lemma reachable_mono (env env' : Ev -> Prop) (n0 n : Node) :
  (forall ev, env ev -> env' ev) -> reachable cap handle tstep env n0 n -> reachable cap handle tstep env' n0 n.
Proof.
  intros He. induction 1 as [|n n' _ IH (c & Hc & Hs)]; [constructor|].
  eapply reach_step; [exact IH|]. exists c. split; [|done]. destruct c; cbn in *; auto.
Qed.

(** What the invariant of [Runtime] says of goroutines and events. *)
Lemma node_ok_threads J P G (n : Node) :
  node_ok J P G n -> Forall (G (n_core n)) (threads n) /\ Forall P (queued n).
Proof.
  intros (_ & [HM Hk] & HGo & HC).
  assert (Forall (effect_ok P G (n_core n)) (pending n)) as Hp.
  { apply Forall_app. split; [done|]. apply Forall_concat, Forall_fmap.
    eapply Forall_impl; [exact HGo|]. by intros g [? _]. }
  split.
  - apply Forall_app. split.
    + apply Forall_forall. intros t Ht%elem_of_spawned. rewrite Forall_forall in Hp. exact (Hp _ Ht).
    + apply Forall_app. split.
      * destruct (n_cont n) as [t|]; cbn; [|done]. apply Forall_singleton. by apply Hk.
      * apply Forall_concat, Forall_fmap. eapply Forall_impl; [exact HGo|]. intros g [_ Hg]. cbn.
        destruct (g_cont g); cbn; [|done]. apply Forall_singleton. by apply Hg.
  - apply Forall_concat, Forall_fmap, Forall_forall. intros [ch l] Hin%elem_of_map_to_list. cbn.
    specialize (HC ch). unfold chan in HC. by rewrite Hin in HC.
Qed.

End History.
