(* ===== verification/System.v ===== *)
(** * The composition of nodes

    The nodes of a committee and the network between them.  A step of the system is a
    step of one node ([ALocal]) or the delivery of a message that another node has sent
    ([ADeliver]): the network neither makes messages up nor delivers one twice to the
    same node; it may lose, delay and reorder them, and nodes may stop.  [transfer] is
    what the receiver decodes of a message handed to the transmitter: it can depend on
    more ([X]) where the message holds memory that its sender goes on writing.

    [project]: every node of a reachable system is in a state it reaches on its own in
    an environment of well-formed messages, so that what holds of every reachable node
    holds in the system.  [heard]: a node has handled at most as many messages of a kind
    as all nodes together have sent. *)

From S2P Require Import Prelude Committee Runtime History.

Open Scope Z_scope.

(** ** Counting over finite maps *)

Section Totals.
Context {A : Type}.
Implicit Types (m : gmap NodeID A) (h : A -> nat) (p : A -> bool).

Definition total h m : nat := sum_list_with (fun x => h x.2) (map_to_list m).

(** The keys whose values satisfy [p]. *)
Definition holders p m : gset NodeID := dom (filter (fun x => p x.2 = true) m).

Lemma elem_of_holders p m k : k ∈ holders p m <-> exists x, m !! k = Some x /\ p x = true.
Proof.
  unfold holders. rewrite elem_of_dom. split.
  - intros [x [Hx Hp]%map_lookup_filter_Some]. eauto.
  - intros (x & Hx & Hp). exists x. by apply map_lookup_filter_Some.
Qed.

Lemma holders_dom p m : holders p m ⊆ dom m.
Proof. intros k (x & Hx & _)%elem_of_holders. apply elem_of_dom. eauto. Qed.

Lemma sum_list_with_perm {B : Type} (f : B -> nat) (l k : list B) :
  l ≡ₚ k -> sum_list_with f l = sum_list_with f k.
Proof. induction 1; cbn; lia. Qed.

Lemma total_insert h m k x : m !! k = None -> total h (<[k := x]> m) = (h x + total h m)%nat.
Proof.
  intros Hk. unfold total. by rewrite (sum_list_with_perm _ _ _ (map_to_list_insert m k x Hk)).
Qed.

(** At most one each, of those that satisfy [p]. *)
Lemma total_le_holders h p m :
  (forall k x, m !! k = Some x -> (h x <= if p x then 1 else 0)%nat) -> (total h m <= size (holders p m))%nat.
Proof.
  induction m as [|k x m Hk IH] using map_ind; intros Hh;
    [unfold total; rewrite map_to_list_empty; cbn; lia|].
  rewrite total_insert by done. specialize (IH ltac:(intros k' x' Hx; apply (Hh k'); rewrite lookup_insert_ne; [done|];
    intros ->; congruence)).
  specialize (Hh k x ltac:(by rewrite lookup_insert_eq)). unfold holders in *. destruct (p x) eqn:Ep.
  - rewrite map_filter_insert_True, dom_insert_L by done.
    rewrite size_insert_new; [lia|]. rewrite elem_of_dom. intros [y [Hy _]%map_lookup_filter_Some]. congruence.
  - rewrite map_filter_insert_False by (cbn; congruence). rewrite delete_id by done. lia.
Qed.

Lemma total_mono h h' m :
  (forall k x, m !! k = Some x -> (h x <= h' x)%nat) -> (total h m <= total h' m)%nat.
Proof.
  intros Hh. unfold total.
  assert (forall l : list (NodeID * A), (forall x, x ∈ l -> m !! x.1 = Some x.2) ->
    (sum_list_with (fun x => h x.2) l <= sum_list_with (fun x => h' x.2) l)%nat) as H.
  { induction l as [|[k x] l IH]; intros Hl; cbn; [done|].
    specialize (Hh k x (Hl (k, x) ltac:(left))). specialize (IH (fun y Hy => Hl y ltac:(by right))). lia. }
  apply H. intros [k x]. apply elem_of_map_to_list.
Qed.

Lemma total_delete h m k x : m !! k = Some x -> total h m = (h x + total h (delete k m))%nat.
Proof.
  intros Hk. rewrite <-(insert_delete_id m k x Hk) at 1. apply total_insert, lookup_delete_eq.
Qed.

Lemma total_pos h m : (0 < total h m)%nat -> exists k x, m !! k = Some x /\ (0 < h x)%nat.
Proof.
  induction m as [|k x m Hk IH] using map_ind;
    [unfold total; rewrite map_to_list_empty; cbn; lia|].
  rewrite total_insert by done. intros Ht. destruct (decide (0 < h x)%nat) as [Hx|Hx].
  - exists k, x. by rewrite lookup_insert_eq.
  - destruct IH as (k' & x' & Hx' & Hp); [lia|]. exists k', x'. split; [|done].
    rewrite lookup_insert_ne; [done|]. intros ->. congruence.
Qed.

End Totals.

(** ** Positions of a list whose elements satisfy [p] *)

Section Positions.
Context {A : Type} (p : A -> bool).

Definition at_pos (l : list A) (i : nat) : bool := match l !! i with Some x => p x | None => false end.
Definition positions (l : list A) : list nat := filter (fun i => at_pos l i = true) (seq 0 (length l)).

Lemma elem_of_positions (l : list A) (i : nat) :
  i ∈ positions l <-> exists x, l !! i = Some x /\ p x = true.
Proof.
  unfold positions, at_pos. rewrite list_elem_of_filter, elem_of_seq. split.
  - intros [Hp _]. destruct (l !! i); [eauto|done].
  - intros (x & Hx & Hp). rewrite Hx. split; [done|]. apply lookup_lt_Some in Hx. lia.
Qed.

Lemma filter_ext_in {B : Type} (f g : B -> bool) (l : list B) :
  (forall x, x ∈ l -> f x = g x) -> filter (fun x => f x = true) l = filter (fun x => g x = true) l.
Proof.
  induction l as [|x l IH]; intros H; [done|]. rewrite !filter_cons, (H x) by left.
  rewrite IH by (intros y Hy; apply H; by right). done.
Qed.

Lemma length_positions (l : list A) : length (positions l) = length (filter (fun x => p x = true) l).
Proof.
  induction l as [|x l IH] using rev_ind; [done|]. unfold positions in *.
  rewrite length_app, seq_app, !filter_app, !length_app. f_equal.
  - rewrite <-IH. f_equal. apply (filter_ext_in (at_pos (l ++ [x])) (at_pos l)).
    intros i Hi%elem_of_seq. unfold at_pos. by rewrite lookup_app_l by lia.
  - cbn [seq length Nat.add]. rewrite !filter_cons, !filter_nil. unfold at_pos.
    rewrite lookup_app_r, Nat.sub_diag by lia. cbn. by case_decide.
Qed.

End Positions.

(** A list without repetition is no longer than one that contains it. *)
Lemma NoDup_length_le {A : Type} (l k : list A) :
  NoDup l -> (forall x, x ∈ l -> x ∈ k) -> (length l <= length k)%nat.
Proof. intros Hl Hk. by apply submseteq_length, NoDup_submseteq. Qed.

(** ** The system *)

Section System.
Context {Core Ev Msg Thread X : Type}.
Abbreviation effect := (Effect Ev Msg Thread).
Abbreviation Node := (Node (Core := Core) (Ev := Ev) (Msg := Msg) (Thread := Thread)).
Context (cap : nat -> nat)
        (handle : Ev -> M Core effect (option Thread))
        (tstep : Thread -> M Core effect (option Thread))
        (inject : Msg -> Ev) (transfer : X -> Msg -> Msg).

Abbreviation nstep := (nstep cap handle tstep).

(** The nodes, and for each the deliveries to it: the sender and the position of the
    message among those it sent. *)
Record System := mkSystem {
  s_nodes : gmap NodeID Node;
  s_done : gmap NodeID (list (NodeID * nat))
}.

Definition delivered (s : System) (j : NodeID) : list (NodeID * nat) := default [] (s_done s !! j).

(** Is a message sent by [from] with destination [to] one for [j]? *)
Definition addressed (from to j : NodeID) : bool :=
  if to =? NONE then negb (from =? j) else to =? j.

Inductive act :=
| ALocal (j : NodeID) (c : choice (Ev := Ev))
| ADeliver (k j : NodeID) (i : nat) (x : X).

Definition is_recv (c : choice (Ev := Ev)) : bool := match c with CRecv _ => true | _ => false end.

Definition put (j : NodeID) (n : Node) (s : System) : System :=
  mkSystem (<[j := n]> (s_nodes s)) (s_done s).
Definition note (j k : NodeID) (i : nat) (s : System) : System :=
  mkSystem (s_nodes s) (<[j := delivered s j ++ [(k, i)]]> (s_done s)).

Definition sstep (a : act) (s : System) : option System :=
  match a with
  | ALocal j c =>
      n ← s_nodes s !! j;
      if is_recv c then None
      else match nstep c n with Next n' => Some (put j n' s) | _ => None end
  | ADeliver k j i x =>
      nk ← s_nodes s !! k;
      '(_, to, m) ← n_sent nk !! i;
      n ← s_nodes s !! j;
      if addressed k to j && bool_decide ((k, i) ∉ delivered s j) then
        match nstep (CRecv (inject (transfer x m))) n with
        | Next n' => Some (note j k i (put j n' s))
        | _ => None
        end
      else None
  end.

Fixpoint srun (acts : list act) (s : System) : option System :=
  match acts with
  | [] => Some s
  | a :: acts' => s' ← sstep a s; srun acts' s'
  end.

Inductive sreachable (s0 : System) : System -> Prop :=
| sreach_init : sreachable s0 s0
| sreach_step s s' a : sreachable s0 s -> sstep a s = Some s' -> sreachable s0 s'.

Lemma srun_reachable (s0 s s' : System) (acts : list act) :
  sreachable s0 s -> srun acts s = Some s' -> sreachable s0 s'.
Proof.
  revert s. induction acts as [|a acts IH]; intros s Hr; cbn; [by intros [= <-]|].
  intros (s1 & Hs1 & Hrun)%bind_Some. eapply IH; [|done]. by eapply sreach_step.
Qed.

(** A step is one of a single node, which takes what the network gives it. *)
Lemma sstep_node (a : act) (s s' : System) :
  sstep a s = Some s' ->
  exists j n n' c, s_nodes s !! j = Some n /\ nstep c n = Next n' /\
    s_nodes s' = <[j := n']> (s_nodes s) /\
    (is_recv c = false /\ s_done s' = s_done s \/
     exists k nk i fr to m x, c = CRecv (inject (transfer x m)) /\ s_nodes s !! k = Some nk /\
       n_sent nk !! i = Some (fr, to, m) /\ addressed k to j = true /\
       ((k, i) ∉ delivered s j) /\ s_done s' = <[j := delivered s j ++ [(k, i)]]> (s_done s)).
Proof.
  destruct a as [j c|k j i x]; cbn [sstep]; intros Hs.
  - apply bind_Some in Hs as (n & Hn & Hs). destruct (is_recv c) eqn:Ec; [done|].
    destruct (nstep c n) as [n'| |] eqn:En; [|done..]. injection Hs as <-.
    exists j, n, n', c. split_and!; [done..|]. by left.
  - apply bind_Some in Hs as (nk & Hk & Hs). apply bind_Some in Hs as ([[fr to] m] & Hm & Hs).
    apply bind_Some in Hs as (n & Hn & Hs).
    destruct (addressed k to j) eqn:Ea; [|done].
    destruct (bool_decide_reflect ((k, i) ∉ delivered s j)) as [Hd|]; [|done]. cbn [andb] in Hs.
    destruct (nstep (CRecv (inject (transfer x m))) n) as [n'| |] eqn:En; [|done..]. injection Hs as <-.
    exists j, n, n', (CRecv (inject (transfer x m))). split_and!; [done..|]. right. exists k, nk, i, fr, to, m, x. done.
Qed.

(** What a node has sent is never changed. *)
Lemma nstep_sent_prefix (c : choice) (n n' : Node) : nstep c n = Next n' -> n_sent n `prefix_of` n_sent n'.
Proof.
  assert (forall e (n1 n2 : Node), of_option (exec cap e n1) = Next n2 -> n_sent n1 `prefix_of` n_sent n2) as Hex.
  { intros e n1 n2 Hs. destruct (exec cap e n1) as [n3|] eqn:He; [|done]. injection Hs as <-.
    destruct (exec_sent _ _ _ _ He) as (_ & -> & _). by apply prefix_app_r. }
  intros Hs. destruct c as [ev|ch| |i]; cbn [Runtime.nstep] in Hs.
  - by apply Hex in Hs.
  - destruct (n_main n); [|done]. destruct (n_cont n); [done|]. destruct (chan n ch); [done|].
    destruct (handle _ _) as [[[? ?] ?]|]; [|done]. by injection Hs as <-.
  - destruct (n_main n); [|by apply Hex in Hs]. destruct (n_cont n); [|done].
    destruct (tstep _ _) as [[[? ?] ?]|]; [|done]. by injection Hs as <-.
  - destruct (n_gos n !! i) as [[[|e es] [t|]]|]; try done; try by apply Hex in Hs.
    destruct (tstep _ _) as [[[? ?] ?]|]; [|done]. by injection Hs as <-.
Qed.

Lemma nstep_sent_at (c : choice) (n n' : Node) (i : nat) x :
  nstep c n = Next n' -> n_sent n !! i = Some x -> n_sent n' !! i = Some x.
Proof. intros Hs Hi. destruct (nstep_sent_prefix c n n' Hs) as [l ->]. by apply lookup_app_l_Some. Qed.

(** ** Projection to a node *)

Section Project.
Context (env : Ev -> Prop) (s0 : System).
Hypothesis fresh : s_done s0 = ∅.
Hypothesis fresh_recv : forall j n, s_nodes s0 !! j = Some n -> n_recv n = [].

Abbreviation reachable := (reachable cap handle tstep env).

(** The messages of a correct node arrive as well-formed ones. *)
Hypothesis sent_env : forall k n0 n f t m x,
  s_nodes s0 !! k = Some n0 -> reachable n0 n -> (f, t, m) ∈ n_sent n -> env (inject (transfer x m)).

Lemma project (s : System) :
  sreachable s0 s -> forall j n, s_nodes s !! j = Some n ->
  exists n0, s_nodes s0 !! j = Some n0 /\ reachable n0 n.
Proof using sent_env.
  induction 1 as [|s s' a Hr IH Hs]; intros j n Hn; [exists n; split; [done|constructor]|].
  destruct (sstep_node a s s' Hs) as (j1 & n1 & n1' & c & Hn1 & Hc & Hnodes & Hcase). rewrite Hnodes in Hn.
  apply lookup_insert_Some in Hn as [[<- <-]|[_ Hn]]; [|by apply IH].
  destruct (IH j1 n1 Hn1) as (n0 & H0 & Hr0). exists n0. split; [done|].
  eapply reach_step; [exact Hr0|]. exists c. split; [|done].
  destruct Hcase as [[Hc' _]|(k & nk & i & fr & to & m & x & -> & Hk & Hi & _)]; [by destruct c|].
  cbn. destruct (IH k nk Hk) as (nk0 & Hk0 & Hrk). eapply sent_env; [exact Hk0|exact Hrk|].
  by eapply list_elem_of_lookup_2.
Qed.

Lemma project_dom (s : System) : sreachable s0 s -> dom (s_nodes s) = dom (s_nodes s0).
Proof using.
  induction 1 as [|s s' a Hr IH Hs]; [done|].
  destruct (sstep_node a s s' Hs) as (j1 & n1 & n1' & c & Hn1 & _ & Hnodes & _).
  rewrite Hnodes, dom_insert_lookup_L; [done|by eexists].
Qed.

(** ** Deliveries *)

(** The event [ev] of node [j] is what was sent as [x]. *)
Definition delivery_ok (s : System) (j : NodeID) (x : NodeID * nat) (ev : Ev) : Prop :=
  exists nk fr to m y, s_nodes s !! x.1 = Some nk /\ n_sent nk !! x.2 = Some (fr, to, m) /\
    addressed x.1 to j = true /\ ev = inject (transfer y m).

Lemma delivery_ok_step (a : act) (s s' : System) (j : NodeID) (x : NodeID * nat) (ev : Ev) :
  sstep a s = Some s' -> delivery_ok s j x ev -> delivery_ok s' j x ev.
Proof using.
  intros Hs (nk & fr & to & m & y & Hk & Hi & Ha & ->).
  destruct (sstep_node a s s' Hs) as (j1 & n1 & n1' & c & Hn1 & Hc & Hnodes & _).
  destruct (decide (j1 = x.1)) as [->|Hne].
  - rewrite Hn1 in Hk. injection Hk as <-. exists n1', fr, to, m, y. split_and!; try done.
    + by rewrite Hnodes, lookup_insert_eq.
    + by eapply nstep_sent_at.
  - exists nk, fr, to, m, y. split_and!; try done. by rewrite Hnodes, lookup_insert_ne.
Qed.

Lemma deliveries (s : System) :
  sreachable s0 s -> forall j n, s_nodes s !! j = Some n ->
  NoDup (delivered s j) /\ Forall2 (delivery_ok s j) (delivered s j) (n_recv n).
Proof using fresh fresh_recv.
  induction 1 as [|s s' a Hr IH Hs]; intros j n Hn.
  { unfold delivered. rewrite fresh, lookup_empty, (fresh_recv _ _ Hn). cbn. split; constructor. }
  destruct (sstep_node a s s' Hs) as (j1 & n1 & n1' & c & Hn1 & Hc & Hnodes & Hcase).
  assert (forall j n, s_nodes s !! j = Some n ->
    NoDup (delivered s j) /\ Forall2 (delivery_ok s' j) (delivered s j) (n_recv n)) as IH'.
  { intros j' n' Hn'. destruct (IH j' n' Hn') as [Hnd Hf]. split; [done|].
    eapply Forall2_impl; [exact Hf|]. intros x ev. by eapply delivery_ok_step. }
  rewrite Hnodes in Hn.
  destruct (nstep_moves cap handle tstep c n1 n1' Hc) as (_ & Hrecv & _).
  destruct Hcase as [[Hc' Hd]|(k & nk & i & fr & to & m & x & -> & Hk & Hi & Ha & Hni & Hd)].
  - assert (forall j, delivered s' j = delivered s j) as -> by (intros j'; unfold delivered; by rewrite Hd).
    apply lookup_insert_Some in Hn as [[<- <-]|[_ Hn]]; [|by apply IH'].
    rewrite Hrecv. destruct c; try done; cbn [received]; rewrite app_nil_r; by apply IH'.
  - unfold delivered at 1 2. rewrite Hd. apply lookup_insert_Some in Hn as [[<- <-]|[Hne Hn]].
    + rewrite lookup_insert_eq. cbn [default from_option]. destruct (IH' j1 n1 Hn1) as [Hnd Hf]. split.
      * apply NoDup_app. split_and!; [done| |apply NoDup_singleton]. intros y Hy ->%list_elem_of_singleton. done.
      * rewrite Hrecv. apply Forall2_app; [done|]. constructor; [|constructor].
        eapply delivery_ok_step; [exact Hs|]. exists nk, fr, to, m, x. done.
    + rewrite lookup_insert_ne by done. by apply IH'.
Qed.

(** ** Counting messages of a kind *)

Section Heard.
Context (f : Msg -> bool) (g : Ev -> bool).
Hypothesis inject_kind : forall m, g (inject m) = f m.
Hypothesis transfer_kind : forall x m, f (transfer x m) = f m.

(** The messages of the kind that a node has emitted. *)
Definition emitted (n : Node) : nat := length (filter (fun x => f x.2 = true) (sends (n_log n))).

Definition of_kind (s : System) (x : NodeID * nat) : bool :=
  match s_nodes s !! x.1 with Some n => at_pos (fun y => f y.2) (n_sent n) x.2 | None => false end.

Lemma received_kind (s : System) (j : NodeID) (l : list (NodeID * nat)) (evs : list Ev) :
  Forall2 (delivery_ok s j) l evs ->
  length (filter (fun ev => g ev = true) evs) = length (filter (fun x => of_kind s x = true) l).
Proof using inject_kind transfer_kind.
  induction 1 as [|x ev l evs (nk & fr & to & m & y & Hk & Hi & _ & ->) _ IH]; [done|].
  rewrite !filter_cons, inject_kind, transfer_kind.
  assert (of_kind s x = f m) as -> by (unfold of_kind, at_pos; by rewrite Hk, Hi).
  destruct (f m); [rewrite !decide_True by done|rewrite !decide_False by done; done]. cbn. by rewrite IH.
Qed.

(** Every message a node has handled was sent by some node, each once: a node has
    handled at most as many of a kind that is only broadcast as were emitted. *)
Lemma heard (s : System) (j : NodeID) (n : Node) :
  sreachable s0 s -> s_nodes s !! j = Some n -> event_inv n ->
  (length (filter (fun ev => g ev = true) (pushes (n_log n))) <= emitted n)%nat ->
  (forall k nk, s_nodes s !! k = Some nk -> sent_inv nk /\
     forall fr to m, (fr, to, m) ∈ n_sent nk -> f m = true -> to = NONE) ->
  (length (filter (fun ev => g ev = true) (n_hist n)) <= total emitted (s_nodes s))%nat.
Proof using inject_kind transfer_kind fresh fresh_recv.
  intros Hr Hn Hev Hown Hall. destruct (deliveries s Hr j n Hn) as [Hnd Hf].
  assert (length (filter (fun ev => g ev = true) (n_hist n)) <=
    length (filter (fun ev => g ev = true) (n_recv n)) +
    length (filter (fun ev => g ev = true) (pushes (n_log n))))%nat as Hle.
  { rewrite <-length_app, <-filter_app. unfold event_inv in Hev. rewrite <-Hev, filter_app, length_app. lia. }
  rewrite (received_kind s j _ _ Hf) in Hle. rewrite (total_delete _ _ _ _ Hn).
  enough (length (filter (fun x => of_kind s x = true) (delivered s j)) <= total emitted (delete j (s_nodes s)))%nat by lia.
  set (others := map_to_list (delete j (s_nodes s))).
  trans (length (concat ((fun kn => pair kn.1 <$> positions (fun y => f y.2) (n_sent kn.2)) <$> others))).
  - apply NoDup_length_le; [by apply NoDup_filter|]. intros [k i] [Hk Hin]%list_elem_of_filter.
    apply list_elem_of_lookup in Hin as [p Hp]. destruct (Forall2_lookup_l _ _ _ _ _ Hf Hp) as (ev & _ & Hd).
    destruct Hd as (nk & fr & to & m & y & Hnk & Hi & Ha & _). cbn in Hnk, Hi, Ha.
    unfold of_kind in Hk. cbn in Hk. rewrite Hnk in Hk. unfold at_pos in Hk. rewrite Hi in Hk. cbn in Hk.
    destruct (Hall k nk Hnk) as [_ Hnone]. rewrite (Hnone fr to m) in Ha; [|by eapply list_elem_of_lookup_2|done].
    unfold addressed in Ha. cbn in Ha. apply negb_true_iff, Z.eqb_neq in Ha.
    apply list_elem_of_In, in_concat. exists (pair k <$> positions (fun y => f y.2) (n_sent nk)).
    split; apply list_elem_of_In.
    + apply list_elem_of_fmap. exists (k, nk). split; [done|]. apply elem_of_map_to_list.
      by rewrite lookup_delete_ne.
    + apply list_elem_of_fmap. exists i. split; [done|]. apply elem_of_positions. by exists (fr, to, m).
  - unfold total. fold others.
    assert (forall kn, kn ∈ others -> s_nodes s !! kn.1 = Some kn.2) as Hoth.
    { intros [k nk] Hin%elem_of_map_to_list. by apply lookup_delete_Some in Hin as [_ ?]. }
    clearbody others. induction others as [|[k nk] l IH]; cbn; [done|].
    rewrite length_app, length_fmap, length_positions. cbn.
    specialize (IH (fun x Hx => Hoth x ltac:(by right))).
    destruct (Hall k nk (Hoth (k, nk) ltac:(left))) as [Hs _].
    assert (length (filter (fun x => f x.2 = true) (n_sent nk)) <= emitted nk)%nat; [|lia].
    unfold emitted. unfold sent_inv in Hs. rewrite Hs, filter_app, length_app. lia.
Qed.

End Heard.
End Project.
End System.
