(* ===== verification/SmvbaAggreator.v ===== *)
(** * smvba: aggregators and the leader elector

    Models src/core/smvba/consensus/aggreator.go and elector.go.  Each [Append]
    returns the new aggregator, and the flag and error of the source.  The
    theorems give every aggregator's answer as a function of the messages it was
    given (Verdict), and from it agreement on the final vote and on the
    elected leader. *)

From Stdlib Require Import Strings.Byte.
From S2P Require Import Prelude GoStd Crypto Committee Quorum Verdict Coin SmvbaMessage.

Open Scope Z_scope.

(** ** Finish *)

Record FinishAggreator := mkFinishAggreator { Finish_Authors : gset NodeID }.
Definition NewFinishAggreator : FinishAggreator := mkFinishAggreator ∅.

Definition FinishAggreator_Append (committee : Committee) (finish : Finish)
    (f : FinishAggreator) : FinishAggreator * (bool * option error) :=
  if bool_decide (Finish_Author finish ∈ Finish_Authors f) then
    (f, (false, Some (ErrOneMoreMessage FinishType (Finish_Epoch finish) (Finish_Round finish)
                        (Finish_Author finish))))
  else
    let f := mkFinishAggreator ({[Finish_Author finish]} ∪ Finish_Authors f) in
    if Z.of_nat (size (Finish_Authors f)) =? HightThreshold committee
    then (f, (true, None)) else (f, (false, None)).

(** ** Done *)

Definition DONE_LOW_FLAG : Z := 0.
Definition DONE_HIGH_FLAG : Z := 1.
Definition DONE_NONE_FLAG : Z := 2.

Record DoneAggreator := mkDoneAggreator { Done_Authors : gset NodeID }.
Definition NewDoneAggreator : DoneAggreator := mkDoneAggreator ∅.

Definition DoneAggreator_Append (committee : Committee) (done : Done) (d : DoneAggreator) :
    DoneAggreator * (Z * option error) :=
  if bool_decide (Done_Author done ∈ Done_Authors d) then
    (d, (0, Some (ErrOneMoreMessage DoneType (Done_Epoch done) (Done_Round done)
                    (Done_Author done))))
  else
    let d := mkDoneAggreator ({[Done_Author done]} ∪ Done_Authors d) in
    if Z.of_nat (size (Done_Authors d)) =? LowThreshold committee then (d, (DONE_LOW_FLAG, None))
    else if Z.of_nat (size (Done_Authors d)) =? HightThreshold committee
    then (d, (DONE_HIGH_FLAG, None))
    else (d, (DONE_NONE_FLAG, None)).

(** ** Election shares *)

Record ElectAggreator := mkElectAggreator {
  shares : list SignatureShare;
  elect_authors : gset NodeID
}.
Definition NewElectAggreator : ElectAggreator := mkElectAggreator [] ∅.

Section Elect.
Context {K : Kyber}.

Definition ElectAggreator_Append (committee : Committee) (sigService : SigService)
    (elect : ElectShare) (e : ElectAggreator) :
    Outcome (ElectAggreator * (NodeID * option error)) :=
  if bool_decide (ElectShare_Author elect ∈ elect_authors e) then
    Ret (e, (NONE, Some (ErrOneMoreMessage ElectShareType (ElectShare_Epoch elect)
                           (ElectShare_Round elect) (ElectShare_Author elect))))
  else
    let e := mkElectAggreator (shares e ++ [ElectShare_SigShare elect])
               ({[ElectShare_Author elect]} ∪ elect_authors e) in
    if Z.of_nat (length (shares e)) =? HightThreshold committee then
      r ← combine_leader committee sigService (shares e) (ElectShare_Hash elect);
      Ret (e, r)
    else Ret (e, (NONE, None)).
End Elect.

(** ** Prevotes *)

Definition ACTION_YES : Z := 0.
Definition ACTION_NO : Z := 1.
Definition ACTION_COMMIT : Z := 2.
Definition ACTION_NONE : Z := 3.

(** The counters are bounded by the number of authors. *)
Record PreVoteAggreator := mkPreVoteAggreator {
  pre_authors : gset NodeID;
  pre_yesNums : Z;
  pre_noNums : Z;
  pre_flag : bool
}.
Definition NewPrevoteAggreator : PreVoteAggreator := mkPreVoteAggreator ∅ 0 0 false.

Definition PreVoteAggreator_Append (committee : Committee) (vote : Prevote)
    (p : PreVoteAggreator) : PreVoteAggreator * (Z * option error) :=
  if bool_decide (Prevote_Author vote ∈ pre_authors p) then
    (p, (ACTION_NONE, Some (ErrOneMoreMessage PrevoteType (Prevote_Epoch vote)
                              (Prevote_Round vote) (Prevote_Author vote))))
  else
    let authors := {[Prevote_Author vote]} ∪ pre_authors p in
    let isNo := Prevote_Flag vote =? VOTE_FLAG_NO in
    let noNums := if isNo then pre_noNums p + 1 else pre_noNums p in
    let yesNums := if isNo then pre_yesNums p else pre_yesNums p + 1 in
    let p' := mkPreVoteAggreator authors yesNums noNums in
    if (0 <? yesNums) && negb (pre_flag p) then (p' true, (ACTION_YES, None))
    else if (noNums =? HightThreshold committee) && negb (pre_flag p)
    then (p' (pre_flag p), (ACTION_NO, None))
    else (p' (pre_flag p), (ACTION_NONE, None)).

(** ** Final votes *)

Record FinVoteAggreator := mkFinVoteAggreator {
  fin_authors : gset NodeID;
  fin_yesNums : Z;
  fin_noNums : Z
}.
Definition NewFinVoteAggreator : FinVoteAggreator := mkFinVoteAggreator ∅ 0 0.

Definition FinVoteAggreator_Append (committee : Committee) (vote : FinVote)
    (f : FinVoteAggreator) : FinVoteAggreator * (Z * option error) :=
  if bool_decide (FinVote_Author vote ∈ fin_authors f) then
    (f, (ACTION_NONE, Some (ErrOneMoreMessage FinVoteType (FinVote_Epoch vote)
                              (FinVote_Round vote) (FinVote_Author vote))))
  else
    let isYes := FinVote_Flag vote =? VOTE_FLAG_YES in
    let f := mkFinVoteAggreator ({[FinVote_Author vote]} ∪ fin_authors f)
               (if isYes then fin_yesNums f + 1 else fin_yesNums f)
               (if isYes then fin_noNums f else fin_noNums f + 1) in
    let th := HightThreshold committee in
    if fin_yesNums f + fin_noNums f =? th then
      if fin_yesNums f =? th then (f, (ACTION_COMMIT, None))
      else if fin_noNums f =? th then (f, (ACTION_NO, None))
      else (f, (ACTION_YES, None))
    else (f, (ACTION_NONE, None)).

(** ** The aggregators of all epochs and rounds *)

Record Aggreator := mkAggreator {
  agg_committee : Committee;
  finishAggreator : gmap Z (gmap Z FinishAggreator);
  doneAggreator : gmap Z (gmap Z DoneAggreator);
  prevoteAggreator : gmap Z (gmap Z PreVoteAggreator);
  finvoteAggreator : gmap Z (gmap Z FinVoteAggreator)
}.
#[export] Instance Aggreator_eta : Settable Aggreator := fun a =>
  mkAggreator (agg_committee a) (finishAggreator a) (doneAggreator a) (prevoteAggreator a)
    (finvoteAggreator a).

Definition NewAggreator (committee : Committee) : Aggreator := mkAggreator committee ∅ ∅ ∅ ∅.

(** On a miss the vote is appended to one new aggregator and another new one is
    stored. *)
Definition AddFinishVote (a : Aggreator) (finish : Finish) : Aggreator * (bool * option error) :=
  let '(m, r) := add_item_lost (finishAggreator a) (Finish_Epoch finish) (Finish_Round finish)
                   NewFinishAggreator (FinishAggreator_Append (agg_committee a) finish) in
  (a <| finishAggreator := m |>, r).

Definition AddDoneVote (a : Aggreator) (done : Done) : Aggreator * (Z * option error) :=
  let '(m, r) := add_item (doneAggreator a) (Done_Epoch done) (Done_Round done)
                   NewDoneAggreator (DoneAggreator_Append (agg_committee a) done) in
  (a <| doneAggreator := m |>, r).

Definition AddPreVote (a : Aggreator) (vote : Prevote) : Aggreator * (Z * option error) :=
  let '(m, r) := add_item (prevoteAggreator a) (Prevote_Epoch vote) (Prevote_Round vote)
                   NewPrevoteAggreator (PreVoteAggreator_Append (agg_committee a) vote) in
  (a <| prevoteAggreator := m |>, r).

Definition AddFinVote (a : Aggreator) (vote : FinVote) : Aggreator * (Z * option error) :=
  let '(m, r) := add_item (finvoteAggreator a) (FinVote_Epoch vote) (FinVote_Round vote)
                   NewFinVoteAggreator (FinVoteAggreator_Append (agg_committee a) vote) in
  (a <| finvoteAggreator := m |>, r).

(** ** The elector *)

Section Elector.
Context {K : Kyber}.

Record Elector := mkElector {
  leaders : gmap Z (gmap Z NodeID);
  electAggreators : gmap Z (gmap Z ElectAggreator);
  el_sigService : SigService;
  el_committee : Committee
}.
#[export] Instance Elector_eta : Settable Elector := fun e =>
  mkElector (leaders e) (electAggreators e) (el_sigService e) (el_committee e).

Definition NewElector (sigService : SigService) (committee : Committee) : Elector :=
  mkElector ∅ ∅ sigService committee.

Definition SetLeader (e : Elector) (epoch round : Z) (leader : NodeID) : Elector :=
  e <| leaders := insert2 epoch round leader (ensure epoch (leaders e)) |>.

(** The read also creates the inner map. *)
Definition Leader (e : Elector) (epoch round : Z) : Elector * NodeID :=
  let e := e <| leaders := ensure epoch (leaders e) |> in
  (e, default NONE (lookup2 (leaders e) epoch round)).

Definition AddShareVote (e : Elector) (share : ElectShare) :
    Outcome (Elector * (NodeID * option error)) :=
  let items := ensure (ElectShare_Epoch share) (electAggreators e) in
  let eA := default NewElectAggreator
              (lookup2 items (ElectShare_Epoch share) (ElectShare_Round share)) in
  '(eA, (node, err)) ← ElectAggreator_Append (el_committee e) (el_sigService e) share eA;
  let e := e <| electAggreators := insert2 (ElectShare_Epoch share) (ElectShare_Round share)
                                     eA items |> in
  match err with
  | Some _ => Ret (e, (NONE, None))
  | None =>
      let e := if node =? NONE then e
               else SetLeader e (ElectShare_Epoch share) (ElectShare_Round share) node in
      Ret (e, (node, None))
  end.
End Elector.

(** ** Specifications *)

Definition finish_err (v : Finish) : error :=
  ErrOneMoreMessage FinishType (Finish_Epoch v) (Finish_Round v) (Finish_Author v).
Definition done_err (v : Done) : error :=
  ErrOneMoreMessage DoneType (Done_Epoch v) (Done_Round v) (Done_Author v).
Definition prevote_err (v : Prevote) : error :=
  ErrOneMoreMessage PrevoteType (Prevote_Epoch v) (Prevote_Round v) (Prevote_Author v).
Definition finvote_err (v : FinVote) : error :=
  ErrOneMoreMessage FinVoteType (FinVote_Epoch v) (FinVote_Round v) (FinVote_Author v).

Definition is_no (v : Prevote) : bool := Prevote_Flag v =? VOTE_FLAG_NO.
Definition is_yes (v : FinVote) : bool := FinVote_Flag v =? VOTE_FLAG_YES.

(** The answer to a message given those of its round that count. *)
Definition finish_verdict (c : Committee) : list Finish -> Finish -> bool * option error :=
  count_verdict Finish_Author finish_err (HightThreshold c).
Definition done_verdict (c : Committee) : list Done -> Done -> Z * option error :=
  levels_verdict Done_Author done_err (LowThreshold c) (HightThreshold c).
Definition prevote_verdict (c : Committee) : list Prevote -> Prevote -> Z * option error :=
  first_yes_verdict Prevote_Author prevote_err is_no (HightThreshold c).
Definition finvote_verdict (c : Committee) : list FinVote -> FinVote -> Z * option error :=
  unanimity_verdict FinVote_Author finvote_err is_yes (HightThreshold c).

Section Specs.
Context (c : Committee).

(** *** The representation invariants *)

Definition finish_abs (i : FinishAggreator) (vs : list Finish) : Prop :=
  Finish_Authors i = voters Finish_Author vs.

Lemma finish_abs_append (i : FinishAggreator) (vs : list Finish) (v : Finish) :
  finish_abs i vs ->
  finish_abs (FinishAggreator_Append c v i).1 (vs ++ [v]) /\
  (FinishAggreator_Append c v i).2 = finish_verdict c vs v.
Proof.
  unfold finish_abs, FinishAggreator_Append, finish_verdict, count_verdict, hit. destruct i. cbn. intros ->.
  rewrite voters_snoc.
  destruct (bool_decide_reflect (Finish_Author v ∈ voters Finish_Author vs)); cbn.
  - done.
  - rewrite bool_decide_true by done. case_bool; done.
Qed.

Definition done_abs (i : DoneAggreator) (vs : list Done) : Prop :=
  Done_Authors i = voters Done_Author vs.

Lemma done_abs_append (i : DoneAggreator) (vs : list Done) (v : Done) :
  done_abs i vs ->
  done_abs (DoneAggreator_Append c v i).1 (vs ++ [v]) /\
  (DoneAggreator_Append c v i).2 = done_verdict c vs v.
Proof.
  unfold done_abs, DoneAggreator_Append, done_verdict, levels_verdict, hit. destruct i. cbn. intros ->.
  rewrite voters_snoc.
  destruct (bool_decide_reflect (Done_Author v ∈ voters Done_Author vs)); cbn.
  - done.
  - rewrite bool_decide_true by done.
    case_bool; [done|]. case_bool; done.
Qed.

Definition prevote_abs (i : PreVoteAggreator) (vs : list Prevote) : Prop :=
  pre_authors i = voters Prevote_Author vs /\
  pre_noNums i = tally Prevote_Author is_no vs /\
  pre_yesNums i = tally Prevote_Author (fun v => negb (is_no v)) vs /\
  pre_flag i = (0 <? tally Prevote_Author (fun v => negb (is_no v)) vs).

Lemma prevote_abs_append (i : PreVoteAggreator) (vs : list Prevote) (v : Prevote) :
  prevote_abs i vs ->
  prevote_abs (PreVoteAggreator_Append c v i).1 (vs ++ [v]) /\
  (PreVoteAggreator_Append c v i).2 = prevote_verdict c vs v.
Proof.
  unfold prevote_abs, PreVoteAggreator_Append, prevote_verdict, first_yes_verdict, hit.
  destruct i. cbn. intros (-> & -> & -> & ->). rewrite !tally_snoc, size_voters_snoc, voters_snoc.
  pose proof (tally_split Prevote_Author is_no vs) as Hsplit.
  pose proof (tally_nonneg Prevote_Author (fun v => negb (is_no v)) vs) as Hy.
  destruct (bool_decide_reflect (Prevote_Author v ∈ voters Prevote_Author vs)); cbn.
  - by rewrite !Z.add_0_r.
  - rewrite bool_decide_true by done. cbn. change (Prevote_Flag v =? VOTE_FLAG_NO) with (is_no v).
    destruct (is_no v); cbn; rewrite ?Z.add_0_r; repeat (case_bool; cbn);
      try lia; done.
Qed.

Definition finvote_abs (i : FinVoteAggreator) (vs : list FinVote) : Prop :=
  fin_authors i = voters FinVote_Author vs /\
  fin_yesNums i = tally FinVote_Author is_yes vs /\
  fin_noNums i = tally FinVote_Author (fun v => negb (is_yes v)) vs.

Lemma finvote_abs_append (i : FinVoteAggreator) (vs : list FinVote) (v : FinVote) :
  finvote_abs i vs ->
  finvote_abs (FinVoteAggreator_Append c v i).1 (vs ++ [v]) /\
  (FinVoteAggreator_Append c v i).2 = finvote_verdict c vs v.
Proof.
  unfold finvote_abs, FinVoteAggreator_Append, finvote_verdict, unanimity_verdict, hit.
  destruct i. cbn. intros (-> & -> & ->). rewrite !tally_snoc, size_voters_snoc, voters_snoc.
  pose proof (tally_split FinVote_Author is_yes vs) as Hsplit.
  pose proof (tally_nonneg FinVote_Author (fun v => negb (is_yes v)) vs) as Hno.
  pose proof (tally_nonneg FinVote_Author is_yes vs) as Hyes.
  destruct (bool_decide_reflect (FinVote_Author v ∈ voters FinVote_Author vs)); cbn.
  - by rewrite !Z.add_0_r.
  - rewrite bool_decide_true by done. cbn.
    change (FinVote_Flag v =? VOTE_FLAG_YES) with (is_yes v).
    destruct (is_yes v); cbn; rewrite ?Z.add_0_r; repeat (case_bool; cbn);
      try lia; done.
Qed.
End Specs.

(** ** Refinement of the specifications by the aggregators *)

(** The key of a message's aggregator. *)
Definition finish_key (f : Finish) : Z * Z := (Finish_Epoch f, Finish_Round f).
Definition done_key (d : Done) : Z * Z := (Done_Epoch d, Done_Round d).
Definition prevote_key (v : Prevote) : Z * Z := (Prevote_Epoch v, Prevote_Round v).
Definition finvote_key (v : FinVote) : Z * Z := (FinVote_Epoch v, FinVote_Round v).

(** Prove a run of one of the [Add...Vote] methods equal to its specification. *)
Ltac agg_run c field key new append abs_append :=
  rewrite (run_calls_field field (fun a => agg_committee a = c) _
    (fun m v => add_item m (key v).1 (key v).2 new (append c v)));
  [eapply run_verdicts; [apply add_item_at_key|split; [|apply abs_append]; done|done]
  |done
  |intros a v Ha; rewrite <-Ha].

Lemma AddDoneVote_run (c : Committee) (ds : list Done) :
  (run_calls AddDoneVote (NewAggreator c) ds).2 =
  verdicts done_key (done_verdict c) [] ds.
Proof.
  agg_run c doneAggreator done_key NewDoneAggreator DoneAggreator_Append done_abs_append.
  unfold AddDoneVote. by destruct (add_item _ _ _ _ _).
Qed.

Lemma AddPreVote_run (c : Committee) (vs : list Prevote) :
  (run_calls AddPreVote (NewAggreator c) vs).2 =
  verdicts prevote_key (prevote_verdict c) [] vs.
Proof.
  agg_run c prevoteAggreator prevote_key NewPrevoteAggreator PreVoteAggreator_Append
    prevote_abs_append.
  unfold AddPreVote. by destruct (add_item _ _ _ _ _).
Qed.

Lemma AddFinVote_run (c : Committee) (vs : list FinVote) :
  (run_calls AddFinVote (NewAggreator c) vs).2 =
  verdicts finvote_key (finvote_verdict c) [] vs.
Proof.
  agg_run c finvoteAggreator finvote_key NewFinVoteAggreator FinVoteAggreator_Append
    finvote_abs_append.
  unfold AddFinVote. by destruct (add_item _ _ _ _ _).
Qed.

(** The aggregator of finishes has not counted the first one of a round. *)
Lemma AddFinishVote_run (c : Committee) (vs : list Finish) :
  (run_calls AddFinishVote (NewAggreator c) vs).2 =
  verdicts finish_key (fun prior => finish_verdict c (tail prior)) [] vs.
Proof.
  rewrite (run_calls_field finishAggreator (fun a => agg_committee a = c) _
    (fun m v => add_item_lost m (finish_key v).1 (finish_key v).2 NewFinishAggreator
                  (FinishAggreator_Append c v))).
  - eapply run_verdicts; [apply add_item_lost_at_key| |done].
    apply append_lost_refines. split; [|apply finish_abs_append]; done.
  - done.
  - intros a v Ha. rewrite <-Ha. unfold AddFinishVote. by destruct (add_item_lost _ _ _ _ _).
Qed.

(** ** What the aggregators decide *)

(** The answers of a fresh aggregator to the messages of one (epoch, round). *)
Definition done_answers (c : Committee) (e r : Z) (ds : list Done) : list (Z * option error) :=
  answers done_key (e, r) ds (run_calls AddDoneVote (NewAggreator c) ds).2.
Definition finish_answers (c : Committee) (e r : Z) (fs : list Finish) :
    list (bool * option error) :=
  answers finish_key (e, r) fs (run_calls AddFinishVote (NewAggreator c) fs).2.
Definition prevote_answers (c : Committee) (e r : Z) (vs : list Prevote) :
    list (Z * option error) :=
  answers prevote_key (e, r) vs (run_calls AddPreVote (NewAggreator c) vs).2.
Definition finvote_answers (c : Committee) (e r : Z) (vs : list FinVote) :
    list (Z * option error) :=
  answers finvote_key (e, r) vs (run_calls AddFinVote (NewAggreator c) vs).2.

(** The distinct authors of the messages of one (epoch, round). *)
Definition done_authors (e r : Z) (ds : list Done) : gset NodeID :=
  voters Done_Author (at_key done_key (e, r) ds).
Definition finvote_authors (e r : Z) (vs : list FinVote) : gset NodeID :=
  voters FinVote_Author (at_key finvote_key (e, r) vs).

(** Whatever messages of other epochs and rounds arrive in between and however
    often an author repeats itself, [AddDoneVote] answers [DONE_LOW_FLAG]
    exactly once if [LowThreshold] different authors sent a Done for the round
    and never otherwise, and likewise [DONE_HIGH_FLAG] for [HightThreshold],
    which is only reached when it differs from [LowThreshold]. *)
Theorem smvba_done_thresholds (c : Committee) (e r : Z) (ds : list Done) :
  let n := Z.of_nat (size (done_authors e r ds)) in
  times (DONE_LOW_FLAG, None) (done_answers c e r ds) =
    (if decide (LowThreshold c <= n) then 1%nat else 0%nat) /\
  times (DONE_HIGH_FLAG, None) (done_answers c e r ds) =
    (if decide (LowThreshold c < HightThreshold c <= n) then 1%nat else 0%nat).
Proof.
  cbn zeta. unfold done_answers, done_authors. rewrite AddDoneVote_run, answers_verdicts.
  pose proof (thresholds_pos c) as Hth. split.
  - apply levels_low_once. lia.
  - apply levels_high_once. lia.
Qed.

(** [AddFinishVote] does not count the first Finish of a round: in a
    committee of at least four, it reports a quorum exactly once if
    [HightThreshold] different authors are among the Finish messages after the
    first, and never otherwise. *)
Theorem smvba_finish_skips_first (c : Committee) (e r : Z) (fs : list Finish) :
  4 <= Committee_Size c ->
  times (true, None) (finish_answers c e r fs) =
  (if decide (HightThreshold c <=
     Z.of_nat (size (voters Finish_Author (tail (at_key finish_key (e, r) fs)))))
   then 1%nat else 0%nat).
Proof.
  intros Hn. unfold finish_answers. rewrite AddFinishVote_run, answers_verdicts.
  pose proof (max_faults_bounds c) as [_ Hf]. pose proof (HightThreshold_eq c) as Hth.
  apply lost_count_once. lia.
Qed.

(** [AddFinVote] decides a round exactly once, with the vote that
    completes a quorum of different authors, and never without one. *)
Theorem smvba_finvote_decides_once (c : Committee) (e r : Z) (vs : list FinVote) :
  length (filter (fun a => is_decision a = true) (finvote_answers c e r vs)) =
  (if decide (HightThreshold c <= Z.of_nat (size (finvote_authors e r vs)))
   then 1%nat else 0%nat).
Proof.
  unfold finvote_answers, finvote_authors. rewrite AddFinVote_run, answers_verdicts.
  apply unanimity_once. pose proof (thresholds_pos c). lia.
Qed.

(** C9. Agreement of the final vote: in a committee of [3f + 1] with at most [f]
    faulty members, if the first final votes of the correct members are the same
    at two nodes, then one node deciding [ACTION_COMMIT] excludes the other deciding
    [ACTION_NO], whatever the faulty members send to each of them. *)
Theorem smvba_finvote_agreement (c : Committee) (B : gset NodeID) (e r : Z)
    (vs ws : list FinVote) :
  Committee_Size c = 3 * max_faults c + 1 ->
  Z.of_nat (size B) <= max_faults c ->
  finvote_authors e r vs ⊆ members c -> finvote_authors e r ws ⊆ members c ->
  (forall v w, v ∈ firsts FinVote_Author (at_key finvote_key (e, r) vs) ->
     w ∈ firsts FinVote_Author (at_key finvote_key (e, r) ws) ->
     FinVote_Author v = FinVote_Author w -> FinVote_Author v ∉ B ->
     FinVote_Flag v = FinVote_Flag w) ->
  (ACTION_COMMIT, None) ∈ finvote_answers c e r vs ->
  (ACTION_NO, None) ∈ finvote_answers c e r ws -> False.
Proof.
  unfold finvote_authors, finvote_answers. rewrite !AddFinVote_run, !answers_verdicts.
  intros Hn HB Hvs Hws Hsame. eapply unanimity_agreement; try done.
  intros v w Hv Hw Ha Hb. unfold is_yes. by rewrite (Hsame v w Hv Hw Ha Hb).
Qed.

(** [AddPreVote] answers [ACTION_YES] exactly once if some counted prevote
    of the round is a yes, and never otherwise; it answers [ACTION_NO] only when
    a quorum of different authors has voted no. *)
Theorem smvba_prevote_actions (c : Committee) (e r : Z) (vs : list Prevote) :
  let round_votes := at_key prevote_key (e, r) vs in
  times (ACTION_YES, None) (prevote_answers c e r vs) =
    (if decide (0 < tally Prevote_Author (fun v => negb (is_no v)) round_votes)
     then 1%nat else 0%nat) /\
  ((ACTION_NO, None) ∈ prevote_answers c e r vs ->
     HightThreshold c <= tally Prevote_Author is_no round_votes).
Proof.
  cbn zeta. unfold prevote_answers. rewrite AddPreVote_run, answers_verdicts. split.
  - apply first_yes_once.
  - apply first_yes_no_quorum.
Qed.

(** The code after a quorum of no prevotes does not mark the round: when a
    yes prevote follows, [AddPreVote] answers [ACTION_NO] and then [ACTION_YES],
    and the node is asked to send two opposite final votes. *)
Theorem smvba_prevote_no_then_yes (c : Committee) (e r : Z) (vs : list Prevote) (v : Prevote) :
  Forall (fun v => prevote_key v = (e, r)) (vs ++ [v]) ->
  NoDup (Prevote_Author <$> (vs ++ [v])) ->
  Forall (fun v => Prevote_Flag v = VOTE_FLAG_NO) vs ->
  Prevote_Flag v <> VOTE_FLAG_NO ->
  Z.of_nat (length vs) = HightThreshold c ->
  exists l, prevote_answers c e r (vs ++ [v]) = l ++ [(ACTION_NO, None); (ACTION_YES, None)].
Proof.
  intros Hr Hnd Hno Hyes Hlen. unfold prevote_answers. rewrite AddPreVote_run, answers_verdicts.
  rewrite (at_key_all _ (e, r) (vs ++ [v]) Hr). apply first_yes_no_then_yes; try done.
  - pose proof (thresholds_pos c). lia.
  - eapply Forall_impl; [exact Hno|]. intros x Hx. unfold is_no. by rewrite Hx.
  - unfold is_no. by apply Z.eqb_neq.
Qed.

(** ** The elector *)

Section ElectorSpec.
Context {K : Kyber} `{!KyberLaws K}.

Lemma ElectAggreator_Append_spec (c : Committee) (srv : SigService) (share : ElectShare)
    (e : ElectAggreator) :
  0 < Committee_Size c ->
  exists e' node err, ElectAggreator_Append c srv share e = Ret (e', (node, err)) /\
    (node = NONE \/
     exists coin, CombineIntactTSPartial (shares e') (ShareKey srv) (ElectShare_Hash share)
                  = Some coin /\
       err = None /\ coin_leader c coin = Some node /\ 0 <= node < Committee_Size c).
Proof using Type*.
  intros Hn. unfold ElectAggreator_Append. case_bool_decide; [by eauto 10|]. cbn zeta.
  case_bool; [|by eauto 10].
  edestruct combine_leader_spec as (node & err & -> & Hnode); [done|]. cbn. eauto 10.
Qed.

Lemma AddShareVote_spec (e : Elector) (share : ElectShare) :
  0 < Committee_Size (el_committee e) ->
  exists e' node, AddShareVote e share = Ret (e', (node, None)) /\
    el_committee e' = el_committee e /\ el_sigService e' = el_sigService e /\
    ((node = NONE /\ leaders e' = leaders e) \/
     (e' = SetLeader (e <| electAggreators := electAggreators e' |>)
             (ElectShare_Epoch share) (ElectShare_Round share) node /\
      0 <= node < Committee_Size (el_committee e) /\
      exists l coin, CombineIntactTSPartial l (ShareKey (el_sigService e)) (ElectShare_Hash share)
                     = Some coin /\ coin_leader (el_committee e) coin = Some node)).
Proof using Type*.
  intros Hn. unfold AddShareVote. rewrite lookup2_ensure.
  destruct (ElectAggreator_Append_spec (el_committee e) (el_sigService e) share
    (default NewElectAggreator (lookup2 (electAggreators e) (ElectShare_Epoch share)
       (ElectShare_Round share))) Hn) as (eA & node & err & -> & Hnode). cbn.
  destruct Hnode as [->|(coin & Hc & -> & Hl & Hr)].
  - destruct err; cbn; eauto 10.
  - rewrite (proj2 (Z.eqb_neq _ _)) by (unfold NONE; lia).
    do 2 eexists. split_and!; [done..|]. right. split; [done|]. eauto.
Qed.
End ElectorSpec.

(** C16. In a nonempty committee [AddShareVote] always returns, without error.  Two
    nodes holding the same group key that both elect a leader for an (epoch,
    round), from whatever shares in whatever order, elect the same one; it is a
    valid index of the committee and [Leader] reports it from then on. *)
Theorem smvba_leader_agreement {K : Kyber} `{!KyberLaws K} (e1 e2 : Elector)
    (s1 s2 : ElectShare) :
  0 < Committee_Size (el_committee e1) ->
  el_committee e2 = el_committee e1 ->
  SSK_PubPoly (ShareKey (el_sigService e2)) = SSK_PubPoly (ShareKey (el_sigService e1)) ->
  SSK_T (ShareKey (el_sigService e2)) = SSK_T (ShareKey (el_sigService e1)) ->
  SSK_N (ShareKey (el_sigService e2)) = SSK_N (ShareKey (el_sigService e1)) ->
  ElectShare_Epoch s2 = ElectShare_Epoch s1 -> ElectShare_Round s2 = ElectShare_Round s1 ->
  exists e1' e2' l1 l2,
    AddShareVote e1 s1 = Ret (e1', (l1, None)) /\ AddShareVote e2 s2 = Ret (e2', (l2, None)) /\
    (l1 <> NONE -> l2 <> NONE -> l1 = l2) /\
    (l1 <> NONE -> 0 <= l1 < Committee_Size (el_committee e1) /\
       (Leader e1' (ElectShare_Epoch s1) (ElectShare_Round s1)).2 = l1).
Proof.
  intros Hn Hcom Hpub Ht HN Hep Hrd.
  destruct (AddShareVote_spec e1 s1 Hn) as (e1' & l1 & -> & _ & _ & H1).
  destruct (AddShareVote_spec e2 s2) as (e2' & l2 & -> & _ & _ & H2); [by rewrite Hcom|].
  exists e1', e2', l1, l2. split_and!; [done..| |].
  - intros Hl1 Hl2. destruct H1 as [[? _]|(_ & _ & x1 & c1 & Hc1 & Hi1)]; [done|].
    destruct H2 as [[? _]|(_ & _ & x2 & c2 & Hc2 & Hi2)]; [done|].
    assert (ElectShare_Hash s2 = ElectShare_Hash s1) as Hh
      by (unfold ElectShare_Hash; by rewrite Hep, Hrd).
    rewrite Hh in Hc2. rewrite (coins_agree _ _ _ _ _ _ _ Hpub Ht HN Hc1 Hc2) in Hi1.
    rewrite Hcom in Hi2. congruence.
  - intros Hl1. destruct H1 as [[? _]|(He & Hr & _)]; [done|]. split; [done|].
    rewrite He. unfold Leader, SetLeader. cbn. by autorewrite with nested.
Qed.

(** ** Witnesses *)

Section Witness.
Import ToyCrypto ToyNode.

Definition toy_sig : Signature := mkSignature [].
Definition toy_fin (a flag : Z) : FinVote := mkFinVote a 0 0 0 flag Digest0 toy_sig.
Definition toy_pre (a flag : Z) : Prevote := mkPrevote a 0 0 0 flag Digest0 toy_sig.
Definition toy_finish (a : Z) : Finish := mkFinish a Digest0 0 0 toy_sig.
Definition toy_share (a : nat) : ElectShare :=
  let m := ElectShare_Hash (mkElectShare (Z.of_nat a) 0 0 (mkSignatureShare [])) in
  mkElectShare (Z.of_nat a) 0 0 (mkSignatureShare (byteZ (Z.of_nat a) :: m)).

(** Three Finish messages are a quorum of four; no quorum is reported until a
    fourth comes. *)
Lemma smvba_finish_skips_first_witness :
  times (true, None) (finish_answers (toy_committee 4) 0 0 (toy_finish <$> [0; 1; 2])) = 0%nat /\
  times (true, None) (finish_answers (toy_committee 4) 0 0 (toy_finish <$> [0; 1; 2; 3])) = 1%nat.
Proof.
  split.
  - rewrite smvba_finish_skips_first; vm_compute; [reflexivity|discriminate].
  - rewrite smvba_finish_skips_first; vm_compute; [reflexivity|discriminate].
Defined.

Definition toy_same (v w : FinVote) : bool :=
  negb (FinVote_Author v =? FinVote_Author w) || (FinVote_Author v =? 3) ||
  (FinVote_Flag v =? FinVote_Flag w).

(** Node 3 votes yes towards one node and no towards the other. *)
Lemma smvba_finvote_agreement_witness :
  (ACTION_COMMIT, None) ∈
    finvote_answers (toy_committee 4) 0 0 [toy_fin 3 0; toy_fin 0 0; toy_fin 1 0] /\
  ((ACTION_NO, None) ∈
    finvote_answers (toy_committee 4) 0 0 [toy_fin 3 1; toy_fin 0 0; toy_fin 2 0] -> False).
Proof.
  assert ((ACTION_COMMIT, None) ∈
    finvote_answers (toy_committee 4) 0 0 [toy_fin 3 0; toy_fin 0 0; toy_fin 1 0]) as Hc.
  { apply (bool_decide_eq_true_1 _). vm_compute. reflexivity. }
  split; [exact Hc|].
  apply (smvba_finvote_agreement (toy_committee 4) {[3]} 0 0
    [toy_fin 3 0; toy_fin 0 0; toy_fin 1 0]); [vm_compute; reflexivity|vm_compute; discriminate|..].
  - apply (bool_decide_eq_true_1 _). vm_compute. reflexivity.
  - apply (bool_decide_eq_true_1 _). vm_compute. reflexivity.
  - intros v w Hv Hw Ha HB.
    assert (toy_same v w = true) as H.
    { eapply (forallb_pairs toy_same); [|exact Hv|exact Hw]. vm_compute. reflexivity. }
    unfold toy_same in H.
    rewrite Ha, Z.eqb_refl in H. cbn in H. apply orb_true_iff in H as [H|H].
    + exfalso. apply Z.eqb_eq in H. apply HB. rewrite Ha, H. by apply elem_of_singleton.
    + by apply Z.eqb_eq.
  - exact Hc.
Defined.

Lemma smvba_prevote_no_then_yes_witness :
  exists l, prevote_answers (toy_committee 4) 0 0
    ([toy_pre 0 1; toy_pre 1 1; toy_pre 2 1] ++ [toy_pre 3 0]) =
    l ++ [(ACTION_NO, None); (ACTION_YES, None)].
Proof.
  apply smvba_prevote_no_then_yes.
  - repeat constructor.
  - apply (bool_decide_eq_true_1 _). vm_compute. reflexivity.
  - repeat constructor.
  - done.
  - vm_compute. reflexivity.
Defined.

(** An elector that has two of the three shares it needs. *)
Definition toy_elector (i a b : nat) : Elector :=
  let add e a := match AddShareVote e (toy_share a) with Ret (e', _) => e' | Panic => e end in
  add (add (NewElector (toy_service 4 i) (toy_committee 4)) a) b.

Lemma smvba_leader_agreement_witness :
  exists e1' e2' l1 l2,
    AddShareVote (toy_elector 0 0 1) (toy_share 2) = Ret (e1', (l1, None)) /\
    AddShareVote (toy_elector 3 2 3) (toy_share 1) = Ret (e2', (l2, None)) /\
    (l1 <> NONE -> l2 <> NONE -> l1 = l2) /\
    (l1 <> NONE -> 0 <= l1 < 4 /\ (Leader e1' 0 0).2 = l1).
Proof.
  exact (smvba_leader_agreement (toy_elector 0 0 1) (toy_elector 3 2 3) (toy_share 2) (toy_share 1)
    eq_refl eq_refl eq_refl eq_refl eq_refl eq_refl eq_refl).
Defined.

(** Both electors of the witness do elect. *)
Example toy_electors_elect :
  match AddShareVote (toy_elector 0 0 1) (toy_share 2),
        AddShareVote (toy_elector 3 2 3) (toy_share 1) with
  | Ret (_, (l1, _)), Ret (_, (l2, _)) => (l1 =? l2) && negb (l1 =? NONE)
  | _, _ => false
  end = true.
Proof. vm_compute. reflexivity. Qed.

End Witness.
