(* ===== verification/SmvbaCommitor.v ===== *)
(** * smvba: ordered delivery

    Models src/core/smvba/consensus/commitor.go: the generic commitor at the type of
    smvba's blocks, and [run], which consumes the channel.  The theorems say
    that the calls always return, that blocks are delivered in epoch order
    without gap or repetition, and that two nodes that agree on the block of each
    epoch deliver the same sequence up to how far they got. *)

From S2P Require Import Prelude Committee Pool Deliver SmvbaMessage.

Open Scope Z_scope.

Definition Commit : Committor Block -> option Block -> Outcome (Committor Block) :=
  Deliver.Commit Block_Epoch.
Definition commit_all : Committor Block -> list Block -> Outcome (Committor Block) :=
  Deliver.commit_all Block_Epoch.
Abbreviation epoch_ok := (Deliver.epoch_ok Block_Epoch).

(** The consumer: a line (epoch, proposer, batch id) is logged for a block with
    transactions, and every block signals [callBack]. *)
Definition run_step (st : list (Z * NodeID * Z) * nat) (block : Block) :
    list (Z * NodeID * Z) * nat :=
  let '(lines, callbacks) := st in
  ((match Batch_Txs (Block_Batch block) with
    | Some _ => lines ++ [(Block_Epoch block, Proposer block, Batch_ID (Block_Batch block))]
    | None => lines
    end), S callbacks).
Definition Committor_run (blocks : list Block) : list (Z * NodeID * Z) * nat :=
  foldl run_step ([], 0%nat) blocks.

Lemma smvba_Commit_returns (c : Committor Block) (b : Block) :
  exists c', Commit c (Some b) = Ret c'.
Proof. apply Commit_returns. Qed.

Lemma smvba_Commit_prefix (c c' : Committor Block) (b : option Block) :
  Commit c b = Ret c' -> commitCh c `prefix_of` commitCh c'.
Proof. apply Commit_prefix. Qed.

(** ** Properties *)

(** Any sequence of [Commit] calls returns.  What it has sent on the channel is
    one block per epoch [0, 1, 2, ...] in order, each one of the committed
    blocks, and it extends exactly to the first epoch for which no block was
    committed. *)
Theorem smvba_commit_in_order (bs : list Block) :
  Forall epoch_ok bs ->
  exists c, commit_all NewCommittor bs = Ret c /\
    (forall (k : nat) b, commitCh c !! k = Some b -> Block_Epoch b = Z.of_nat k /\ b ∈ bs) /\
    (forall k : nat, (k < length (commitCh c))%nat <->
       forall j : nat, (j <= k)%nat -> exists b, b ∈ bs /\ Block_Epoch b = Z.of_nat j).
Proof. apply deliver_in_order. Qed.

(** C8. Total order: when two nodes' committed blocks agree on every epoch, the
    sequence one of them delivers is a prefix of the other's, in whatever order
    and how often the blocks were committed. *)
Theorem smvba_commit_total_order (bs1 bs2 : list Block) (c1 c2 : Committor Block) :
  Forall epoch_ok bs1 -> Forall epoch_ok bs2 ->
  (forall b1 b2, b1 ∈ bs1 -> b2 ∈ bs2 -> Block_Epoch b1 = Block_Epoch b2 -> b1 = b2) ->
  commit_all NewCommittor bs1 = Ret c1 -> commit_all NewCommittor bs2 = Ret c2 ->
  commitCh c1 `prefix_of` commitCh c2 \/ commitCh c2 `prefix_of` commitCh c1.
Proof. apply deliver_total_order. Qed.

(** The consumer signals once per delivered block and logs, in order, exactly
    the delivered blocks that carry transactions. *)
Theorem smvba_commit_run (blocks : list Block) :
  Committor_run blocks =
  ((fun b => (Block_Epoch b, Proposer b, Batch_ID (Block_Batch b))) <$>
     filter (fun b => Batch_Txs (Block_Batch b) <> None) blocks, length blocks).
Proof.
  unfold Committor_run. induction blocks as [|b blocks IH] using rev_ind; [done|].
  rewrite foldl_snoc, IH, filter_app, filter_cons, filter_nil, length_app, fmap_app. cbn.
  rewrite Nat.add_1_r. destruct (Batch_Txs (Block_Batch b)).
  - by rewrite decide_True by done.
  - rewrite decide_False by tauto. cbn. by rewrite app_nil_r.
Qed.

(** ** Witnesses *)

Definition toy_block (e : Z) : Block := mkBlock 1 (mkBatch e (Some [])) e.

Lemma smvba_commit_in_order_witness :
  exists c, commit_all NewCommittor (toy_block <$> [1; 0; 4; 2; 0]) = Ret c /\
    (forall (k : nat) b, commitCh c !! k = Some b -> Block_Epoch b = Z.of_nat k /\
       b ∈ toy_block <$> [1; 0; 4; 2; 0]) /\
    (forall k : nat, (k < length (commitCh c))%nat <->
       forall j : nat, (j <= k)%nat ->
         exists b, b ∈ toy_block <$> [1; 0; 4; 2; 0] /\ Block_Epoch b = Z.of_nat j).
Proof. apply smvba_commit_in_order. repeat constructor. Defined.

Lemma smvba_commit_total_order_witness :
  exists c1 c2, commit_all NewCommittor (toy_block <$> [1; 0; 4; 2; 0]) = Ret c1 /\
    commit_all NewCommittor (toy_block <$> [0; 1]) = Ret c2 /\
    (commitCh c1 `prefix_of` commitCh c2 \/ commitCh c2 `prefix_of` commitCh c1).
Proof.
  destruct (commit_all NewCommittor (toy_block <$> [1; 0; 4; 2; 0])) as [c1|] eqn:H1;
    [|vm_compute in H1; discriminate].
  destruct (commit_all NewCommittor (toy_block <$> [0; 1])) as [c2|] eqn:H2;
    [|vm_compute in H2; discriminate].
  exists c1, c2. split; [reflexivity|]. split; [reflexivity|].
  refine (smvba_commit_total_order _ _ c1 c2 _ _ _ H1 H2); [repeat constructor..|].
  intros b1 b2 (x & -> & _)%list_elem_of_fmap (y & -> & _)%list_elem_of_fmap H.
  cbn in H. by subst.
Defined.
