(* ===== verification/SmvbaSafety.v ===== *)
(** * smvba: safety of a node under every schedule

    The invariant of a running node: the runtime interleaves the main loop with
    any number of broadcast goroutines and delivers any well-formed messages,
    Byzantine ones included.  A handler is specified by [triple]: it does not
    panic, keeps the invariant of the core, and relates the state before and
    after and the effects by [ext].  The theorems at the end are about every
    reachable state of a node. *)

From S2P Require Import Prelude Crypto Committee Store Pool Runtime Quorum Deliver Triple.
From S2P Require Import SmvbaMessage SmvbaAggreator SmvbaCommitor SmvbaSpb SmvbaCore.

Open Scope Z_scope.

(** What the network may deliver: a message that names a member of the committee
    as author, has a 64-bit epoch and, if it is a phase one proposal, a block.
    Its signature, its contents and the number of its copies are arbitrary. *)
Definition event_ok (com : Committee) (m : Message) : Prop :=
  (exists a, msg_author m = Some a /\ a ∈ members com) /\ in_int64 (msg_epoch m) /\
  (forall p, m = MSPBProposal p -> proposal_wf p).

(** A sent Done of (epoch, round). *)
Definition is_done (e r : Z) (x : effect) : bool :=
  match x with
  | ESend _ _ (MDone d) => (Done_Epoch d =? e) && (Done_Round d =? r)
  | _ => false
  end.
Definition done_sends (e r : Z) (es : list effect) : nat :=
  length (filter (fun x => is_done e r x = true) es).

Lemma done_sends_app (e r : Z) (es1 es2 : list effect) :
  done_sends e r (es1 ++ es2) = (done_sends e r es1 + done_sends e r es2)%nat.
Proof. unfold done_sends. by rewrite filter_app, length_app. Qed.

(** The Done messages of (epoch, round) among those sent. *)
Definition sent_dones (e r : Z) (l : list (NodeID * NodeID * Message)) : nat :=
  length (filter (fun x => is_done e r (ESend x.1.1 x.1.2 x.2) = true) l).

Lemma done_sends_sends (e r : Z) (es : list effect) :
  done_sends e r es = sent_dones e r (sends es).
Proof.
  unfold done_sends, sent_dones. induction es as [|x es IH]; [done|]. rewrite filter_cons.
  destruct x as [f t m|ch ev|t]; cbn [sends omap list_omap].
  - rewrite filter_cons. cbn [fst snd]. by case_decide; cbn [length]; rewrite IH.
  - rewrite decide_False by done. exact IH.
  - rewrite decide_False by done. exact IH.
Qed.

Section Safety.
Context {E : Ed25519} {K : Kyber} {db : Type} `{HDB : DB db} {GB : GobBlock}.
Context `{!Ed25519Laws E} `{!KyberLaws K}.

Context (st : setting).
Context (Hst : setting_ok st).

Abbreviation core := (Core (db := db)).

Definition pool_len (c : core) : nat := length (batchChannel (p_queue (TxPool c))).

Record core_ok (c : core) : Prop := {
  co_name : Name c = s_name st;
  co_com : core_Committee c = s_com st;
  co_srv : core_SigService c = s_srv st;
  co_elector : el_committee (core_Elector c) = s_com st;
  co_epoch : in_int64 (Epoch c);
  co_spb : forall e r n s, lookup3 (SPbInstances c) e r n = Some s ->
    spb_ok e r n s /\ in_int64 e
}.

(** A goroutine works on an existing instance that it knows enough about. *)
Definition thread_ok (c : core) (t : Thread) : Prop :=
  exists s, lookup3 (SPbInstances c) (t_epoch t) (t_round t) (t_node t) = Some s /\
            pc_ok s (t_pc t).

Definition insts_le (c c' : core) : Prop :=
  forall e r n s, lookup3 (SPbInstances c) e r n = Some s ->
    exists s', lookup3 (SPbInstances c') e r n = Some s' /\ spb_le s s'.

(** A message sent is the node's own and verifies. *)
Definition sent_ok (x : effect) : Prop :=
  match x with
  | ESend f _ m => f = s_name st /\ msg_author m = Some f /\ Verify (s_com st) m = Ret true
  | _ => True
  end.

Definition done_flag (c : core) (e r : Z) : nat :=
  match lookup2 (DoneFlags c) e r with Some _ => 1 | None => 0 end.

Abbreviation eff_ok := (effect_ok (Msg := Message) (event_ok (s_com st)) thread_ok).

(** How a step that adds at most [k] batches to the pool's channel changes the
    core, with the effects it emits. *)
Record ext (k : nat) (c c' : core) (es : list effect) : Prop := {
  x_insts : insts_le c c';
  x_epoch : Epoch c' = Epoch c;
  x_halt : HaltFlags c' = HaltFlags c;
  x_pool : (pool_len c' <= pool_len c + k)%nat;
  x_eff : Forall (eff_ok c') es;
  x_sent : Forall sent_ok es;
  x_done : forall e r, (done_sends e r es + done_flag c e r)%nat = done_flag c' e r;
  x_commit : commitCh (core_Commitor c) `prefix_of` commitCh (core_Commitor c')
}.

Lemma insts_le_refl (c : core) : insts_le c c.
Proof. intros e r n s Hs. eauto using spb_le_refl. Qed.

Lemma insts_le_eq (c c' : core) : SPbInstances c' = SPbInstances c -> insts_le c c'.
Proof. intros He e r n s Hs. rewrite He. eauto using spb_le_refl. Qed.

Lemma insts_le_trans (c1 c2 c3 : core) : insts_le c1 c2 -> insts_le c2 c3 -> insts_le c1 c3.
Proof.
  intros H1 H2 e r n s Hs. destruct (H1 _ _ _ _ Hs) as (s2 & Hs2 & Hl2).
  destruct (H2 _ _ _ _ Hs2) as (s3 & Hs3 & Hl3). exists s3. split; [done|].
  unfold spb_le in *. tauto.
Qed.

Lemma thread_ok_mono (c c' : core) (t : Thread) :
  insts_le c c' -> thread_ok c t -> thread_ok c' t.
Proof.
  intros Hle (s & Hs & Hpc). destruct (Hle _ _ _ _ Hs) as (s' & Hs' & Hl).
  exists s'. eauto using pc_ok_mono.
Qed.

Lemma ext_trans (k1 k2 : nat) (c1 c2 c3 : core) (es1 es2 : list effect) :
  ext k1 c1 c2 es1 -> ext k2 c2 c3 es2 -> ext (k1 + k2) c1 c3 (es1 ++ es2).
Proof.
  intros [A1 B1 C1 D1 E1 F1 G1 H1] [A2 B2 C2 D2 E2 F2 G2 H2]. split.
  - by eapply insts_le_trans.
  - congruence.
  - congruence.
  - lia.
  - apply Forall_app. split; [|done]. eapply effects_mono; [|done].
    intros t. by apply thread_ok_mono.
  - by apply Forall_app.
  - intros e r. rewrite done_sends_app, <-G2, <-G1. lia.
  - by etrans.
Qed.

(** ** Specifications of commands *)

(** Room for [k] more batches: two at most ever wait in the pool's channel. *)
Definition room (k : nat) (c : core) : Prop := (pool_len c + k <= 2)%nat.

Abbreviation triple := (Triple.triple core_ok room ext).
Abbreviation safe := (Triple.safe core_ok room ext).

Lemma ext_refl (c : core) : ext 0 c c [].
Proof. split; eauto using insts_le_refl. lia. Qed.

Lemma ext_weaken (k k' : nat) (c c' : core) (es : list effect) :
  ext k c c' es -> ext (k + k') c c' es.
Proof. intros [A1 A2 A3 A4 A5 A6 A7 A8]. split; try done. lia. Qed.

#[local] Instance smvba_step_rel : StepRel core_ok room ext.
Proof.
  split; unfold room; intros.
  - apply ext_refl.
  - by eapply ext_trans.
  - by apply ext_weaken.
  - lia.
  - pose proof (x_pool _ _ _ _ H0). lia.
Qed.

(** An update of a field the specifications do not look at. *)
Lemma safe_modify (f : core -> core) :
  (forall c, Name (f c) = Name c /\ core_Committee (f c) = core_Committee c /\
    core_SigService (f c) = core_SigService c /\
    el_committee (core_Elector (f c)) = el_committee (core_Elector c) /\
    Epoch (f c) = Epoch c /\ SPbInstances (f c) = SPbInstances c /\
    HaltFlags (f c) = HaltFlags c /\ TxPool (f c) = TxPool c /\
    (forall e r, lookup2 (DoneFlags (f c)) e r = lookup2 (DoneFlags c) e r) /\
    core_Commitor (f c) = core_Commitor c) ->
  safe (modify f).
Proof.
  intros H. apply triple_modify. intros c [A1 A2 A3 A4 A5 A6] _.
  destruct (H c) as (H1 & H2 & H3 & H4 & H5 & H6 & H7 & H8 & H9 & H10). split_and!; [| |done].
  - split; rewrite ?H1, ?H2, ?H3, ?H4, ?H5, ?H6; done.
  - split; unfold pool_len, done_flag, insts_le; rewrite ?H5, ?H6, ?H7, ?H8, ?H10; try done.
    + apply insts_le_refl.
    + lia.
    + intros e r. by rewrite H9.
Qed.

Lemma safe_emit' (x : effect) :
  (forall c, core_ok c -> eff_ok c x /\ sent_ok x) -> (forall e r, is_done e r x = false) ->
  safe (emit x).
Proof.
  intros Hx Hd. apply safe_emit. intros c Hc. destruct (Hx c Hc).
  split; eauto using insts_le_refl; [lia|]. intros e r. unfold done_sends.
  rewrite filter_cons, Hd. done.
Qed.

(** ** Messages of the node *)

Definition own (m : Message) : Prop :=
  msg_author m = Some (s_name st) /\ Verify (s_com st) m = Ret true /\ in_int64 (msg_epoch m) /\
  (forall p, m = MSPBProposal p -> proposal_wf p).

Lemma own_event (m : Message) : own m -> event_ok (s_com st) m.
Proof using Hst.
  intros (Ha & _ & He & Hp). split_and!; [|done..]. exists (s_name st). split; [done|].
  apply st_member, Hst.
Qed.

Lemma safe_to_recvCh (m : Message) : own m -> safe (to_recvCh m).
Proof using Hst. intros Hm. apply safe_emit'; [|done]. intros c _. split; [by apply own_event|done]. Qed.

Lemma safe_Send_all (m : Message) : own m -> (forall d, m <> MDone d) -> safe (Send_all m).
Proof using Hst.
  intros (Ha & Hv & _) Hd. apply safe_get. intros c Hc. rewrite (co_name _ Hc).
  apply safe_emit'; [done|]. intros e r. destruct m; try done. by edestruct Hd.
Qed.

Lemma safe_broadcast (m : Message) : own m -> (forall d, m <> MDone d) -> safe (broadcast m).
Proof using Hst. intros. apply safe_bind; [by apply safe_Send_all|]. intros _. by apply safe_to_recvCh. Qed.

(** Run a constructor and keep what is known of its message. *)
Ltac own_sign :=
  match goal with
  | |- context [RequestSignature ?srv ?h] =>
      let Hs := fresh "Hs" in let Hv := fresh "Hv" in let sig := fresh "sig" in
      destruct (sign_with_name srv _ _ (st_srv _ Hst) h) as (sig & Hs & Hv); rewrite Hs;
      eexists; split; [reflexivity|]; split_and!; [reflexivity|exact Hv|assumption|try done]
  end.

Lemma NewSPBProposal_own B e r ph :
  in_int64 e -> (ph = SPB_ONE_PHASE -> is_Some B) ->
  exists p, NewSPBProposal (s_srv st) (s_name st) B e r ph = Ret p /\ own (MSPBProposal p).
Proof using Hst Ed25519Laws0.
  intros He Hb. unfold NewSPBProposal. own_sign. intros p [= <-]. exact Hb.
Qed.

Lemma NewDone_own e r :
  in_int64 e -> exists d, NewDone (s_srv st) (s_name st) e r = Ret d /\ own (MDone d).
Proof using Hst Ed25519Laws0. intros He. unfold NewDone. own_sign. Qed.

Lemma NewElectShare_own e r :
  in_int64 e -> exists s, NewElectShare (s_srv st) (s_name st) e r = Ret (Some s) /\
    own (MElectShare s).
Proof using Hst.
  intros He. unfold NewElectShare, RequestTsSugnature, sig_serve. cbn.
  match goal with |- context [tbls_Sign ?sh ?m] => destruct (st_tbls _ Hst sh m) as [s Hs] end.
  rewrite Hs. cbn. eexists. split; [reflexivity|]. by split_and!.
Qed.

Lemma NewPrevote_own l e r fl d :
  in_int64 e -> exists p, NewPrevote (s_srv st) (s_name st) l e r fl d = Ret p /\ own (MPrevote p).
Proof using Hst Ed25519Laws0. intros He. unfold NewPrevote. own_sign. Qed.

Lemma NewFinVote_own l e r fl d :
  in_int64 e -> exists f, NewFinVote (s_srv st) (s_name st) l e r fl d = Ret f /\ own (MFinVote f).
Proof using Hst Ed25519Laws0. intros He. unfold NewFinVote. own_sign. Qed.

Lemma NewHalt_own l d e r :
  in_int64 e -> exists h, NewHalt (s_srv st) (s_name st) l d e r = Ret h /\ own (MHalt h).
Proof using Hst Ed25519Laws0. intros He. unfold NewHalt. own_sign. Qed.

(** ** Helpers of the core *)

Lemma safe_messgaeFilter (e : Z) : safe (messgaeFilter e).
Proof. apply safe_gets. Qed.

Lemma safe_storeBlock (b : option Block) : is_Some b -> safe (storeBlock b).
Proof.
  intros [b' ->]. unfold storeBlock. destruct (Block_Encode b'); [|apply safe_ret].
  apply safe_get. intros c _. destruct (Store_Write _ _ _). apply safe_bind; [|intros; apply safe_ret].
  by apply safe_modify.
Qed.

Lemma safe_getBlock (d : Digest) : safe (getBlock d).
Proof.
  unfold getBlock. apply safe_get. intros c _. destruct (Store_Read _ _) as [? [? err]].
  apply safe_bind; [by apply safe_modify|]. intros _.
  destruct err as [[]|]; try apply safe_ret. destruct (Block_Decode _); apply safe_ret.
Qed.

Lemma safe_hasReady (e r : Z) : safe (hasReady e r).
Proof.
  unfold hasReady. apply safe_get. intros c _. destruct (ReadyFlags c !! e); [apply safe_ret|].
  apply safe_bind; [by apply safe_modify|]. intros _. apply safe_ret.
Qed.

Lemma safe_set_elector (e' : Elector) :
  el_committee e' = s_com st -> safe (modify (fun c : core => c <| core_Elector := e' |>)).
Proof.
  intros He. apply triple_modify. intros c [] _. split_and!; [by split| |done].
  split; try done; [by apply insts_le_eq|unfold pool_len; cbn; lia].
Qed.

Lemma safe_Elector_Leader (e r : Z) : safe (Elector_Leader e r).
Proof.
  unfold Elector_Leader. apply safe_get. intros c Hc. unfold Leader.
  apply safe_bind; [|intros; apply safe_ret]. apply safe_set_elector. apply (co_elector _ Hc).
Qed.

(** A change of the pool alone. *)
Lemma ext_pool (k : nat) (c : core) (p : Pool) :
  (length (batchChannel (p_queue p)) <= pool_len c + k)%nat ->
  core_ok c -> core_ok (c <| TxPool := p |>) /\ ext k c (c <| TxPool := p |>) [].
Proof. intros Hl []. split; [by split|]. split; try done; by apply insts_le_eq. Qed.

Lemma safe_generatorBlock (e : Z) : safe (generatorBlock e).
Proof.
  intros c Hc Hp _. unfold generatorBlock. wp_steps.
  destruct (pool_get_some (TxPool c)) as [[b p] Hg].
  rewrite Hg. wp_steps. apply pool_get_len in Hg.
  destruct (ext_pool 0 c p) as [H1 H2]; [unfold pool_len; lia|done|]. by split_and!.
Qed.

Lemma safe_Commitor_Commit (b : option Block) : is_Some b -> safe (Commitor_Commit b).
Proof.
  intros [b' ->] c Hc Hp _. unfold Commitor_Commit. wp_steps.
  destruct (smvba_Commit_returns (core_Commitor c) b') as [c' Hr]. rewrite Hr. wp_steps.
  pose proof (smvba_Commit_prefix _ _ _ Hr). destruct Hc. split_and!; [by split| |done].
  split; try done; [by apply insts_le_eq|unfold pool_len; cbn; lia].
Qed.

Lemma safe_propose (b : Block) (e r : Z) : in_int64 e -> safe (propose (Some b) e r).
Proof using Hst Ed25519Laws0.
  intros He. unfold propose. apply safe_get. intros c Hc. rewrite (co_name _ Hc), (co_srv _ Hc).
  destruct (NewSPBProposal_own (Some b) e r SPB_ONE_PHASE He) as (p & Hp & Hown); [by eexists|].
  eapply safe_lift; [exact Hp|]. by apply safe_broadcast.
Qed.

(** The instance a lookup returns is in the map. *)
Lemma triple_getSpbInstance (I : core -> Prop) (e r : Z) (n : NodeID) :
  in_int64 e ->
  triple 0 I (getSpbInstance e r n) (fun s c => lookup3 (SPbInstances c) e r n = Some s).
Proof.
  intros He c Hc Hp Hi. unfold getSpbInstance. wp_steps.
  destruct (lookup3 (SPbInstances c) e r n) as [s|] eqn:El; wp_steps.
  - auto using ext_refl.
  - split_and!; [| |cbn; by autorewrite with nested].
    + destruct Hc as [? ? ? ? ? Hs]. split; try done. cbn. intros e' r' n' s'.
      rewrite lookup3_insert3. case_decide as Hd; [|by apply Hs].
      destruct Hd as (<- & <- & <-). intros [= <-]. by split.
    + split; try done; [|unfold pool_len; cbn; lia]. intros e' r' n' s' Hs'. cbn.
      rewrite lookup3_insert3_ne by naive_solver. eauto using spb_le_refl.
Qed.

Lemma safe_getSpbInstance (e r : Z) (n : NodeID) : in_int64 e -> safe (getSpbInstance e r n).
Proof. intros He. eapply triple_conseq; [by apply (triple_getSpbInstance (fun _ => True))|done..]. Qed.

(** Look up an instance and start a goroutine on it. *)
Lemma safe_getSpbInstance_go (e r : Z) (n : NodeID) (pc : spb_pc) :
  in_int64 e -> (forall s, pc_ok s pc) ->
  safe (_ ← getSpbInstance e r n; _ ← go e r n pc; mret (@None error)).
Proof.
  intros He Hpc. apply (triple_bind 0 0 _ _ _ (fun s c => lookup3 (SPbInstances c) e r n = Some s)).
  { by apply triple_getSpbInstance. }
  intros s c Hc Hp Hs. unfold go. wp_steps. split_and!; [done| |done].
  split; eauto using insts_le_refl; [lia| |].
  - repeat constructor. cbn. exists s. split; [exact Hs|]. apply Hpc.
  - by repeat constructor.
Qed.

(** ** Handlers *)

Lemma safe_handleSpbProposal (p : SPBProposal) :
  in_int64 (SPBProposal_Epoch p) -> proposal_wf p -> safe (handleSpbProposal p).
Proof.
  intros He Hp. unfold handleSpbProposal. apply safe_bind.
  - case_bool; [|apply safe_ret]. apply safe_get. intros c _. case_bool_decide; [|apply safe_ret].
    apply safe_bind; [apply safe_Elector_Leader|]. intros leader.
    case_bool; [|apply safe_ret]. by apply safe_Commitor_Commit, Hp.
  - intros _. apply safe_bind; [apply safe_messgaeFilter|]. intros [|]; [apply safe_ret|].
    apply safe_bind; [case_bool; [by apply safe_storeBlock, Hp|apply safe_ret]|].
    intros [err|]; [apply safe_ret|]. by apply safe_getSpbInstance_go.
Qed.

Lemma safe_handleSpbVote (v : SPBVote) : in_int64 (SPBVote_Epoch v) -> safe (handleSpbVote v).
Proof.
  intros He. unfold handleSpbVote. apply safe_bind; [apply safe_messgaeFilter|].
  intros [|]; [apply safe_ret|]. by apply safe_getSpbInstance_go.
Qed.

(** The Done of (epoch, round) is sent when its flag is not set, and sets it. *)
Lemma safe_invokeDoneAndShare (e r : Z) : in_int64 e -> safe (invokeDoneAndShare e r).
Proof using Hst Ed25519Laws0.
  intros He. unfold invokeDoneAndShare. apply (triple_bind 0 0 _ _ _
    (fun b c => b = false -> lookup2 (DoneFlags c) e r = None)).
  { intros c Hc Hp _. unfold hasDone. wp_steps. destruct (DoneFlags c !! e) as [items|] eqn:Ei;
      wp_steps.
    - split_and!; [done|apply ext_refl|]. unfold has, lookup2. rewrite Ei. cbn.
      case_bool_decide as Hh; [done|]. intros _. by apply eq_None_not_Some.
    - assert (forall e' r', lookup2 (<[e := ∅]> (DoneFlags c)) e' r' = lookup2 (DoneFlags c) e' r')
        as Heq.
      { intros. rewrite <-(lookup2_ensure (DoneFlags c) e). unfold ensure. by rewrite Ei. }
      destruct Hc. split_and!; [by split| |].
      + split; try done; [by apply insts_le_eq|unfold pool_len; cbn; lia|].
        intros e' r'. unfold done_flag. cbn. by rewrite Heq.
      + intros _. cbn. rewrite Heq. unfold lookup2. by rewrite Ei. }
  intros [|]; [by apply triple_conseq with (I' := fun _ => True) (Q' := fun _ _ => True);
    [apply safe_bind; intros; apply safe_ret|..]|].
  intros c Hc Hp Hno. specialize (Hno eq_refl). unfold Send_all, to_recvCh. wp_steps.
  rewrite (co_name _ Hc), (co_srv _ Hc).
  destruct (NewDone_own e r He) as (d & Hd & Hown).
  destruct (NewElectShare_own e r He) as (sh & Hsh & Hown').
  rewrite Hd. wp_steps. rewrite Hsh. wp_steps. cbn [app share_msg].
  pose proof Hown as (Ha & Hv & _). pose proof Hown' as (Ha' & Hv' & _).
  unfold NewDone in Hd. destruct (RequestSignature _ _); [|done]. injection Hd as <-.
  pose proof (co_name _ Hc) as Hn. destruct Hc. split_and!; [by split| |done]. split; try done.
  - by apply insts_le_eq.
  - unfold pool_len. cbn. lia.
  - rewrite !Forall_cons. split_and!; [done|done|by apply own_event|by apply own_event|].
    by apply Forall_nil.
  - rewrite !Forall_cons. split_and!; [by rewrite Hn|by rewrite Hn|done|done|]. by apply Forall_nil.
  - intros e' r'. unfold done_flag. cbn [DoneFlags set_field]. rewrite lookup2_insert2.
    unfold done_sends. rewrite !filter_cons. cbn [is_done].
    destruct (decide (e = e' /\ r = r')) as [[<- <-]|Hd].
    + rewrite Hno. cbn. by rewrite !Z.eqb_refl.
    + assert ((e =? e') && (r =? r') = false) as Hb
        by (destruct (Z.eqb_spec e e'), (Z.eqb_spec r r'); naive_solver).
      cbn in *. rewrite Hb. done.
Qed.

Lemma safe_handleFinish (f : Finish) : in_int64 (Finish_Epoch f) -> safe (handleFinish f).
Proof using Hst Ed25519Laws0.
  intros He. unfold handleFinish. apply safe_bind; [apply safe_messgaeFilter|].
  intros [|]; [apply safe_ret|]. apply safe_get. intros c _.
  destruct (AddFinishVote _ _) as [agg [flag err]]. apply safe_bind; [by apply safe_modify|].
  intros _. destruct err; [apply safe_ret|]. apply safe_bind; [by apply safe_modify|].
  intros _. destruct flag; [by apply safe_invokeDoneAndShare|apply safe_ret].
Qed.

(** A locked instance has a block hash: [panic("block hash is nil")] is dead. *)
Lemma triple_prevote_for (e r : Z) (leader : NodeID) :
  in_int64 e ->
  triple 0 (fun _ => True) (prevote_for e r leader) (fun p _ => own (MPrevote p)).
Proof using Hst Ed25519Laws0.
  intros He. unfold prevote_for. apply triple_get. intros c0 Hc0 _.
  rewrite (co_name _ Hc0), (co_srv _ Hc0).
  apply (triple_bind 0 0 _ _ _ (fun s c => lookup3 (SPbInstances c) e r leader = Some s)).
  { by apply triple_getSpbInstance. }
  intros s. apply triple_pre. intros c1 Hc1 Hs. unfold IsLock, GetBlockHash.
  destruct (co_spb _ Hc1 _ _ _ _ Hs) as [Hok _]. destruct (LockFlag s) eqn:El.
  - destruct (so_lock _ _ _ _ Hok El) as [h ->].
    destruct (NewPrevote_own leader e r VOTE_FLAG_YES h He) as (p & Hp & Hown).
    eapply triple_lift; [exact Hp|]. by apply triple_ret.
  - destruct (NewPrevote_own leader e r VOTE_FLAG_NO Digest0 He) as (p & Hp & Hown).
    eapply triple_lift; [exact Hp|]. by apply triple_ret.
Qed.

Lemma safe_processLeader (e r : Z) : in_int64 e -> safe (processLeader e r).
Proof using Hst Ed25519Laws0.
  intros He. unfold processLeader. apply safe_bind; [apply safe_Elector_Leader|]. intros _.
  apply safe_bind; [apply safe_hasReady|]. intros ready.
  apply safe_bind; [|intros; apply safe_ret]. destruct ready; [|apply safe_ret].
  apply safe_bind; [apply safe_Elector_Leader|]. intros leader. case_bool; [apply safe_ret|].
  apply safe_bind; [apply safe_gets|]. intros [[] d].
  - apply safe_get. intros c Hc. rewrite (co_name _ Hc), (co_srv _ Hc).
    destruct (NewHalt_own leader d e r He) as (h & Hh & Hown).
    eapply safe_lift; [exact Hh|]. by apply safe_broadcast.
  - apply (triple_bind 0 0 _ _ _ (fun p _ => own (MPrevote p))); [by apply triple_prevote_for|].
    intros p. apply triple_pre. intros c _ Hown. by apply safe_triple, safe_broadcast.
Qed.

Lemma safe_handleDone (d : Done) : in_int64 (Done_Epoch d) -> safe (handleDone d).
Proof using Hst Ed25519Laws0.
  intros He. unfold handleDone. apply safe_bind; [apply safe_messgaeFilter|].
  intros [|]; [apply safe_ret|]. apply safe_get. intros c _.
  destruct (AddDoneVote _ _) as [agg [flag err]]. apply safe_bind; [by apply safe_modify|].
  intros _. destruct err; [apply safe_ret|]. case_bool; [by apply safe_invokeDoneAndShare|].
  case_bool; [|apply safe_ret]. apply safe_bind; [by apply safe_modify|].
  intros _. by apply safe_processLeader.
Qed.

Lemma safe_handleElectShare (sh : ElectShare) :
  in_int64 (ElectShare_Epoch sh) -> safe (handleElectShare sh).
Proof using Hst Ed25519Laws0 KyberLaws0.
  intros He. unfold handleElectShare. apply safe_bind; [apply safe_messgaeFilter|].
  intros [|]; [apply safe_ret|]. apply safe_get. intros c Hc.
  destruct (AddShareVote_spec (core_Elector c) sh) as (e' & node & Hr & Hcom & _).
  { rewrite (co_elector _ Hc). by eapply committee_pos, st_member. }
  eapply safe_lift; [exact Hr|]. apply safe_bind.
  { apply safe_set_elector. by rewrite Hcom, (co_elector _ Hc). }
  intros _. case_bool; [apply safe_ret|].
  apply safe_bind; [by apply safe_processLeader|]. intros _. apply safe_ret.
Qed.

Lemma safe_handlePrevote (pv : Prevote) : in_int64 (Prevote_Epoch pv) -> safe (handlePrevote pv).
Proof using Hst Ed25519Laws0.
  intros He. unfold handlePrevote. apply safe_bind; [apply safe_messgaeFilter|].
  intros [|]; [apply safe_ret|]. apply safe_get. intros c Hc.
  destruct (AddPreVote _ _) as [agg [flag err]]. apply safe_bind; [by apply safe_modify|].
  intros _. destruct err; [apply safe_ret|]. cbn zeta. rewrite (co_name _ Hc), (co_srv _ Hc).
  assert (forall fl, safe (v ← lift_outcome (NewFinVote (s_srv st) (s_name st) (Prevote_Leader pv)
    (Prevote_Epoch pv) (Prevote_Round pv) fl (Prevote_BlockHash pv)); _ ← broadcast (MFinVote v);
    mret (@None error))) as Hv.
  { intros fl. destruct (NewFinVote_own (Prevote_Leader pv) (Prevote_Epoch pv) (Prevote_Round pv)
      fl (Prevote_BlockHash pv) He) as (v & Hv & Hown).
    eapply safe_lift; [exact Hv|]. apply safe_bind; [by apply safe_broadcast|]. intros.
    apply safe_ret. }
  case_bool; [apply Hv|]. case_bool; [apply Hv|apply safe_ret].
Qed.

Lemma safe_advanceNextRound (e r fl : Z) (h : Digest) :
  in_int64 e -> safe (advanceNextRound e r fl h).
Proof using Hst Ed25519Laws0.
  intros He. unfold advanceNextRound. apply safe_bind; [apply safe_messgaeFilter|].
  intros [|]; [apply safe_ret|]. apply safe_bind.
  { unfold next_hash. case_bool; [|apply safe_ret]. apply safe_get. intros c _.
    apply safe_bind; [by apply safe_getSpbInstance|]. intros s. apply safe_ret. }
  intros hash. apply safe_bind; [apply safe_getBlock|]. intros [block err].
  destruct err; [apply safe_ret|]. apply safe_bind.
  { destruct block; [apply safe_ret|apply safe_generatorBlock]. }
  intros b. apply safe_bind; [by apply safe_propose|]. intros _. apply safe_ret.
Qed.

Lemma safe_handleFinvote (fv : FinVote) : in_int64 (FinVote_Epoch fv) -> safe (handleFinvote fv).
Proof using Hst Ed25519Laws0.
  intros He. unfold handleFinvote. apply safe_bind; [apply safe_messgaeFilter|].
  intros [|]; [apply safe_ret|]. apply safe_get. intros c Hc.
  destruct (AddFinVote _ _) as [agg [flag err]]. apply safe_bind; [by apply safe_modify|].
  intros _. destruct err; [apply safe_ret|].
  case_bool; [by apply safe_advanceNextRound|]. case_bool; [by apply safe_advanceNextRound|].
  case_bool; [|apply safe_ret]. rewrite (co_name _ Hc), (co_srv _ Hc).
  destruct (NewHalt_own (FinVote_Leader fv) (FinVote_BlockHash fv) (FinVote_Epoch fv)
    (FinVote_Round fv) He) as (h & Hh & Hown).
  eapply safe_lift; [exact Hh|]. apply safe_bind; [by apply safe_broadcast|]. intros _.
  apply safe_ret.
Qed.

(** ** Output and the next epoch *)

Lemma triple_returnBatch (e : Z) :
  in_int64 e -> triple 1 (fun _ => True) (returnBatch e) (fun _ _ => True).
Proof.
  intros He. unfold returnBatch. apply triple_get. intros c0 _ _.
  apply (triple_bind 0 1 _ _ _ (fun _ _ => True)); [by apply safe_triple, safe_getSpbInstance|].
  intros s. destruct (GetBlockHash s) as [h|]; [|apply safe_weaken, safe_ret].
  apply (triple_bind 0 1 _ _ _ (fun _ _ => True)); [apply safe_getBlock|]. intros [b err].
  destruct err; [apply safe_weaken, safe_ret|]. destruct b as [b|]; [|apply safe_weaken, safe_ret].
  intros c Hc Hp _. wp_steps. unfold PutBatch, txQueue_put. unfold room, pool_len in Hp.
  rewrite bool_decide_true by (unfold batch_cap; lia). cbn. wp_steps.
  match goal with |- core_ok (c <| TxPool := ?p |>) /\ _ => destruct (ext_pool 1 c p) as [H1 H2] end;
    [cbn; rewrite length_app; cbn; unfold pool_len; lia|done|]. done.
Qed.

Lemma safe_pool {A} (L : nat) (m : M core effect A) :
  safe m -> triple 0 (fun c => (pool_len c <= L)%nat) m (fun _ c => (pool_len c <= L)%nat).
Proof.
  intros Hm c Hc Hp Hl. eapply wp_mono; [by apply Hm|].
  intros a c' es (H1 & H2 & _). split_and!; [done..|]. pose proof (x_pool _ _ _ _ H2). lia.
Qed.

Lemma triple_true {A} (k : nat) (I : core -> Prop) (m : M core effect A) (Q : A -> core -> Prop) :
  triple k (fun _ => True) m (fun _ _ => True) -> (forall a c, Q a c) -> triple k I m Q.
Proof. intros Hm HQ. eapply triple_conseq; [exact Hm|done|auto]. Qed.

(** A batch comes back only with a successful output. *)
Lemma triple_handleOutput (L : nat) (e : Z) (h : Digest) :
  in_int64 e ->
  triple 1 (fun c => (pool_len c <= L)%nat) (handleOutput e h)
    (fun err c => is_Some err -> (pool_len c <= L)%nat).
Proof.
  intros He. unfold handleOutput. apply (triple_bind 0 1 _ _ _ (fun _ c => (pool_len c <= L)%nat)).
  { apply safe_pool, safe_getBlock. }
  intros [b err]. destruct err as [err|].
  { by apply triple_ret_weaken; intros. }
  assert (forall m : M core effect (option error), triple 1 (fun _ => True) m (fun e _ => e = None) ->
    triple 1 (fun c => (pool_len c <= L)%nat) m (fun e c => is_Some e -> (pool_len c <= L)%nat)) as Hno.
  { intros m Hm. eapply triple_conseq; [exact Hm|done|]. intros a c -> [? ?]. done. }
  apply Hno. destruct b as [b|].
  2:{ by apply triple_ret_weaken. }
  apply (triple_bind 0 1 _ _ _ (fun _ _ => True)); [by apply safe_triple, safe_Commitor_Commit|].
  intros _. apply triple_get. intros c0 _ _. apply (triple_bind 1 0 _ _ _ (fun _ _ => True)).
  - destruct (negb _); [|apply safe_weaken, safe_ret].
    eapply triple_conseq; [by apply triple_returnBatch|done..].
  - intros _. by apply triple_ret.
Qed.

(** Batches wait in the channel only when the last epoch was halted, after which
    the counter of epochs would wrap. *)
Definition pool_inv (c : core) : Prop :=
  (pool_len c <= if decide (last_epoch ∈ HaltFlags c) then 1 else 0)%nat.

(** Halted epochs are over. *)
Definition halt_inv (c : core) : Prop :=
  forall e, e ∈ HaltFlags c -> e < Epoch c \/ e = last_epoch.

(** What any step of the node does to the core. *)
Record adv (c c' : core) (es : list effect) : Prop := {
  a_insts : insts_le c c';
  a_epoch : Epoch c <= Epoch c';
  a_halt : HaltFlags c ⊆ HaltFlags c';
  a_eff : Forall (eff_ok c') es;
  a_sent : Forall sent_ok es;
  a_done : forall e r, (done_sends e r es + done_flag c e r)%nat = done_flag c' e r;
  a_commit : commitCh (core_Commitor c) `prefix_of` commitCh (core_Commitor c')
}.

Lemma ext_adv (k : nat) (c c' : core) (es : list effect) : ext k c c' es -> adv c c' es.
Proof. intros [A1 A2 A3 A4 A5 A6 A7 A8]. split; try done; [lia|by rewrite A3]. Qed.

Lemma adv_trans (c1 c2 c3 : core) (es1 es2 : list effect) :
  adv c1 c2 es1 -> adv c2 c3 es2 -> adv c1 c3 (es1 ++ es2).
Proof.
  intros [A1 B1 C1 D1 E1 F1 G1] [A2 B2 C2 D2 E2 F2 G2]. split.
  - by eapply insts_le_trans.
  - lia.
  - by etrans.
  - apply Forall_app. split; [|done]. eapply effects_mono; [|done].
    intros t. by apply thread_ok_mono.
  - by apply Forall_app.
  - intros e r. rewrite done_sends_app, <-F2, <-F1. lia.
  - by etrans.
Qed.

(** The invariant of the core between two steps. *)
Record inv (c : core) : Prop := {
  i_core : core_ok c;
  i_pool : pool_inv c;
  i_halt : halt_inv c
}.

(** [m] may be run from any state of the invariant. *)
Definition advances {A : Type} (m : M core effect A) : Prop :=
  forall c, inv c -> wp False m c (fun _ c' es => inv c' /\ adv c c' es).

Lemma safe_advances {A} (m : M core effect A) : safe m -> advances m.
Proof.
  intros Hm c [Hc Hp Hh]. eapply wp_mono; [apply Hm; [done| |done]|].
  { unfold room, pool_inv in *. case_decide; lia. }
  intros a c' es (Hc' & Hx & _). split; [|by eapply ext_adv].
  destruct Hx as [_ He Hf Hl _ _ _ _]. split; [done|..].
  - unfold pool_inv in *. rewrite Hf. lia.
  - unfold halt_inv in *. by rewrite He, Hf.
Qed.

(** [advanceNextEpoch] takes at most one batch, and one if one waits. *)
Lemma advanceNextEpoch_spec (e : Z) (c : core) :
  core_ok c -> in_int64 e -> (pool_len c <= 2)%nat ->
  wp False (advanceNextEpoch e) c (fun _ c' es => core_ok c' /\ adv c c' es /\
    HaltFlags c' = HaltFlags c /\ Epoch c' = Z.max (Epoch c) e /\
    (pool_len c' <= if decide (e <= Epoch c)%Z then pool_len c else pred (pool_len c))%nat).
Proof using Hst Ed25519Laws0.
  intros Hc He Hp. unfold advanceNextEpoch. apply wp_bind, wp_get. cbn beta. case_bool.
  - wp_steps. rewrite decide_True by lia. split_and!; [done|by eapply ext_adv, ext_refl|done|lia|done].
  - apply wp_bind, wp_modify. set (c1 := c <| Epoch := e |>).
    assert (core_ok c1) as Hc1 by (destruct Hc; by split).
    assert (adv c c1 []) as Ha.
    { split; try done; [by apply insts_le_eq|cbn; lia]. }
    unfold generatorBlock. rewrite wp_bind. wp_steps.
    destruct (pool_get_some (TxPool c1)) as [[b p] Hg].
    rewrite Hg. wp_steps. cbn [app].
    assert (length (batchChannel (p_queue p)) <= pred (pool_len c))%nat as Hlen.
    { revert Hg. unfold pool_len, GetBatch, txQueue_get, c1. cbn [TxPool set_field].
      destruct (batchChannel (p_queue (TxPool c))) as [|b0 rest] eqn:Ec.
      - unfold txQueue_make. rewrite Ec. cbn. intros [= <- <-]. cbn. lia.
      - cbn. intros [= <- <-]. cbn. lia. }
    destruct (ext_pool 0 c1 p) as [Hc2 Hx2]; [unfold pool_len in *; cbn in *; lia|done|].
    eapply wp_mono; [apply (safe_propose (NewBlock (Name c1) b e) e 0 He _ Hc2);
      [unfold room, pool_len in *; cbn in *; lia|done]|].
    intros _ c3 es (Hc3 & Hx3 & _). cbn [app].
    split_and!; [done| |by rewrite (x_halt _ _ _ _ Hx3)|rewrite (x_epoch _ _ _ _ Hx3); cbn; lia|].
    + apply (adv_trans c c1 c3 []); [done|]. apply (adv_trans c1 (c1 <| TxPool := p |>) c3 [] es);
        by eapply ext_adv.
    + rewrite decide_False by lia. pose proof (x_pool _ _ _ _ Hx3) as Hl.
      unfold pool_len in *. cbn in *. lia.
Qed.

Lemma output_spec (h : Halt) (c : core) :
  in_int64 (Halt_Epoch h) -> core_ok c -> (pool_len c <= 1)%nat ->
  wp False (_ ← modify (fun c : core => c <| core_Elector :=
      SetLeader (core_Elector c) (Halt_Epoch h) (Halt_Round h) (Halt_Leader h) |>);
      handleOutput (Halt_Epoch h) (Halt_BlockHash h)) c
    (fun err c' es => core_ok c' /\ ext 1 c c' es /\
       (is_Some err -> (pool_len c' <= pool_len c)%nat)).
Proof.
  intros He Hc Hp. apply (triple_bind 0 1 (fun c' => (pool_len c' <= pool_len c)%nat) _ _
    (fun _ c' => (pool_len c' <= pool_len c)%nat)); try done; [|intros _|unfold room; lia].
  - apply safe_pool. by apply safe_modify.
  - by apply triple_handleOutput.
Qed.

(** After a successful output of a new epoch. *)
Lemma halt_finish (h : Halt) (c c1 : core) (es1 : list effect) :
  in_int64 (Halt_Epoch h) -> inv c -> Epoch c <= Halt_Epoch h -> Halt_Epoch h ∉ HaltFlags c ->
  core_ok c1 -> ext 1 c c1 es1 ->
  wp False (advanceNextEpoch (int64 (Halt_Epoch h + 1)))
    (c1 <| HaltFlags := {[Halt_Epoch h]} ∪ HaltFlags c1 |>)
    (fun _ c' es => inv c' /\ adv c c' (es1 ++ es)).
Proof using Hst Ed25519Laws0 KyberLaws0.
  intros He [Hc Hp Hh] Hge Hf Hc1 Hx1. pose proof Hx1 as [_ Hep Hhf Hpl _ _ _ _].
  set (c2 := c1 <| HaltFlags := {[Halt_Epoch h]} ∪ HaltFlags c1 |>).
  assert (core_ok c2) as Hc2 by (destruct Hc1; by split).
  assert (adv c1 c2 []) as Ha2 by (split; try done; [by apply insts_le_eq|cbn; set_solver]).
  assert (HaltFlags c2 = {[Halt_Epoch h]} ∪ HaltFlags c) as Hhf2 by (cbn; by rewrite Hhf).
  unfold pool_inv in Hp. eapply wp_mono; [apply (advanceNextEpoch_spec _ c2 Hc2)|].
  - apply int64_range.
  - unfold pool_len in *. cbn. case_decide; lia.
  - intros _ c3 es3 (Hc3 & Ha3 & Hhf3 & Hep3 & Hl3). split.
    2:{ apply (adv_trans c c1 c3); [by eapply ext_adv|]. by apply (adv_trans c1 c2 c3 [] es3). }
    assert (pool_len c2 = pool_len c1) as Hpl2 by done.
    assert (Epoch c2 = Epoch c) as Hep2 by done. rewrite Hpl2, Hep2 in *.
    destruct (decide (Halt_Epoch h = last_epoch)) as [Hlast|Hne].
    + assert (int64 (Halt_Epoch h + 1) = - 2 ^ 63) as Hw by (rewrite Hlast; by vm_compute).
      rewrite Hw in *. pose proof (co_epoch _ Hc) as [Hlo _].
      rewrite decide_True in Hl3 by lia. rewrite decide_False in Hp by by rewrite <-Hlast.
      split; [done|..].
      * unfold pool_inv. rewrite decide_True by (rewrite Hhf3, Hhf2, Hlast; set_solver). lia.
      * intros e. rewrite Hhf3, Hhf2, Hep3, elem_of_union, elem_of_singleton.
        intros [->|Hin%Hh]; [by right|]. lia.
    + rewrite (int64_next _ He Hne) in *. rewrite decide_False in Hl3 by lia.
      split; [done|..].
      * unfold pool_inv. rewrite Hhf3, Hhf2.
        assert (last_epoch ∈ {[Halt_Epoch h]} ∪ HaltFlags c <-> last_epoch ∈ HaltFlags c) as Hiff
          by set_solver.
        rewrite (decide_ext _ _ _ _ Hiff). case_decide; lia.
      * intros e. rewrite Hhf3, Hhf2, Hep3, elem_of_union, elem_of_singleton.
        intros [->|Hin%Hh]; lia.
Qed.

Lemma advances_handleHalt (h : Halt) : in_int64 (Halt_Epoch h) -> advances (handleHalt h).
Proof using Hst Ed25519Laws0 KyberLaws0.
  intros He c Hinv. pose proof Hinv as [Hc Hp Hh]. unfold handleHalt, messgaeFilter.
  rewrite wp_bind, wp_gets. cbn beta.
  destruct (Z.ltb_spec (Halt_Epoch h) (Epoch c)) as [Hlt|Hge].
  { rewrite wp_ret. split; [done|]. eapply ext_adv, ext_refl. }
  rewrite wp_bind, wp_get. cbn beta. case_bool_decide as Hf.
  { rewrite wp_ret. split; [done|]. eapply ext_adv, ext_refl. }
  pose proof (output_spec h c He Hc) as Hout. rewrite wp_bind in Hout. rewrite wp_bind.
  rewrite wp_modify in *. rewrite wp_bind. cbn beta in *.
  eapply wp_mono; [apply Hout; unfold room, pool_inv in *; case_decide; lia|]. cbn beta.
  intros err c1 es1 (Hc1 & Hx1 & Herr). cbn [app] in *. destruct err as [err|].
  - rewrite wp_ret. rewrite app_nil_r. split; [|by eapply ext_adv].
    pose proof Hx1 as [_ Hep Hhf _ _ _ _ _]. specialize (Herr ltac:(by eexists)).
    split; [done|..]; unfold pool_inv, halt_inv in *; rewrite Hhf, ?Hep; [lia|done].
  - rewrite wp_bind, wp_modify. cbn beta. rewrite wp_bind.
    eapply wp_mono; [by apply (halt_finish h c c1 es1)|]. cbn beta. intros _ c3 es3 [H1 H2].
    rewrite wp_ret. cbn [app]. by rewrite app_nil_r.
Qed.

(** ** The steps of a node *)

Lemma advances_dispatch (m : Message) : event_ok (s_com st) m -> advances (dispatch m).
Proof using Hst Ed25519Laws0 KyberLaws0.
  intros ((a & Ha & Hm) & He & Hp). destruct m; cbn in *; try done.
  - apply safe_advances. by apply safe_handleSpbProposal, Hp.
  - by apply safe_advances, safe_handleSpbVote.
  - by apply safe_advances, safe_handleFinish.
  - by apply safe_advances, safe_handleDone.
  - by apply safe_advances, safe_handleElectShare.
  - by apply safe_advances, safe_handlePrevote.
  - by apply safe_advances, safe_handleFinvote.
  - by apply advances_handleHalt.
Qed.

Lemma advances_handle (m : Message) (c : core) :
  event_ok (s_com st) m -> inv c ->
  wp False (handle m) c (fun t c' es => inv c' /\ adv c c' es /\ t = None).
Proof using Hst Ed25519Laws0 KyberLaws0.
  intros Hm Hinv. unfold handle, handle_msg. rewrite wp_bind, wp_bind, wp_get. cbn beta.
  rewrite wp_bind, wp_lift, (co_com _ (i_core _ Hinv)).
  pose proof Hm as ((a & Ha & Hin) & _ & _).
  destruct (Verify_member (s_com st) m a (st_keys _ Hst) Ha Hin) as [[|] ->].
  - eapply wp_mono; [by apply advances_dispatch|]. cbn beta. intros _ c' es [H1 H2].
    rewrite wp_ret. cbn [app]. by rewrite app_nil_r.
  - rewrite !wp_ret. cbn [app]. split_and!; [done| |done]. eapply ext_adv, ext_refl.
Qed.

(** A goroutine's step: [ext] of the core, and the goroutine goes on knowing
    what it needs. *)
Lemma tstep_spec (t : Thread) (c : core) :
  core_ok c -> thread_ok c t ->
  wp False (tstep t) c (fun t' c' es => core_ok c' /\ ext 0 c c' es /\
    (forall t'', t' = Some t'' -> thread_ok c' t'')).
Proof using Hst Ed25519Laws0.
  intros Hc (s & Hs & Hpc). unfold wp, tstep. rewrite Hs.
  destruct (co_spb _ Hc _ _ _ _ Hs) as [Hok Hep].
  rewrite (co_name _ Hc), (co_com _ Hc), (co_srv _ Hc).
  pose proof (spb_step_ok (s_name st) (s_com st) (s_srv st) (t_epoch t) (t_round t)
    (t_node t) (t_pc t) s _ (st_srv _ Hst) Hok Hpc) as Hw. unfold wp in Hw.
  destruct (spb_step _ _ _ _ s) as [[[pc s'] es]|]; [|done].
  destruct Hw as (Hok' & Hle & Heff & Hnext).
  set (c' := c <| SPbInstances := _ |>).
  assert (lookup3 (SPbInstances c') (t_epoch t) (t_round t) (t_node t) = Some s') as Hl'
    by (cbn; by autorewrite with nested).
  rewrite Forall_forall in Heff. split_and!; [|split; try done|].
  - destruct Hc as [? ? ? ? ? Hsp]. split; try done. intros e r n x. cbn. rewrite lookup3_insert3.
    case_decide as Hd; [|by apply Hsp]. destruct Hd as (<- & <- & <-). intros [= <-]. done.
  - intros e r n x Hx. cbn. rewrite lookup3_insert3. case_decide as Hd.
    + destruct Hd as (<- & <- & <-). rewrite Hs in Hx. injection Hx as <-. eauto.
    + eauto using spb_le_refl.
  - unfold pool_len. cbn. lia.
  - apply Forall_forall. intros x Hx. specialize (Heff x Hx).
    destruct x as [f to m|ch m|t1]; cbn in *; [done| |].
    + destruct Heff as (Ha & _ & He & Hph & _). split_and!.
      * exists (s_name st). split; [done|]. apply (st_member _ Hst).
      * by rewrite He.
      * intros p -> Hone. specialize (Hph p eq_refl). rewrite Hph in Hone. done.
    + destruct Heff as (He1 & He2 & He3 & Hp1). unfold thread_ok. rewrite He1, He2, He3.
      exists s'. by split.
  - apply Forall_forall. intros x Hx. specialize (Heff x Hx). destruct x; cbn in *; try done.
    destruct Heff as (-> & Ha & Hv & _). done.
  - intros e r. assert (done_sends e r es = 0%nat) as ->; [|done]. unfold done_sends.
    destruct (filter _ es) as [|x l] eqn:Ef; [done|].
    assert (x ∈ x :: l) as Hx by constructor. rewrite <-Ef in Hx.
    apply list_elem_of_filter in Hx as [Hd Hx]. specialize (Heff x Hx).
    destruct x as [f to []|?|]; try done. destruct Heff as (_ & _ & _ & _ & _ & Hno).
    by edestruct Hno.
  - intros t'' Ht''. destruct pc as [pc|]; [|done]. injection Ht'' as <-. exists s'. auto.
Qed.

(** The invariant with the history of effects. *)
Definition hist_inv (c : core) (log : list effect) : Prop :=
  inv c /\ (forall e r, done_sends e r log = done_flag c e r) /\ Forall sent_ok log.

Lemma adv_hist (c c' : core) (log es : list effect) :
  hist_inv c log -> inv c' -> adv c c' es ->
  step_post hist_inv (event_ok (s_com st)) thread_ok c log c' es.
Proof.
  intros (Hi & Hd & Hs) Hi' [A1 A2 A3 A4 A5 A6 A7]. split_and!; [split_and!|done|].
  - done.
  - intros e r. rewrite done_sends_app, Hd, <-A6. lia.
  - by apply Forall_app.
  - intros t. by apply thread_ok_mono.
Qed.

Lemma inv_ext (c c' : core) (es : list effect) : inv c -> core_ok c' -> ext 0 c c' es -> inv c'.
Proof.
  intros [Hc Hp Hh] Hc' [_ He Hf Hl _ _ _ _]. split; [done|..].
  - unfold pool_inv in *. rewrite Hf. lia.
  - unfold halt_inv in *. by rewrite He, Hf.
Qed.

Lemma handle_ok (m : Message) (c : core) (log : list effect) :
  event_ok (s_com st) m -> hist_inv c log ->
  wp False (handle m) c (fun t' c' es =>
    step_post hist_inv (event_ok (s_com st)) thread_ok c log c' es /\
    (forall t'', t' = Some t'' -> thread_ok c' t'')).
Proof using Hst Ed25519Laws0 KyberLaws0.
  intros Hm Hh. eapply wp_mono; [apply advances_handle; [done|apply Hh]|].
  intros t' c' es (Hi & Ha & ->). split; [by apply adv_hist|done].
Qed.

Lemma tstep_ok (t : Thread) (c : core) (log : list effect) :
  thread_ok c t -> hist_inv c log ->
  wp False (tstep t) c (fun t' c' es =>
    step_post hist_inv (event_ok (s_com st)) thread_ok c log c' es /\
    (forall t'', t' = Some t'' -> thread_ok c' t'')).
Proof using Hst Ed25519Laws0.
  intros Ht Hh. eapply wp_mono; [apply tstep_spec; [apply Hh|done]|].
  intros t' c' es (Hc & Hx & Hn). split; [|done].
  apply adv_hist; [done|eapply inv_ext; [apply Hh|done..]|by eapply ext_adv].
Qed.

(** A new node with an empty pool. *)
Definition boot (params : Parameters) (store : Store db) (pool : PoolParams.t) (N Id : Z) : core :=
  NewCore (s_name st) (s_com st) params (s_srv st) store (NewPool pool N Id).

Lemma boot_inv params store pool N Id : inv (boot params store pool N Id).
Proof.
  split; [split; try done|..].
  - unfold pool_inv. change (pool_len _) with 0%nat. lia.
  - intros e He. cbn in He. by apply elem_of_empty in He.
Qed.

Lemma boot_started params store pool N Id :
  exists n0, started (boot params store pool N Id) n0 /\
    node_ok hist_inv (event_ok (s_com st)) thread_ok n0 /\ sent_inv n0.
Proof using Hst Ed25519Laws0.
  set (c0 := boot params store pool N Id).
  pose proof (boot_inv params store pool N Id) as Hi. fold c0 in Hi.
  assert (advances Run_start) as Hadv.
  { apply safe_advances. unfold Run_start. apply safe_get. intros c Hc.
    apply safe_bind; [apply safe_generatorBlock|]. intros b. apply safe_propose.
    apply (co_epoch _ Hc). }
  specialize (Hadv c0 Hi). unfold wp in Hadv.
  destruct (Run_start c0) as [[[[] c] es]|] eqn:Er; [|done]. destruct Hadv as [Hic Ha].
  exists (start c es). split_and!; [by exists c, es| |apply start_sent].
  apply start_ok; [|by apply (a_eff _ _ _ Ha)]. split_and!; [done| |by apply (a_sent _ _ _ Ha)].
  intros e r. by rewrite <-(a_done _ _ _ Ha), Nat.add_0_r.
Qed.

Lemma started_unique c0 n1 n2 : started (db := db) c0 n1 -> started c0 n2 -> n1 = n2.
Proof. intros (c & es & H1 & ->) (c' & es' & H2 & ->). congruence. Qed.

Lemma reachable_ok params store pool N Id n0 n :
  started (boot params store pool N Id) n0 -> node_reachable (event_ok (s_com st)) n0 n ->
  node_ok hist_inv (event_ok (s_com st)) thread_ok n /\ sent_inv n.
Proof using Hst Ed25519Laws0 KyberLaws0.
  intros H0 Hr. destruct (boot_started params store pool N Id) as (n1 & H1 & Hok & Hsent).
  rewrite (started_unique _ _ _ H0 H1) in Hr. split.
  - eapply node_invariant; [apply handle_ok|apply tstep_ok| |exact Hok|exact Hr]. done.
  - by eapply reachable_sent.
Qed.

End Safety.

(** ** Theorems on every reachable state *)

Section Theorems.
Context {E : Ed25519} {K : Kyber} {db : Type} `{HDB : DB db} {GB : GobBlock}.
Context `{!Ed25519Laws E} `{!KyberLaws K}.

(** C3. A correctly configured node starts, and from then on no step panics or blocks
    for ever on the batch channel: whatever well-formed messages the network
    delivers, with whatever signatures and contents, and however the main loop and
    the broadcast goroutines are interleaved. *)
Theorem smvba_no_crash (st : setting) (params : Parameters) (store : Store db)
    (pool : PoolParams.t) (N Id : Z) :
  setting_ok st ->
  exists n0, started (boot st params store pool N Id) n0 /\
    forall n ch, node_reachable (event_ok (s_com st)) n0 n ->
      allowed (event_ok (s_com st)) ch -> node_step ch n <> Crash.
Proof.
  intros Hst. destruct (boot_started st Hst params store pool N Id) as (n0 & H0 & Hok & _).
  exists n0. split; [done|]. intros n ch Hr Hch.
  eapply (node_no_crash _ _ _ _ _ _ _ (fun _ _ => False));
    [by apply handle_ok|by apply tstep_ok|done|auto|exact Hok|exact Hr|done].
Qed.

(** C21. Every message a node sends in any reachable state is in its own name and
    verifies at every member of the committee. *)
Theorem smvba_sent_verify (st : setting) (params : Parameters) (store : Store db)
    (pool : PoolParams.t) (N Id : Z) n0 n (f t : NodeID) (m : Message) :
  setting_ok st -> started (boot st params store pool N Id) n0 ->
  node_reachable (event_ok (s_com st)) n0 n -> (f, t, m) ∈ n_sent n ->
  f = s_name st /\ msg_author m = Some f /\ Verify (s_com st) m = Ret true.
Proof.
  intros Hst H0 Hr Hin. destruct (reachable_ok st Hst _ _ _ _ _ _ _ H0 Hr) as [Hok Hsent].
  destruct Hok as ((_ & _ & Hlog) & _). eapply sent_in_log in Hin; [|exact Hsent].
  rewrite Forall_forall in Hlog. by apply (Hlog _ Hin).
Qed.

(** In every reachable state a node has sent at most one Done per epoch and
    round, and it has recorded that it did. *)
Theorem smvba_one_done (st : setting) (params : Parameters) (store : Store db)
    (pool : PoolParams.t) (N Id : Z) n0 n (e r : Z) :
  setting_ok st -> started (boot st params store pool N Id) n0 ->
  node_reachable (event_ok (s_com st)) n0 n ->
  (sent_dones e r (n_sent n) <= 1)%nat /\
  ((sent_dones e r (n_sent n) = 1)%nat -> is_Some (lookup2 (DoneFlags (n_core n)) e r)).
Proof.
  intros Hst H0 Hr. destruct (reachable_ok st Hst _ _ _ _ _ _ _ H0 Hr) as [Hok Hsent].
  destruct Hok as ((_ & Hd & _) & _). specialize (Hd e r).
  assert (sent_dones e r (n_sent n) <= done_sends e r (n_log n))%nat as Hle.
  { rewrite done_sends_sends. unfold sent_inv in Hsent. unfold sent_dones. rewrite Hsent.
    rewrite filter_app, length_app. lia. }
  unfold done_flag in Hd. destruct (lookup2 (DoneFlags (n_core n)) e r).
  - split; [lia|by eexists].
  - split; lia.
Qed.

(** In every reachable state, under every interleaving: a broadcast instance
    that is locked has a block hash (so a yes prevote always has one to name), and
    a halted epoch is below the node's epoch. *)
Theorem smvba_lock_and_halt (st : setting) (params : Parameters) (store : Store db)
    (pool : PoolParams.t) (N Id : Z) n0 n :
  setting_ok st -> started (boot st params store pool N Id) n0 ->
  node_reachable (event_ok (s_com st)) n0 n ->
  (forall e r p s, lookup3 (SPbInstances (n_core n)) e r p = Some s -> IsLock s = true ->
     is_Some (GetBlockHash s)) /\
  (forall e, e ∈ HaltFlags (n_core n) -> e < Epoch (n_core n) \/ e = last_epoch).
Proof.
  intros Hst H0 Hr. destruct (reachable_ok st Hst _ _ _ _ _ _ _ H0 Hr) as [Hok _].
  destruct Hok as (([Hc _ Hh] & _) & _). split; [|exact Hh].
  intros e r p s Hs Hl. destruct (co_spb _ _ Hc _ _ _ _ Hs) as [Hs' _]. by apply (so_lock _ _ _ _ Hs').
Qed.

(** No step takes anything back: the epoch does not decrease, halted epochs
    stay halted, and the delivered sequence of blocks only grows at its end. *)
Theorem smvba_step_monotone (st : setting) (params : Parameters) (store : Store db)
    (pool : PoolParams.t) (N Id : Z) n0 n n' ch :
  setting_ok st -> started (boot st params store pool N Id) n0 ->
  node_reachable (event_ok (s_com st)) n0 n -> node_step ch n = Next n' ->
  Epoch (n_core n) <= Epoch (n_core n') /\ HaltFlags (n_core n) ⊆ HaltFlags (n_core n') /\
  commitCh (core_Commitor (n_core n)) `prefix_of` commitCh (core_Commitor (n_core n')).
Proof.
  intros Hst H0 Hr Hs. destruct (reachable_ok st Hst _ _ _ _ _ _ _ H0 Hr) as [Hok _].
  pose proof Hok as ((Hi & _) & _).
  destruct (nstep_core _ _ _ _ _ _ _ _ _ Hok Hs) as [->|[(m & u & es & Hm & Hh)|(t & t' & es & Ht & Hh)]].
  - split_and!; [lia|done..].
  - pose proof (advances_handle st Hst m _ Hm Hi) as Hw. unfold wp in Hw. rewrite Hh in Hw.
    destruct Hw as (_ & [] & _). done.
  - pose proof (tstep_spec st Hst t _ (i_core _ _ Hi) Ht) as Hw. unfold wp in Hw. rewrite Hh in Hw.
    destruct Hw as (_ & Hx & _). apply ext_adv in Hx as []. done.
Qed.

End Theorems.

(** ** Witnesses *)

Section Witness.
Import ToyCrypto ToyNode ToyGob.

(** Node 1 of four, on an empty in-memory database. *)
Definition toy_core : Core (db := gmap bytes bytes) :=
  boot toy_setting DefaultParameters (NewStore ∅) toy_pool 4 1.

Definition toy_start : Node :=
  match Run_start toy_core with
  | Ret (_, c, es) => start c es
  | Panic => start toy_core []
  end.

Lemma toy_started : started toy_core toy_start.
Proof.
  assert (match Run_start toy_core with Ret _ => true | Panic => false end = true) as Hr
    by (vm_compute; reflexivity).
  unfold started, toy_start. by destruct (Run_start toy_core) as [[[[] c] es]|]; [eauto|].
Qed.

Lemma smvba_no_crash_witness :
  exists n0, started toy_core n0 /\
    forall n ch, node_reachable (event_ok (toy_committee 4)) n0 n ->
      allowed (event_ok (toy_committee 4)) ch -> node_step ch n <> Crash.
Proof. apply (smvba_no_crash toy_setting). exact toy_setting_ok. Defined.

(** The first message of the node: its proposal for epoch 0. *)
Definition toy_next : Node :=
  match node_step CMain toy_start with Next n => n | _ => toy_start end.
Lemma toy_next_reachable : node_reachable (event_ok (toy_committee 4)) toy_start toy_next.
Proof.
  eapply reach_step; [apply reach_init|]. exists CMain. split; [done|].
  assert (is_next (node_step CMain toy_start) = true) as Hr by (vm_compute; reflexivity).
  unfold toy_next. change (nstep chan_cap handle tstep) with (node_step (E := toy_ed25519)
    (K := toy_kyber) (db := gmap bytes bytes)).
  by destruct (node_step CMain toy_start).
Qed.

Lemma smvba_sent_verify_witness :
  exists m, (1, NONE, m) ∈ n_sent toy_next /\ Verify (toy_committee 4) m = Ret true.
Proof.
  assert ((fun x => (x.1.1, x.1.2)) <$> n_sent toy_next = [(1, NONE)]) as Hs
    by (vm_compute; reflexivity).
  destruct (n_sent toy_next) as [|[[f t] m] l] eqn:El; [discriminate|].
  injection Hs as -> -> _.
  assert ((1, NONE, m) ∈ n_sent toy_next) as Hin by (rewrite El; constructor).
  exists m. split; [by rewrite <-El|].
  apply (smvba_sent_verify toy_setting DefaultParameters (NewStore ∅)
    toy_pool 4 1 toy_start toy_next 1 NONE m toy_setting_ok toy_started
    toy_next_reachable Hin).
Defined.

Lemma smvba_one_done_witness :
  (sent_dones 0 0 (n_sent toy_next) <= 1)%nat /\
  ((sent_dones 0 0 (n_sent toy_next) = 1)%nat ->
   is_Some (lookup2 (DoneFlags (n_core toy_next)) 0 0)).
Proof.
  exact (smvba_one_done toy_setting DefaultParameters (NewStore ∅) toy_pool
    4 1 toy_start toy_next 0 0 toy_setting_ok toy_started toy_next_reachable).
Defined.

Lemma smvba_lock_and_halt_witness :
  (forall e r p s, lookup3 (SPbInstances (n_core toy_next)) e r p = Some s -> IsLock s = true ->
     is_Some (GetBlockHash s)) /\
  (forall e, e ∈ HaltFlags (n_core toy_next) -> e < Epoch (n_core toy_next) \/ e = last_epoch).
Proof.
  exact (smvba_lock_and_halt toy_setting DefaultParameters (NewStore ∅)
    toy_pool 4 1 toy_start toy_next toy_setting_ok toy_started
    toy_next_reachable).
Defined.

Lemma smvba_step_monotone_witness :
  exists n', node_step CMain toy_next = Next n' /\
  Epoch (n_core toy_next) <= Epoch (n_core n') /\
  HaltFlags (n_core toy_next) ⊆ HaltFlags (n_core n') /\
  commitCh (core_Commitor (n_core toy_next)) `prefix_of` commitCh (core_Commitor (n_core n')).
Proof.
  assert (is_next (node_step CMain toy_next) = true) as Hr by (vm_compute; reflexivity).
  destruct (node_step CMain toy_next) as [n'| |] eqn:Es; [|discriminate..]. exists n'. split; [reflexivity|].
  exact (smvba_step_monotone toy_setting DefaultParameters (NewStore ∅)
    toy_pool 4 1 toy_start toy_next n' CMain toy_setting_ok toy_started
    toy_next_reachable Es).
Defined.

End Witness.
