(* ===== verification/SmvbaBehaviour.v ===== *)
(** * smvba: what the handlers do, case by case

    Functional behaviour of the decisive handlers (output of an epoch, next
    round) and of the broadcast goroutines, and the behaviours of the code that
    differ from what its comments and names say. *)

From S2P Require Import Prelude GoStd Crypto Committee Store Pool Runtime Quorum Deliver.
From S2P Require Import SmvbaMessage SmvbaAggreator SmvbaCommitor SmvbaSpb SmvbaCore SmvbaSafety.

Open Scope Z_scope.

Section Behaviour.
Context {E : Ed25519} {K : Kyber} {db : Type} `{HDB : DB db} {GB : GobBlock}.

Abbreviation core := (Core (db := db)).

(** ** Reading blocks *)

(** What [getBlock] returns for a digest, given the database. *)
Definition block_at (d : db) (digest : Digest) : option Block * option error :=
  match db_Get d digest with
  | (_, Some ErrNotFoundKey) => (None, None)
  | (_, Some e) => (None, Some e)
  | (value, None) =>
      match Block_Decode value with
      | None => (None, Some ErrExternal)
      | Some b => (Some b, None)
      end
  end.

(** No request waits at the store: the core is its only client. *)
Definition store_idle (c : core) (d : db) : Prop := core_Store c = mkStore d [].

Lemma getBlock_idle (c : core) (d : db) (digest : Digest) :
  store_idle c d -> getBlock digest c = Ret (block_at d digest, c, []).
Proof.
  intros Hs. destruct c. unfold store_idle in Hs. cbn in Hs. subst.
  unfold getBlock, mbind, M_bind, get_st, modify. cbn [core_Store]. rewrite Store_Read_idle.
  unfold block_at. destruct (db_Get d digest) as [v err].
  destruct err as [[]|]; try done. by destruct (Block_Decode v).
Qed.

Lemma wp_getBlock (c : core) (d : db) (digest : Digest) Q :
  store_idle c d -> wp False (getBlock digest) c Q <-> Q (block_at d digest) c [].
Proof. intros Hs. unfold wp. by rewrite (getBlock_idle c d). Qed.

(** ** Output of an epoch *)

(** Fields that returning a batch to the pool does not touch. *)
Record same_output (c c' : core) : Prop := {
  so_name : Name c' = Name c;
  so_srv : core_SigService c' = core_SigService c;
  so_elector : core_Elector c' = core_Elector c;
  so_commitor : core_Commitor c' = core_Commitor c;
  so_halt : HaltFlags c' = HaltFlags c;
  so_ep : Epoch c' = Epoch c;
  so_store : core_Store c' = core_Store c;
  so_pool : (pool_len c' <= S (pool_len c))%nat
}.

Lemma wp_getSpbInstance (c : core) (e r : Z) (n : NodeID) Q :
  (forall s c', same_output c c' -> TxPool c' = TxPool c -> Q s c' []) ->
  wp False (getSpbInstance e r n) c Q.
Proof.
  intros HQ. unfold getSpbInstance. wp_steps. destruct (lookup3 _ _ _ _); wp_steps.
  - apply HQ; [|done]. split; try done. lia.
  - apply HQ; [|done]. split; try done. unfold pool_len. cbn. lia.
Qed.

Lemma wp_returnBatch (c : core) (d : db) (e : Z) :
  store_idle c d -> (pool_len c < batch_cap)%nat ->
  wp False (returnBatch e) c (fun _ c' es => same_output c c' /\ es = []).
Proof.
  intros Hs Hp. unfold returnBatch. rewrite wp_bind, wp_get. cbn beta.
  rewrite wp_bind. apply wp_getSpbInstance. intros s c1 H1 Hpool.
  destruct (GetBlockHash s) as [h|]; [|by wp_steps].
  rewrite wp_bind, (wp_getBlock c1 d) by (unfold store_idle in *; by rewrite (so_store _ _ H1)).
  destruct (block_at d h) as [[b|] [err|]]; wp_steps; try done.
  unfold PutBatch, txQueue_put. rewrite Hpool.
  rewrite bool_decide_true by (unfold pool_len in Hp; done). cbn. wp_steps. split; [|done].
  destruct H1. split; try done. unfold pool_len. cbn. rewrite length_app. cbn. lia.
Qed.

(** A node proposes its block of an epoch: one broadcast. *)
Definition proposes (c : core) (e r : Z) (es : list effect) : Prop :=
  exists p b, es = [ESend (Name c) NONE (MSPBProposal p); to_self (MSPBProposal p)] /\
    SPBProposal_Author p = Name c /\ SPBProposal_B p = Some b /\ SPBProposal_Epoch p = e /\
    SPBProposal_Round p = r /\ SPBProposal_Phase p = SPB_ONE_PHASE /\
    Proposer b = Name c /\ Block_Epoch b = e.

Lemma wp_propose (c : core) (b : Block) (e r : Z) (Q : unit -> core -> list effect -> Prop) :
  length (Prikey (PriKey (core_SigService c))) = 64%nat ->
  Proposer b = Name c -> Block_Epoch b = e ->
  (forall es, proposes c e r es -> Q tt c es) -> wp False (propose (Some b) e r) c Q.
Proof.
  intros Hk Hb He HQ. unfold propose, broadcast, Send_all, to_recvCh. wp_steps.
  unfold NewSPBProposal. rewrite RequestSignature_ok by done. cbn. wp_steps. apply HQ.
  eexists _, b. split_and!; done.
Qed.

Lemma wp_advanceNextEpoch (c : core) (e : Z) :
  length (Prikey (PriKey (core_SigService c))) = 64%nat -> (pool_len c <= 2)%nat ->
  Epoch c < e ->
  wp False (advanceNextEpoch e) c (fun _ c' es =>
    core_Commitor c' = core_Commitor c /\ HaltFlags c' = HaltFlags c /\
    core_Elector c' = core_Elector c /\ Epoch c' = e /\ proposes c e 0 es).
Proof.
  intros Hk Hp He. unfold advanceNextEpoch. rewrite wp_bind, wp_get. cbn beta.
  rewrite (proj2 (Z.leb_gt _ _)) by lia. rewrite wp_bind, wp_modify. cbn beta.
  unfold generatorBlock. rewrite !wp_bind, wp_get. cbn beta.
  destruct (pool_get_some (TxPool (c <| Epoch := e |>))) as [[b p] Hg].
  rewrite Hg, wp_bind, wp_modify, wp_ret. apply wp_propose; try done.
Qed.

(** C7. The output of an epoch.  For the first Halt of an epoch that is not over,
    naming a block the node has stored, [handleHalt] hands that block to the
    committor, marks the epoch as halted, records the leader, moves to the next
    epoch and broadcasts the node's proposal for it. *)
Theorem smvba_halt_outputs (c : core) (d : db) (h : Halt) (b : Block) :
  length (Prikey (PriKey (core_SigService c))) = 64%nat ->
  store_idle c d -> block_at d (Halt_BlockHash h) = (Some b, None) ->
  (pool_len c <= 1)%nat ->
  Epoch c <= Halt_Epoch h < last_epoch -> - 2 ^ 63 <= Epoch c ->
  Halt_Epoch h ∉ HaltFlags c ->
  exists c' es, handleHalt h c = Ret (None, c', es) /\
    Ret (core_Commitor c') = Commit (core_Commitor c) (Some b) /\
    HaltFlags c' = {[Halt_Epoch h]} ∪ HaltFlags c /\ Epoch c' = Halt_Epoch h + 1 /\
    (Leader (core_Elector c') (Halt_Epoch h) (Halt_Round h)).2 = Halt_Leader h /\
    proposes c (Halt_Epoch h + 1) 0 es.
Proof.
  intros Hk Hs Hb Hp He Hlo Hf.
  enough (wp False (handleHalt h) c (fun err c' es => err = None /\
    Ret (core_Commitor c') = Commit (core_Commitor c) (Some b) /\
    HaltFlags c' = {[Halt_Epoch h]} ∪ HaltFlags c /\ Epoch c' = Halt_Epoch h + 1 /\
    (Leader (core_Elector c') (Halt_Epoch h) (Halt_Round h)).2 = Halt_Leader h /\
    proposes c (Halt_Epoch h + 1) 0 es)) as Hw.
  { unfold wp in Hw. destruct (handleHalt h c) as [[[err c'] es]|]; [|done].
    destruct Hw as [-> Hw]. eauto. }
  unfold handleHalt, messgaeFilter. rewrite wp_bind, wp_gets. cbn beta.
  rewrite (proj2 (Z.ltb_ge _ _)) by lia. rewrite wp_bind, wp_get. cbn beta.
  rewrite bool_decide_false by done. rewrite wp_bind, wp_modify. cbn beta. rewrite wp_bind.
  unfold handleOutput. rewrite wp_bind, (wp_getBlock _ d) by done. rewrite Hb. cbn beta iota.
  unfold Commitor_Commit. rewrite wp_bind, wp_bind, wp_get. cbn beta. rewrite wp_bind, wp_lift.
  destruct (smvba_Commit_returns (core_Commitor c) b) as [cm Hcm]. cbn [core_Commitor set_field].
  rewrite Hcm. rewrite wp_modify, wp_bind, wp_get. cbn beta. rewrite wp_bind.
  match goal with |- wp _ _ ?c1 _ => set (c1' := c1) end.
  assert (same_output c1' c1') as H1 by (split; try done; lia).
  assert (wp False (if negb (Proposer b =? Name c1') then returnBatch (Halt_Epoch h) else mret tt)
    c1' (fun _ c' es => same_output c1' c' /\ es = [])) as Hret.
  { case_match; [|by wp_steps]. apply (wp_returnBatch c1' d); [done|].
    unfold pool_len, batch_cap in *. cbn. lia. }
  eapply wp_mono; [exact Hret|]. intros _ c2 es2 [H2 ->]. rewrite wp_ret. cbn beta iota.
  rewrite wp_bind, wp_modify. cbn beta. rewrite wp_bind.
  set (c3 := c2 <| HaltFlags := _ |>).
  assert (pool_len c3 <= 2)%nat as Hp3.
  { pose proof (so_pool _ _ H2). unfold pool_len in *. cbn in *. lia. }
  assert (int64 (Halt_Epoch h + 1) = Halt_Epoch h + 1) as Hw
    by (apply int64_id; unfold in_int64, last_epoch in *; lia).
  rewrite Hw. eapply wp_mono; [apply wp_advanceNextEpoch; [|done|]|].
  - change (core_SigService c3) with (core_SigService c2). by rewrite (so_srv _ _ H2).
  - change (Epoch c3) with (Epoch c2). rewrite (so_ep _ _ H2). cbn. lia.
  - cbn beta. intros _ c4 es4 (G1 & G2 & G3 & G4 & G5). rewrite wp_ret. cbn [app].
    rewrite app_nil_r. split_and!; [done|..].
    + rewrite G1. change (core_Commitor c3) with (core_Commitor c2).
      by rewrite (so_commitor _ _ H2).
    + rewrite G2. cbn. by rewrite (so_halt _ _ H2).
    + done.
    + rewrite G3. change (core_Elector c3) with (core_Elector c2).
      rewrite (so_elector _ _ H2). unfold Leader, SetLeader. cbn. by autorewrite with nested.
    + revert G5. unfold proposes. change (Name c3) with (Name c2).
      by rewrite (so_name _ _ H2).
Qed.

(** ** Messages and goroutines *)

(** A message whose author is not in the committee crashes the node: the
    committee has an empty key for it and [ed25519.Verify] panics on the key's
    size.  Only election shares, which are not verified, escape. *)
Theorem smvba_stranger_crashes (c : core) (m : Message) (a : NodeID) :
  msg_author m = Some a -> a ∉ members (core_Committee c) ->
  (forall s, m <> MElectShare s) -> handle m c = Panic.
Proof.
  intros Ha Hm Hs. assert (Verify (core_Committee c) m = Panic) as Hv.
  { destruct m; cbn in Ha; simplify_eq; try (by apply verify_sig_stranger). by edestruct Hs. }
  unfold handle, handle_msg, mbind, M_bind, get_st, lift_outcome. by rewrite Hv.
Qed.

(** The next round with another node's block: [advanceNextRound] proposes the
    block it adopted, whose proposer is its first proposer, under the node's own
    name.  The instance of that proposal compares the two, so its goroutine ends at
    every node without a vote, a stored hash or any other effect. *)
Theorem smvba_adopted_block_ignored (name : NodeID) (committee : Committee) (srv : SigService)
    (p : SPBProposal) (b : Block) (s : SPB) :
  SPBProposal_Phase p = SPB_ONE_PHASE -> SPBProposal_B p = Some b ->
  Proposer b <> SPBProposal_Author p ->
  spb_ok (SPBProposal_Epoch p) (SPBProposal_Round p) (SPBProposal_Author p) s ->
  spb_step name committee srv (PProposal p) s = Ret (None, s, []).
Proof.
  intros Hph Hb Hne [_ _ Hn _ _]. cbn. unfold proposal_step, mbind, M_bind, get_st.
  rewrite Hph. cbn. rewrite Hb, Hn. destruct (BlockHash s); [done|].
  by rewrite (proj2 (Z.eqb_neq _ _)).
Qed.

End Behaviour.

(** A Halt for a block that is missing from the NutsDB store: [getBlock] sees an
    error instead of the missing-key error it tests for, and [handleHalt] returns
    it.  The epoch is neither output nor left, and nothing is sent. *)
Theorem smvba_halt_missing_block {E : Ed25519} {K : Kyber} {N : Nuts} {GB : GobBlock}
    (c : Core (db := nuts)) (d : nuts) (h : Halt) :
  store_idle c d -> nuts_view_opens d = true -> nuts_tx_Get d (Halt_BlockHash h) = None ->
  Epoch c <= Halt_Epoch h -> Halt_Epoch h ∉ HaltFlags c ->
  exists c', handleHalt h c = Ret (Some ErrExternal, c', []) /\
    Epoch c' = Epoch c /\ HaltFlags c' = HaltFlags c /\ core_Commitor c' = core_Commitor c.
Proof.
  intros Hs Ho Hn He Hf.
  enough (wp False (handleHalt h) c (fun err c' es => err = Some ErrExternal /\ es = [] /\
    Epoch c' = Epoch c /\ HaltFlags c' = HaltFlags c /\ core_Commitor c' = core_Commitor c)) as Hw.
  { unfold wp in Hw. destruct (handleHalt h c) as [[[err c'] es]|]; [|done].
    destruct Hw as (-> & -> & Hw). eauto. }
  unfold handleHalt, messgaeFilter. rewrite wp_bind, wp_gets. cbn beta.
  rewrite (proj2 (Z.ltb_ge _ _)) by lia. rewrite wp_bind, wp_get. cbn beta.
  rewrite bool_decide_false by done. rewrite wp_bind, wp_modify. cbn beta. rewrite wp_bind.
  unfold handleOutput. rewrite wp_bind, (wp_getBlock _ d) by done.
  assert (block_at d (Halt_BlockHash h) = (None, Some ErrExternal)) as ->.
  { unfold block_at. cbn. unfold NutsDB_Get. by rewrite Ho, Hn. }
  cbn beta iota. by rewrite !wp_ret.
Qed.

(** Block hashes are not injective: the hash of a block concatenates the binary
    digits of its fields without separators, so the block of proposer 1 in epoch 2
    and the block of proposer 3 in epoch 0 with the same batch id have one hash. *)
Theorem smvba_block_hash_collision (txs1 txs2 : option (list Transaction)) (id : Z) :
  Block_Hash (mkBlock 1 (mkBatch id txs1) 2) = Block_Hash (mkBlock 3 (mkBatch id txs2) 0).
Proof. unfold Block_Hash. rewrite !hash_parts_eq. reflexivity. Qed.

(** ** Two phase one votes of one node *)

Section Race.
Import ToyCrypto ToyNode ToyGob.

(** Two proposals of node 2 for epoch 0, round 0, with different batches. *)
Definition rival (id : Z) : Message :=
  match NewSPBProposal (toy_service 4 2) 2 (Some (mkBlock 2 (mkBatch id None) 0)) 0 0
          SPB_ONE_PHASE with
  | Ret p => MSPBProposal p
  | Panic => MNil SPBProposalType
  end.

(** Both goroutines read the missing hash before either stores its own. *)
Definition race_schedule : list choice :=
  [CRecv (rival 1); CRecv (rival 2); CMain; CMain; CHandle 0; CMain; CHandle 0; CMain;
   CGo 0; CGo 1; CGo 0; CGo 0; CGo 0; CGo 1; CGo 1; CGo 1].

Definition race_end : result := nrun chan_cap handle tstep race_schedule toy_start.

Definition votes_sent (n : Node (Core := Core (db := gmap bytes bytes)) (Ev := Message)
    (Msg := Message) (Thread := Thread)) : list SPBVote :=
  omap (fun x => match x.2 with MSPBVote v => Some v | _ => None end) (n_sent n).

Lemma rival_ok (id : Z) : event_ok (toy_committee 4) (rival id).
Proof.
  unfold rival, NewSPBProposal. rewrite RequestSignature_ok by done. cbn. split_and!.
  - exists 2. split; [done|]. apply (bool_decide_eq_true_1 _). vm_compute. reflexivity.
  - change (in_int64 0). unfold in_int64. lia.
  - intros p [= <-] _. by eexists.
Qed.

(** C38. The check of [processProposal] that no block was received yet and the store
    of the block's hash are two atomic accesses, not one: a reachable schedule on
    which a correct node sends two phase one votes for the same instance, for two
    different blocks. *)
Theorem smvba_double_vote :
  exists n, node_reachable (event_ok (toy_committee 4)) toy_start n /\
    (fun v => (SPBVote_Author v, SPBVote_Proposer v, SPBVote_Epoch v, SPBVote_Round v,
               SPBVote_Phase v)) <$> votes_sent n = [(1, 2, 0, 0, 0); (1, 2, 0, 0, 0)] /\
    NoDup (SPBVote_BlockHash <$> votes_sent n).
Proof.
  assert (match race_end with
    | Next n => bool_decide ((fun v => (SPBVote_Author v, SPBVote_Proposer v, SPBVote_Epoch v,
        SPBVote_Round v, SPBVote_Phase v)) <$> votes_sent n = [(1, 2, 0, 0, 0); (1, 2, 0, 0, 0)]) &&
        bool_decide (NoDup (SPBVote_BlockHash <$> votes_sent n))
    | _ => false end = true) as Hc by (vm_compute; reflexivity).
  destruct race_end as [n| |] eqn:Er; [|done..].
  apply andb_true_iff in Hc as [H1 H2]. apply bool_decide_eq_true in H1, H2.
  exists n. split_and!; [|done..].
  eapply nrun_reachable; [apply reach_init| |exact Er].
  apply Forall_cons. split; [exact (rival_ok 1)|]. apply Forall_cons. split; [exact (rival_ok 2)|].
  repeat (apply Forall_cons; split; [exact I|]). by apply Forall_nil.
Qed.
End Race.

(** ** The node waits for itself *)

Section SelfSend.
Context {E : Ed25519} {K : Kyber} {db : Type} `{HDB : DB db} {GB : GobBlock}.
Context `{!Ed25519Laws E}.

Lemma Run_start_sends (st : setting) (params : Parameters) (store : Store db) (pool : PoolParams.t)
    (N Id : Z) c es :
  setting_ok st -> Run_start (boot st params store pool N Id) = Ret (tt, c, es) ->
  exists p, es = [ESend (s_name st) NONE p; to_self p].
Proof.
  intros Hst Hrun.
  assert (wp False Run_start (boot st params store pool N Id)
    (fun _ _ es => exists p, es = [ESend (s_name st) NONE p; to_self p])) as Hw.
  - unfold Run_start, generatorBlock. rewrite !wp_bind, wp_get. cbn beta.
    rewrite !wp_bind, wp_get. cbn beta.
    destruct (pool_get_some (TxPool (boot st params store pool N Id))) as [[b q] ->].
    rewrite wp_bind, wp_modify, wp_ret. apply wp_propose; try done.
    + apply (st_srv _ Hst).
    + intros es' (p & b' & -> & _). cbn. eauto.
  - unfold wp in Hw. by rewrite Hrun in Hw.
Qed.

(** C39. The main loop writes to the bounded channel that it alone reads.  Whenever the
    loop of a node is about to write a message to itself and the channel is full, it waits
    for itself for ever: whatever happens later it is still at that write, and takes no
    event any more.  This can happen to every node from the start: whichever messages fill
    the channel's 1000 places while the loop is between the two writes of its first
    broadcast, a state is reachable in which they do and the loop is about to write its
    own proposal. *)
Theorem smvba_self_send_deadlock (st : setting) (params : Parameters) (store : Store db)
    (pool : PoolParams.t) (N Id : Z) n0 :
  setting_ok st -> started (boot st params store pool N Id) n0 ->
  (forall n m rest, node_reachable (event_ok (s_com st)) n0 n ->
     n_main n = to_self m :: rest -> length (chan n recvCh) = chan_cap recvCh ->
     forall n', node_reachable (event_ok (s_com st)) n n' ->
       n_main n' = n_main n /\ n_hist n' = n_hist n) /\
  (forall ms, length ms = chan_cap recvCh -> Forall (event_ok (s_com st)) ms ->
     exists n p, node_reachable (event_ok (s_com st)) n0 n /\ n_main n = [to_self p] /\
       n_hist n = [] /\ chan n recvCh = ms).
Proof.
  intros Hst (c & es & Hrun & ->). split.
  - intros n m rest _ Hm Hf n' Hr.
    eapply main_blocked_reachable in Hr as (_ & ? & ?); [done|].
    exists recvCh, m, rest. split; [done|lia].
  - intros ms Hl Hms. destruct (Run_start_sends st params store pool N Id c es Hst Hrun) as [p ->].
    set (n1 := start c [ESend (s_name st) NONE p; to_self p]).
    assert (exists n2, node_step CMain n1 = Next n2 /\ n_main n2 = [to_self p] /\ n_hist n2 = [] /\
      chan n2 0 = []) as (n2 & Hs & Hmain & Hh & Hc) by (eexists; split; [reflexivity|done]).
    destruct (deliver_all chan_cap handle tstep (event_ok (s_com st)) ms n2 Hms)
      as (n3 & Hr3 & Hm3 & Hh3 & Hc3); [by rewrite Hc, Hl|].
    exists n3, p. unfold recvCh. rewrite Hm3, Hmain, Hh3, Hh, Hc3, Hc. split_and!; [|done..].
    eapply reachable_trans; [|exact Hr3]. eapply reach_step; [apply reach_init|]. by exists CMain.
Qed.
End SelfSend.

(** ** Witnesses *)

Section Witness.
Import ToyCrypto ToyNode ToyGob.

Definition toy_stored : Block := mkBlock 2 (mkBatch 7 None) 0.
Definition toy_store : gmap bytes bytes :=
  {[ Block_Hash toy_stored := default [] (Block_Encode toy_stored) ]}.
Definition toy_halt : Halt := mkHalt 3 0 0 2 (Block_Hash toy_stored) (mkSignature []).
Definition toy_core2 : Core (db := gmap bytes bytes) :=
  boot toy_setting DefaultParameters (NewStore toy_store) toy_pool 4 1.

Lemma smvba_halt_outputs_witness :
  exists c' es, handleHalt toy_halt toy_core2 = Ret (None, c', es) /\
    Ret (core_Commitor c') = Commit NewCommittor (Some toy_stored) /\
    HaltFlags c' = {[0]} ∪ ∅ /\ Epoch c' = 1 /\ (Leader (core_Elector c') 0 0).2 = 2 /\
    proposes toy_core2 1 0 es.
Proof.
  apply (smvba_halt_outputs toy_core2 toy_store toy_halt toy_stored).
  - vm_compute. reflexivity.
  - reflexivity.
  - vm_compute. reflexivity.
  - vm_compute. lia.
  - cbn. unfold last_epoch. lia.
  - cbn. lia.
  - intros H. by apply elem_of_empty in H.
Defined.

Lemma smvba_stranger_crashes_witness :
  handle (MDone (mkDone 9 0 0 (mkSignature []))) toy_core = Panic.
Proof.
  apply (smvba_stranger_crashes toy_core _ 9); [reflexivity| |done].
  apply (bool_decide_eq_true_1 _). vm_compute. reflexivity.
Defined.

Lemma smvba_adopted_block_ignored_witness :
  let p := mkSPBProposal 1 (Some toy_stored) 0 1 SPB_ONE_PHASE (mkSignature []) in
  spb_step 3 (toy_committee 4) (toy_service 4 3) (PProposal p) (NewSPB 0 1 1) =
  Ret (None, NewSPB 0 1 1, []).
Proof.
  intros p. apply (smvba_adopted_block_ignored 3 (toy_committee 4) (toy_service 4 3) p toy_stored
    (NewSPB 0 1 1)); [reflexivity|reflexivity|discriminate|]. by split.
Defined.

Definition toy_nuts : Nuts := {|
  nuts := gmap bytes bytes;
  nuts_view_opens := fun _ => true;
  nuts_tx_Get := fun d k => d !! k;
  nuts_update_Put := fun d k v => Some (<[k := v]> d)
|}.

Lemma smvba_halt_missing_block_witness :
  let c := boot (db := @nuts toy_nuts) toy_setting DefaultParameters
             (NewStore (∅ : @nuts toy_nuts)) toy_pool 4 1 in
  exists c', handleHalt (HDB := @NutsDB toy_nuts) toy_halt c = Ret (Some ErrExternal, c', []) /\
    Epoch c' = Epoch c /\ HaltFlags c' = HaltFlags c /\ core_Commitor c' = core_Commitor c.
Proof.
  intros c. apply (smvba_halt_missing_block (N := toy_nuts) c (∅ : @nuts toy_nuts) toy_halt);
    [reflexivity|reflexivity|reflexivity|cbn; lia|].
  intros H. by apply elem_of_empty in H.
Defined.

Lemma smvba_self_send_deadlock_witness :
  exists n p, node_reachable (event_ok (toy_committee 4)) toy_start n /\ n_main n = [to_self p] /\
    forall n', node_reachable (event_ok (toy_committee 4)) n n' -> n_main n' = n_main n /\ n_hist n' = [].
Proof.
  destruct (smvba_self_send_deadlock toy_setting DefaultParameters (NewStore ∅) toy_pool 4 1
    toy_start toy_setting_ok toy_started) as [Hstuck Hfull].
  destruct (Hfull (repeat (rival 1) 1000)) as (n & p & Hr & Hm & Hh & Hc).
  - by rewrite repeat_length.
  - apply Forall_forall. intros m Hin%list_elem_of_In%repeat_spec. rewrite Hin. exact (rival_ok 1).
  - exists n, p. split_and!; [exact Hr|exact Hm|]. intros n' Hr'.
    destruct (Hstuck n p [] Hr Hm ltac:(by rewrite Hc, repeat_length) n' Hr') as [H1 H2].
    by rewrite H1, H2, Hh.
Defined.

End Witness.
