(* ===== verification/MercuryMessage.v ===== *)
(** * mercury: messages

    Models src/core/mercury/consensus/message.go: the block, which refers to blocks
    of the epoch before, and the eight message types, four of which carry the
    number of the try, with the constructors that sign them ([New...]), their hashes and
    their verification.  A constructor's hash, and with it the signature, covers
    the fields the source hashes and no others. *)

From Stdlib Require Import Strings.Byte.
From S2P Require Import Prelude GoStd Crypto Committee Pool.

Open Scope Z_scope.

Definition SPB_ONE_PHASE : Z := 0.
Definition SPB_TWO_PHASE : Z := 1.
Definition VOTE_FLAG_YES : Z := 0.
Definition VOTE_FLAG_NO : Z := 1.

(** ** Blocks *)

Record Block := mkBlock {
  Proposer : NodeID;
  Block_Batch : Batch;
  Block_Epoch : Z;
  Reference : list Digest
}.

#[export] Instance Block_eq_dec : EqDecision Block.
Proof. solve_decision. Defined.

Definition NewBlock (proposer : NodeID) (batch : Batch) (epoch : Z) (reference : list Digest) :
    Block :=
  mkBlock proposer batch epoch reference.

(** [encoding/gob] on blocks: [None] is an error. *)
Class GobBlock := {
  gob_encode_block : Block -> option bytes;
  gob_decode_block : bytes -> option Block
}.

(** gob omits empty slices, so an empty slice of transactions decodes as nil. *)
Definition gob_norm (b : Block) : Block :=
  mkBlock (Proposer b)
    (mkBatch (Batch_ID (Block_Batch b))
       (match Batch_Txs (Block_Batch b) with Some [] => None | t => t end))
    (Block_Epoch b) (Reference b).

(** Decoding into an empty block gives back what was encoded. *)
Class GobBlockLaws (G : GobBlock) :=
  gob_block_roundtrip : forall b d, gob_encode_block b = Some d ->
    gob_decode_block d = Some (gob_norm b).

(** An encoding with the promised behaviour: the bits of a block's code. *)
Module ToyGob.
Import ToyBits.
#[export] Instance Block_countable : Countable Block.
Proof.
  refine (inj_countable' (fun b => (Proposer b, Block_Batch b, Block_Epoch b, Reference b))
            (fun '(p, b, e, r) => mkBlock p b e r) _).
  by intros [].
Defined.

#[export] Instance toy_gob : GobBlock := {|
  gob_encode_block := fun b => Some (bits (encode (gob_norm b)));
  gob_decode_block := fun d => decode (unbits d)
|}.
#[export] Instance toy_gob_laws : GobBlockLaws toy_gob.
Proof. intros b d [= <-]. cbn. by rewrite unbits_bits, decode_encode. Qed.
End ToyGob.

Definition Block_Encode `{GobBlock} (b : Block) : option bytes := gob_encode_block b.
Definition Block_Decode `{GobBlock} (data : bytes) : option Block := gob_decode_block data.

Definition Block_Hash (b : Block) : Digest :=
  hash_parts [AppendInt2 (Proposer b); AppendInt2 (Block_Epoch b);
              AppendInt2 (Batch_ID (Block_Batch b))].

(** ** Messages *)

Record SPBProposal := mkSPBProposal {
  SPBProposal_Author : NodeID;
  SPBProposal_B : option Block;
  SPBProposal_Epoch : Z;
  SPBProposal_Round : Z;
  SPBProposal_Phase : Z;
  SPBProposal_Signature : Signature
}.

Definition SPBProposal_Hash (p : SPBProposal) : Digest :=
  hash_parts
    ([AppendInt2 (SPBProposal_Author p); AppendInt2 (SPBProposal_Epoch p);
     AppendInt2 (SPBProposal_Round p); AppendInt2 (SPBProposal_Phase p)]
     ++ match SPBProposal_B p with Some b => [Block_Hash b] | None => [] end).

Record SPBVote := mkSPBVote {
  SPBVote_Author : NodeID;
  SPBVote_Proposer : NodeID;
  SPBVote_BlockHash : Digest;
  SPBVote_Epoch : Z;
  SPBVote_Round : Z;
  SPBVote_Phase : Z;
  SPBVote_Signature : Signature
}.

Definition SPBVote_Hash (p : SPBVote) : Digest :=
  hash_parts
    [AppendInt2 (SPBVote_Author p); AppendInt2 (SPBVote_Epoch p);
     AppendInt2 (SPBVote_Round p); AppendInt2 (SPBVote_Phase p);
     SPBVote_BlockHash p].

Record Finish := mkFinish {
  Finish_Author : NodeID;
  Finish_BlockHash : Digest;
  Finish_Epoch : Z;
  Finish_Round : Z;
  Finish_Signature : Signature
}.

Definition Finish_Hash (p : Finish) : Digest :=
  hash_parts
    [Finish_BlockHash p; AppendInt2 (Finish_Author p);
     AppendInt2 (Finish_Epoch p); AppendInt2 (Finish_Round p)].

Record Done := mkDone {
  Done_Author : NodeID;
  Done_Epoch : Z;
  Done_Round : Z;
  Done_Try : Z;
  Done_Signature : Signature
}.

Definition Done_Hash (p : Done) : Digest :=
  hash_parts
    [AppendInt2 (Done_Author p); AppendInt2 (Done_Epoch p);
     AppendInt2 (Done_Round p); AppendInt2 (Done_Try p)].

Record ElectShare := mkElectShare {
  ElectShare_Author : NodeID;
  ElectShare_Epoch : Z;
  ElectShare_Round : Z;
  ElectShare_Try : Z;
  ElectShare_SigShare : SignatureShare
}.

Definition ElectShare_Hash (p : ElectShare) : Digest :=
  hash_parts
    [AppendInt2 (ElectShare_Epoch p); AppendInt2 (ElectShare_Round p);
     AppendInt2 (ElectShare_Try p)].

Record Prevote := mkPrevote {
  Prevote_Author : NodeID;
  Prevote_Leader : NodeID;
  Prevote_Epoch : Z;
  Prevote_Round : Z;
  Prevote_Try : Z;
  Prevote_Flag : Z;
  Prevote_BlockHash : Digest;
  Prevote_Signature : Signature
}.

Definition Prevote_Hash (p : Prevote) : Digest :=
  hash_parts
    [AppendInt2 (Prevote_Author p); AppendInt2 (Prevote_Leader p);
     AppendInt2 (Prevote_Epoch p); AppendInt2 (Prevote_Round p);
     AppendInt2 (Prevote_Flag p); Prevote_BlockHash p].

Record FinVote := mkFinVote {
  FinVote_Author : NodeID;
  FinVote_Leader : NodeID;
  FinVote_Epoch : Z;
  FinVote_Round : Z;
  FinVote_Try : Z;
  FinVote_Flag : Z;
  FinVote_BlockHash : Digest;
  FinVote_Signature : Signature
}.

Definition FinVote_Hash (p : FinVote) : Digest :=
  hash_parts
    [AppendInt2 (FinVote_Author p); AppendInt2 (FinVote_Leader p);
     AppendInt2 (FinVote_Epoch p); AppendInt2 (FinVote_Round p);
     AppendInt2 (FinVote_Flag p); FinVote_BlockHash p].

Record Halt := mkHalt {
  Halt_Author : NodeID;
  Halt_Epoch : Z;
  Halt_Round : Z;
  Halt_Leader : NodeID;
  Halt_BlockHash : Digest;
  Halt_Signature : Signature
}.

Definition Halt_Hash (p : Halt) : Digest :=
  hash_parts
    [AppendInt2 (Halt_Author p); AppendInt2 (Halt_Epoch p);
     AppendInt2 (Halt_Leader p); Halt_BlockHash p].

(** ** Construction and verification *)

Section Signing.
Context {E : Ed25519} {K : Kyber} (sigService : SigService).

Definition NewSPBProposal (Author : NodeID) (B : option Block) (Epoch Round Phase : Z) :
    Outcome SPBProposal :=
  let proposal := mkSPBProposal Author B Epoch Round Phase in
  sig ← RequestSignature sigService (SPBProposal_Hash (proposal (mkSignature [])));
  mret (proposal sig).

Definition NewSPBVote (Author Proposer : NodeID) (BlockHash : Digest) (Epoch Round Phase : Z) :
    Outcome SPBVote :=
  let vote := mkSPBVote Author Proposer BlockHash Epoch Round Phase in
  sig ← RequestSignature sigService (SPBVote_Hash (vote (mkSignature [])));
  mret (vote sig).

Definition NewFinish (Author : NodeID) (BlockHash : Digest) (Epoch Round : Z) : Outcome Finish :=
  let finish := mkFinish Author BlockHash Epoch Round in
  sig ← RequestSignature sigService (Finish_Hash (finish (mkSignature [])));
  mret (finish sig).

Definition NewDone (Author : NodeID) (epoch round try : Z) : Outcome Done :=
  let done := mkDone Author epoch round try in
  sig ← RequestSignature sigService (Done_Hash (done (mkSignature [])));
  mret (done sig).

(** [None]: the threshold signature failed and the constructor returns nil. *)
Definition NewElectShare (Author : NodeID) (epoch round try : Z) : Outcome (option ElectShare) :=
  let elect := mkElectShare Author epoch round try in
  '(share, err) ← RequestTsSugnature sigService (ElectShare_Hash (elect (mkSignatureShare [])));
  mret (if err : bool then None else Some (elect share)).

Definition NewPrevote (Author Leader : NodeID) (Epoch Round try flag : Z) (BlockHash : Digest) :
    Outcome Prevote :=
  let prevote := mkPrevote Author Leader Epoch Round try flag BlockHash in
  sig ← RequestSignature sigService (Prevote_Hash (prevote (mkSignature [])));
  mret (prevote sig).

(** The composite literal leaves [Leader] at its zero value. *)
Definition NewFinVote (Author Leader : NodeID) (Epoch Round try flag : Z) (BlockHash : Digest) :
    Outcome FinVote :=
  let prevote := mkFinVote Author 0 Epoch Round try flag BlockHash in
  sig ← RequestSignature sigService (FinVote_Hash (prevote (mkSignature [])));
  mret (prevote sig).

Definition NewHalt (Author Leader : NodeID) (BlockHash : Digest) (Epoch Round : Z) :
    Outcome Halt :=
  let h := mkHalt Author Epoch Round Leader BlockHash in
  sig ← RequestSignature sigService (Halt_Hash (h (mkSignature [])));
  mret (h sig).

End Signing.

(** The messages on the wire and on the receive channel.  [MNil t] is a nil
    pointer of message type [t], which a failed constructor leaves behind. *)
Inductive Message :=
| MSPBProposal (p : SPBProposal)
| MSPBVote (v : SPBVote)
| MFinish (f : Finish)
| MDone (d : Done)
| MElectShare (e : ElectShare)
| MPrevote (p : Prevote)
| MFinVote (f : FinVote)
| MHalt (h : Halt)
| MNil (t : Z).

Definition SPBProposalType : Z := 0.
Definition SPBVoteType : Z := 1.
Definition FinishType : Z := 2.
Definition DoneType : Z := 3.
Definition ElectShareType : Z := 4.
Definition PrevoteType : Z := 5.
Definition FinVoteType : Z := 6.
Definition HaltType : Z := 7.

Definition MsgType (m : Message) : Z :=
  match m with
  | MSPBProposal _ => SPBProposalType
  | MSPBVote _ => SPBVoteType
  | MFinish _ => FinishType
  | MDone _ => DoneType
  | MElectShare _ => ElectShareType
  | MPrevote _ => PrevoteType
  | MFinVote _ => FinVoteType
  | MHalt _ => HaltType
  | MNil t => t
  end.

(** The keys of [DefaultMessageTypeMap]. *)
Definition DefaultMessageTypes : gset Z :=
  {[ SPBProposalType; SPBVoteType; FinishType; DoneType; ElectShareType; PrevoteType;
     FinVoteType; HaltType ]}.

(** The [Author] field every message has. *)
Definition msg_author (m : Message) : option NodeID :=
  match m with
  | MSPBProposal p => Some (SPBProposal_Author p)
  | MSPBVote v => Some (SPBVote_Author v)
  | MFinish f => Some (Finish_Author f)
  | MDone d => Some (Done_Author d)
  | MElectShare e => Some (ElectShare_Author e)
  | MPrevote p => Some (Prevote_Author p)
  | MFinVote f => Some (FinVote_Author f)
  | MHalt h => Some (Halt_Author h)
  | MNil _ => None
  end.

(** The [Epoch] field every message has. *)
Definition msg_epoch (m : Message) : Z :=
  match m with
  | MSPBProposal p => SPBProposal_Epoch p
  | MSPBVote v => SPBVote_Epoch v
  | MFinish f => Finish_Epoch f
  | MDone d => Done_Epoch d
  | MElectShare e => ElectShare_Epoch e
  | MPrevote p => Prevote_Epoch p
  | MFinVote f => FinVote_Epoch f
  | MHalt h => Halt_Epoch h
  | MNil _ => 0
  end.

Section Verification.
Context {E : Ed25519} (committee : Committee).

Definition SPBProposal_Verify (p : SPBProposal) : Outcome bool :=
  verify_sig committee (SPBProposal_Author p) (SPBProposal_Signature p) (SPBProposal_Hash p).
Definition SPBVote_Verify (v : SPBVote) : Outcome bool :=
  verify_sig committee (SPBVote_Author v) (SPBVote_Signature v) (SPBVote_Hash v).
Definition Finish_Verify (f : Finish) : Outcome bool :=
  verify_sig committee (Finish_Author f) (Finish_Signature f) (Finish_Hash f).
Definition Done_Verify (d : Done) : Outcome bool :=
  verify_sig committee (Done_Author d) (Done_Signature d) (Done_Hash d).
Definition ElectShare_Verify (e : ElectShare) : Outcome bool :=
  Ret (SignatureShare_Verify (ElectShare_SigShare e) (ElectShare_Hash e)).
Definition Prevote_Verify (p : Prevote) : Outcome bool :=
  verify_sig committee (Prevote_Author p) (Prevote_Signature p) (Prevote_Hash p).
Definition FinVote_Verify (f : FinVote) : Outcome bool :=
  verify_sig committee (FinVote_Author f) (FinVote_Signature f) (FinVote_Hash f).
Definition Halt_Verify (h : Halt) : Outcome bool :=
  verify_sig committee (Halt_Author h) (Halt_Signature h) (Halt_Hash h).

(** [v.Verify(committee)] through the [Validator] interface; a nil pointer is
    dereferenced. *)
Definition Verify (m : Message) : Outcome bool :=
  match m with
  | MSPBProposal p => SPBProposal_Verify p
  | MSPBVote v => SPBVote_Verify v
  | MFinish f => Finish_Verify f
  | MDone d => Done_Verify d
  | MElectShare e => ElectShare_Verify e
  | MPrevote p => Prevote_Verify p
  | MFinVote f => FinVote_Verify f
  | MHalt h => Halt_Verify h
  | MNil _ => Panic
  end.

Lemma mercury_Verify_member (m : Message) (a : NodeID) :
  keys_sized committee -> msg_author m = Some a -> a ∈ members committee -> exists b, Verify m = Ret b.
Proof.
  intros Hk Ha Hm. destruct m; cbn in Ha; simplify_eq; cbn; eauto using verify_sig_member.
Qed.

End Verification.

(** ** What the constructors make verifies *)

(** Whatever an honest node builds for itself with one of the eight
    constructors passes [Verify] at every node of its committee. *)
Theorem mercury_own_messages_verify `{!Ed25519Laws E} {K : Kyber} (srv : SigService)
    (committee : Committee) (name : NodeID) :
  service_for srv (Committee_Name committee name) ->
  (forall B e r ph, exists p, NewSPBProposal srv name B e r ph = Ret p /\
     Verify committee (MSPBProposal p) = Ret true) /\
  (forall pr d e r ph, exists v, NewSPBVote srv name pr d e r ph = Ret v /\
     Verify committee (MSPBVote v) = Ret true) /\
  (forall d e r, exists f, NewFinish srv name d e r = Ret f /\
     Verify committee (MFinish f) = Ret true) /\
  (forall e r t, exists d, NewDone srv name e r t = Ret d /\ Verify committee (MDone d) = Ret true) /\
  (forall e r t, exists s, NewElectShare srv name e r t = Ret s /\
     forall sh, s = Some sh -> Verify committee (MElectShare sh) = Ret true) /\
  (forall l e r t fl d, exists p, NewPrevote srv name l e r t fl d = Ret p /\
     Verify committee (MPrevote p) = Ret true) /\
  (forall l e r t fl d, exists f, NewFinVote srv name l e r t fl d = Ret f /\
     Verify committee (MFinVote f) = Ret true) /\
  (forall l d e r, exists h, NewHalt srv name l d e r = Ret h /\
     Verify committee (MHalt h) = Ret true).
Proof.
  intros Hsrv. split_and!; intros.
  - unfold NewSPBProposal. run_sign Hsrv. eauto.
  - unfold NewSPBVote. run_sign Hsrv. eauto.
  - unfold NewFinish. run_sign Hsrv. eauto.
  - unfold NewDone. run_sign Hsrv. eauto.
  - eexists. split; [reflexivity|]. done.
  - unfold NewPrevote. run_sign Hsrv. eauto.
  - unfold NewFinVote. run_sign Hsrv. eauto.
  - unfold NewHalt. run_sign Hsrv. eauto.
Qed.

Section Witness.
Import ToyCrypto.

Lemma mercury_own_messages_verify_witness :
  exists h, NewHalt (ToyNode.toy_service 4 1) 1 2 Digest0 5 0 = Ret h /\
    Verify (ToyNode.toy_committee 4) (MHalt h) = Ret true.
Proof.
  apply (mercury_own_messages_verify (ToyNode.toy_service 4 1) (ToyNode.toy_committee 4) 1).
  apply (toy_service_for 4 1). vm_compute. done.
Defined.

End Witness.
