(* ===== verification/MercuryAggreator.v ===== *)
(** * mercury: aggregators and the leader elector

    Models src/core/mercury/consensus/aggreator.go and elector.go.  Done messages,
    prevotes and final votes are counted per (epoch, round, try), Finish messages and
    election shares per (epoch, round).  Each [Append] returns the new aggregator, and
    the flag and error of the source. *)

From Stdlib Require Import Strings.Byte.
From S2P Require Import Prelude GoStd Crypto Committee Quorum Verdict Coin MercuryMessage.

Open Scope Z_scope.

(** ** Finish *)

Record FinishAggreator := mkFinishAggreator { Finish_Authors : gset NodeID }.
Definition NewFinishAggreator : FinishAggreator := mkFinishAggreator ∅.

Definition FinishAggreator_Append (committee : Committee) (finish : Finish)
    (f : FinishAggreator) : FinishAggreator * (bool * option error) :=
  if bool_decide (Finish_Author finish ∈ Finish_Authors f) then
    (f, (false, Some (ErrOneMoreMessage FinishType (Finish_Epoch finish) (Finish_Round finish)
                        (Finish_Author finish))))
  else
    let f := mkFinishAggreator ({[Finish_Author finish]} ∪ Finish_Authors f) in
    if Z.of_nat (size (Finish_Authors f)) =? HightThreshold committee
    then (f, (true, None)) else (f, (false, None)).

(** ** Done *)

Definition DONE_LOW_FLAG : Z := 0.
Definition DONE_HIGH_FLAG : Z := 1.
Definition DONE_NONE_FLAG : Z := 2.

Record DoneAggreator := mkDoneAggreator { Done_Authors : gset NodeID }.
Definition NewDoneAggreator : DoneAggreator := mkDoneAggreator ∅.

Definition DoneAggreator_Append (committee : Committee) (done : Done) (d : DoneAggreator) :
    DoneAggreator * (Z * option error) :=
  if bool_decide (Done_Author done ∈ Done_Authors d) then
    (d, (0, Some (ErrOneMoreMessage DoneType (Done_Epoch done) (Done_Round done)
                    (Done_Author done))))
  else
    let d := mkDoneAggreator ({[Done_Author done]} ∪ Done_Authors d) in
    if Z.of_nat (size (Done_Authors d)) =? LowThreshold committee then (d, (DONE_LOW_FLAG, None))
    else if Z.of_nat (size (Done_Authors d)) =? HightThreshold committee
    then (d, (DONE_HIGH_FLAG, None))
    else (d, (DONE_NONE_FLAG, None)).

(** ** Election shares *)

Record ElectAggreator := mkElectAggreator {
  shares : list SignatureShare;
  elect_authors : gset NodeID
}.
Definition NewElectAggreator : ElectAggreator := mkElectAggreator [] ∅.

Section Elect.
Context {K : Kyber}.

Definition ElectAggreator_Append (committee : Committee) (sigService : SigService)
    (elect : ElectShare) (e : ElectAggreator) :
    Outcome (ElectAggreator * (NodeID * option error)) :=
  if bool_decide (ElectShare_Author elect ∈ elect_authors e) then
    Ret (e, (NONE, Some (ErrOneMoreMessage ElectShareType (ElectShare_Epoch elect)
                           (ElectShare_Round elect) (ElectShare_Author elect))))
  else
    let e := mkElectAggreator (shares e ++ [ElectShare_SigShare elect])
               ({[ElectShare_Author elect]} ∪ elect_authors e) in
    if Z.of_nat (length (shares e)) =? HightThreshold committee then
      r ← combine_leader committee sigService (shares e) (ElectShare_Hash elect);
      Ret (e, r)
    else Ret (e, (NONE, None)).
End Elect.

(** ** Prevotes *)

Definition ACTION_YES : Z := 0.
Definition ACTION_NO : Z := 1.
Definition ACTION_COMMIT : Z := 2.
Definition ACTION_NONE : Z := 3.

(** The counters are bounded by the number of authors. *)
Record PreVoteAggreator := mkPreVoteAggreator {
  pre_authors : gset NodeID;
  pre_yesNums : Z;
  pre_noNums : Z;
  pre_flag : bool
}.
Definition NewPrevoteAggreator : PreVoteAggreator := mkPreVoteAggreator ∅ 0 0 false.

Definition PreVoteAggreator_Append (committee : Committee) (vote : Prevote)
    (p : PreVoteAggreator) : PreVoteAggreator * (Z * option error) :=
  if bool_decide (Prevote_Author vote ∈ pre_authors p) then
    (p, (ACTION_NONE, Some (ErrOneMoreMessage PrevoteType (Prevote_Epoch vote)
                              (Prevote_Round vote) (Prevote_Author vote))))
  else
    let authors := {[Prevote_Author vote]} ∪ pre_authors p in
    let isNo := Prevote_Flag vote =? VOTE_FLAG_NO in
    let noNums := if isNo then pre_noNums p + 1 else pre_noNums p in
    let yesNums := if isNo then pre_yesNums p else pre_yesNums p + 1 in
    let p' := mkPreVoteAggreator authors yesNums noNums in
    if (0 <? yesNums) && negb (pre_flag p) then (p' true, (ACTION_YES, None))
    else if (noNums =? HightThreshold committee) && negb (pre_flag p)
    then (p' (pre_flag p), (ACTION_NO, None))
    else (p' (pre_flag p), (ACTION_NONE, None)).

(** ** Final votes *)

Record FinVoteAggreator := mkFinVoteAggreator {
  fin_authors : gset NodeID;
  fin_yesNums : Z;
  fin_noNums : Z
}.
Definition NewFinVoteAggreator : FinVoteAggreator := mkFinVoteAggreator ∅ 0 0.

Definition FinVoteAggreator_Append (committee : Committee) (vote : FinVote)
    (f : FinVoteAggreator) : FinVoteAggreator * (Z * option error) :=
  if bool_decide (FinVote_Author vote ∈ fin_authors f) then
    (f, (ACTION_NONE, Some (ErrOneMoreMessage FinVoteType (FinVote_Epoch vote)
                              (FinVote_Round vote) (FinVote_Author vote))))
  else
    let isYes := FinVote_Flag vote =? VOTE_FLAG_YES in
    let f := mkFinVoteAggreator ({[FinVote_Author vote]} ∪ fin_authors f)
               (if isYes then fin_yesNums f + 1 else fin_yesNums f)
               (if isYes then fin_noNums f else fin_noNums f + 1) in
    let th := HightThreshold committee in
    if fin_yesNums f + fin_noNums f =? th then
      if fin_yesNums f =? th then (f, (ACTION_COMMIT, None))
      else if fin_noNums f =? th then (f, (ACTION_NO, None))
      else (f, (ACTION_YES, None))
    else (f, (ACTION_NONE, None)).

(** ** The aggregators of all epochs, rounds and tries *)

Record Aggreator := mkAggreator {
  agg_committee : Committee;
  finishAggreator : gmap Z (gmap Z FinishAggreator);
  doneAggreator : gmap Z (gmap Z (gmap Z DoneAggreator));
  prevoteAggreator : gmap Z (gmap Z (gmap Z PreVoteAggreator));
  finvoteAggreator : gmap Z (gmap Z (gmap Z FinVoteAggreator))
}.
#[export] Instance Aggreator_eta : Settable Aggreator := fun a =>
  mkAggreator (agg_committee a) (finishAggreator a) (doneAggreator a) (prevoteAggreator a)
    (finvoteAggreator a).

Definition NewAggreator (committee : Committee) : Aggreator := mkAggreator committee ∅ ∅ ∅ ∅.

(** On a miss the vote is appended to one new aggregator and another new one is
    stored. *)
Definition AddFinishVote (a : Aggreator) (finish : Finish) : Aggreator * (bool * option error) :=
  let '(m, r) := add_item_lost (finishAggreator a) (Finish_Epoch finish) (Finish_Round finish)
                   NewFinishAggreator (FinishAggreator_Append (agg_committee a) finish) in
  (a <| finishAggreator := m |>, r).

Definition AddDoneVote (a : Aggreator) (done : Done) : Aggreator * (Z * option error) :=
  let '(m, r) := add_item3 (doneAggreator a) (Done_Epoch done) (Done_Round done) (Done_Try done)
                   NewDoneAggreator (DoneAggreator_Append (agg_committee a) done) in
  (a <| doneAggreator := m |>, r).

Definition AddPreVote (a : Aggreator) (vote : Prevote) : Aggreator * (Z * option error) :=
  let '(m, r) := add_item3 (prevoteAggreator a) (Prevote_Epoch vote) (Prevote_Round vote) (Prevote_Try vote)
                   NewPrevoteAggreator (PreVoteAggreator_Append (agg_committee a) vote) in
  (a <| prevoteAggreator := m |>, r).

Definition AddFinVote (a : Aggreator) (vote : FinVote) : Aggreator * (Z * option error) :=
  let '(m, r) := add_item3 (finvoteAggreator a) (FinVote_Epoch vote) (FinVote_Round vote) (FinVote_Try vote)
                   NewFinVoteAggreator (FinVoteAggreator_Append (agg_committee a) vote) in
  (a <| finvoteAggreator := m |>, r).

(** ** The elector *)

Section Elector.
Context {K : Kyber}.

Record Elector := mkElector {
  leaders : gmap Z (gmap Z NodeID);
  electAggreators : gmap Z (gmap Z ElectAggreator);
  el_sigService : SigService;
  el_committee : Committee
}.
#[export] Instance Elector_eta : Settable Elector := fun e =>
  mkElector (leaders e) (electAggreators e) (el_sigService e) (el_committee e).

Definition NewElector (sigService : SigService) (committee : Committee) : Elector :=
  mkElector ∅ ∅ sigService committee.

Definition SetLeader (e : Elector) (epoch round : Z) (leader : NodeID) : Elector :=
  e <| leaders := insert2 epoch round leader (ensure epoch (leaders e)) |>.

(** The read also creates the inner map. *)
Definition Leader (e : Elector) (epoch round : Z) : Elector * NodeID :=
  let e := e <| leaders := ensure epoch (leaders e) |> in
  (e, default NONE (lookup2 (leaders e) epoch round)).

Definition AddShareVote (e : Elector) (share : ElectShare) :
    Outcome (Elector * (NodeID * option error)) :=
  let items := ensure (ElectShare_Epoch share) (electAggreators e) in
  let eA := default NewElectAggreator
              (lookup2 items (ElectShare_Epoch share) (ElectShare_Round share)) in
  '(eA, (node, err)) ← ElectAggreator_Append (el_committee e) (el_sigService e) share eA;
  let e := e <| electAggreators := insert2 (ElectShare_Epoch share) (ElectShare_Round share)
                                     eA items |> in
  match err with
  | Some _ => Ret (e, (NONE, None))
  | None =>
      let e := if node =? NONE then e
               else SetLeader e (ElectShare_Epoch share) (ElectShare_Round share) node in
      Ret (e, (node, None))
  end.
End Elector.

(** ** Specifications *)

Definition finish_err (v : Finish) : error :=
  ErrOneMoreMessage FinishType (Finish_Epoch v) (Finish_Round v) (Finish_Author v).
Definition done_err (v : Done) : error :=
  ErrOneMoreMessage DoneType (Done_Epoch v) (Done_Round v) (Done_Author v).
Definition prevote_err (v : Prevote) : error :=
  ErrOneMoreMessage PrevoteType (Prevote_Epoch v) (Prevote_Round v) (Prevote_Author v).
Definition finvote_err (v : FinVote) : error :=
  ErrOneMoreMessage FinVoteType (FinVote_Epoch v) (FinVote_Round v) (FinVote_Author v).

Definition is_no (v : Prevote) : bool := Prevote_Flag v =? VOTE_FLAG_NO.
Definition is_yes (v : FinVote) : bool := FinVote_Flag v =? VOTE_FLAG_YES.

(** The answer to a message given those of its round that count. *)
Definition finish_verdict (c : Committee) : list Finish -> Finish -> bool * option error :=
  count_verdict Finish_Author finish_err (HightThreshold c).
Definition done_verdict (c : Committee) : list Done -> Done -> Z * option error :=
  levels_verdict Done_Author done_err (LowThreshold c) (HightThreshold c).
Definition prevote_verdict (c : Committee) : list Prevote -> Prevote -> Z * option error :=
  first_yes_verdict Prevote_Author prevote_err is_no (HightThreshold c).
Definition finvote_verdict (c : Committee) : list FinVote -> FinVote -> Z * option error :=
  unanimity_verdict FinVote_Author finvote_err is_yes (HightThreshold c).

Section Specs.
Context (c : Committee).

(** *** The representation invariants *)

Definition finish_abs (i : FinishAggreator) (vs : list Finish) : Prop :=
  Finish_Authors i = voters Finish_Author vs.

Lemma mercury_finish_abs_append (i : FinishAggreator) (vs : list Finish) (v : Finish) :
  finish_abs i vs ->
  finish_abs (FinishAggreator_Append c v i).1 (vs ++ [v]) /\
  (FinishAggreator_Append c v i).2 = finish_verdict c vs v.
Proof.
  unfold finish_abs, FinishAggreator_Append, finish_verdict, count_verdict, hit. destruct i. cbn. intros ->.
  rewrite voters_snoc.
  destruct (bool_decide_reflect (Finish_Author v ∈ voters Finish_Author vs)); cbn.
  - done.
  - rewrite bool_decide_true by done. case_bool; done.
Qed.

Definition done_abs (i : DoneAggreator) (vs : list Done) : Prop :=
  Done_Authors i = voters Done_Author vs.

Lemma mercury_done_abs_append (i : DoneAggreator) (vs : list Done) (v : Done) :
  done_abs i vs ->
  done_abs (DoneAggreator_Append c v i).1 (vs ++ [v]) /\
  (DoneAggreator_Append c v i).2 = done_verdict c vs v.
Proof.
  unfold done_abs, DoneAggreator_Append, done_verdict, levels_verdict, hit. destruct i. cbn. intros ->.
  rewrite voters_snoc.
  destruct (bool_decide_reflect (Done_Author v ∈ voters Done_Author vs)); cbn.
  - done.
  - rewrite bool_decide_true by done.
    case_bool; [done|]. case_bool; done.
Qed.

Definition prevote_abs (i : PreVoteAggreator) (vs : list Prevote) : Prop :=
  pre_authors i = voters Prevote_Author vs /\
  pre_noNums i = tally Prevote_Author is_no vs /\
  pre_yesNums i = tally Prevote_Author (fun v => negb (is_no v)) vs /\
  pre_flag i = (0 <? tally Prevote_Author (fun v => negb (is_no v)) vs).

Lemma mercury_prevote_abs_append (i : PreVoteAggreator) (vs : list Prevote) (v : Prevote) :
  prevote_abs i vs ->
  prevote_abs (PreVoteAggreator_Append c v i).1 (vs ++ [v]) /\
  (PreVoteAggreator_Append c v i).2 = prevote_verdict c vs v.
Proof.
  unfold prevote_abs, PreVoteAggreator_Append, prevote_verdict, first_yes_verdict, hit.
  destruct i. cbn. intros (-> & -> & -> & ->). rewrite !tally_snoc, size_voters_snoc, voters_snoc.
  pose proof (tally_split Prevote_Author is_no vs) as Hsplit.
  pose proof (tally_nonneg Prevote_Author (fun v => negb (is_no v)) vs) as Hy.
  destruct (bool_decide_reflect (Prevote_Author v ∈ voters Prevote_Author vs)); cbn.
  - by rewrite !Z.add_0_r.
  - rewrite bool_decide_true by done. cbn. change (Prevote_Flag v =? VOTE_FLAG_NO) with (is_no v).
    destruct (is_no v); cbn; rewrite ?Z.add_0_r; repeat (case_bool; cbn);
      try lia; done.
Qed.

Definition finvote_abs (i : FinVoteAggreator) (vs : list FinVote) : Prop :=
  fin_authors i = voters FinVote_Author vs /\
  fin_yesNums i = tally FinVote_Author is_yes vs /\
  fin_noNums i = tally FinVote_Author (fun v => negb (is_yes v)) vs.

Lemma mercury_finvote_abs_append (i : FinVoteAggreator) (vs : list FinVote) (v : FinVote) :
  finvote_abs i vs ->
  finvote_abs (FinVoteAggreator_Append c v i).1 (vs ++ [v]) /\
  (FinVoteAggreator_Append c v i).2 = finvote_verdict c vs v.
Proof.
  unfold finvote_abs, FinVoteAggreator_Append, finvote_verdict, unanimity_verdict, hit.
  destruct i. cbn. intros (-> & -> & ->). rewrite !tally_snoc, size_voters_snoc, voters_snoc.
  pose proof (tally_split FinVote_Author is_yes vs) as Hsplit.
  pose proof (tally_nonneg FinVote_Author (fun v => negb (is_yes v)) vs) as Hno.
  pose proof (tally_nonneg FinVote_Author is_yes vs) as Hyes.
  destruct (bool_decide_reflect (FinVote_Author v ∈ voters FinVote_Author vs)); cbn.
  - by rewrite !Z.add_0_r.
  - rewrite bool_decide_true by done. cbn.
    change (FinVote_Flag v =? VOTE_FLAG_YES) with (is_yes v).
    destruct (is_yes v); cbn; rewrite ?Z.add_0_r; repeat (case_bool; cbn);
      try lia; done.
Qed.
End Specs.

(** ** Refinement of the specifications by the aggregators *)

(** The key of a message's aggregator. *)
Definition finish_key (f : Finish) : Z * Z := (Finish_Epoch f, Finish_Round f).
Definition done_key (d : Done) : Z * Z * Z := (Done_Epoch d, Done_Round d, Done_Try d).
Definition prevote_key (v : Prevote) : Z * Z * Z := (Prevote_Epoch v, Prevote_Round v, Prevote_Try v).
Definition finvote_key (v : FinVote) : Z * Z * Z := (FinVote_Epoch v, FinVote_Round v, FinVote_Try v).

(** Prove a run of one of the [Add...Vote] methods equal to its specification. *)
Ltac agg_run c field key new append abs_append :=
  rewrite (run_calls_field field (fun a => agg_committee a = c) _
    (fun m v => add_item3 m (key v).1.1 (key v).1.2 (key v).2 new (append c v)));
  [eapply run_verdicts; [apply add_item3_at_key|split; [|apply abs_append]; done|done]
  |done
  |intros a v Ha; rewrite <-Ha].

Lemma mercury_AddDoneVote_run (c : Committee) (ds : list Done) :
  (run_calls AddDoneVote (NewAggreator c) ds).2 =
  verdicts done_key (done_verdict c) [] ds.
Proof.
  agg_run c doneAggreator done_key NewDoneAggreator DoneAggreator_Append mercury_done_abs_append.
  unfold AddDoneVote. by destruct (add_item3 _ _ _ _ _ _).
Qed.

Lemma mercury_AddPreVote_run (c : Committee) (vs : list Prevote) :
  (run_calls AddPreVote (NewAggreator c) vs).2 =
  verdicts prevote_key (prevote_verdict c) [] vs.
Proof.
  agg_run c prevoteAggreator prevote_key NewPrevoteAggreator PreVoteAggreator_Append
    mercury_prevote_abs_append.
  unfold AddPreVote. by destruct (add_item3 _ _ _ _ _ _).
Qed.

Lemma mercury_AddFinVote_run (c : Committee) (vs : list FinVote) :
  (run_calls AddFinVote (NewAggreator c) vs).2 =
  verdicts finvote_key (finvote_verdict c) [] vs.
Proof.
  agg_run c finvoteAggreator finvote_key NewFinVoteAggreator FinVoteAggreator_Append
    mercury_finvote_abs_append.
  unfold AddFinVote. by destruct (add_item3 _ _ _ _ _ _).
Qed.

(** The aggregator of finishes has not counted the first one of a round. *)
Lemma mercury_AddFinishVote_run (c : Committee) (vs : list Finish) :
  (run_calls AddFinishVote (NewAggreator c) vs).2 =
  verdicts finish_key (fun prior => finish_verdict c (tail prior)) [] vs.
Proof.
  rewrite (run_calls_field finishAggreator (fun a => agg_committee a = c) _
    (fun m v => add_item_lost m (finish_key v).1 (finish_key v).2 NewFinishAggreator
                  (FinishAggreator_Append c v))).
  - eapply run_verdicts; [apply add_item_lost_at_key| |done].
    apply append_lost_refines. split; [|apply mercury_finish_abs_append]; done.
  - done.
  - intros a v Ha. rewrite <-Ha. unfold AddFinishVote. by destruct (add_item_lost _ _ _ _ _).
Qed.

(** ** What the aggregators decide *)

(** The answers of a fresh aggregator to the messages of one key. *)
Definition done_answers (c : Committee) (e r t : Z) (ds : list Done) : list (Z * option error) :=
  answers done_key (e, r, t) ds (run_calls AddDoneVote (NewAggreator c) ds).2.
Definition finish_answers (c : Committee) (e r : Z) (fs : list Finish) :
    list (bool * option error) :=
  answers finish_key (e, r) fs (run_calls AddFinishVote (NewAggreator c) fs).2.
Definition prevote_answers (c : Committee) (e r t : Z) (vs : list Prevote) :
    list (Z * option error) :=
  answers prevote_key (e, r, t) vs (run_calls AddPreVote (NewAggreator c) vs).2.
Definition finvote_answers (c : Committee) (e r t : Z) (vs : list FinVote) :
    list (Z * option error) :=
  answers finvote_key (e, r, t) vs (run_calls AddFinVote (NewAggreator c) vs).2.

(** The distinct authors of the messages of one (epoch, round). *)
Definition done_authors (e r t : Z) (ds : list Done) : gset NodeID :=
  voters Done_Author (at_key done_key (e, r, t) ds).
Definition finvote_authors (e r t : Z) (vs : list FinVote) : gset NodeID :=
  voters FinVote_Author (at_key finvote_key (e, r, t) vs).

(** The votes of the first [HightThreshold] authors of one key. *)
Definition prevote_quorum (c : Committee) (e r t : Z) (vs : list Prevote) : list Prevote :=
  quorum Prevote_Author (HightThreshold c) (at_key prevote_key (e, r, t) vs).
Definition finvote_quorum (c : Committee) (e r t : Z) (vs : list FinVote) : list FinVote :=
  quorum FinVote_Author (HightThreshold c) (at_key finvote_key (e, r, t) vs).
Definition prevote_authors (e r t : Z) (vs : list Prevote) : gset NodeID :=
  voters Prevote_Author (at_key prevote_key (e, r, t) vs).

(** C22. What the counters of one key answer, whatever messages of other keys arrive in
    between and however often authors repeat themselves.  Dones, prevotes and final
    votes are counted per epoch, round and try, by their different authors.  A Done counter
    answers [DONE_LOW_FLAG] once when [LowThreshold] authors are reached, and
    [DONE_HIGH_FLAG] once when a higher [HightThreshold] is.  Of prevotes the first yes is
    answered [ACTION_YES], and the completed quorum [ACTION_NO] if all of it are no.  Of
    final votes the completed quorum is answered [ACTION_COMMIT] if all of it are yes,
    [ACTION_NO] if all are no and [ACTION_YES] otherwise.  Each of these answers comes
    once at most.  Finishes are counted per epoch and round whatever their try, and in
    a committee of four or more their quorum is reported once, by the authors of all but
    the first message, which is lost. *)
Theorem mercury_counters (c : Committee) (e r t : Z) (ds : list Done) (fs : list Finish)
    (ps : list Prevote) (vs : list FinVote) :
  let once (P : Prop) `{Decision P} : nat := if decide P then 1%nat else 0%nat in
  let n := Z.of_nat (size (done_authors e r t ds)) in
  (times (DONE_LOW_FLAG, None) (done_answers c e r t ds) = once (LowThreshold c <= n) /\
   times (DONE_HIGH_FLAG, None) (done_answers c e r t ds) =
     once (LowThreshold c < HightThreshold c <= n)) /\
  (times (ACTION_YES, None) (prevote_answers c e r t ps) =
     once (0 < tally Prevote_Author (fun v => negb (is_no v)) (at_key prevote_key (e, r, t) ps)) /\
   times (ACTION_NO, None) (prevote_answers c e r t ps) =
     once (HightThreshold c <= Z.of_nat (size (prevote_authors e r t ps)) /\
           forallb is_no (prevote_quorum c e r t ps) = true)) /\
  (let m := Z.of_nat (size (finvote_authors e r t vs)) in
   let all_yes := forallb is_yes (finvote_quorum c e r t vs) in
   let all_no := forallb (fun v => negb (is_yes v)) (finvote_quorum c e r t vs) in
   times (ACTION_COMMIT, None) (finvote_answers c e r t vs) = once (HightThreshold c <= m /\ all_yes = true) /\
   times (ACTION_NO, None) (finvote_answers c e r t vs) = once (HightThreshold c <= m /\ all_no = true) /\
   times (ACTION_YES, None) (finvote_answers c e r t vs) =
     once (HightThreshold c <= m /\ negb all_yes && negb all_no = true)) /\
  (4 <= Committee_Size c ->
   times (true, None) (finish_answers c e r fs) =
     once (HightThreshold c <= Z.of_nat (size (voters Finish_Author (tail (at_key finish_key (e, r) fs)))))).
Proof.
  cbn zeta. pose proof (thresholds_pos c) as Hth. pose proof (max_faults_bounds c) as [_ Hf].
  pose proof (HightThreshold_eq c) as Hh.
  unfold done_answers, finish_answers, prevote_answers, finvote_answers, done_authors, prevote_authors,
    finvote_authors, prevote_quorum, finvote_quorum.
  rewrite mercury_AddDoneVote_run, mercury_AddFinishVote_run, mercury_AddPreVote_run,
    mercury_AddFinVote_run, !answers_verdicts.
  split_and!.
  - apply levels_low_once. lia.
  - apply levels_high_once. lia.
  - apply first_yes_once.
  - apply first_yes_none. lia.
  - apply unanimity_all. lia.
  - apply unanimity_none. lia.
  - apply unanimity_mixed. lia.
  - intros Hn. apply lost_count_once. lia.
Qed.

(** Agreement of the final vote: in a committee of [3f + 1] with at most [f]
    faulty members, if the first final votes of the correct members are the same
    at two nodes, then one node deciding [ACTION_COMMIT] excludes the other deciding
    [ACTION_NO], whatever the faulty members send to each of them. *)
Theorem mercury_finvote_agreement (c : Committee) (B : gset NodeID) (e r t : Z)
    (vs ws : list FinVote) :
  Committee_Size c = 3 * max_faults c + 1 ->
  Z.of_nat (size B) <= max_faults c ->
  finvote_authors e r t vs ⊆ members c -> finvote_authors e r t ws ⊆ members c ->
  (forall v w, v ∈ firsts FinVote_Author (at_key finvote_key (e, r, t) vs) ->
     w ∈ firsts FinVote_Author (at_key finvote_key (e, r, t) ws) ->
     FinVote_Author v = FinVote_Author w -> FinVote_Author v ∉ B ->
     FinVote_Flag v = FinVote_Flag w) ->
  (ACTION_COMMIT, None) ∈ finvote_answers c e r t vs ->
  (ACTION_NO, None) ∈ finvote_answers c e r t ws -> False.
Proof.
  unfold finvote_authors, finvote_answers. rewrite !mercury_AddFinVote_run, !answers_verdicts.
  intros Hn HB Hvs Hws Hsame. eapply unanimity_agreement; try done.
  intros v w Hv Hw Ha Hb. unfold is_yes. by rewrite (Hsame v w Hv Hw Ha Hb).
Qed.

(** ** The elector *)

Section ElectorSpec.
Context {K : Kyber} `{!KyberLaws K}.

Lemma mercury_ElectAggreator_Append_spec (c : Committee) (srv : SigService) (share : ElectShare)
    (e : ElectAggreator) :
  0 < Committee_Size c ->
  exists e' node err, ElectAggreator_Append c srv share e = Ret (e', (node, err)) /\
    (node = NONE \/
     exists coin, CombineIntactTSPartial (shares e') (ShareKey srv) (ElectShare_Hash share)
                  = Some coin /\
       err = None /\ coin_leader c coin = Some node /\ 0 <= node < Committee_Size c).
Proof using Type*.
  intros Hn. unfold ElectAggreator_Append. case_bool_decide; [by eauto 10|]. cbn zeta.
  case_bool; [|by eauto 10].
  edestruct combine_leader_spec as (node & err & -> & Hnode); [done|]. cbn. eauto 10.
Qed.

Lemma mercury_AddShareVote_spec (e : Elector) (share : ElectShare) :
  0 < Committee_Size (el_committee e) ->
  exists e' node, AddShareVote e share = Ret (e', (node, None)) /\
    el_committee e' = el_committee e /\ el_sigService e' = el_sigService e /\
    ((node = NONE /\ leaders e' = leaders e) \/
     (e' = SetLeader (e <| electAggreators := electAggreators e' |>)
             (ElectShare_Epoch share) (ElectShare_Round share) node /\
      0 <= node < Committee_Size (el_committee e) /\
      exists l coin, CombineIntactTSPartial l (ShareKey (el_sigService e)) (ElectShare_Hash share)
                     = Some coin /\ coin_leader (el_committee e) coin = Some node)).
Proof using Type*.
  intros Hn. unfold AddShareVote. rewrite lookup2_ensure.
  destruct (mercury_ElectAggreator_Append_spec (el_committee e) (el_sigService e) share
    (default NewElectAggreator (lookup2 (electAggreators e) (ElectShare_Epoch share)
       (ElectShare_Round share))) Hn) as (eA & node & err & -> & Hnode). cbn.
  destruct Hnode as [->|(coin & Hc & -> & Hl & Hr)].
  - destruct err; cbn; eauto 10.
  - rewrite (proj2 (Z.eqb_neq _ _)) by (unfold NONE; lia).
    do 2 eexists. split_and!; [done..|]. right. split; [done|]. eauto.
Qed.

(** *** Runs of the elector *)

(** [AddShareVote] on a sequence of shares: the leaders it returned. *)
Fixpoint add_shares (e : Elector) (ss : list ElectShare) : Outcome (Elector * list NodeID) :=
  match ss with
  | [] => Ret (e, [])
  | s :: ss' =>
      '(e, (node, _)) ← AddShareVote e s;
      '(e, nodes) ← add_shares e ss';
      Ret (e, node :: nodes)
  end.

Definition share_key (s : ElectShare) : Z * Z := (ElectShare_Epoch s, ElectShare_Round s).

(** [ElectAggreator_Append] as the elector uses it: an error is no leader. *)
Definition elect_append (c : Committee) (srv : SigService) (s : ElectShare) (e : ElectAggreator) :
    ElectAggreator * NodeID :=
  match ElectAggreator_Append c srv s e with
  | Ret (e', (node, None)) => (e', node)
  | Ret (e', (_, Some _)) => (e', NONE)
  | Panic => (e, NONE)
  end.

(** The leader returned with a share, given the shares of the round before it:
    only the share that completes the quorum can return one. *)
Definition share_verdict (c : Committee) (srv : SigService) (prior : list ElectShare)
    (s : ElectShare) : NodeID :=
  if hit ElectShare_Author (HightThreshold c) prior s then
    match combine_leader c srv (ElectShare_SigShare <$> firsts ElectShare_Author (prior ++ [s]))
            (ElectShare_Hash s) with
    | Ret (node, None) => node
    | _ => NONE
    end
  else NONE.

Definition elect_abs (i : ElectAggreator) (ss : list ElectShare) : Prop :=
  elect_authors i = voters ElectShare_Author ss /\
  shares i = ElectShare_SigShare <$> firsts ElectShare_Author ss.

Lemma mercury_elect_abs_append (c : Committee) (srv : SigService) (i : ElectAggreator)
    (ss : list ElectShare) (s : ElectShare) :
  0 < Committee_Size c -> elect_abs i ss ->
  elect_abs (elect_append c srv s i).1 (ss ++ [s]) /\
  (elect_append c srv s i).2 = share_verdict c srv ss s.
Proof using Type*.
  intros Hn [Ha Hs]. unfold elect_abs, elect_append, ElectAggreator_Append, share_verdict.
  rewrite Ha, Hs, voters_snoc, firsts_snoc.
  destruct (bool_decide_reflect (ElectShare_Author s ∈ voters ElectShare_Author ss)) as [Hin|Hin].
  - rewrite hit_seen, app_nil_r by done. done.
  - cbn [shares]. rewrite hit_new, size_voters_snoc, bool_decide_false by done.
    rewrite length_app, length_fmap, length_firsts, fmap_app. cbn [length fmap list_fmap].
    rewrite Nat.add_1_r. case_bool; [|done].
    destruct (combine_leader_spec c srv
      ((ElectShare_SigShare <$> firsts ElectShare_Author ss) ++ [ElectShare_SigShare s])
      (ElectShare_Hash s) Hn) as (node & err & Hc & _).
    rewrite Hc. cbn. by destruct err.
Qed.

Lemma mercury_AddShareVote_step (e : Elector) (s : ElectShare) :
  0 < Committee_Size (el_committee e) ->
  exists e' node, AddShareVote e s = Ret (e', (node, None)) /\
    el_committee e' = el_committee e /\ el_sigService e' = el_sigService e /\
    (electAggreators e', node) =
      add_item (electAggreators e) (share_key s).1 (share_key s).2 NewElectAggreator
        (elect_append (el_committee e) (el_sigService e) s).
Proof using Type*.
  intros Hn. unfold AddShareVote, add_item, elect_append. cbn [share_key fst snd].
  destruct (mercury_ElectAggreator_Append_spec (el_committee e) (el_sigService e) s
    (default NewElectAggreator (lookup2 (ensure (ElectShare_Epoch s) (electAggreators e))
       (ElectShare_Epoch s) (ElectShare_Round s))) Hn) as (eA & node & err & -> & Hnode). cbn.
  destruct err as [err|]; [by eauto 10|]. case_bool; by eauto 10.
Qed.

Lemma mercury_add_shares_run (e : Elector) (ss : list ElectShare) :
  0 < Committee_Size (el_committee e) ->
  exists e', add_shares e ss = Ret (e', (run_calls (fun m s =>
    add_item m (share_key s).1 (share_key s).2 NewElectAggreator
      (elect_append (el_committee e) (el_sigService e) s)) (electAggreators e) ss).2).
Proof using Type*.
  revert e. induction ss as [|s ss IH]; intros e Hn; cbn [add_shares run_calls]; [by eauto|].
  destruct (mercury_AddShareVote_step e s Hn) as (e1 & node & -> & Hc & Hs & Hr).
  rewrite <-Hr. cbn. destruct (IH e1) as [e2 ->]; [by rewrite Hc|]. rewrite Hc, Hs.
  destruct (run_calls _ _ _) as [m ns]. cbn. by eauto.
Qed.

End ElectorSpec.

(** In a nonempty committee the elector answers every sequence of shares, and
    among the shares of one (epoch, round), whatever their tries, at most one is
    answered with a leader.  Only such an answer makes the core vote on the leader,
    so a second try of a round is never voted on. *)
Theorem mercury_leader_once {K : Kyber} `{!KyberLaws K} (c : Committee) (srv : SigService)
    (ss : list ElectShare) :
  0 < Committee_Size c ->
  exists e nodes, add_shares (NewElector srv c) ss = Ret (e, nodes) /\
    length nodes = length ss /\
    forall epoch round,
      Z.of_nat (length (filter (fun node => negb (node =? NONE) = true)
        (answers share_key (epoch, round) ss nodes))) <= 1.
Proof.
  intros Hn. destruct (mercury_add_shares_run (NewElector srv c) ss Hn) as [e He].
  rewrite (run_verdicts look2 share_key NewElectAggreator (elect_append c srv) _ elect_abs
    (share_verdict c srv)) in He.
  - do 2 eexists. split_and!; [exact He|apply length_verdicts|]. intros epoch round.
    rewrite answers_verdicts. apply (Nat2Z.inj_le _ 1), (hit_most ElectShare_Author _ _ (HightThreshold c)).
    intros h s. unfold share_verdict. by destruct (hit _ _ _ _).
  - apply add_item_at_key.
  - split; [done|]. intros. by apply mercury_elect_abs_append.
  - done.
Qed.

(** ** Witnesses *)

Section Witness.
Import ToyCrypto ToyNode.

Definition toy_sig : Signature := mkSignature [].
Definition toy_fin (a try flag : Z) : FinVote := mkFinVote a 0 0 0 try flag Digest0 toy_sig.
Definition toy_share (a : nat) (try : Z) : ElectShare :=
  let m := ElectShare_Hash (mkElectShare (Z.of_nat a) 0 0 try (mkSignatureShare [])) in
  mkElectShare (Z.of_nat a) 0 0 try (mkSignatureShare (byteZ (Z.of_nat a) :: m)).

Lemma mercury_counters_witness :
  times (DONE_LOW_FLAG, None) (done_answers (toy_committee 4) 0 0 1
    [mkDone 2 0 0 1 toy_sig; mkDone 2 0 0 1 toy_sig; mkDone 3 0 0 0 toy_sig;
     mkDone 3 0 0 1 toy_sig]) = 1%nat /\
  times (ACTION_YES, None) (finvote_answers (toy_committee 4) 0 0 1
    [toy_fin 3 1 0; toy_fin 3 1 1; toy_fin 0 0 0; toy_fin 1 1 1; toy_fin 0 1 0]) = 1%nat.
Proof.
  destruct (mercury_counters (toy_committee 4) 0 0 1
    [mkDone 2 0 0 1 toy_sig; mkDone 2 0 0 1 toy_sig; mkDone 3 0 0 0 toy_sig; mkDone 3 0 0 1 toy_sig] [] []
    [toy_fin 3 1 0; toy_fin 3 1 1; toy_fin 0 0 0; toy_fin 1 1 1; toy_fin 0 1 0])
    as ((Hd & _) & _ & (_ & _ & Hf) & _).
  split; [refine (eq_trans Hd _)|refine (eq_trans Hf _)]; vm_compute; reflexivity.
Defined.

Definition toy_same (v w : FinVote) : bool :=
  negb (FinVote_Author v =? FinVote_Author w) || (FinVote_Author v =? 3) ||
  (FinVote_Flag v =? FinVote_Flag w).

(** Node 3 votes yes towards one node and no towards the other in try 1. *)
Lemma mercury_finvote_agreement_witness :
  (ACTION_COMMIT, None) ∈
    finvote_answers (toy_committee 4) 0 0 1 [toy_fin 3 1 0; toy_fin 0 1 0; toy_fin 1 1 0] /\
  ((ACTION_NO, None) ∈
    finvote_answers (toy_committee 4) 0 0 1 [toy_fin 3 1 1; toy_fin 0 1 0; toy_fin 2 1 0] -> False).
Proof.
  assert ((ACTION_COMMIT, None) ∈
    finvote_answers (toy_committee 4) 0 0 1 [toy_fin 3 1 0; toy_fin 0 1 0; toy_fin 1 1 0]) as Hc.
  { apply (bool_decide_eq_true_1 _). vm_compute. reflexivity. }
  split; [exact Hc|].
  apply (mercury_finvote_agreement (toy_committee 4) {[3]} 0 0 1
    [toy_fin 3 1 0; toy_fin 0 1 0; toy_fin 1 1 0]);
    [vm_compute; reflexivity|vm_compute; discriminate|..].
  - apply (bool_decide_eq_true_1 _). vm_compute. reflexivity.
  - apply (bool_decide_eq_true_1 _). vm_compute. reflexivity.
  - intros v w Hv Hw Ha HB.
    assert (toy_same v w = true) as H.
    { eapply (forallb_pairs toy_same); [|exact Hv|exact Hw]. vm_compute. reflexivity. }
    unfold toy_same in H.
    rewrite Ha, Z.eqb_refl in H. cbn in H. apply orb_true_iff in H as [H|H].
    + exfalso. apply Z.eqb_eq in H. apply HB. rewrite Ha, H. by apply elem_of_singleton.
    + by apply Z.eqb_eq.
  - exact Hc.
Defined.

(** The shares of try 0 elect; those of try 1 do not. *)
Definition toy_tries : list ElectShare :=
  ((fun a => toy_share a 0) <$> [0; 1; 2; 3]%nat) ++
  ((fun a => toy_share a 1) <$> [0; 1; 2; 3]%nat).

Lemma mercury_leader_once_witness :
  exists e nodes, add_shares (NewElector (toy_service 4 0) (toy_committee 4)) toy_tries =
      Ret (e, nodes) /\ length nodes = 8%nat /\
    forall epoch round,
      Z.of_nat (length (filter (fun node => negb (node =? NONE) = true)
        (answers share_key (epoch, round) toy_tries nodes))) <= 1.
Proof. apply (mercury_leader_once (toy_committee 4) (toy_service 4 0) toy_tries). vm_compute. done. Defined.

End Witness.
