(* ===== verification/MercuryCommitor.v ===== *)
(** * mercury: ordered delivery

    Models src/core/mercury/consensus/commitor.go.  A committed block first
    delivers the blocks it refers to that the store knows and that were not
    delivered yet.  The commitor reads the store of the core, which is an argument
    and a result here.  [commitCh] is the sequence of blocks sent on the channel of
    that name; [run] consumes it.  The theorems say that the calls return, that the
    delivered sequence is a function of the chain of committed blocks and of what
    the store answers when each of them is delivered, and that nodes whose stores differ
    deliver different sequences. *)

From S2P Require Import Prelude GoStd Crypto Committee Store Pool MercuryMessage.

Open Scope Z_scope.

Record Committor := mkCommittor {
  Index : Z;
  Blocks : gmap Z Block;
  commitCh : list Block;
  isCommitFlag : gset Z
}.
#[export] Instance Committor_eta : Settable Committor := fun c =>
  mkCommittor (Index c) (Blocks c) (commitCh c) (isCommitFlag c).

Definition NewCommittor : Committor := mkCommittor 0 ∅ [] ∅.

Definition batch_id (b : Block) : Z := Batch_ID (Block_Batch b).
(** [b.Batch.Txs != nil] *)
Definition has_txs (b : Block) : bool :=
  match Batch_Txs (Block_Batch b) with Some _ => true | None => false end.

Section Commitor.
Context {db : Type} `{HDB : DB db} {GB : GobBlock}.

(** One turn of the loop over [b.Reference]. *)
Definition commit_reference (st : Store db * (gset Z * list Block)) (d : Digest) :
    Store db * (gset Z * list Block) :=
  let '(store, (flags, blocks)) := st in
  let '(store, (val, err)) := Store_Read store d in
  match err with
  | Some _ => (store, (flags, blocks))
  | None =>
      match Block_Decode val with
      | None => (store, (flags, blocks))
      | Some temp =>
          if has_txs temp && negb (bool_decide (batch_id temp ∈ flags))
          then (store, ({[batch_id temp]} ∪ flags, blocks ++ [temp]))
          else (store, (flags, blocks))
      end
  end.

(** The blocks sent for [b]: the new ones it refers to, then [b] itself. *)
Definition commit_blocks (store : Store db) (flags : gset Z) (b : Block) :
    Store db * (gset Z * list Block) :=
  let '(store, (flags, blocks)) := foldl commit_reference (store, (flags, [])) (Reference b) in
  if has_txs b then (store, ({[batch_id b]} ∪ flags, blocks ++ [b])) else (store, (flags, blocks)).

(** The loop of [Commit]; [None] when the fuel does not suffice. *)
Fixpoint commit_loop (fuel : nat) (store : Store db) (c : Committor) :
    option (Store db * Committor) :=
  match fuel with
  | O => None
  | S fuel =>
      match Blocks c !! Index c with
      | Some b =>
          let '(store, (flags, blocks)) := commit_blocks store (isCommitFlag c) b in
          commit_loop fuel store
            (mkCommittor (int64 (Index c + 1)) (delete (Index c) (Blocks c)) (commitCh c ++ blocks)
               flags)
      | None => Some (store, c)
      end
  end.

(** A nil block is dereferenced.  Every iteration removes a block, so one more
    than the number of blocks is enough fuel ([mercury_Commit_returns]). *)
Definition Commit (store : Store db) (c : Committor) (block : option Block) :
    Outcome (Store db * Committor) :=
  match block with
  | None => Panic
  | Some block =>
      if Block_Epoch block <? Index c then Ret (store, c)
      else
        let c := c <| Blocks := <[Block_Epoch block := block]> (Blocks c) |> in
        match commit_loop (S (size (Blocks c))) store c with
        | Some r => Ret r
        | None => Panic
        end
  end.

(** The consumer: a line (epoch, proposer, batch id) is logged for a block with
    transactions, and every block signals [callBack]. *)
Definition run_step (st : list (Z * NodeID * Z) * nat) (block : Block) :
    list (Z * NodeID * Z) * nat :=
  let '(lines, callbacks) := st in
  (if has_txs block then lines ++ [(Block_Epoch block, Proposer block, batch_id block)] else lines,
   S callbacks).
Definition Committor_run (blocks : list Block) : list (Z * NodeID * Z) * nat :=
  foldl run_step ([], 0%nat) blocks.

(** Calls of [Commit], each with the content the database has at that time. *)
Fixpoint commit_calls (c : Committor) (calls : list (db * Block)) : Outcome Committor :=
  match calls with
  | [] => Ret c
  | (d, b) :: calls' => '(_, c') ← Commit (NewStore d) c (Some b); commit_calls c' calls'
  end.

(** ** Termination *)

Lemma mercury_commit_loop_fuel (fuel : nat) (store : Store db) (c : Committor) :
  (size (Blocks c) < fuel)%nat -> exists r, commit_loop fuel store c = Some r.
Proof.
  revert store c. induction fuel as [|fuel IH]; intros store c Hf; [lia|]. cbn.
  destruct (Blocks c !! Index c) as [b|] eqn:Eb; [|eauto].
  destruct (commit_blocks _ _ _) as [store' [flags blocks]].
  apply IH. cbn. rewrite map_size_delete_Some by by eexists.
  assert (size (Blocks c) <> 0%nat); [|lia].
  intros H0%map_size_empty_iff. by rewrite H0 in Eb.
Qed.

Lemma mercury_Commit_returns (store : Store db) (c : Committor) (b : Block) :
  exists r, Commit store c (Some b) = Ret r.
Proof.
  unfold Commit. case_bool; [eauto|]. cbn zeta.
  edestruct mercury_commit_loop_fuel as [r Hr]; [|rewrite Hr; eauto]. cbn. lia.
Qed.

Lemma mercury_commit_calls_return (c : Committor) (calls : list (db * Block)) :
  exists c', commit_calls c calls = Ret c'.
Proof.
  revert c. induction calls as [|[d b] calls IH]; intros c; cbn [commit_calls]; [eauto|].
  destruct (mercury_Commit_returns (NewStore d) c b) as [[store c1] ->]. apply IH.
Qed.

Lemma mercury_commit_loop_prefix (fuel : nat) (store store' : Store db) (c c' : Committor) :
  commit_loop fuel store c = Some (store', c') -> commitCh c `prefix_of` commitCh c'.
Proof.
  revert store c. induction fuel as [|fuel IH]; intros store c; cbn; [done|].
  destruct (Blocks c !! Index c) as [b|]; [|by intros [= <- <-]].
  destruct (commit_blocks _ _ _) as [store1 [flags blocks]].
  intros Hl%IH. cbn in Hl. etrans; [|exact Hl]. by apply prefix_app_r.
Qed.

Lemma mercury_Commit_prefix (store store' : Store db) (c c' : Committor) (b : option Block) :
  Commit store c b = Ret (store', c') -> commitCh c `prefix_of` commitCh c'.
Proof.
  unfold Commit. destruct b as [b|]; [|done]. case_bool; [by intros [= <- <-]|]. cbn zeta.
  destruct (commit_loop _ _ _) as [[s1 c1]|] eqn:El; [|done]. intros [= <- <-].
  by apply mercury_commit_loop_prefix in El.
Qed.

(** ** The ledger *)

(** The block with transactions the database has under a digest. *)
Definition resolve (d : db) (h : Digest) : option Block :=
  match db_Get d h with
  | (val, None) => b ← Block_Decode val; if has_txs b then Some b else None
  | (_, Some _) => None
  end.

(** What a chain of committed blocks delivers when references are looked up by
    [res]: the flags set and the sequence of blocks. *)
Definition expand_ref (res : Digest -> option Block) (st : gset Z * list Block) (h : Digest) :
    gset Z * list Block :=
  match res h with
  | Some b => if bool_decide (batch_id b ∈ st.1) then st else ({[batch_id b]} ∪ st.1, st.2 ++ [b])
  | None => st
  end.
Definition expand (res : Digest -> option Block) (flags : gset Z) (b : Block) :
    gset Z * list Block :=
  let st := foldl (expand_ref res) (flags, []) (Reference b) in
  if has_txs b then ({[batch_id b]} ∪ st.1, st.2 ++ [b]) else st.
Definition ledger_step (res : Digest -> option Block) (st : gset Z * list Block) (b : Block) :
    gset Z * list Block :=
  let r := expand res st.1 b in (r.1, st.2 ++ r.2).
Definition ledger (res : Digest -> option Block) (chain : list Block) : gset Z * list Block :=
  foldl (ledger_step res) (∅, []) chain.

Lemma commit_blocks_expand (d : db) (flags : gset Z) (b : Block) :
  commit_blocks (mkStore d []) flags b = (mkStore d [], expand (resolve d) flags b).
Proof.
  unfold commit_blocks, expand.
  assert (forall st hs, foldl commit_reference (mkStore d [], st) hs =
    (mkStore d [], foldl (expand_ref (resolve d)) st hs)) as Hfold.
  { intros st hs. revert st. induction hs as [|h hs IH]; intros [fl bl]; cbn [foldl]; [done|].
    rewrite <-IH. f_equal. unfold commit_reference, expand_ref, resolve.
    rewrite Store_Read_idle. destruct (db_Get d h) as [val [err|]]; [done|].
    destruct (Block_Decode val) as [temp|]; [|done]. cbn.
    destruct (has_txs temp); cbn; [|done]. by case_bool_decide. }
  rewrite Hfold. destruct (foldl _ _ _) as [fl bl]. by destruct (has_txs b).
Qed.

Lemma expand_ext (res res' : Digest -> option Block) (flags : gset Z) (b : Block) :
  (forall h, h ∈ Reference b -> res h = res' h) -> expand res flags b = expand res' flags b.
Proof.
  intros Hr. unfold expand. generalize (flags, @nil Block).
  assert (forall st, foldl (expand_ref res) st (Reference b) =
    foldl (expand_ref res') st (Reference b)) as Hf; [|intros st; by rewrite Hf].
  induction (Reference b) as [|h hs IH]; intros st; cbn [foldl]; [done|].
  unfold expand_ref at 2 4. rewrite (Hr h) by set_solver. apply IH. intros. apply Hr. set_solver.
Qed.

(** What a chain delivers whose blocks were delivered while the database had different
    contents. *)
Definition delivered (chain : list (db * Block)) : gset Z * list Block :=
  foldl (fun st x => ledger_step (resolve x.1) st x.2) (∅, []) chain.

Lemma delivered_snoc (chain : list (db * Block)) (d : db) (b : Block) :
  delivered (chain ++ [(d, b)]) = ledger_step (resolve d) (delivered chain) b.
Proof. unfold delivered. by rewrite foldl_app. Qed.

(** Contents that answer alike make no difference. *)
Lemma delivered_ledger (res : Digest -> option Block) (chain : list (db * Block)) :
  (forall x h, x ∈ chain -> h ∈ Reference x.2 -> resolve x.1 h = res h) ->
  delivered chain = ledger res chain.*2.
Proof.
  induction chain as [|[d b] chain IH] using rev_ind; intros Hr; [done|].
  rewrite delivered_snoc, IH by (intros; apply Hr; set_solver). rewrite fmap_app. cbn.
  unfold ledger at 2. rewrite foldl_app. cbn. fold (ledger res chain.*2). unfold ledger_step.
  rewrite (expand_ext _ res); [done|]. intros h Hh. apply (Hr (d, b)); [set_solver|done].
Qed.

Lemma ledger_snoc (res : Digest -> option Block) (chain : list Block) (b : Block) :
  ledger res (chain ++ [b]) = ledger_step res (ledger res chain) b.
Proof. unfold ledger. by rewrite foldl_app. Qed.

Lemma ledger_prefix (res : Digest -> option Block) (chain1 chain2 : list Block) :
  chain1 `prefix_of` chain2 -> (ledger res chain1).2 `prefix_of` (ledger res chain2).2.
Proof.
  intros [l ->]. induction l as [|b l IH] using rev_ind; [by rewrite app_nil_r|].
  rewrite app_assoc, ledger_snoc. etrans; [exact IH|]. by apply prefix_app_r.
Qed.

(** ** The invariant *)

(** Epochs below the last 64-bit integer: [Index] does not wrap. *)
Definition epoch_ok (b : Block) : Prop := Block_Epoch b < 2 ^ 63 - 1.

(** [c] after commits of the blocks [bs], of which it has delivered [chain], each block with
    the content of the database at that time, up to the loop still having to run. *)
Record commit_inv (bs : list Block) (chain : list (db * Block)) (c : Committor) : Prop := {
  mi_index : Index c = Z.of_nat (length chain);
  mi_ledger : (isCommitFlag c, commitCh c) = delivered chain;
  mi_sent : forall (k : nat) x, chain !! k = Some x -> Block_Epoch x.2 = Z.of_nat k /\ x.2 ∈ bs;
  mi_blocks : forall i b, Blocks c !! i = Some b -> Block_Epoch b = i /\ b ∈ bs /\ Index c <= i;
  mi_kept : forall b, b ∈ bs -> 0 <= Block_Epoch b ->
    Block_Epoch b < Index c \/ is_Some (Blocks c !! Block_Epoch b)
}.

Lemma mercury_commit_inv_loop (bs : list Block) (chain : list (db * Block)) (fuel : nat) (d : db)
    (store : Store db) (c c' : Committor) :
  Forall epoch_ok bs -> commit_inv bs chain c ->
  commit_loop fuel (mkStore d []) c = Some (store, c') ->
  exists l, commit_inv bs (chain ++ l) c' /\ Blocks c' !! Index c' = None /\ Forall (fun x => x.1 = d) l.
Proof.
  intros Hok. revert chain c. induction fuel as [|fuel IH]; intros chain c Hinv; [done|]. cbn.
  destruct (Blocks c !! Index c) as [b|] eqn:Eb; [|intros [= <- <-]; exists []; by rewrite app_nil_r].
  rewrite commit_blocks_expand. destruct Hinv as [Hi Hl Hs Hb Hk].
  destruct (Hb _ _ Eb) as (Hbe & Hbin & _).
  destruct (expand (resolve d) (isCommitFlag c) b) as [flags blocks] eqn:Ex. intros Hloop.
  destruct (IH (chain ++ [(d, b)])
    (mkCommittor (int64 (Index c + 1)) (delete (Index c) (Blocks c)) (commitCh c ++ blocks) flags))
    as (l & Hinv & Hgap & Hd); [|exact Hloop|exists ((d, b) :: l); rewrite <-app_assoc in Hinv; by auto].
  rewrite Forall_forall in Hok. pose proof (Hok b Hbin) as Hbok. unfold epoch_ok in Hbok.
  assert (int64 (Index c + 1) = Index c + 1) as Hw by (apply int64_id; unfold in_int64; lia).
  split; cbn; rewrite ?Hw.
  - rewrite length_app. cbn. lia.
  - rewrite delivered_snoc, <-Hl. unfold ledger_step. cbn. by rewrite Ex.
  - intros k x [Hlk|[Hge Hlk]]%lookup_app_Some; [by apply Hs|].
    apply list_lookup_singleton_Some in Hlk as [Hlk <-]. cbn. split; [lia|done].
  - intros i b' [Hne Hlk]%lookup_delete_Some. destruct (Hb i b' Hlk) as (-> & ? & ?).
    split_and!; [done..|lia].
  - intros b' Hb' H0. destruct (Hk b' Hb' H0) as [Hlt|Hsome]; [lia|].
    destruct (decide (Block_Epoch b' = Index c)) as [->|Hne]; [lia|].
    right. by rewrite lookup_delete_ne.
Qed.

Lemma mercury_commit_inv_step (bs : list Block) (chain : list (db * Block)) (d : db) (b : Block)
    (store : Store db) (c c' : Committor) :
  Forall epoch_ok (bs ++ [b]) -> commit_inv bs chain c -> Blocks c !! Index c = None ->
  Commit (NewStore d) c (Some b) = Ret (store, c') ->
  exists l, commit_inv (bs ++ [b]) (chain ++ l) c' /\ Blocks c' !! Index c' = None /\
    Forall (fun x => x.1 = d) l.
Proof.
  intros Hok [Hi Hl Hs Hb Hk] Hgap. unfold Commit. case_bool.
  - intros [= <- <-]. exists []. rewrite app_nil_r. split; [|done]. split; [done..| | |].
    + intros k x Hlk. destruct (Hs k x Hlk). set_solver.
    + intros i b' Hlk. destruct (Hb i b' Hlk). set_solver.
    + intros b'. rewrite elem_of_app, list_elem_of_singleton. intros [Hin| ->]; auto.
  - cbn zeta. destruct (commit_loop _ _ _) as [[s1 c1]|] eqn:El; [|done]. intros [= <- <-].
    eapply mercury_commit_inv_loop; [done| |exact El]. split; cbn; [done|exact Hl|..].
    + intros k x Hlk. destruct (Hs k x Hlk). set_solver.
    + intros i b'. rewrite lookup_insert_Some. intros [[<- <-]|[Hne Hlk]].
      * split_and!; [done|set_solver|done].
      * destruct (Hb i b' Hlk) as (? & ? & ?). split_and!; [done|set_solver|done].
    + intros b'. rewrite elem_of_app, list_elem_of_singleton, lookup_insert_is_Some'.
      intros [Hin| ->] H0; [|by auto]. destruct (Hk b' Hin H0); auto.
Qed.

(** There is a block for every epoch up to [k]. *)
Definition covered (bs : list Block) (k : nat) : Prop :=
  forall j : nat, (j <= k)%nat -> exists b, b ∈ bs /\ Block_Epoch b = Z.of_nat j.

(** The chain is as long as the epochs are covered. *)
Lemma commit_inv_covered (bs : list Block) (chain : list (db * Block)) (c : Committor) (k : nat) :
  commit_inv bs chain c -> Blocks c !! Index c = None -> (k < length chain)%nat <-> covered bs k.
Proof.
  intros [Hi Hl Hs Hb Hk] Hgap. split.
  - intros Hlt j Hj. destruct (lookup_lt_is_Some_2 chain j) as [x Hlk]; [lia|].
    exists x.2. by destruct (Hs j x Hlk).
  - intros Hall. destruct (decide (k < length chain)%nat) as [|Hge]; [done|exfalso].
    destruct (Hall (length chain)) as (b & Hin & Heb); [lia|].
    destruct (Hk b Hin) as [Hlt|[x Hx]]; [lia|lia|]. by rewrite Heb, <-Hi, Hgap in Hx.
Qed.

(** The call that completes the epochs up to [k]. *)
Definition completes (calls : list (db * Block)) (k : nat) (d : db) : Prop :=
  exists (i : nat) b, calls !! i = Some (d, b) /\ covered (take (S i) calls).*2 k /\
    ~ covered (take i calls).*2 k.

Lemma completes_app (calls calls' : list (db * Block)) (k : nat) (d : db) :
  completes calls k d -> completes (calls ++ calls') k d.
Proof.
  intros (i & b & Hi & Hc & Hn). exists i, b. pose proof (lookup_lt_Some _ _ _ Hi).
  split_and!; [by apply lookup_app_l_Some|..]; by rewrite take_app_le by lia.
Qed.

Lemma commit_calls_snoc (c c' : Committor) (calls : list (db * Block)) (d : db) (b : Block) :
  commit_calls c (calls ++ [(d, b)]) = Ret c' -> exists c1 store,
    commit_calls c calls = Ret c1 /\ Commit (NewStore d) c1 (Some b) = Ret (store, c').
Proof.
  revert c. induction calls as [|[d0 b0] calls IH]; intros c; cbn [commit_calls app].
  - destruct (Commit (NewStore d) c (Some b)) as [[s1 c1]|] eqn:Ec; cbn [mbind Outcome_bind]; [intros [= ->]; eauto|discriminate].
  - destruct (Commit (NewStore d0) c (Some b0)) as [[s1 c1]|]; cbn [mbind Outcome_bind]; [apply IH|discriminate].
Qed.

Lemma mercury_commit_inv_calls (calls : list (db * Block)) (c : Committor) :
  Forall epoch_ok calls.*2 -> commit_calls NewCommittor calls = Ret c ->
  exists chain, commit_inv calls.*2 chain c /\ Blocks c !! Index c = None /\
    forall k x, chain !! k = Some x -> completes calls k x.1.
Proof.
  revert c. induction calls as [|[d b] calls IH] using rev_ind; intros c Hok Hall.
  { injection Hall as <-. exists []. split_and!; [|done|done].
    split; cbn; try done. intros b Hb. by apply elem_of_nil in Hb. }
  apply commit_calls_snoc in Hall as (c1 & store & Hall & Hc). rewrite fmap_app in *. cbn in *.
  destruct (IH c1) as (chain & Hinv & Hgap & Hcomp); [by apply Forall_app in Hok as [? _]|done|].
  destruct (mercury_commit_inv_step _ _ _ _ _ _ _ Hok Hinv Hgap Hc) as (l & Hinv' & Hgap' & Hd).
  exists (chain ++ l). split_and!; [done|done|]. intros k x Hk.
  destruct (decide (k < length chain)%nat) as [Hlt|Hge].
  { rewrite lookup_app_l in Hk by done. by apply completes_app, Hcomp. }
  assert (k < length (chain ++ l))%nat as Hlt by by eapply lookup_lt_Some.
  rewrite lookup_app_r in Hk by lia. rewrite Forall_forall in Hd.
  rewrite (Hd x) by by eapply list_elem_of_lookup_2.
  exists (length calls), b. rewrite list_lookup_middle, take_app_length by done. split_and!; [done| |].
  - rewrite take_ge by (rewrite length_app; cbn; lia). rewrite fmap_app. by eapply commit_inv_covered.
  - intros Hcov%(commit_inv_covered _ _ _ _ Hinv Hgap). done.
Qed.

(** The database answers the references of the blocks like [res]. *)
Definition answers_like (res : Digest -> option Block) (bs : list Block) (d : db) : Prop :=
  forall b h, b ∈ bs -> h ∈ Reference b -> resolve d h = res h.

Lemma mercury_commit_ledger (res : Digest -> option Block) (calls : list (db * Block)) (c : Committor) :
  Forall epoch_ok calls.*2 -> Forall (answers_like res calls.*2) calls.*1 ->
  commit_calls NewCommittor calls = Ret c ->
  exists chain : list Block, commitCh c = (ledger res chain).2 /\
    forall (k : nat) b, chain !! k = Some b -> Block_Epoch b = Z.of_nat k /\ b ∈ calls.*2.
Proof.
  intros Hok Hd Hall.
  destruct (mercury_commit_inv_calls _ _ Hok Hall) as (chain & [_ Hl Hs _ _] & _ & Hcomp).
  exists chain.*2. split.
  - change (commitCh c) with (isCommitFlag c, commitCh c).2. rewrite Hl. f_equal. apply delivered_ledger.
    intros x h [k Hk]%list_elem_of_lookup Hh. destruct (Hcomp k x Hk) as (i & b & Hi & _).
    rewrite Forall_forall in Hd. apply (Hd x.1) with (b := x.2); [|by apply (Hs k)|done].
    apply list_elem_of_fmap. exists (x.1, b). split; [done|]. by eapply list_elem_of_lookup_2.
  - intros k b Hk. apply list_lookup_fmap_Some in Hk as (x & -> & Hx). by apply Hs.
Qed.

End Commitor.

(** ** Properties *)

Section Properties.
Context {db : Type} `{HDB : DB db} {GB : GobBlock}.

(** C17. Any sequence of [Commit] calls returns, whatever the database holds at each of them.
    What was sent on the channel is what a chain delivers that has one committed block
    for each epoch [0, 1, 2, ...], in order, up to the first epoch for which no block was
    committed: for each of them the blocks it refers to that have transactions, were not
    sent before and are in the database, then the block itself if it has transactions.
    The database is the one of the call that completes the epochs up to the block's. *)
Theorem mercury_commit_in_order (calls : list (db * Block)) :
  Forall epoch_ok calls.*2 ->
  exists c chain, commit_calls NewCommittor calls = Ret c /\ commitCh c = (delivered chain).2 /\
    (forall (k : nat) x, chain !! k = Some x ->
       Block_Epoch x.2 = Z.of_nat k /\ x.2 ∈ calls.*2 /\ completes calls k x.1) /\
    (forall k : nat, (k < length chain)%nat <-> covered calls.*2 k).
Proof.
  intros Hok. destruct (mercury_commit_calls_return NewCommittor calls) as [c Hc].
  destruct (mercury_commit_inv_calls calls c Hok Hc) as (chain & Hinv & Hgap & Hcomp).
  exists c, chain. split_and!; [done|by rewrite <-(mi_ledger _ _ _ Hinv)| |].
  - intros k x Hk. destruct (mi_sent _ _ _ Hinv k x Hk). auto.
  - intros k. by eapply commit_inv_covered.
Qed.

(** C18. Total order: when two nodes' committed blocks agree on every epoch and their
    databases answer the references in them alike, the sequence one of them
    delivers is a prefix of the other's. *)
Theorem mercury_commit_total_order (res : Digest -> option Block)
    (calls1 calls2 : list (db * Block)) (c1 c2 : Committor) :
  Forall epoch_ok calls1.*2 -> Forall epoch_ok calls2.*2 ->
  Forall (answers_like res calls1.*2) calls1.*1 -> Forall (answers_like res calls2.*2) calls2.*1 ->
  (forall b1 b2, b1 ∈ calls1.*2 -> b2 ∈ calls2.*2 -> Block_Epoch b1 = Block_Epoch b2 -> b1 = b2) ->
  commit_calls NewCommittor calls1 = Ret c1 -> commit_calls NewCommittor calls2 = Ret c2 ->
  commitCh c1 `prefix_of` commitCh c2 \/ commitCh c2 `prefix_of` commitCh c1.
Proof.
  intros Hok1 Hok2 Hd1 Hd2 Hagree H1 H2.
  destruct (mercury_commit_ledger res calls1 c1 Hok1 Hd1 H1) as (ch1 & -> & Hs1).
  destruct (mercury_commit_ledger res calls2 c2 Hok2 Hd2 H2) as (ch2 & -> & Hs2).
  assert (ch1 `prefix_of` ch2 \/ ch2 `prefix_of` ch1) as Hp; [|destruct Hp; auto using ledger_prefix].
  apply prefix_by_index. intros k b1 b2 Hb1 Hb2.
  destruct (Hs1 k b1 Hb1), (Hs2 k b2 Hb2). apply Hagree; [done..|congruence].
Qed.

(** A commitor that waits for an epoch and gets the block of it. *)
Lemma mercury_Commit_next (d : db) (c : Committor) (b : Block) :
  Block_Epoch b = Index c -> Blocks c = ∅ -> 0 <= Index c < 2 ^ 63 - 1 ->
  Commit (NewStore d) c (Some b) =
  Ret (NewStore d, mkCommittor (Index c + 1) ∅
    (commitCh c ++ (expand (resolve d) (isCommitFlag c) b).2)
    (expand (resolve d) (isCommitFlag c) b).1).
Proof.
  intros He Hb Hi. unfold Commit. rewrite He, Z.ltb_irrefl, Hb.
  cbn. rewrite insert_empty, map_size_singleton. cbn [commit_loop].
  cbn [Blocks Index isCommitFlag commitCh]. rewrite lookup_singleton_eq.
  unfold NewStore. rewrite commit_blocks_expand.
  destruct (expand _ _ _) as [flags blocks]. cbn [Blocks Index isCommitFlag commitCh fst snd].
  rewrite delete_singleton_eq, lookup_empty, int64_id by (unfold in_int64; lia). done.
Qed.

(** C40. The position of a block that is only referred to depends on the store.  Two nodes in
    the same state commit the same two blocks, both of which refer to [x]; when the
    first one commits, one node has [x] and the other has not, and it has it when the
    second one commits.  The first node delivers [x] before both blocks, the other between
    them, and nothing they deliver later makes their sequences agree. *)
Theorem mercury_commit_diverges (d1 d2 : db) (c : Committor) (b b' x : Block) (h : Digest) :
  Block_Epoch b = Index c -> Block_Epoch b' = Index c + 1 -> Blocks c = ∅ -> 0 <= Index c < 2 ^ 63 - 2 ->
  Reference b = [h] -> Reference b' = [h] -> has_txs b = true -> has_txs b' = true ->
  batch_id x <> batch_id b ->
  resolve d1 h = Some x -> batch_id x ∉ isCommitFlag c -> resolve d2 h = None ->
  exists c1 c2,
    commit_calls c [(d1, b); (d1, b')] = Ret c1 /\ commit_calls c [(d2, b); (d1, b')] = Ret c2 /\
    commitCh c1 = commitCh c ++ [x; b; b'] /\ commitCh c2 = commitCh c ++ [b; x; b'] /\
    forall l1 l2, commitCh c1 ++ l1 <> commitCh c2 ++ l2.
Proof.
  intros He He' Hb Hi Hr Hr' Htx Htx' Hxb H1 Hx H2. cbn [commit_calls].
  rewrite !mercury_Commit_next by (done || lia). cbn [mbind Outcome_bind].
  rewrite !mercury_Commit_next by (cbn; done || lia). cbn [mbind Outcome_bind].
  assert (expand (resolve d1) (isCommitFlag c) b =
    ({[batch_id b]} ∪ ({[batch_id x]} ∪ isCommitFlag c), [x; b])) as ->.
  { unfold expand. rewrite Hr, Htx. cbn. unfold expand_ref. rewrite H1. cbn. by rewrite bool_decide_false. }
  assert (expand (resolve d2) (isCommitFlag c) b = ({[batch_id b]} ∪ isCommitFlag c, [b])) as ->.
  { unfold expand. rewrite Hr, Htx. cbn. unfold expand_ref. by rewrite H2. }
  do 2 eexists. split; [done|]. split; [done|]. cbn [commitCh isCommitFlag fst snd].
  unfold expand. rewrite Hr', Htx'. cbn. unfold expand_ref. rewrite !H1. cbn.
  rewrite bool_decide_true, bool_decide_false by set_solver. cbn. rewrite <-!app_assoc. cbn.
  split_and!; [done..|]. intros l1 l2. rewrite <-!app_assoc. intros Heq%(inj (app (commitCh c))).
  cbn in Heq. by simplify_eq.
Qed.

End Properties.

(** ** Witnesses *)

Section Witness.
Import ToyGob.

Definition toy_block (e : Z) (refs : list Digest) : Block :=
  mkBlock 1 (mkBatch e (Some [[]])) e refs.
(** A block of another proposer of epoch 0, and a database that has it. *)
Definition toy_other : Block := mkBlock 2 (mkBatch 7 (Some [[]])) 0 [].
Definition toy_store : gmap bytes bytes :=
  match Block_Encode toy_other with Some v => <[Block_Hash toy_other := v]> ∅ | None => ∅ end.
Definition toy_calls (es : list Z) : list (gmap bytes bytes * Block) :=
  (fun e => (toy_store, toy_block e (if e =? 1 then [Block_Hash toy_other] else []))) <$> es.

Lemma mercury_toy_resolve : resolve toy_store (Block_Hash toy_other) = Some toy_other.
Proof. vm_compute. reflexivity. Qed.

Lemma mercury_toy_answers (es : list Z) :
  Forall (answers_like (resolve toy_store) (toy_calls es).*2) (toy_calls es).*1.
Proof.
  apply Forall_forall. intros d Hd b h _ _. revert Hd. unfold toy_calls.
  rewrite <-list_fmap_compose. by intros (e & -> & _)%list_elem_of_fmap.
Qed.

(** A database that gets the block another one refers to between two calls. *)
Definition toy_growing : list (gmap bytes bytes * Block) :=
  [(∅, toy_block 1 [Block_Hash toy_other]); (toy_store, toy_block 0 []); (toy_store, toy_block 4 [])].

Lemma mercury_commit_in_order_witness :
  exists c chain, commit_calls NewCommittor toy_growing = Ret c /\ commitCh c = (delivered chain).2 /\
    (forall (k : nat) x, chain !! k = Some x ->
       Block_Epoch x.2 = Z.of_nat k /\ x.2 ∈ toy_growing.*2 /\ completes toy_growing k x.1) /\
    (forall k : nat, (k < length chain)%nat <-> covered toy_growing.*2 k).
Proof. apply (mercury_commit_in_order toy_growing). repeat constructor. Defined.

(** The reference is delivered between the blocks of epochs 0 and 1. *)
Example mercury_toy_delivery :
  (c ← commit_calls NewCommittor (toy_calls [1; 0; 4; 0]); mret (batch_id <$> commitCh c)) =
  Ret [0; 7; 1].
Proof. vm_compute. reflexivity. Qed.

Lemma mercury_commit_total_order_witness :
  exists c1 c2, commit_calls NewCommittor (toy_calls [1; 0; 4; 0]) = Ret c1 /\
    commit_calls NewCommittor (toy_calls [0; 0]) = Ret c2 /\
    (commitCh c1 `prefix_of` commitCh c2 \/ commitCh c2 `prefix_of` commitCh c1).
Proof.
  destruct (mercury_commit_calls_return NewCommittor (toy_calls [1; 0; 4; 0])) as [c1 H1].
  destruct (mercury_commit_calls_return NewCommittor (toy_calls [0; 0])) as [c2 H2].
  exists c1, c2. split; [exact H1|]. split; [exact H2|].
  refine (mercury_commit_total_order (resolve toy_store) (toy_calls [1; 0; 4; 0]) (toy_calls [0; 0])
    c1 c2 _ _ (mercury_toy_answers _) (mercury_toy_answers _) _ H1 H2); [repeat constructor..|].
  intros b1 b2. unfold toy_calls. rewrite <-!list_fmap_compose.
  intros (x & -> & _)%list_elem_of_fmap (y & -> & _)%list_elem_of_fmap H.
  cbn in H. by subst.
Defined.

Lemma mercury_commit_diverges_witness :
  let b e := toy_block e [Block_Hash toy_other] in
  let c := mkCommittor 1 ∅ [] ∅ in
  exists c1 c2,
    commit_calls c [(toy_store, b 1); (toy_store, b 2)] = Ret c1 /\
    commit_calls c [(∅, b 1); (toy_store, b 2)] = Ret c2 /\
    commitCh c1 = [toy_other; b 1; b 2] /\ commitCh c2 = [b 1; toy_other; b 2] /\
    forall l1 l2, commitCh c1 ++ l1 <> commitCh c2 ++ l2.
Proof.
  apply (mercury_commit_diverges toy_store ∅ (mkCommittor 1 ∅ [] ∅) (toy_block 1 [Block_Hash toy_other])
    (toy_block 2 [Block_Hash toy_other]) toy_other (Block_Hash toy_other)); try done.
Defined.

End Witness.
