(* ===== verification/MercurySpb.v ===== *)
(** * mercury: strong provable broadcast instances

    Models src/core/mercury/consensus/spb.go.  [processProposal] and [processVote]
    run as goroutines that share the instance; they are cut at every access to
    shared memory (the atomic values [BlockHash] and [LockFlag], the sections
    under [uvm] and [vm]) and at every send, so that a scheduler can interleave
    them the way Go may.  [spb_pc] names where a goroutine stands, [spb_step] is
    the step it makes next. *)

From S2P Require Import Prelude Crypto Committee Runtime MercuryMessage.

Open Scope Z_scope.

(** [BlockHash] is [None] until a hash was stored; [Votes] counts per phase. *)
Record SPB := mkSPB {
  spb_Proposer : NodeID;
  spb_Epoch : Z;
  spb_Round : Z;
  BlockHash : option Digest;
  Votes : gmap Z Z;
  unHandleVote : list SPBVote;
  unHandleProposal : list SPBProposal;
  LockFlag : bool
}.
#[export] Instance SPB_eta : Settable SPB := fun s =>
  mkSPB (spb_Proposer s) (spb_Epoch s) (spb_Round s) (BlockHash s) (Votes s) (unHandleVote s)
    (unHandleProposal s) (LockFlag s).

Definition NewSPB (epoch round : Z) (proposer : NodeID) : SPB :=
  mkSPB proposer epoch round None ∅ [] [] false.

(** Where a goroutine of an instance stands. *)
Inductive spb_pc :=
| PProposal (p : SPBProposal)        (* processProposal(p) *)
| POneStore (p : SPBProposal)        (* phase one, no hash was seen *)
| POneVote (p : SPBProposal)         (* the hash is stored *)
| POneDrain                          (* the vote is sent *)
| PTwoAppend (p : SPBProposal)       (* phase two, no hash was seen *)
| PTwoLock (p : SPBProposal)         (* phase two, a hash was seen *)
| PTwoVote (p : SPBProposal)         (* the lock flag is set *)
| PVote (v : SPBVote)                (* processVote(v) *)
| PVoteAppend (v : SPBVote)          (* no hash was seen *)
| PVoteCount (v : SPBVote)           (* a hash was seen *)
| PVoteQuorum (v : SPBVote) (num : Z). (* counted as the [num]-th *)

(** A goroutine is on the instance of an (epoch, round, proposer). *)
Record Thread := mkThread { t_epoch : Z; t_round : Z; t_node : NodeID; t_pc : spb_pc }.

Abbreviation effect := (Effect Message Message Thread).

(** [tr.RecvChannel() <- m] *)
Definition recvCh : nat := 0.
Definition to_self (m : Message) : effect := EPush recvCh m.

Section Steps.
Context {E : Ed25519} {K : Kyber}.
(** The fields of [s.c] the instance uses. *)
Context (Name : NodeID) (committee : Committee) (sigService : SigService).

Definition spawn (s : SPB) (pc : spb_pc) : effect :=
  EGo (mkThread (spb_Epoch s) (spb_Round s) (spb_Proposer s) pc).

(** [if s.c.Name != s.Proposer { Send(..., s.Proposer, vote) } else { RecvChannel() <- vote }] *)
Definition answer (vote : SPBVote) : M SPB effect unit :=
  s ← get_st;
  if negb (Name =? spb_Proposer s) then emit (ESend Name (spb_Proposer s) (MSPBVote vote))
  else emit (to_self (MSPBVote vote)).

Definition send_all (m : Message) : M SPB effect unit :=
  _ ← emit (ESend Name NONE m); emit (to_self m).

Definition proposal_step (p : SPBProposal) : M SPB effect (option spb_pc) :=
  s ← get_st;
  if SPBProposal_Phase p =? SPB_ONE_PHASE then
    match BlockHash s with
    | Some _ => mret None
    | None =>
        match SPBProposal_B p with
        | None => panic
        | Some b => mret (if negb (spb_Proposer s =? Proposer b) then None else Some (POneStore p))
        end
    end
  else if SPBProposal_Phase p =? SPB_TWO_PHASE then
    mret (Some (match BlockHash s with None => PTwoAppend p | Some _ => PTwoLock p end))
  else mret None.

Definition spb_step (pc : spb_pc) : M SPB effect (option spb_pc) :=
  match pc with
  | PProposal p => proposal_step p
  | POneStore p =>
      match SPBProposal_B p with
      | None => panic
      | Some b => _ ← modify (fun s => s <| BlockHash := Some (Block_Hash b) |>);
                  mret (Some (POneVote p))
      end
  | POneVote p =>
      match SPBProposal_B p with
      | None => panic
      | Some b =>
          s ← get_st;
          vote ← lift_outcome (NewSPBVote sigService Name (SPBProposal_Author p) (Block_Hash b)
                                 (spb_Epoch s) (spb_Round s) (SPBProposal_Phase p));
          _ ← answer vote;
          mret (Some POneDrain)
      end
  | POneDrain =>
      fun s => Ret (None, s <| unHandleProposal := [] |> <| unHandleVote := [] |>,
                    ((fun p => spawn s (PProposal p)) <$> unHandleProposal s) ++
                    ((fun v => spawn s (PVote v)) <$> unHandleVote s))
  | PTwoAppend p =>
      _ ← modify (fun s => s <| unHandleProposal := unHandleProposal s ++ [p] |>); mret None
  | PTwoLock p => _ ← modify (fun s => s <| LockFlag := true |>); mret (Some (PTwoVote p))
  | PTwoVote p =>
      s ← get_st;
      vote ← lift_outcome (NewSPBVote sigService Name (SPBProposal_Author p) Digest0
                             (spb_Epoch s) (spb_Round s) (SPBProposal_Phase p));
      _ ← answer vote;
      mret None
  | PVote v =>
      s ← get_st;
      mret (Some (match BlockHash s with None => PVoteAppend v | Some _ => PVoteCount v end))
  | PVoteAppend v =>
      _ ← modify (fun s => s <| unHandleVote := unHandleVote s ++ [v] |>); mret None
  | PVoteCount v =>
      s ← get_st;
      let num := default 0 (Votes s !! SPBVote_Phase v) + 1 in
      _ ← modify (fun s => s <| Votes := <[SPBVote_Phase v := num]> (Votes s) |>);
      mret (Some (PVoteQuorum v num))
  | PVoteQuorum v num =>
      s ← get_st;
      if num =? HightThreshold committee then
        if SPBVote_Phase v =? SPB_ONE_PHASE then
          proposal ← lift_outcome (NewSPBProposal sigService Name None (spb_Epoch s)
                                     (spb_Round s) SPB_TWO_PHASE);
          _ ← send_all (MSPBProposal proposal);
          mret None
        else if SPBVote_Phase v =? SPB_TWO_PHASE then
          match BlockHash s with
          | None => panic
          | Some blockHash =>
              finish ← lift_outcome (NewFinish sigService Name blockHash (spb_Epoch s) (spb_Round s));
              _ ← send_all (MFinish finish);
              mret None
          end
        else mret None
      else mret None
  end.

Definition IsLock (s : SPB) : bool := LockFlag s.
Definition GetBlockHash (s : SPB) : option Digest := BlockHash s.

(** ** The invariant of an instance and of its goroutines *)

(** An instance of (epoch, round, node): it locks only with a block hash, and
    what it has put aside are phase two proposals. *)
Record spb_ok (epoch round : Z) (node : NodeID) (s : SPB) : Prop := {
  so_epoch : spb_Epoch s = epoch;
  so_round : spb_Round s = round;
  so_node : spb_Proposer s = node;
  so_lock : LockFlag s = true -> is_Some (BlockHash s);
  so_aside : Forall (fun p => SPBProposal_Phase p = SPB_TWO_PHASE) (unHandleProposal s)
}.

(** A phase one proposal carries a block. *)
Definition proposal_wf (p : SPBProposal) : Prop :=
  SPBProposal_Phase p = SPB_ONE_PHASE -> is_Some (SPBProposal_B p).

(** What is known where a goroutine stands. *)
Definition pc_ok (s : SPB) (pc : spb_pc) : Prop :=
  match pc with
  | PProposal p => proposal_wf p
  | POneStore p => is_Some (SPBProposal_B p)
  | POneVote p => is_Some (SPBProposal_B p) /\ is_Some (BlockHash s)
  | POneDrain => True
  | PTwoAppend p => SPBProposal_Phase p = SPB_TWO_PHASE
  | PTwoLock p | PTwoVote p => is_Some (BlockHash s)
  | PVote _ | PVoteAppend _ => True
  | PVoteCount _ | PVoteQuorum _ _ => is_Some (BlockHash s)
  end.

(** The hash, once stored, stays stored (it may be overwritten); facts about
    goroutines are stable under that. *)
Definition spb_le (s s' : SPB) : Prop := is_Some (BlockHash s) -> is_Some (BlockHash s').

Lemma mercury_pc_ok_mono (s s' : SPB) (pc : spb_pc) : spb_le s s' -> pc_ok s pc -> pc_ok s' pc.
Proof. unfold spb_le. destruct pc; cbn; tauto. Qed.

(** A message an instance makes: in the node's name, verifiable, of its epoch; a
    proposal is of phase two. *)
Definition spb_msg (epoch : Z) (m : Message) : Prop :=
  msg_author m = Some Name /\ Verify committee m = Ret true /\ msg_epoch m = epoch /\
  (forall p, m = MSPBProposal p -> SPBProposal_Phase p = SPB_TWO_PHASE) /\
  (forall d, m <> MDone d).

(** What an instance may emit: its messages, and goroutines on itself. *)
Definition spb_effect_ok (epoch round : Z) (node : NodeID) (s : SPB) (e : effect) : Prop :=
  match e with
  | ESend f _ m => f = Name /\ spb_msg epoch m
  | EPush ch m => spb_msg epoch m
  | EGo t => t_epoch t = epoch /\ t_round t = round /\ t_node t = node /\ pc_ok s (t_pc t)
  end.

Lemma mercury_spb_le_refl (s : SPB) : spb_le s s.
Proof. by unfold spb_le. Qed.

Definition spb_post (epoch round : Z) (node : NodeID) (s : SPB) (pc' : option spb_pc) (s' : SPB)
    (es : list effect) : Prop :=
  spb_ok epoch round node s' /\ spb_le s s' /\ Forall (spb_effect_ok epoch round node s') es /\
  (forall pc'', pc' = Some pc'' -> pc_ok s' pc'').

(** The instance is left as it is. *)
Lemma mercury_spb_post_same (epoch round : Z) (node : NodeID) (s : SPB) (pc' : option spb_pc)
    (es : list effect) :
  spb_ok epoch round node s -> Forall (spb_effect_ok epoch round node s) es ->
  (forall pc'', pc' = Some pc'' -> pc_ok s pc'') -> spb_post epoch round node s pc' s es.
Proof. intros. split_and!; auto using mercury_spb_le_refl. Qed.

Lemma mercury_spb_msg_all (epoch round : Z) (node : NodeID) (s : SPB) (m : Message) :
  spb_msg epoch m -> Forall (spb_effect_ok epoch round node s) [ESend Name NONE m; to_self m].
Proof. intros Hm. apply Forall_cons. split; [done|]. by apply Forall_singleton. Qed.

(** The step of any goroutine keeps the invariant and does not panic. *)
Lemma mercury_spb_step_ok (epoch round : Z) (node : NodeID) (pc : spb_pc) (s : SPB) :
  Ed25519Laws E -> service_for sigService (Committee_Name committee Name) ->
  spb_ok epoch round node s -> pc_ok s pc ->
  wp False (spb_step pc) s (spb_post epoch round node s).
Proof.
  intros Hlaws Hsrv Hs Hpc. pose proof Hs as [He Hr Hn Hl Ha].
  destruct pc as [p|p|p| |p|p|p|v|v|v|v num]; cbn in Hpc; unfold spb_step.
  - unfold proposal_step. wp_steps. case_bool.
    + destruct (BlockHash s) eqn:Eb; wp_steps; [by apply mercury_spb_post_same|].
      destruct (Hpc ltac:(done)) as [b Hb]. rewrite Hb. wp_steps. apply mercury_spb_post_same; [done..|].
      destruct (negb _); [done|]. intros pc'' [= <-]. cbn. by rewrite Hb.
    + case_bool; wp_steps; apply mercury_spb_post_same; try done.
      intros pc'' [= <-]. destruct (BlockHash s) eqn:Eb; cbn; [by rewrite Eb|done].
  - destruct Hpc as [b Hb]. rewrite Hb. wp_steps.
    split_and!; [by split|by unfold spb_le; cbn|done|]. intros pc'' [= <-]. cbn. by rewrite Hb.
  - destruct Hpc as [[b Hb] Hh]. rewrite Hb. wp_steps.
    unfold NewSPBVote. run_sign Hsrv.
    unfold answer. wp_steps. case_match; wp_steps; apply mercury_spb_post_same; try done.
    + by apply Forall_singleton.
    + by intros pc'' [= <-].
    + by apply Forall_singleton.
    + by intros pc'' [= <-].
  - unfold wp. split_and!; [by split|by unfold spb_le| |done]. apply Forall_app. split.
    + apply Forall_fmap. eapply Forall_impl; [exact Ha|]. intros p Hp. cbn. split_and!; try done.
      intros H1. rewrite Hp in H1. done.
    + apply Forall_fmap, Forall_true. done.
  - wp_steps. split_and!; [|by unfold spb_le|done..]. split; try done. cbn.
    apply Forall_app. auto.
  - wp_steps. split_and!; [by split|by unfold spb_le|done|]. by intros pc'' [= <-].
  - wp_steps. unfold NewSPBVote. run_sign Hsrv.
    unfold answer. wp_steps. case_match; wp_steps; apply mercury_spb_post_same; try done;
      by apply Forall_singleton.
  - wp_steps. apply mercury_spb_post_same; [done..|]. intros pc'' [= <-].
    destruct (BlockHash s) eqn:Eb; cbn; [by rewrite Eb|done].
  - wp_steps. split_and!; [by split|by unfold spb_le|done..].
  - wp_steps. split_and!; [by split|by unfold spb_le|done|]. by intros pc'' [= <-].
  - wp_steps. case_bool; [|wp_steps; by apply mercury_spb_post_same].
    case_bool; [|case_bool; [|wp_steps; by apply mercury_spb_post_same]]; wp_steps.
    + unfold NewSPBProposal. run_sign Hsrv.
      unfold send_all. wp_steps. apply mercury_spb_post_same; try done. apply mercury_spb_msg_all. split_and!; try done.
      by intros p [= <-].
    + destruct Hpc as [h Hh]. rewrite Hh. wp_steps.
      unfold NewFinish. run_sign Hsrv.
      unfold send_all. wp_steps. apply mercury_spb_post_same; try done. apply mercury_spb_msg_all. by split_and!.
Qed.

End Steps.
