(* ===== verification/MercuryCore.v ===== *)
(** * mercury: the protocol core

    Models src/core/mercury/consensus/core.go.  [Core] is the struct of the same
    name, each handler a command of the handler monad: it reads and writes the
    core, emits the sends, channel writes and [go] statements in program order
    and returns the error of the source.  [handle] is the body of the select loop
    of [Run] for one message, [tstep] one step of a broadcast goroutine; the
    runtime interleaves them.  A call that would block on the batch channel for
    ever has no result, like one that panics. *)

From S2P Require Import Prelude Crypto Committee Store Pool Runtime Quorum.
From S2P Require Import MercuryMessage MercuryAggreator MercuryCommitor MercurySpb.

Open Scope Z_scope.

Section Core.
Context {E : Ed25519} {K : Kyber} {db : Type} `{HDB : DB db} {GB : GobBlock}.

Record Core := mkCore {
  Name : NodeID;
  core_Committee : Committee;
  core_Parameters : Parameters;
  core_SigService : SigService;
  core_Store : Store db;
  TxPool : Pool;
  core_Aggreator : Aggreator;
  core_Elector : Elector;
  core_Commitor : Committor;
  FinishFlags : gmap Z (gmap Z (gmap NodeID Digest));
  SPbInstances : gmap Z (gmap Z (gmap NodeID SPB));
  DoneFlags : gmap Z (gmap Z (gmap Z unit));
  ReadyFlags : gmap Z (gmap Z (gmap Z unit));
  HaltFlags : gset Z;
  Epoch : Z
}.
#[export] Instance Core_eta : Settable Core := fun c =>
  mkCore (Name c) (core_Committee c) (core_Parameters c) (core_SigService c) (core_Store c)
    (TxPool c) (core_Aggreator c) (core_Elector c) (core_Commitor c) (FinishFlags c)
    (SPbInstances c) (DoneFlags c) (ReadyFlags c) (HaltFlags c) (Epoch c).

Definition NewCore (Name : NodeID) (committee : Committee) (parameters : Parameters)
    (sigService : SigService) (store : Store db) (txPool : Pool) : Core :=
  mkCore Name committee parameters sigService store txPool (NewAggreator committee)
    (NewElector sigService committee) NewCommittor ∅ ∅ ∅ ∅ ∅ 0.

Abbreviation H A := (M Core effect A).

Definition messgaeFilter (epoch : Z) : H bool := gets (fun c => epoch <? Epoch c).

(** ** Blocks *)

(** A nil block is dereferenced. *)
Definition storeBlock (block : option Block) : H (option error) :=
  match block with
  | None => panic
  | Some block =>
      let key := Block_Hash block in
      match Block_Encode block with
      | None => mret (Some ErrExternal)
      | Some value =>
          c ← get_st;
          let '(store, err) := Store_Write (core_Store c) key value in
          _ ← modify (fun c => c <| core_Store := store |>);
          mret err
      end
  end.

Definition getBlock (digest : Digest) : H (option Block * option error) :=
  c ← get_st;
  let '(store, (value, err)) := Store_Read (core_Store c) digest in
  _ ← modify (fun c => c <| core_Store := store |>);
  match err with
  | Some ErrNotFoundKey => mret (None, None)
  | Some e => mret (None, Some e)
  | None =>
      match Block_Decode value with
      | None => mret (None, Some ErrExternal)
      | Some b => mret (Some b, None)
      end
  end.

Definition getSpbInstance (epoch round : Z) (node : NodeID) : H SPB :=
  c ← get_st;
  match lookup3 (SPbInstances c) epoch round node with
  | Some instance => mret instance
  | None =>
      let instance := NewSPB epoch round node in
      _ ← modify (fun c => c <| SPbInstances := insert3 epoch round node instance (SPbInstances c) |>);
      mret instance
  end.

Definition hasFinish (epoch round : Z) (node : NodeID) : H (bool * Digest) :=
  gets (fun c => match lookup3 (FinishFlags c) epoch round node with
                 | Some d => (true, d)
                 | None => (false, Digest0)
                 end).

(** The read of an epoch without entry creates one. *)
Definition hasReady (epoch round try : Z) : H bool :=
  c ← get_st;
  match ReadyFlags c !! epoch with
  | None => _ ← modify (fun c => c <| ReadyFlags := <[epoch := ∅]> (ReadyFlags c) |>); mret false
  | Some items =>
      mret (match items !! round with None => false | Some item => has item try end)
  end.

Definition hasDone (epoch round try : Z) : H bool :=
  c ← get_st;
  match DoneFlags c !! epoch with
  | None => _ ← modify (fun c => c <| DoneFlags := <[epoch := ∅]> (DoneFlags c) |>); mret false
  | Some items =>
      mret (match items !! round with None => false | Some item => has item try end)
  end.

(** The hashes of the finished broadcasts of a round, in the order of the nodes. *)
Definition getReference (epoch round : Z) : H (list Digest) :=
  c ← get_st;
  mret (omap (fun i : nat => lookup3 (FinishFlags c) epoch round (Z.of_nat i))
          (seq 0 (Z.to_nat (Committee_Size (core_Committee c))))).

Definition generatorBlock (epoch : Z) (reference : list Digest) : H Block :=
  c ← get_st;
  match GetBatch (TxPool c) with
  | None => panic
  | Some (batch, pool) =>
      _ ← modify (fun c => c <| TxPool := pool |>);
      mret (NewBlock (Name c) batch epoch reference)
  end.

(** The commitor reads the store of the core. *)
Definition Commitor_Commit (b : option Block) : H unit :=
  c ← get_st;
  '(store, commitor) ← lift_outcome (Commit (core_Store c) (core_Commitor c) b);
  modify (fun c => c <| core_Store := store |> <| core_Commitor := commitor |>).

Definition Elector_Leader (epoch round : Z) : H NodeID :=
  c ← get_st;
  let '(elector, leader) := Leader (core_Elector c) epoch round in
  _ ← modify (fun c => c <| core_Elector := elector |>);
  mret leader.

(** [c.Transimtor.Send(c.Name, core.NONE, m)] *)
Definition Send_all (m : Message) : H unit := c ← get_st; emit (ESend (Name c) NONE m).
(** [c.Transimtor.RecvChannel() <- m] *)
Definition to_recvCh (m : Message) : H unit := emit (to_self m).
Definition broadcast (m : Message) : H unit := _ ← Send_all m; to_recvCh m.

(** [go spb.f(...)] on the instance of (epoch, round, node). *)
Definition go (epoch round : Z) (node : NodeID) (pc : spb_pc) : H unit :=
  emit (EGo (mkThread epoch round node pc)).

Definition propose (block : option Block) (epoch round : Z) : H unit :=
  c ← get_st;
  proposal ← lift_outcome (NewSPBProposal (core_SigService c) (Name c) block epoch round
                             SPB_ONE_PHASE);
  broadcast (MSPBProposal proposal).

(** ** Handlers *)

Definition handleSpbProposal (p : SPBProposal) : H (option error) :=
  _ ← (if SPBProposal_Phase p =? SPB_ONE_PHASE then
         c ← get_st;
         if bool_decide (SPBProposal_Epoch p ∈ HaltFlags c) then
           leader ← Elector_Leader (SPBProposal_Epoch p) (SPBProposal_Round p);
           if leader =? SPBProposal_Author p then Commitor_Commit (SPBProposal_B p) else mret tt
         else mret tt
       else mret tt);
  discard ← messgaeFilter (SPBProposal_Epoch p);
  if discard : bool then mret None
  else
    err ← (if SPBProposal_Phase p =? SPB_ONE_PHASE then storeBlock (SPBProposal_B p)
           else mret None);
    match err with
    | Some e => mret (Some e)
    | None =>
        _ ← getSpbInstance (SPBProposal_Epoch p) (SPBProposal_Round p) (SPBProposal_Author p);
        _ ← go (SPBProposal_Epoch p) (SPBProposal_Round p) (SPBProposal_Author p) (PProposal p);
        mret None
    end.

Definition handleSpbVote (v : SPBVote) : H (option error) :=
  discard ← messgaeFilter (SPBVote_Epoch v);
  if discard : bool then mret None
  else
    _ ← getSpbInstance (SPBVote_Epoch v) (SPBVote_Round v) (SPBVote_Proposer v);
    _ ← go (SPBVote_Epoch v) (SPBVote_Round v) (SPBVote_Proposer v) (PVote v);
    mret None.

(** The nil share of a failed threshold signature is a typed nil pointer. *)
Definition share_msg (share : option ElectShare) : Message :=
  match share with Some s => MElectShare s | None => MNil ElectShareType end.

Definition invokeDoneAndShare (epoch round try : Z) : H (option error) :=
  isDone ← hasDone epoch round try;
  _ ← (if isDone : bool then mret tt
       else
         c ← get_st;
         done ← lift_outcome (NewDone (core_SigService c) (Name c) epoch round try);
         share ← lift_outcome (NewElectShare (core_SigService c) (Name c) epoch round try);
         _ ← Send_all (MDone done);
         _ ← Send_all (share_msg share);
         _ ← to_recvCh (MDone done);
         _ ← to_recvCh (share_msg share);
         modify (fun c => c <| DoneFlags := insert3 epoch round try tt (DoneFlags c) |>));
  mret None.

Definition handleFinish (f : Finish) : H (option error) :=
  discard ← messgaeFilter (Finish_Epoch f);
  if discard : bool then mret None
  else
    c ← get_st;
    let '(agg, (flag, err)) := AddFinishVote (core_Aggreator c) f in
    _ ← modify (fun c => c <| core_Aggreator := agg |>);
    match err with
    | Some e => mret (Some e)
    | None =>
        _ ← modify (fun c => c <| FinishFlags :=
              insert3 (Finish_Epoch f) (Finish_Round f) (Finish_Author f) (Finish_BlockHash f)
                (FinishFlags c) |>);
        if flag : bool then invokeDoneAndShare (Finish_Epoch f) (Finish_Round f) 0 else mret None
    end.

(** The prevote on the leader's instance: yes with its block hash if it is
    locked.  The call that makes the yes vote passes the try for the round and the
    round for the try. *)
Definition prevote_for (epoch round try : Z) (leader : NodeID) : H Prevote :=
  c ← get_st;
  spb ← getSpbInstance epoch round leader;
  if IsLock spb then
    match GetBlockHash spb with
    | None => panic   (* "block hash is nil" *)
    | Some blockHash =>
        lift_outcome (NewPrevote (core_SigService c) (Name c) leader epoch try round VOTE_FLAG_YES
                        blockHash)
    end
  else lift_outcome (NewPrevote (core_SigService c) (Name c) leader epoch round try VOTE_FLAG_NO
                       Digest0).

Definition processLeader (epoch round try : Z) : H (option error) :=
  ready ← hasReady epoch round try;
  _ ← (if ready : bool then
         leader ← Elector_Leader epoch round;
         if leader =? NONE then mret tt
         else
           '(ok, d) ← hasFinish epoch round leader;
           if ok : bool then
             c ← get_st;
             halt ← lift_outcome (NewHalt (core_SigService c) (Name c) leader d epoch round);
             broadcast (MHalt halt)
           else
             preVote ← prevote_for epoch round try leader;
             broadcast (MPrevote preVote)
       else mret tt);
  mret None.

Definition handleDone (d : Done) : H (option error) :=
  discard ← messgaeFilter (Done_Epoch d);
  if discard : bool then mret None
  else
    c ← get_st;
    let '(agg, (flag, err)) := AddDoneVote (core_Aggreator c) d in
    _ ← modify (fun c => c <| core_Aggreator := agg |>);
    match err with
    | Some e => mret (Some e)
    | None =>
        if flag =? DONE_LOW_FLAG then invokeDoneAndShare (Done_Epoch d) (Done_Round d) (Done_Try d)
        else if flag =? DONE_HIGH_FLAG then
          _ ← modify (fun c => c <| ReadyFlags :=
                insert3 (Done_Epoch d) (Done_Round d) (Done_Try d) tt (ReadyFlags c) |>);
          mret None
        else mret None
    end.

Definition handleElectShare (share : ElectShare) : H (option error) :=
  discard ← messgaeFilter (ElectShare_Epoch share);
  if discard : bool then mret None
  else
    c ← get_st;
    '(elector, (leader, err)) ← lift_outcome (AddShareVote (core_Elector c) share);
    _ ← modify (fun c => c <| core_Elector := elector |>);
    match err with
    | Some e => mret (Some e)
    | None =>
        if leader =? NONE then mret None
        else _ ← processLeader (ElectShare_Epoch share) (ElectShare_Round share)
                   (ElectShare_Try share); mret None
    end.

Definition handlePrevote (pv : Prevote) : H (option error) :=
  discard ← messgaeFilter (Prevote_Epoch pv);
  if discard : bool then mret None
  else
    c ← get_st;
    let '(agg, (flag, err)) := AddPreVote (core_Aggreator c) pv in
    _ ← modify (fun c => c <| core_Aggreator := agg |>);
    match err with
    | Some e => mret (Some e)
    | None =>
        let vote flag := NewFinVote (core_SigService c) (Name c) (Prevote_Leader pv)
                           (Prevote_Epoch pv) (Prevote_Round pv) (Prevote_Try pv) flag
                           (Prevote_BlockHash pv) in
        if flag =? ACTION_NO then
          v ← lift_outcome (vote VOTE_FLAG_NO); _ ← broadcast (MFinVote v); mret None
        else if flag =? ACTION_YES then
          v ← lift_outcome (vote VOTE_FLAG_YES); _ ← broadcast (MFinVote v); mret None
        else mret None
    end.

(** The hash the next round builds on: with [ACTION_NO] the node's own block of
    this round, if it has one. *)
Definition next_hash (epoch round : Z) (flag : Z) (blockHash : Digest) : H Digest :=
  if flag =? ACTION_NO then
    c ← get_st;
    spb ← getSpbInstance epoch round (Name c);
    mret (default blockHash (GetBlockHash spb))
  else mret blockHash.

Definition advanceNextRound (epoch round : Z) (flag : Z) (blockHash : Digest) : H (option error) :=
  discard ← messgaeFilter epoch;
  if discard : bool then mret None
  else
    hash ← next_hash epoch round flag blockHash;
    '(block, err) ← getBlock hash;
    match err with
    | Some e => mret (Some e)
    | None =>
        block ← (match block with
                 | Some b => mret b
                 | None => reference ← getReference (int64 (epoch - 1)) 0;
                           generatorBlock epoch reference
                 end);
        _ ← propose (Some block) epoch (int64 (round + 1));
        mret None
    end.

Definition handleFinvote (fv : FinVote) : H (option error) :=
  discard ← messgaeFilter (FinVote_Epoch fv);
  if discard : bool then mret None
  else
    c ← get_st;
    let '(agg, (flag, err)) := AddFinVote (core_Aggreator c) fv in
    _ ← modify (fun c => c <| core_Aggreator := agg |>);
    match err with
    | Some e => mret (Some e)
    | None =>
        if flag =? ACTION_YES then
          advanceNextRound (FinVote_Epoch fv) (FinVote_Round fv) flag (FinVote_BlockHash fv)
        else if flag =? ACTION_NO then
          invokeDoneAndShare (FinVote_Epoch fv) (FinVote_Round fv) (int64 (FinVote_Try fv + 1))
        else if flag =? ACTION_COMMIT then
          halt ← lift_outcome (NewHalt (core_SigService c) (Name c) (FinVote_Leader fv)
                                 (FinVote_BlockHash fv) (FinVote_Epoch fv) (FinVote_Round fv));
          _ ← broadcast (MHalt halt);
          mret None
        else mret None
    end.

(** The block that was not found is nil. *)
Definition handleOutput (epoch : Z) (blockHash : Digest) : H (option error) :=
  '(b, err) ← getBlock blockHash;
  match err with
  | Some e => mret (Some e)
  | None => _ ← Commitor_Commit b; mret None
  end.

Definition advanceNextEpoch (epoch : Z) (reference : list Digest) : H unit :=
  c ← get_st;
  if epoch <=? Epoch c then mret tt
  else
    _ ← modify (fun c => c <| Epoch := epoch |>);
    block ← generatorBlock epoch reference;
    propose (Some block) epoch 0.

(** The error of [handleOutput] is dropped. *)
Definition handleHalt (h : Halt) : H (option error) :=
  discard ← messgaeFilter (Halt_Epoch h);
  if discard : bool then mret None
  else
    c ← get_st;
    if bool_decide (Halt_Epoch h ∈ HaltFlags c) then mret None
    else
      _ ← modify (fun c => c <| core_Elector :=
            SetLeader (core_Elector c) (Halt_Epoch h) (Halt_Round h) (Halt_Leader h) |>);
      _ ← handleOutput (Halt_Epoch h) (Halt_BlockHash h);
      _ ← modify (fun c => c <| HaltFlags := {[Halt_Epoch h]} ∪ HaltFlags c |>);
      reference ← getReference (Halt_Epoch h) (Halt_Round h);
      _ ← advanceNextEpoch (int64 (Halt_Epoch h + 1)) reference;
      mret None.

(** ** The main loop *)

(** One iteration: verify, then dispatch; the error is logged. *)
Definition dispatch (m : Message) : H (option error) :=
  match m with
  | MSPBProposal p => handleSpbProposal p
  | MSPBVote v => handleSpbVote v
  | MFinish f => handleFinish f
  | MDone d => handleDone d
  | MElectShare s => handleElectShare s
  | MPrevote p => handlePrevote p
  | MFinVote f => handleFinvote f
  | MHalt h => handleHalt h
  | MNil _ => panic
  end.

Definition handle_msg (m : Message) : H (option error) :=
  c ← get_st;
  ok ← lift_outcome (Verify (core_Committee c) m);
  if ok : bool then dispatch m else mret (Some (ErrSignature (MsgType m))).

(** Nothing remains of a handler when its commands are done. *)
Definition handle (m : Message) : H (option Thread) := _ ← handle_msg m; mret None.

(** A goroutine's step works on its instance. *)
Definition tstep (t : Thread) : H (option Thread) := fun c =>
  match lookup3 (SPbInstances c) (t_epoch t) (t_round t) (t_node t) with
  | None => Panic
  | Some s =>
      match spb_step (Name c) (core_Committee c) (core_SigService c) (t_pc t) s with
      | Panic => Panic
      | Ret (pc, s', es) =>
          Ret (mkThread (t_epoch t) (t_round t) (t_node t) <$> pc,
               c <| SPbInstances := insert3 (t_epoch t) (t_round t) (t_node t) s' (SPbInstances c) |>,
               es)
      end
  end.

(** [Run] up to the loop: the first proposal. *)
Definition Run_start : H unit :=
  c ← get_st;
  block ← generatorBlock (Epoch c) [];
  propose (Some block) (Epoch c) 0.

(** [recvCh] is made with 1000 places. *)
Definition chan_cap (ch : nat) : nat := 1000.

Abbreviation node := (Node (Core := Core) (Ev := Message) (Msg := Message) (Thread := Thread)).
Definition node_step := nstep chan_cap handle tstep.
Definition node_reachable := reachable chan_cap handle tstep.

(** A node that has executed [Run_start]. *)
Definition started (c0 : Core) (n : node) : Prop :=
  exists c es, Run_start c0 = Ret (tt, c, es) /\ n = start c es.

End Core.
