(* ===== verification/MercurySafety.v ===== *)
(** * mercury: safety of a node under every schedule

    The invariant of a running node: the runtime interleaves the main loop with
    any number of broadcast goroutines and delivers any well-formed messages,
    Byzantine ones included.  A handler is specified by [triple]: it does not
    panic, keeps the invariant of the core, and relates the state before and
    after and the effects by [ext].  The theorems at the end are about every
    reachable state of a node, on a database that does not answer
    [store.ErrNotFoundKey], as NutsDB does not. *)

From S2P Require Import Prelude Crypto Committee Store Pool Runtime Quorum Triple.
From S2P Require Import MercuryMessage MercuryAggreator MercuryCommitor MercurySpb MercuryCore.

Open Scope Z_scope.

(** What the network may deliver: a message that names a member of the committee
    as author, has a 64-bit epoch and, if it is a phase one proposal, a block.
    Its signature, its contents and the number of its copies are arbitrary. *)
Definition event_ok (com : Committee) (m : Message) : Prop :=
  (exists a, msg_author m = Some a /\ a ∈ members com) /\ in_int64 (msg_epoch m) /\
  (forall p, m = MSPBProposal p -> proposal_wf p).

(** A sent Done of (epoch, round, try). *)
Definition is_done (e r t : Z) (x : effect) : bool :=
  match x with
  | ESend _ _ (MDone d) => (Done_Epoch d =? e) && (Done_Round d =? r) && (Done_Try d =? t)
  | _ => false
  end.
Definition done_sends (e r t : Z) (es : list effect) : nat :=
  length (filter (fun x => is_done e r t x = true) es).

Lemma mercury_done_sends_app (e r t : Z) (es1 es2 : list effect) :
  done_sends e r t (es1 ++ es2) = (done_sends e r t es1 + done_sends e r t es2)%nat.
Proof. unfold done_sends. by rewrite filter_app, length_app. Qed.

(** The Done messages of (epoch, round, try) among those sent. *)
Definition sent_dones (e r t : Z) (l : list (NodeID * NodeID * Message)) : nat :=
  length (filter (fun x => is_done e r t (ESend x.1.1 x.1.2 x.2) = true) l).

Lemma mercury_done_sends_sends (e r t : Z) (es : list effect) :
  done_sends e r t es = sent_dones e r t (sends es).
Proof.
  unfold done_sends, sent_dones. induction es as [|x es IH]; [done|]. rewrite filter_cons.
  destruct x as [f to m|ch ev|g]; cbn [sends omap list_omap].
  - rewrite filter_cons. cbn [fst snd]. by case_decide; cbn [length]; rewrite IH.
  - rewrite decide_False by done. exact IH.
  - rewrite decide_False by done. exact IH.
Qed.

(** The database reports a missing key by an error of its own. *)
Definition never_not_found (db : Type) `{DB db} : Prop :=
  forall (s : Store db) (k : bytes), (Store_Read s k).2.2 <> Some ErrNotFoundKey.

Section Safety.
Context {E : Ed25519} {K : Kyber} {db : Type} `{HDB : DB db} {GB : GobBlock}.
Context `{!Ed25519Laws E} `{!KyberLaws K} (Hdb : never_not_found db).

Context (st : setting).
Context (Hst : setting_ok st).

Abbreviation core := (Core (db := db)).

Definition pool_len (c : core) : nat := length (batchChannel (p_queue (TxPool c))).

(** Halted epochs are over. *)
Definition halt_inv (c : core) : Prop :=
  forall e, e ∈ HaltFlags c -> e < Epoch c \/ e = last_epoch.

(** The invariant between two commands; no batch ever waits in the pool. *)
Record core_ok (c : core) : Prop := {
  co_name : Name c = s_name st;
  co_com : core_Committee c = s_com st;
  co_srv : core_SigService c = s_srv st;
  co_elector : el_committee (core_Elector c) = s_com st;
  co_epoch : in_int64 (Epoch c);
  co_pool : pool_len c = 0%nat;
  co_halt : halt_inv c;
  co_spb : forall e r n s, lookup3 (SPbInstances c) e r n = Some s ->
    spb_ok e r n s /\ in_int64 e
}.

(** A goroutine works on an existing instance that it knows enough about. *)
Definition thread_ok (c : core) (t : Thread) : Prop :=
  exists s, lookup3 (SPbInstances c) (t_epoch t) (t_round t) (t_node t) = Some s /\
            pc_ok s (t_pc t).

Definition insts_le (c c' : core) : Prop :=
  forall e r n s, lookup3 (SPbInstances c) e r n = Some s ->
    exists s', lookup3 (SPbInstances c') e r n = Some s' /\ spb_le s s'.

(** A message sent is the node's own and verifies. *)
Definition sent_ok (x : effect) : Prop :=
  match x with
  | ESend f _ m => f = s_name st /\ msg_author m = Some f /\ Verify (s_com st) m = Ret true
  | _ => True
  end.

Definition done_flag (c : core) (e r t : Z) : nat :=
  match lookup3 (DoneFlags c) e r t with Some _ => 1 | None => 0 end.

Abbreviation eff_ok := (effect_ok (Msg := Message) (event_ok (s_com st)) thread_ok).

(** How a command changes the core, with the effects it emits. *)
Record ext (k : nat) (c c' : core) (es : list effect) : Prop := {
  x_insts : insts_le c c';
  x_epoch : Epoch c <= Epoch c';
  x_halt : HaltFlags c ⊆ HaltFlags c';
  x_eff : Forall (eff_ok c') es;
  x_sent : Forall sent_ok es;
  x_done : forall e r t, (done_sends e r t es + done_flag c e r t)%nat = done_flag c' e r t;
  x_commit : commitCh (core_Commitor c) `prefix_of` commitCh (core_Commitor c')
}.

Lemma mercury_insts_le_refl (c : core) : insts_le c c.
Proof. intros e r n s Hs. eauto using mercury_spb_le_refl. Qed.

Lemma mercury_insts_le_eq (c c' : core) : SPbInstances c' = SPbInstances c -> insts_le c c'.
Proof. intros He e r n s Hs. rewrite He. eauto using mercury_spb_le_refl. Qed.

Lemma mercury_insts_le_trans (c1 c2 c3 : core) : insts_le c1 c2 -> insts_le c2 c3 -> insts_le c1 c3.
Proof.
  intros H1 H2 e r n s Hs. destruct (H1 _ _ _ _ Hs) as (s2 & Hs2 & Hl2).
  destruct (H2 _ _ _ _ Hs2) as (s3 & Hs3 & Hl3). exists s3. split; [done|].
  unfold spb_le in *. tauto.
Qed.

Lemma mercury_thread_ok_mono (c c' : core) (t : Thread) :
  insts_le c c' -> thread_ok c t -> thread_ok c' t.
Proof.
  intros Hle (s & Hs & Hpc). destruct (Hle _ _ _ _ Hs) as (s' & Hs' & Hl).
  exists s'. eauto using mercury_pc_ok_mono.
Qed.

Lemma mercury_ext_trans (k1 k2 : nat) (c1 c2 c3 : core) (es1 es2 : list effect) :
  ext k1 c1 c2 es1 -> ext k2 c2 c3 es2 -> ext (k1 + k2) c1 c3 (es1 ++ es2).
Proof.
  intros [A1 B1 C1 D1 E1 F1 G1] [A2 B2 C2 D2 E2 F2 G2]. split.
  - by eapply mercury_insts_le_trans.
  - lia.
  - by etrans.
  - apply Forall_app. split; [|done]. eapply effects_mono; [|done].
    intros t. by apply mercury_thread_ok_mono.
  - by apply Forall_app.
  - intros e r t. rewrite mercury_done_sends_app, <-F2, <-F1. lia.
  - by etrans.
Qed.

(** ** Specifications of commands *)

(** The commands do not add to the pool's channel. *)
Definition room (k : nat) (c : core) : Prop := True.

Abbreviation triple := (Triple.triple core_ok room ext).
Abbreviation safe := (Triple.safe core_ok room ext).

Lemma mercury_ext_refl (c : core) : ext 0 c c [].
Proof. split; eauto using mercury_insts_le_refl. lia. Qed.

Lemma mercury_ext_weaken (k k' : nat) (c c' : core) (es : list effect) :
  ext k c c' es -> ext (k + k') c c' es.
Proof. intros [A1 A2 A3 A4 A5 A6 A7]. by split. Qed.

#[local] Instance mercury_step_rel : StepRel core_ok room ext.
Proof.
  split; intros; [apply mercury_ext_refl|by eapply mercury_ext_trans|by apply mercury_ext_weaken|done..].
Qed.

(** An update of a field the specifications do not look at. *)
Lemma mercury_safe_modify (f : core -> core) :
  (forall c, Name (f c) = Name c /\ core_Committee (f c) = core_Committee c /\
    core_SigService (f c) = core_SigService c /\
    el_committee (core_Elector (f c)) = el_committee (core_Elector c) /\
    Epoch (f c) = Epoch c /\ SPbInstances (f c) = SPbInstances c /\
    HaltFlags (f c) = HaltFlags c /\ TxPool (f c) = TxPool c /\
    (forall e r t, lookup3 (DoneFlags (f c)) e r t = lookup3 (DoneFlags c) e r t) /\
    core_Commitor (f c) = core_Commitor c) ->
  safe (modify f).
Proof.
  intros H. apply triple_modify. intros c [A1 A2 A3 A4 A5 A6 A7 A8] _.
  destruct (H c) as (H1 & H2 & H3 & H4 & H5 & H6 & H7 & H8 & H9 & H10).
  unfold pool_len, halt_inv in *. split_and!; [| |done].
  - split; unfold pool_len, halt_inv; rewrite ?H1, ?H2, ?H3, ?H4, ?H5, ?H6, ?H7, ?H8; done.
  - split; unfold done_flag, insts_le; rewrite ?H5, ?H6, ?H7, ?H10; try done.
    + apply mercury_insts_le_refl.
    + intros e r t. by rewrite H9.
Qed.

Lemma mercury_safe_emit' (x : effect) :
  (forall c, core_ok c -> eff_ok c x /\ sent_ok x) -> (forall e r t, is_done e r t x = false) ->
  safe (emit x).
Proof.
  intros Hx Hd. apply safe_emit. intros c Hc. destruct (Hx c Hc).
  split; eauto using mercury_insts_le_refl; [lia|]. intros e r t. unfold done_sends.
  rewrite filter_cons, Hd. done.
Qed.

(** ** Messages of the node *)

Definition own (m : Message) : Prop :=
  msg_author m = Some (s_name st) /\ Verify (s_com st) m = Ret true /\ in_int64 (msg_epoch m) /\
  (forall p, m = MSPBProposal p -> proposal_wf p).

Lemma mercury_own_event (m : Message) : own m -> event_ok (s_com st) m.
Proof using Hst.
  intros (Ha & _ & He & Hp). split_and!; [|done..]. exists (s_name st). split; [done|].
  apply st_member, Hst.
Qed.

Lemma mercury_safe_to_recvCh (m : Message) : own m -> safe (to_recvCh m).
Proof using Hst. intros Hm. apply mercury_safe_emit'; [|done]. intros c _. split; [by apply mercury_own_event|done]. Qed.

Lemma mercury_safe_Send_all (m : Message) : own m -> (forall d, m <> MDone d) -> safe (Send_all m).
Proof using Hst.
  intros (Ha & Hv & _) Hd. apply safe_get. intros c Hc. rewrite (co_name _ Hc).
  apply mercury_safe_emit'; [done|]. intros e r t. destruct m; try done. by edestruct Hd.
Qed.

Lemma mercury_safe_broadcast (m : Message) : own m -> (forall d, m <> MDone d) -> safe (broadcast m).
Proof using Hst. intros. apply safe_bind; [by apply mercury_safe_Send_all|]. intros _. by apply mercury_safe_to_recvCh. Qed.

(** Run a constructor and keep what is known of its message. *)
Ltac own_sign :=
  match goal with
  | |- context [RequestSignature ?srv ?h] =>
      let Hs := fresh "Hs" in let Hv := fresh "Hv" in let sig := fresh "sig" in
      destruct (sign_with_name srv _ _ (st_srv _ Hst) h) as (sig & Hs & Hv); rewrite Hs;
      eexists; split; [reflexivity|]; split_and!; [reflexivity|exact Hv|assumption|try done]
  end.

Lemma mercury_NewSPBProposal_own B e r ph :
  in_int64 e -> (ph = SPB_ONE_PHASE -> is_Some B) ->
  exists p, NewSPBProposal (s_srv st) (s_name st) B e r ph = Ret p /\ own (MSPBProposal p).
Proof using Hst Ed25519Laws0.
  intros He Hb. unfold NewSPBProposal. own_sign. intros p [= <-]. exact Hb.
Qed.

Lemma mercury_NewDone_own e r t :
  in_int64 e -> exists d, NewDone (s_srv st) (s_name st) e r t = Ret d /\ own (MDone d).
Proof using Hst Ed25519Laws0. intros He. unfold NewDone. own_sign. Qed.

Lemma mercury_NewElectShare_own e r t :
  in_int64 e -> exists s, NewElectShare (s_srv st) (s_name st) e r t = Ret (Some s) /\
    own (MElectShare s).
Proof using Hst.
  intros He. unfold NewElectShare, RequestTsSugnature, sig_serve. cbn.
  match goal with |- context [tbls_Sign ?sh ?m] => destruct (st_tbls _ Hst sh m) as [s Hs] end.
  rewrite Hs. cbn. eexists. split; [reflexivity|]. by split_and!.
Qed.

Lemma mercury_NewPrevote_own l e r t fl d :
  in_int64 e -> exists p, NewPrevote (s_srv st) (s_name st) l e r t fl d = Ret p /\ own (MPrevote p).
Proof using Hst Ed25519Laws0. intros He. unfold NewPrevote. own_sign. Qed.

Lemma mercury_NewFinVote_own l e r t fl d :
  in_int64 e -> exists f, NewFinVote (s_srv st) (s_name st) l e r t fl d = Ret f /\ own (MFinVote f).
Proof using Hst Ed25519Laws0. intros He. unfold NewFinVote. own_sign. Qed.

Lemma mercury_NewHalt_own l d e r :
  in_int64 e -> exists h, NewHalt (s_srv st) (s_name st) l d e r = Ret h /\ own (MHalt h).
Proof using Hst Ed25519Laws0. intros He. unfold NewHalt. own_sign. Qed.

(** ** Helpers of the core *)

Lemma mercury_safe_messgaeFilter (e : Z) : safe (messgaeFilter e).
Proof. apply safe_gets. Qed.

Lemma mercury_safe_storeBlock (b : option Block) : is_Some b -> safe (storeBlock b).
Proof.
  intros [b' ->]. unfold storeBlock. destruct (Block_Encode b'); [|apply safe_ret].
  apply safe_get. intros c _. destruct (Store_Write _ _ _). apply safe_bind; [|intros; apply safe_ret].
  by apply mercury_safe_modify.
Qed.

Lemma mercury_safe_getBlock (d : Digest) : safe (getBlock d).
Proof.
  unfold getBlock. apply safe_get. intros c _. destruct (Store_Read _ _) as [? [? err]].
  apply safe_bind; [by apply mercury_safe_modify|]. intros _.
  destruct err as [[]|]; try apply safe_ret. destruct (Block_Decode _); apply safe_ret.
Qed.

Lemma mercury_safe_hasReady (e r t : Z) : safe (hasReady e r t).
Proof.
  unfold hasReady. apply safe_get. intros c _. destruct (ReadyFlags c !! e); [apply safe_ret|].
  apply safe_bind; [by apply mercury_safe_modify|]. intros _. apply safe_ret.
Qed.

Lemma mercury_safe_getReference (e r : Z) : safe (getReference e r).
Proof. apply safe_get. intros c _. apply safe_ret. Qed.

Lemma mercury_safe_set_elector (e' : Elector) :
  el_committee e' = s_com st -> safe (modify (fun c : core => c <| core_Elector := e' |>)).
Proof.
  intros He. apply triple_modify. intros c [] _. split_and!; [by split| |done].
  by split; try apply mercury_insts_le_eq.
Qed.

Lemma mercury_safe_Elector_Leader (e r : Z) : safe (Elector_Leader e r).
Proof.
  unfold Elector_Leader. apply safe_get. intros c Hc. unfold Leader.
  apply safe_bind; [|intros; apply safe_ret]. apply mercury_safe_set_elector. apply (co_elector _ Hc).
Qed.

Lemma mercury_safe_generatorBlock (e : Z) (refs : list Digest) : safe (generatorBlock e refs).
Proof.
  intros c Hc _ _. unfold generatorBlock. wp_steps.
  destruct (pool_get_empty (TxPool c) (co_pool _ Hc)) as (b & p & Hg & Hl).
  rewrite Hg. wp_steps. destruct Hc. split_and!; [by split| |done].
  by split; try apply mercury_insts_le_eq.
Qed.

Lemma mercury_safe_Commitor_Commit (b : option Block) : is_Some b -> safe (Commitor_Commit b).
Proof.
  intros [b' ->] c Hc _ _. unfold Commitor_Commit. wp_steps.
  destruct (mercury_Commit_returns (core_Store c) (core_Commitor c) b') as [[store c'] Hr].
  rewrite Hr. wp_steps. pose proof (mercury_Commit_prefix _ _ _ _ _ Hr). destruct Hc.
  split_and!; [by split| |done]. by split; try apply mercury_insts_le_eq.
Qed.

Lemma mercury_safe_propose (b : Block) (e r : Z) : in_int64 e -> safe (propose (Some b) e r).
Proof using Hst Ed25519Laws0.
  intros He. unfold propose. apply safe_get. intros c Hc. rewrite (co_name _ Hc), (co_srv _ Hc).
  destruct (mercury_NewSPBProposal_own (Some b) e r SPB_ONE_PHASE He) as (p & Hp & Hown); [by eexists|].
  eapply safe_lift; [exact Hp|]. by apply mercury_safe_broadcast.
Qed.

(** The instance a lookup returns is in the map. *)
Lemma mercury_triple_getSpbInstance (I : core -> Prop) (e r : Z) (n : NodeID) :
  in_int64 e ->
  triple 0 I (getSpbInstance e r n) (fun s c => lookup3 (SPbInstances c) e r n = Some s).
Proof.
  intros He c Hc Hp Hi. unfold getSpbInstance. wp_steps.
  destruct (lookup3 (SPbInstances c) e r n) as [s|] eqn:El; wp_steps.
  - auto using mercury_ext_refl.
  - split_and!; [| |cbn; by autorewrite with nested].
    + destruct Hc as [? ? ? ? ? ? ? Hs]. split; try done. cbn. intros e' r' n' s'.
      rewrite lookup3_insert3. case_decide as Hd; [|by apply Hs].
      destruct Hd as (<- & <- & <-). intros [= <-]. by split.
    + split; try done. intros e' r' n' s' Hs'. cbn.
      rewrite lookup3_insert3_ne by naive_solver. eauto using mercury_spb_le_refl.
Qed.

Lemma mercury_safe_getSpbInstance (e r : Z) (n : NodeID) : in_int64 e -> safe (getSpbInstance e r n).
Proof. intros He. eapply triple_conseq; [by apply (mercury_triple_getSpbInstance (fun _ => True))|done..]. Qed.

(** Look up an instance and start a goroutine on it. *)
Lemma mercury_safe_getSpbInstance_go (e r : Z) (n : NodeID) (pc : spb_pc) :
  in_int64 e -> (forall s, pc_ok s pc) ->
  safe (_ ← getSpbInstance e r n; _ ← go e r n pc; mret (@None error)).
Proof.
  intros He Hpc. apply (triple_bind 0 0 _ _ _ (fun s c => lookup3 (SPbInstances c) e r n = Some s)).
  { by apply mercury_triple_getSpbInstance. }
  intros s c Hc Hp Hs. unfold go. wp_steps. split_and!; [done| |done].
  split; eauto using mercury_insts_le_refl; [lia| |].
  - repeat constructor. cbn. exists s. split; [exact Hs|]. apply Hpc.
  - by repeat constructor.
Qed.

(** ** Handlers *)

Lemma mercury_safe_handleSpbProposal (p : SPBProposal) :
  in_int64 (SPBProposal_Epoch p) -> proposal_wf p -> safe (handleSpbProposal p).
Proof.
  intros He Hp. unfold handleSpbProposal. apply safe_bind.
  - case_bool; [|apply safe_ret]. apply safe_get. intros c _. case_bool_decide; [|apply safe_ret].
    apply safe_bind; [apply mercury_safe_Elector_Leader|]. intros leader.
    case_bool; [|apply safe_ret]. by apply mercury_safe_Commitor_Commit, Hp.
  - intros _. apply safe_bind; [apply mercury_safe_messgaeFilter|]. intros [|]; [apply safe_ret|].
    apply safe_bind; [case_bool; [by apply mercury_safe_storeBlock, Hp|apply safe_ret]|].
    intros [err|]; [apply safe_ret|]. by apply mercury_safe_getSpbInstance_go.
Qed.

Lemma mercury_safe_handleSpbVote (v : SPBVote) : in_int64 (SPBVote_Epoch v) -> safe (handleSpbVote v).
Proof.
  intros He. unfold handleSpbVote. apply safe_bind; [apply mercury_safe_messgaeFilter|].
  intros [|]; [apply safe_ret|]. by apply mercury_safe_getSpbInstance_go.
Qed.

(** An unset flag reads as unset, and the read changes no flag. *)
Lemma mercury_triple_hasDone (e r t : Z) :
  triple 0 (fun _ => True) (hasDone e r t)
    (fun b c => b = false -> lookup3 (DoneFlags c) e r t = None).
Proof.
  intros c Hc _ _. unfold hasDone. wp_steps.
  destruct (DoneFlags c !! e) as [items|] eqn:Ei; wp_steps.
  - split_and!; [done|apply mercury_ext_refl|]. unfold has, lookup3, lookup2. rewrite Ei. cbn.
    destruct (items !! r) as [item|]; [|done]. cbn.
    case_bool_decide as Hh; [done|]. intros _. by apply eq_None_not_Some.
  - assert (forall e' r' t', lookup3 (<[e := ∅]> (DoneFlags c)) e' r' t' =
      lookup3 (DoneFlags c) e' r' t') as Heq.
    { intros. rewrite <-(lookup3_ensure (DoneFlags c) e). unfold ensure. by rewrite Ei. }
    destruct Hc. split_and!; [by split| |].
    + split; try done; [by apply mercury_insts_le_eq|].
      intros e' r' t'. unfold done_flag. cbn. by rewrite Heq.
    + intros _. cbn. rewrite Heq. unfold lookup3, lookup2. by rewrite Ei.
Qed.

(** The Done of (epoch, round, try) is sent when its flag is not set, and sets it. *)
Lemma mercury_safe_invokeDoneAndShare (e r t : Z) : in_int64 e -> safe (invokeDoneAndShare e r t).
Proof using Hst Ed25519Laws0.
  intros He. unfold invokeDoneAndShare. apply (triple_bind 0 0 _ _ _
    (fun b c => b = false -> lookup3 (DoneFlags c) e r t = None)); [apply mercury_triple_hasDone|].
  intros [|]; [by apply triple_conseq with (I' := fun _ => True) (Q' := fun _ _ => True);
    [apply safe_bind; intros; apply safe_ret|..]|].
  intros c Hc Hp Hno. specialize (Hno eq_refl). unfold Send_all, to_recvCh. wp_steps.
  rewrite (co_name _ Hc), (co_srv _ Hc).
  destruct (mercury_NewDone_own e r t He) as (d & Hd & Hown).
  destruct (mercury_NewElectShare_own e r t He) as (sh & Hsh & Hown').
  rewrite Hd. wp_steps. rewrite Hsh. wp_steps. cbn [app share_msg].
  pose proof Hown as (Ha & Hv & _). pose proof Hown' as (Ha' & Hv' & _).
  unfold NewDone in Hd. destruct (RequestSignature _ _); [|done]. injection Hd as <-.
  pose proof (co_name _ Hc) as Hn. destruct Hc. split_and!; [by split| |done]. split; try done.
  - by apply mercury_insts_le_eq.
  - rewrite !Forall_cons. split_and!; [done|done|by apply mercury_own_event|by apply mercury_own_event|].
    by apply Forall_nil.
  - rewrite !Forall_cons. split_and!; [by rewrite Hn|by rewrite Hn|done|done|]. by apply Forall_nil.
  - intros e' r' t'. unfold done_flag. cbn [DoneFlags set_field]. rewrite lookup3_insert3.
    unfold done_sends. rewrite !filter_cons. cbn [is_done].
    destruct (decide (e = e' /\ r = r' /\ t = t')) as [(<- & <- & <-)|Hd].
    + rewrite Hno. cbn. by rewrite !Z.eqb_refl.
    + assert ((e =? e') && (r =? r') && (t =? t') = false) as Hb
        by (destruct (Z.eqb_spec e e'), (Z.eqb_spec r r'), (Z.eqb_spec t t'); naive_solver).
      cbn in *. rewrite Hb. done.
Qed.

Lemma mercury_safe_handleFinish (f : Finish) : in_int64 (Finish_Epoch f) -> safe (handleFinish f).
Proof using Hst Ed25519Laws0.
  intros He. unfold handleFinish. apply safe_bind; [apply mercury_safe_messgaeFilter|].
  intros [|]; [apply safe_ret|]. apply safe_get. intros c _.
  destruct (AddFinishVote _ _) as [agg [flag err]]. apply safe_bind; [by apply mercury_safe_modify|].
  intros _. destruct err; [apply safe_ret|]. apply safe_bind; [by apply mercury_safe_modify|].
  intros _. destruct flag; [by apply mercury_safe_invokeDoneAndShare|apply safe_ret].
Qed.

(** A locked instance has a block hash: [panic("block hash is nil")] is dead. *)
Lemma mercury_triple_prevote_for (e r t : Z) (leader : NodeID) :
  in_int64 e ->
  triple 0 (fun _ => True) (prevote_for e r t leader) (fun p _ => own (MPrevote p)).
Proof using Hst Ed25519Laws0.
  intros He. unfold prevote_for. apply triple_get. intros c0 Hc0 _.
  rewrite (co_name _ Hc0), (co_srv _ Hc0).
  apply (triple_bind 0 0 _ _ _ (fun s c => lookup3 (SPbInstances c) e r leader = Some s)).
  { by apply mercury_triple_getSpbInstance. }
  intros s. apply triple_pre. intros c1 Hc1 Hs. unfold IsLock, GetBlockHash.
  destruct (co_spb _ Hc1 _ _ _ _ Hs) as [Hok _]. destruct (LockFlag s) eqn:El.
  - destruct (so_lock _ _ _ _ Hok El) as [h ->].
    destruct (mercury_NewPrevote_own leader e t r VOTE_FLAG_YES h He) as (p & Hp & Hown).
    eapply triple_lift; [exact Hp|]. by apply triple_ret.
  - destruct (mercury_NewPrevote_own leader e r t VOTE_FLAG_NO Digest0 He) as (p & Hp & Hown).
    eapply triple_lift; [exact Hp|]. by apply triple_ret.
Qed.

Lemma mercury_safe_processLeader (e r t : Z) : in_int64 e -> safe (processLeader e r t).
Proof using Hst Ed25519Laws0.
  intros He. unfold processLeader. apply safe_bind; [apply mercury_safe_hasReady|]. intros ready.
  apply safe_bind; [|intros; apply safe_ret]. destruct ready; [|apply safe_ret].
  apply safe_bind; [apply mercury_safe_Elector_Leader|]. intros leader. case_bool; [apply safe_ret|].
  apply safe_bind; [apply safe_gets|]. intros [[] d].
  - apply safe_get. intros c Hc. rewrite (co_name _ Hc), (co_srv _ Hc).
    destruct (mercury_NewHalt_own leader d e r He) as (h & Hh & Hown).
    eapply safe_lift; [exact Hh|]. by apply mercury_safe_broadcast.
  - apply (triple_bind 0 0 _ _ _ (fun p _ => own (MPrevote p))); [by apply mercury_triple_prevote_for|].
    intros p. apply triple_pre. intros c _ Hown. by apply safe_triple, mercury_safe_broadcast.
Qed.

Lemma mercury_safe_handleDone (d : Done) : in_int64 (Done_Epoch d) -> safe (handleDone d).
Proof using Hst Ed25519Laws0.
  intros He. unfold handleDone. apply safe_bind; [apply mercury_safe_messgaeFilter|].
  intros [|]; [apply safe_ret|]. apply safe_get. intros c _.
  destruct (AddDoneVote _ _) as [agg [flag err]]. apply safe_bind; [by apply mercury_safe_modify|].
  intros _. destruct err; [apply safe_ret|]. case_bool; [by apply mercury_safe_invokeDoneAndShare|].
  case_bool; [|apply safe_ret]. apply safe_bind; [by apply mercury_safe_modify|].
  intros _. apply safe_ret.
Qed.

Lemma mercury_safe_handleElectShare (sh : ElectShare) :
  in_int64 (ElectShare_Epoch sh) -> safe (handleElectShare sh).
Proof using Hst Ed25519Laws0 KyberLaws0.
  intros He. unfold handleElectShare. apply safe_bind; [apply mercury_safe_messgaeFilter|].
  intros [|]; [apply safe_ret|]. apply safe_get. intros c Hc.
  destruct (mercury_AddShareVote_spec (core_Elector c) sh) as (e' & node & Hr & Hcom & _).
  { rewrite (co_elector _ Hc). by eapply committee_pos, st_member. }
  eapply safe_lift; [exact Hr|]. apply safe_bind.
  { apply mercury_safe_set_elector. by rewrite Hcom, (co_elector _ Hc). }
  intros _. case_bool; [apply safe_ret|].
  apply safe_bind; [by apply mercury_safe_processLeader|]. intros _. apply safe_ret.
Qed.

Lemma mercury_safe_handlePrevote (pv : Prevote) : in_int64 (Prevote_Epoch pv) -> safe (handlePrevote pv).
Proof using Hst Ed25519Laws0.
  intros He. unfold handlePrevote. apply safe_bind; [apply mercury_safe_messgaeFilter|].
  intros [|]; [apply safe_ret|]. apply safe_get. intros c Hc.
  destruct (AddPreVote _ _) as [agg [flag err]]. apply safe_bind; [by apply mercury_safe_modify|].
  intros _. destruct err; [apply safe_ret|]. cbn zeta. rewrite (co_name _ Hc), (co_srv _ Hc).
  assert (forall fl, safe (v ← lift_outcome (NewFinVote (s_srv st) (s_name st) (Prevote_Leader pv)
    (Prevote_Epoch pv) (Prevote_Round pv) (Prevote_Try pv) fl (Prevote_BlockHash pv)); _ ← broadcast (MFinVote v);
    mret (@None error))) as Hv.
  { intros fl. destruct (mercury_NewFinVote_own (Prevote_Leader pv) (Prevote_Epoch pv) (Prevote_Round pv)
      (Prevote_Try pv) fl (Prevote_BlockHash pv) He) as (v & Hv & Hown).
    eapply safe_lift; [exact Hv|]. apply safe_bind; [by apply mercury_safe_broadcast|]. intros.
    apply safe_ret. }
  case_bool; [apply Hv|]. case_bool; [apply Hv|apply safe_ret].
Qed.

Lemma mercury_safe_advanceNextRound (e r fl : Z) (h : Digest) :
  in_int64 e -> safe (advanceNextRound e r fl h).
Proof using Hst Ed25519Laws0.
  intros He. unfold advanceNextRound. apply safe_bind; [apply mercury_safe_messgaeFilter|].
  intros [|]; [apply safe_ret|]. apply safe_bind.
  { unfold next_hash. case_bool; [|apply safe_ret]. apply safe_get. intros c _.
    apply safe_bind; [by apply mercury_safe_getSpbInstance|]. intros s. apply safe_ret. }
  intros hash. apply safe_bind; [apply mercury_safe_getBlock|]. intros [block err].
  destruct err; [apply safe_ret|]. apply safe_bind.
  { destruct block; [apply safe_ret|]. apply safe_bind; [apply mercury_safe_getReference|].
    intros refs. apply mercury_safe_generatorBlock. }
  intros b. apply safe_bind; [by apply mercury_safe_propose|]. intros _. apply safe_ret.
Qed.

Lemma mercury_safe_handleFinvote (fv : FinVote) : in_int64 (FinVote_Epoch fv) -> safe (handleFinvote fv).
Proof using Hst Ed25519Laws0.
  intros He. unfold handleFinvote. apply safe_bind; [apply mercury_safe_messgaeFilter|].
  intros [|]; [apply safe_ret|]. apply safe_get. intros c Hc.
  destruct (AddFinVote _ _) as [agg [flag err]]. apply safe_bind; [by apply mercury_safe_modify|].
  intros _. destruct err; [apply safe_ret|].
  case_bool; [by apply mercury_safe_advanceNextRound|]. case_bool; [by apply mercury_safe_invokeDoneAndShare|].
  case_bool; [|apply safe_ret]. rewrite (co_name _ Hc), (co_srv _ Hc).
  destruct (mercury_NewHalt_own (FinVote_Leader fv) (FinVote_BlockHash fv) (FinVote_Epoch fv)
    (FinVote_Round fv) He) as (h & Hh & Hown).
  eapply safe_lift; [exact Hh|]. apply safe_bind; [by apply mercury_safe_broadcast|]. intros _.
  apply safe_ret.
Qed.

(** ** Output and the next epoch *)

(** A block that is not an error is there. *)
Lemma mercury_triple_getBlock (h : Digest) :
  triple 0 (fun _ => True) (getBlock h) (fun r _ => r.2 = None -> is_Some r.1).
Proof using Hdb.
  intros c Hc _ _. unfold getBlock. wp_steps.
  pose proof (Hdb (core_Store c) h) as Hnf. destruct (Store_Read (core_Store c) h) as [s [v err]].
  cbn in Hnf. wp_steps.
  assert (core_ok (c <| core_Store := s |>)) as Hc' by (destruct Hc; by split).
  assert (ext 0 c (c <| core_Store := s |>) []) as Hx by (split; try done; by apply mercury_insts_le_eq).
  destruct err as [[]|]; try done; wp_steps; cbn [app]; try (by split_and!).
  destruct (Block_Decode v); wp_steps; by split_and!.
Qed.

Lemma mercury_safe_handleOutput (e : Z) (h : Digest) : safe (handleOutput e h).
Proof using Hdb.
  unfold handleOutput.
  apply (triple_bind 0 0 _ _ _ (fun r _ => r.2 = None -> is_Some r.1)); [apply mercury_triple_getBlock|].
  intros [b err]. apply triple_pre. intros c _ Hb. apply safe_triple.
  destruct err; [apply safe_ret|]. apply safe_bind; [by apply mercury_safe_Commitor_Commit, Hb|].
  intros _. apply safe_ret.
Qed.

(** Entering an epoch: the rest of the invariant is kept whether or not the halted
    epochs are over. *)
Lemma mercury_advanceNextEpoch_spec (e : Z) (refs : list Digest) (c : core) :
  in_int64 e -> core_ok (c <| HaltFlags := ∅ |>) ->
  (forall e', e' ∈ HaltFlags c -> e' < Z.max (Epoch c) e \/ e' = last_epoch) ->
  wp False (advanceNextEpoch e refs) c (fun _ c' es => core_ok c' /\ ext 0 c c' es).
Proof using Hst Ed25519Laws0.
  intros He [A1 A2 A3 A4 A5 A6 _ A8] Hh. cbn in *. unfold advanceNextEpoch.
  apply wp_bind, wp_get. cbn beta. case_bool.
  - wp_steps. rewrite Z.max_l in Hh by lia. split; [by split|apply mercury_ext_refl].
  - apply wp_bind, wp_modify. set (c1 := c <| Epoch := e |>).
    rewrite Z.max_r in Hh by lia. assert (core_ok c1) as Hc1 by by split.
    assert (ext 0 c c1 []) as Hx.
    { split; try done; [by apply mercury_insts_le_eq|cbn; lia]. }
    assert (safe (block ← generatorBlock e refs; propose (Some block) e 0)) as Hs.
    { apply safe_bind; [apply mercury_safe_generatorBlock|]. intros b. by apply mercury_safe_propose. }
    eapply wp_mono; [by apply Hs|]. intros _ c3 es (Hc3 & Hx3 & _). split; [done|].
    by apply (mercury_ext_trans 0 0 c c1 c3 [] es).
Qed.

Lemma mercury_safe_handleHalt (h : Halt) : in_int64 (Halt_Epoch h) -> safe (handleHalt h).
Proof using Hst Ed25519Laws0 Hdb.
  intros He. unfold handleHalt. apply safe_bind; [apply mercury_safe_messgaeFilter|].
  intros [|]; [apply safe_ret|]. apply safe_get. intros c0 Hc0.
  case_bool_decide; [apply safe_ret|].
  apply safe_bind; [by apply mercury_safe_modify|]. intros _.
  apply safe_bind; [apply mercury_safe_handleOutput|]. intros _.
  intros c Hc _ _. unfold getReference. rewrite wp_bind, wp_modify. cbn [app].
  wp_steps. set (c1 := c <| HaltFlags := _ |>).
  eapply wp_mono; [apply mercury_advanceNextEpoch_spec|].
  - apply int64_range.
  - destruct Hc. by split.
  - intros e' He'. cbn in He'. apply elem_of_union in He' as [->%elem_of_singleton|He'%(co_halt _ Hc)];
      cbn.
    + destruct (decide (Halt_Epoch h = last_epoch)); [by right|]. left.
      rewrite int64_next by done. lia.
    + destruct He'; [left; lia|by right].
  - cbn beta. intros _ c3 es (Hc3 & Hx3). wp_steps. cbn [app]. rewrite app_nil_r.
    split_and!; [done| |done]. apply (mercury_ext_trans 0 0 c c1 c3 [] es); [|done].
    split; try done; [by apply mercury_insts_le_eq|apply union_subseteq_r].
Qed.

(** ** The steps of a node *)

Lemma mercury_safe_dispatch (m : Message) : event_ok (s_com st) m -> safe (dispatch m).
Proof using Hst Ed25519Laws0 KyberLaws0 Hdb.
  intros ((a & Ha & Hm) & He & Hp). destruct m; cbn in *; try done.
  - by apply mercury_safe_handleSpbProposal, Hp.
  - by apply mercury_safe_handleSpbVote.
  - by apply mercury_safe_handleFinish.
  - by apply mercury_safe_handleDone.
  - by apply mercury_safe_handleElectShare.
  - by apply mercury_safe_handlePrevote.
  - by apply mercury_safe_handleFinvote.
  - by apply mercury_safe_handleHalt.
Qed.

Lemma mercury_triple_handle (m : Message) :
  event_ok (s_com st) m -> triple 0 (fun _ => True) (handle m) (fun t _ => t = None).
Proof using Hst Ed25519Laws0 KyberLaws0 Hdb.
  intros Hm. unfold handle, handle_msg.
  apply (triple_bind 0 0 _ _ _ (fun _ _ => True)); [|intros _; by apply triple_ret].
  apply safe_get. intros c Hc. rewrite (co_com _ Hc). pose proof Hm as ((a & Ha & Hin) & _ & _).
  destruct (mercury_Verify_member (s_com st) m a (st_keys _ Hst) Ha Hin) as [b Hv].
  eapply safe_lift; [exact Hv|]. destruct b; [by apply mercury_safe_dispatch|apply safe_ret].
Qed.

(** A goroutine's step: [ext] of the core, and the goroutine goes on knowing
    what it needs. *)
Lemma mercury_tstep_spec (t : Thread) (c : core) :
  core_ok c -> thread_ok c t ->
  wp False (tstep t) c (fun t' c' es => core_ok c' /\ ext 0 c c' es /\
    (forall t'', t' = Some t'' -> thread_ok c' t'')).
Proof using Hst Ed25519Laws0.
  intros Hc (s & Hs & Hpc). unfold wp, tstep. rewrite Hs.
  destruct (co_spb _ Hc _ _ _ _ Hs) as [Hok Hep].
  rewrite (co_name _ Hc), (co_com _ Hc), (co_srv _ Hc).
  pose proof (mercury_spb_step_ok (s_name st) (s_com st) (s_srv st) (t_epoch t) (t_round t)
    (t_node t) (t_pc t) s _ (st_srv _ Hst) Hok Hpc) as Hw. unfold wp in Hw.
  destruct (spb_step _ _ _ _ s) as [[[pc s'] es]|]; [|done].
  destruct Hw as (Hok' & Hle & Heff & Hnext).
  set (c' := c <| SPbInstances := _ |>).
  assert (lookup3 (SPbInstances c') (t_epoch t) (t_round t) (t_node t) = Some s') as Hl'
    by (cbn; by autorewrite with nested).
  rewrite Forall_forall in Heff. split_and!; [|split; try done|].
  - destruct Hc as [? ? ? ? ? ? ? Hsp]. split; try done. intros e r n x. cbn. rewrite lookup3_insert3.
    case_decide as Hd; [|by apply Hsp]. destruct Hd as (<- & <- & <-). intros [= <-]. done.
  - intros e r n x Hx. cbn. rewrite lookup3_insert3. case_decide as Hd.
    + destruct Hd as (<- & <- & <-). rewrite Hs in Hx. injection Hx as <-. eauto.
    + eauto using mercury_spb_le_refl.
  - apply Forall_forall. intros x Hx. specialize (Heff x Hx).
    destruct x as [f to m|ch m|t1]; cbn in *; [done| |].
    + destruct Heff as (Ha & _ & He & Hph & _). split_and!.
      * exists (s_name st). split; [done|]. apply (st_member _ Hst).
      * by rewrite He.
      * intros p -> Hone. specialize (Hph p eq_refl). rewrite Hph in Hone. done.
    + destruct Heff as (He1 & He2 & He3 & Hp1). unfold thread_ok. rewrite He1, He2, He3.
      exists s'. by split.
  - apply Forall_forall. intros x Hx. specialize (Heff x Hx). destruct x; cbn in *; try done.
    destruct Heff as (-> & Ha & Hv & _). done.
  - intros e r t0. assert (done_sends e r t0 es = 0%nat) as ->; [|done]. unfold done_sends.
    destruct (filter _ es) as [|x l] eqn:Ef; [done|].
    assert (x ∈ x :: l) as Hx by constructor. rewrite <-Ef in Hx.
    apply list_elem_of_filter in Hx as [Hd Hx]. specialize (Heff x Hx).
    destruct x as [f to []|?|]; try done. destruct Heff as (_ & _ & _ & _ & _ & Hno).
    by edestruct Hno.
  - intros t'' Ht''. destruct pc as [pc|]; [|done]. injection Ht'' as <-. exists s'. auto.
Qed.

(** The invariant with the history of effects. *)
Definition hist_inv (c : core) (log : list effect) : Prop :=
  core_ok c /\ (forall e r t, done_sends e r t log = done_flag c e r t) /\ Forall sent_ok log.

Lemma mercury_ext_hist (c c' : core) (log es : list effect) :
  hist_inv c log -> core_ok c' -> ext 0 c c' es ->
  step_post hist_inv (event_ok (s_com st)) thread_ok c log c' es.
Proof.
  intros (Hi & Hd & Hs) Hi' [A1 A2 A3 A4 A5 A6 A7]. split_and!; [split_and!|done|].
  - done.
  - intros e r t. rewrite mercury_done_sends_app, Hd, <-A6. lia.
  - by apply Forall_app.
  - intros t. by apply mercury_thread_ok_mono.
Qed.

Lemma mercury_handle_ok (m : Message) (c : core) (log : list effect) :
  event_ok (s_com st) m -> hist_inv c log ->
  wp False (handle m) c (fun t' c' es =>
    step_post hist_inv (event_ok (s_com st)) thread_ok c log c' es /\
    (forall t'', t' = Some t'' -> thread_ok c' t'')).
Proof using Hst Ed25519Laws0 KyberLaws0 Hdb.
  intros Hm Hh. eapply wp_mono; [apply mercury_triple_handle; [done|apply Hh|done..]|].
  intros t' c' es (Hi & Ha & ->). split; [by apply mercury_ext_hist|done].
Qed.

Lemma mercury_tstep_ok (t : Thread) (c : core) (log : list effect) :
  thread_ok c t -> hist_inv c log ->
  wp False (tstep t) c (fun t' c' es =>
    step_post hist_inv (event_ok (s_com st)) thread_ok c log c' es /\
    (forall t'', t' = Some t'' -> thread_ok c' t'')).
Proof using Hst Ed25519Laws0.
  intros Ht Hh. eapply wp_mono; [apply mercury_tstep_spec; [apply Hh|done]|].
  intros t' c' es (Hc & Hx & Hn). split; [|done]. by apply mercury_ext_hist.
Qed.

(** A new node with an empty pool. *)
Definition boot (params : Parameters) (store : Store db) (pool : PoolParams.t) (N Id : Z) : core :=
  NewCore (s_name st) (s_com st) params (s_srv st) store (NewPool pool N Id).

Lemma mercury_boot_ok params store pool N Id : core_ok (boot params store pool N Id).
Proof. by split. Qed.

Lemma mercury_boot_started params store pool N Id :
  exists n0, started (boot params store pool N Id) n0 /\
    node_ok hist_inv (event_ok (s_com st)) thread_ok n0 /\ sent_inv n0.
Proof using Hst Ed25519Laws0.
  set (c0 := boot params store pool N Id).
  pose proof (mercury_boot_ok params store pool N Id) as Hi. fold c0 in Hi.
  assert (safe Run_start) as Hs.
  { unfold Run_start. apply safe_get. intros c Hc.
    apply safe_bind; [apply mercury_safe_generatorBlock|]. intros b. apply mercury_safe_propose.
    apply (co_epoch _ Hc). }
  specialize (Hs c0 Hi I I). unfold wp in Hs.
  destruct (Run_start c0) as [[[[] c] es]|] eqn:Er; [|done]. destruct Hs as (Hc & Ha & _).
  exists (start c es). split_and!; [by exists c, es| |apply start_sent].
  apply start_ok; [|by apply (x_eff _ _ _ _ Ha)]. split_and!; [done| |by apply (x_sent _ _ _ _ Ha)].
  intros e r t. by rewrite <-(x_done _ _ _ _ Ha), Nat.add_0_r.
Qed.

Lemma mercury_started_unique c0 n1 n2 : started (db := db) c0 n1 -> started c0 n2 -> n1 = n2.
Proof. intros (c & es & H1 & ->) (c' & es' & H2 & ->). congruence. Qed.

Lemma mercury_reachable_ok params store pool N Id n0 n :
  started (boot params store pool N Id) n0 -> node_reachable (event_ok (s_com st)) n0 n ->
  node_ok hist_inv (event_ok (s_com st)) thread_ok n /\ sent_inv n.
Proof using Hst Ed25519Laws0 KyberLaws0 Hdb.
  intros H0 Hr. destruct (mercury_boot_started params store pool N Id) as (n1 & H1 & Hok & Hsent).
  rewrite (mercury_started_unique _ _ _ H0 H1) in Hr. split.
  - eapply node_invariant; [apply mercury_handle_ok|apply mercury_tstep_ok| |exact Hok|exact Hr]. done.
  - by eapply reachable_sent.
Qed.

End Safety.

(** ** Theorems on every reachable state *)

Section Theorems.
Context {E : Ed25519} {K : Kyber} {db : Type} `{HDB : DB db} {GB : GobBlock}.
Context `{!Ed25519Laws E} `{!KyberLaws K}.

(** C6. A correctly configured node on a database that does not answer
    [store.ErrNotFoundKey] starts, and from then on no step panics or blocks for
    ever on the batch channel: whatever well-formed messages the network delivers,
    with whatever signatures and contents, and however the main loop and the
    broadcast goroutines are interleaved. *)
Theorem mercury_no_crash (st : setting) (params : Parameters) (store : Store db)
    (pool : PoolParams.t) (N Id : Z) :
  never_not_found db -> setting_ok st ->
  exists n0, started (boot st params store pool N Id) n0 /\
    forall n ch, node_reachable (event_ok (s_com st)) n0 n ->
      allowed (event_ok (s_com st)) ch -> node_step ch n <> Crash.
Proof.
  intros Hdb Hst.
  destruct (mercury_boot_started st Hst params store pool N Id) as (n0 & H0 & Hok & _).
  exists n0. split; [done|]. intros n ch Hr Hch.
  eapply (node_no_crash _ _ _ _ _ _ _ (fun _ _ => False));
    [by apply mercury_handle_ok|by apply mercury_tstep_ok|done|auto|exact Hok|
    exact Hr|done].
Qed.

(** C10. In every reachable state: every message the node has sent is in its own name
    and verifies at every member of the committee; it has sent at most one Done per
    epoch, round and try, and recorded it; a locked broadcast instance has a block
    hash; a halted epoch is below the node's epoch. *)
Theorem mercury_node_invariant (st : setting) (params : Parameters) (store : Store db)
    (pool : PoolParams.t) (N Id : Z) n0 n :
  never_not_found db -> setting_ok st -> started (boot st params store pool N Id) n0 ->
  node_reachable (event_ok (s_com st)) n0 n ->
  (forall f to m, (f, to, m) ∈ n_sent n ->
     f = s_name st /\ msg_author m = Some f /\ Verify (s_com st) m = Ret true) /\
  (forall e r t, (sent_dones e r t (n_sent n) <= 1)%nat /\
     ((sent_dones e r t (n_sent n) = 1)%nat -> is_Some (lookup3 (DoneFlags (n_core n)) e r t))) /\
  (forall e r p s, lookup3 (SPbInstances (n_core n)) e r p = Some s -> IsLock s = true ->
     is_Some (GetBlockHash s)) /\
  (forall e, e ∈ HaltFlags (n_core n) -> e < Epoch (n_core n) \/ e = last_epoch).
Proof.
  intros Hdb Hst H0 Hr.
  destruct (mercury_reachable_ok Hdb st Hst _ _ _ _ _ _ _ H0 Hr) as [Hok Hsent].
  destruct Hok as ((Hc & Hd & Hlog) & _). split_and!.
  - intros f to m Hin. eapply sent_in_log in Hin; [|exact Hsent].
    rewrite Forall_forall in Hlog. by apply (Hlog _ Hin).
  - intros e r t. specialize (Hd e r t).
    assert (sent_dones e r t (n_sent n) <= done_sends e r t (n_log n))%nat as Hle.
    { rewrite mercury_done_sends_sends. unfold sent_inv in Hsent. unfold sent_dones.
      rewrite Hsent, filter_app, length_app. lia. }
    unfold done_flag in Hd. destruct (lookup3 (DoneFlags (n_core n)) e r t).
    + split; [lia|by eexists].
    + split; lia.
  - intros e r p s Hs Hl. destruct (co_spb _ _ Hc _ _ _ _ Hs) as [Hs' _].
    by apply (so_lock _ _ _ _ Hs').
  - apply (co_halt _ _ Hc).
Qed.

(** No step takes anything back: the epoch does not decrease, halted epochs
    stay halted, and the delivered sequence of blocks only grows at its end. *)
Theorem mercury_step_monotone (st : setting) (params : Parameters) (store : Store db)
    (pool : PoolParams.t) (N Id : Z) n0 n n' ch :
  never_not_found db -> setting_ok st -> started (boot st params store pool N Id) n0 ->
  node_reachable (event_ok (s_com st)) n0 n -> node_step ch n = Next n' ->
  Epoch (n_core n) <= Epoch (n_core n') /\ HaltFlags (n_core n) ⊆ HaltFlags (n_core n') /\
  commitCh (core_Commitor (n_core n)) `prefix_of` commitCh (core_Commitor (n_core n')).
Proof.
  intros Hdb Hst H0 Hr Hs.
  destruct (mercury_reachable_ok Hdb st Hst _ _ _ _ _ _ _ H0 Hr) as [Hok _].
  pose proof Hok as ((Hi & _) & _).
  destruct (nstep_core _ _ _ _ _ _ _ _ _ Hok Hs)
    as [->|[(m & u & es & Hm & Hh)|(t & t' & es & Ht & Hh)]].
  - split_and!; [lia|done..].
  - pose proof (mercury_triple_handle Hdb st Hst m Hm _ Hi I I) as Hw. unfold wp in Hw.
    rewrite Hh in Hw. destruct Hw as (_ & [] & _). done.
  - pose proof (mercury_tstep_spec st Hst t _ Hi Ht) as Hw. unfold wp in Hw. rewrite Hh in Hw.
    destruct Hw as (_ & [] & _). done.
Qed.

End Theorems.

(** ** Witnesses *)

Section Witness.
Import ToyCrypto ToyNode ToyGob ToyNuts.

(** Node 1 of four, on an empty NutsDB. *)
Definition toy_core : Core (db := nuts) :=
  boot toy_setting DefaultParameters (NewStore (∅ : gmap bytes bytes)) toy_pool 4 1.

Definition toy_start : Node :=
  match Run_start toy_core with
  | Ret (_, c, es) => start c es
  | Panic => start toy_core []
  end.

Lemma mercury_toy_started : started toy_core toy_start.
Proof.
  assert (match Run_start toy_core with Ret _ => true | Panic => false end = true) as Hr
    by (vm_compute; reflexivity).
  unfold started, toy_start. by destruct (Run_start toy_core) as [[[[] c] es]|]; [eauto|].
Qed.

Lemma mercury_no_crash_witness :
  exists n0, started toy_core n0 /\
    forall n ch, node_reachable (event_ok (toy_committee 4)) n0 n ->
      allowed (event_ok (toy_committee 4)) ch -> node_step ch n <> Crash.
Proof.
  apply (mercury_no_crash toy_setting); [exact nutsdb_not_found_free|exact toy_setting_ok].
Defined.

(** The first message of the node: its proposal for epoch 0. *)
Definition toy_next : Node :=
  match node_step CMain toy_start with Next n => n | _ => toy_start end.
Lemma mercury_toy_next_reachable : node_reachable (event_ok (toy_committee 4)) toy_start toy_next.
Proof.
  eapply reach_step; [apply reach_init|]. exists CMain. split; [done|].
  assert (is_next (node_step CMain toy_start) = true) as Hr by (vm_compute; reflexivity).
  unfold toy_next. change (nstep chan_cap handle tstep) with (node_step (E := toy_ed25519)
    (K := toy_kyber) (db := nuts)).
  by destruct (node_step CMain toy_start).
Qed.

Lemma mercury_node_invariant_witness :
  exists m, (1, NONE, m) ∈ n_sent toy_next /\ Verify (toy_committee 4) m = Ret true.
Proof.
  assert ((fun x => (x.1.1, x.1.2)) <$> n_sent toy_next = [(1, NONE)]) as Hs
    by (vm_compute; reflexivity).
  destruct (n_sent toy_next) as [|[[f t] m] l] eqn:El; [discriminate|].
  injection Hs as -> -> _.
  assert ((1, NONE, m) ∈ n_sent toy_next) as Hin by (rewrite El; constructor).
  exists m. split; [by rewrite <-El|].
  apply (proj1 (mercury_node_invariant toy_setting DefaultParameters (NewStore ∅)
    toy_pool 4 1 toy_start toy_next nutsdb_not_found_free toy_setting_ok
    mercury_toy_started mercury_toy_next_reachable) 1 NONE m Hin).
Defined.

Lemma mercury_step_monotone_witness :
  exists n', node_step CMain toy_next = Next n' /\
  Epoch (n_core toy_next) <= Epoch (n_core n') /\
  HaltFlags (n_core toy_next) ⊆ HaltFlags (n_core n') /\
  commitCh (core_Commitor (n_core toy_next)) `prefix_of` commitCh (core_Commitor (n_core n')).
Proof.
  assert (is_next (node_step CMain toy_next) = true) as Hr by (vm_compute; reflexivity).
  destruct (node_step CMain toy_next) as [n'| |] eqn:Es; [|discriminate..].
  exists n'. split; [reflexivity|].
  exact (mercury_step_monotone toy_setting DefaultParameters (NewStore ∅)
    toy_pool 4 1 toy_start toy_next n' CMain nutsdb_not_found_free toy_setting_ok
    mercury_toy_started mercury_toy_next_reachable Es).
Defined.

End Witness.
