(* ===== verification/MercuryBehaviour.v ===== *)
(** * mercury: what the handlers do, case by case

    The output of an epoch, on both outcomes of reading the block, and the ways in
    which the votes on the leader get lost: the yes prevote is made for another
    round, and a quorum of Done messages that arrives after the leader is known
    triggers nothing. *)

From S2P Require Import Prelude GoStd Crypto Committee Store Pool Runtime Quorum.
From S2P Require Import MercuryMessage MercuryAggreator MercuryCommitor MercurySpb MercuryCore.
From S2P Require Import MercurySafety.

Open Scope Z_scope.

Section Behaviour.
Context {E : Ed25519} {K : Kyber} {db : Type} `{HDB : DB db} {GB : GobBlock}.

Abbreviation core := (Core (db := db)).

(** ** Output of an epoch *)

(** The references of a block proposed after (epoch, round): the hashes of its
    finished broadcasts, by node. *)
Definition finished (c : core) (e r : Z) : list Digest :=
  omap (fun i : nat => lookup3 (FinishFlags c) e r (Z.of_nat i))
    (seq 0 (Z.to_nat (Committee_Size (core_Committee c)))).

(** A node proposes its block of an epoch: one broadcast. *)
Definition proposes (c : core) (e r : Z) (refs : list Digest) (es : list effect) : Prop :=
  exists p b, es = [ESend (Name c) NONE (MSPBProposal p); to_self (MSPBProposal p)] /\
    SPBProposal_Author p = Name c /\ SPBProposal_B p = Some b /\ SPBProposal_Epoch p = e /\
    SPBProposal_Round p = r /\ SPBProposal_Phase p = SPB_ONE_PHASE /\
    Proposer b = Name c /\ Block_Epoch b = e /\ Reference b = refs.

Lemma mercury_wp_advanceNextEpoch (c : core) (e : Z) (refs : list Digest) :
  length (Prikey (PriKey (core_SigService c))) = 64%nat -> pool_len c = 0%nat -> Epoch c < e ->
  wp False (advanceNextEpoch e refs) c (fun _ c' es =>
    core_Commitor c' = core_Commitor c /\ HaltFlags c' = HaltFlags c /\
    core_Elector c' = core_Elector c /\ Epoch c' = e /\ proposes c e 0 refs es).
Proof.
  intros Hk Hp He. unfold advanceNextEpoch. rewrite wp_bind, wp_get. cbn beta.
  rewrite (proj2 (Z.leb_gt _ _)) by lia. rewrite wp_bind, wp_modify. cbn beta.
  unfold generatorBlock. rewrite !wp_bind, wp_get. cbn beta.
  destruct (pool_get_empty (TxPool c) Hp) as (b & p & Hg & _).
  change (TxPool (c <| Epoch := e |>)) with (TxPool c). rewrite Hg, wp_bind, wp_modify, wp_ret. unfold propose, broadcast, Send_all, to_recvCh. wp_steps.
  unfold NewSPBProposal. rewrite RequestSignature_ok by done. cbn. wp_steps.
  split_and!; [done..|]. eexists _, _. split_and!; done.
Qed.

(** What [handleOutput] leaves of the commitor: the block the store has is
    committed, and an error leaves it as it is. *)
Definition output_of (d : db) (hash : Digest) (c : Committor) : Outcome Committor :=
  match db_Get d hash with
  | (val, None) =>
      match Block_Decode val with
      | Some b => '(_, c') ← Commit (NewStore d) c (Some b); Ret c'
      | None => Ret c
      end
  | (_, Some _) => Ret c
  end.

Lemma mercury_commit_loop_idle (fuel : nat) (d : db) (c c' : Committor) (store : Store db) :
  commit_loop fuel (NewStore d) c = Some (store, c') -> store = NewStore d.
Proof.
  unfold NewStore. revert c. induction fuel as [|fuel IH]; intros c; cbn; [done|].
  destruct (Blocks c !! Index c) as [b|]; [|by intros [= <- _]].
  rewrite commit_blocks_expand. destruct (expand _ _ _). apply IH.
Qed.

Lemma mercury_commit_idle (d : db) (c c' : Committor) (b : option Block) (store : Store db) :
  Commit (NewStore d) c b = Ret (store, c') -> store = NewStore d.
Proof.
  unfold Commit. destruct b as [b|]; [|done]. case_bool; [by intros [= <- <-]|]. cbn zeta.
  destruct (commit_loop _ _ _) as [[s1 c1]|] eqn:El; [|done]. intros [= <- <-].
  by eapply mercury_commit_loop_idle.
Qed.

(** What [getBlock] returns for a digest, given the database. *)
Definition block_at (d : db) (digest : Digest) : option Block * option error :=
  match db_Get d digest with
  | (_, Some ErrNotFoundKey) => (None, None)
  | (_, Some e) => (None, Some e)
  | (value, None) =>
      match Block_Decode value with
      | None => (None, Some ErrExternal)
      | Some b => (Some b, None)
      end
  end.

Lemma mercury_getBlock_idle (c : core) (d : db) (digest : Digest) :
  core_Store c = NewStore d -> getBlock digest c = Ret (block_at d digest, c, []).
Proof.
  intros Hs. destruct c. cbn in Hs. subst.
  unfold getBlock, mbind, M_bind, get_st, modify, NewStore. cbn [core_Store].
  rewrite Store_Read_idle. unfold block_at. destruct (db_Get d digest) as [v err].
  destruct err as [[]|]; try done. by destruct (Block_Decode v).
Qed.

Lemma mercury_wp_Commit (c : core) (d : db) (b : Block) :
  core_Store c = NewStore d ->
  wp False (Commitor_Commit (Some b)) c (fun _ c' es => es = [] /\
    Ret (NewStore d, core_Commitor c') = Commit (NewStore d) (core_Commitor c) (Some b) /\
    c' = c <| core_Commitor := core_Commitor c' |>).
Proof.
  intros Hs. unfold Commitor_Commit. wp_steps. rewrite Hs.
  destruct (mercury_Commit_returns (NewStore d) (core_Commitor c) b) as [[store c'] Hc].
  rewrite Hc. wp_steps. pose proof (mercury_commit_idle d _ _ _ _ Hc) as ->.
  split_and!; [done..|]. destruct c. cbn in *. by subst.
Qed.

Lemma mercury_wp_handleOutput (c : core) (d : db) (e : Z) (hash : Digest) :
  core_Store c = NewStore d -> (db_Get d hash).2 <> Some ErrNotFoundKey ->
  wp False (handleOutput e hash) c (fun _ c' es => es = [] /\
    Ret (core_Commitor c') = output_of d hash (core_Commitor c) /\
    c' = c <| core_Commitor := core_Commitor c' |>).
Proof.
  intros Hs Hnf. unfold handleOutput. rewrite wp_bind. unfold wp at 1.
  rewrite (mercury_getBlock_idle c d) by done. unfold block_at, output_of.
  assert (c = c <| core_Commitor := core_Commitor c |>) as Hc by by destruct c.
  destruct (db_Get d hash) as [val err]. cbn in Hnf.
  destruct err as [[]|]; try done; try by wp_steps.
  destruct (Block_Decode val) as [b|]; [|by wp_steps].
  rewrite wp_bind. eapply wp_mono; [by apply (mercury_wp_Commit c d b)|]. cbn beta.
  intros _ c' es (-> & H1 & H2). rewrite <-H1. by wp_steps.
Qed.

(** C15. The output of an epoch.  For the first Halt of an epoch that is not over,
    [handleHalt] commits the block it names if the store has it and goes on without
    an error if not; in both cases it marks the epoch as halted, records the leader,
    moves to the next epoch and broadcasts the node's proposal for it, which refers
    to the finished broadcasts of the halted round. *)
Theorem mercury_halt_outputs (c : core) (d : db) (h : Halt) :
  length (Prikey (PriKey (core_SigService c))) = 64%nat ->
  core_Store c = NewStore d -> (db_Get d (Halt_BlockHash h)).2 <> Some ErrNotFoundKey ->
  pool_len c = 0%nat -> Epoch c <= Halt_Epoch h < last_epoch -> - 2 ^ 63 <= Epoch c ->
  Halt_Epoch h ∉ HaltFlags c ->
  exists c' es, handleHalt h c = Ret (None, c', es) /\
    Ret (core_Commitor c') = output_of d (Halt_BlockHash h) (core_Commitor c) /\
    HaltFlags c' = {[Halt_Epoch h]} ∪ HaltFlags c /\ Epoch c' = Halt_Epoch h + 1 /\
    (Leader (core_Elector c') (Halt_Epoch h) (Halt_Round h)).2 = Halt_Leader h /\
    proposes c (Halt_Epoch h + 1) 0 (finished c (Halt_Epoch h) (Halt_Round h)) es.
Proof.
  intros Hk Hs Hnf Hp He Hlo Hf.
  enough (wp False (handleHalt h) c (fun err c' es => err = None /\
    Ret (core_Commitor c') = output_of d (Halt_BlockHash h) (core_Commitor c) /\
    HaltFlags c' = {[Halt_Epoch h]} ∪ HaltFlags c /\ Epoch c' = Halt_Epoch h + 1 /\
    (Leader (core_Elector c') (Halt_Epoch h) (Halt_Round h)).2 = Halt_Leader h /\
    proposes c (Halt_Epoch h + 1) 0 (finished c (Halt_Epoch h) (Halt_Round h)) es)) as Hw.
  { unfold wp in Hw. destruct (handleHalt h c) as [[[err c'] es]|]; [|done].
    destruct Hw as [-> Hw]. eauto. }
  unfold handleHalt, messgaeFilter. rewrite wp_bind, wp_gets. cbn beta.
  rewrite (proj2 (Z.ltb_ge _ _)) by lia. rewrite wp_bind, wp_get. cbn beta.
  rewrite bool_decide_false by done. rewrite wp_bind, wp_modify. cbn beta. rewrite wp_bind.
  set (c1 := c <| core_Elector := _ |>).
  eapply wp_mono; [by apply (mercury_wp_handleOutput c1 d)|]. cbn beta.
  intros err c2 es (-> & Ho & Hc2). rewrite wp_bind, wp_modify. cbn beta.
  unfold getReference. wp_steps. set (c3 := c2 <| HaltFlags := _ |>).
  assert (int64 (Halt_Epoch h + 1) = Halt_Epoch h + 1) as Hw.
  { apply int64_id. unfold in_int64, last_epoch in *. lia. }
  assert (core_SigService c3 = core_SigService c /\ pool_len c3 = pool_len c /\ Epoch c3 = Epoch c /\
    Name c3 = Name c /\ core_Elector c3 = core_Elector c1) as (E1 & E2 & E3 & E4 & E5).
  { unfold c3. rewrite Hc2. done. }
  rewrite Hw. eapply wp_mono; [apply mercury_wp_advanceNextEpoch;
    [by rewrite E1|by rewrite E2|rewrite E3; lia]|].
  intros _ c4 es (H1 & H2 & H3 & H4 & p & b & H5). wp_steps. cbn [app]. rewrite app_nil_r.
  split_and!; [done|by rewrite H1|rewrite H2; unfold c3; by rewrite Hc2|done| |].
  - rewrite H3, E5. unfold Leader, SetLeader. cbn. by autorewrite with nested.
  - exists p, b. rewrite E4 in H5. unfold c3 in H5. rewrite Hc2 in H5. exact H5.
Qed.

(** ** Votes on the leader *)

(** A node that locked the leader's block in (epoch, round, try) and has to vote on
    the leader makes its yes prevote with the round and the try exchanged, and when
    they differ no node counts it where it belongs. *)
Theorem mercury_yes_prevote_misfiled (c : core) (e r t : Z) (s : SPB) (hash : Digest) :
  length (Prikey (PriKey (core_SigService c))) = 64%nat ->
  lookup3 (ReadyFlags c) e r t = Some tt ->
  (Leader (core_Elector c) e r).2 <> NONE ->
  lookup3 (FinishFlags c) e r (Leader (core_Elector c) e r).2 = None ->
  lookup3 (SPbInstances c) e r (Leader (core_Elector c) e r).2 = Some s ->
  IsLock s = true -> GetBlockHash s = Some hash ->
  exists p c',
    processLeader e r t c =
      Ret (None, c', [ESend (Name c) NONE (MPrevote p); to_self (MPrevote p)]) /\
    Prevote_Flag p = VOTE_FLAG_YES /\ Prevote_BlockHash p = hash /\ Prevote_Epoch p = e /\
    Prevote_Round p = t /\ Prevote_Try p = r /\
    (r <> t -> forall a, lookup3 (prevoteAggreator (AddPreVote a p).1) e r t =
                         lookup3 (prevoteAggreator a) e r t).
Proof.
  intros Hk Hrdy Hl Hf Hs Hlock Hh.
  enough (wp False (processLeader e r t) c (fun err c' es => err = None /\ exists p,
    es = [ESend (Name c) NONE (MPrevote p); to_self (MPrevote p)] /\
    Prevote_Flag p = VOTE_FLAG_YES /\ Prevote_BlockHash p = hash /\ Prevote_Epoch p = e /\
    Prevote_Round p = t /\ Prevote_Try p = r)) as Hw.
  { unfold wp in Hw. destruct (processLeader e r t c) as [[[err c'] es]|]; [|done].
    destruct Hw as (-> & p & -> & H1 & H2 & H3 & H4 & H5). exists p, c'. split_and!; try done.
    intros Hne a. unfold AddPreVote, add_item3.
    destruct (PreVoteAggreator_Append _ _ _) as [i res]. cbn. rewrite H3, H4, H5.
    apply lookup3_insert3_ne. naive_solver. }
  assert (exists items, ReadyFlags c !! e = Some items /\
    (match items !! r with None => false | Some item => has item t end) = true) as (items & Hi & Ht).
  { unfold lookup3, lookup2 in Hrdy. destruct (ReadyFlags c !! e) as [items|]; [|done].
    cbn in Hrdy. exists items. split; [done|]. destruct (items !! r) as [item|]; [|done].
    cbn in Hrdy. unfold has. by rewrite Hrdy. }
  unfold processLeader, hasReady, Elector_Leader, hasFinish, prevote_for, getSpbInstance, broadcast,
    Send_all, to_recvCh. rewrite wp_bind, wp_bind, wp_get. cbn beta. rewrite Hi. wp_steps. rewrite Ht.
  destruct (Leader (core_Elector c) e r) as [el leader] eqn:El. cbn [fst snd] in *. wp_steps.
  rewrite El. wp_steps. rewrite (proj2 (Z.eqb_neq _ _)) by done. cbn [app]. wp_steps.
  cbn [FinishFlags set_field]. cbn. rewrite Hf. wp_steps. cbn. rewrite Hs. wp_steps.
  rewrite Hlock, Hh. wp_steps. unfold NewPrevote.
  rewrite RequestSignature_ok by done. cbn. wp_steps. split; [done|]. eexists. by split_and!.
Qed.

(** A prevote, a final vote or a halt, sent or passed to the node itself. *)
Definition is_vote (m : Message) : bool :=
  match m with MPrevote _ | MFinVote _ | MHalt _ => true | _ => false end.
Definition no_vote (x : effect) : Prop :=
  match x with ESend _ _ m | EPush _ m => is_vote m = false | EGo _ => True end.

Lemma mercury_invokeDoneAndShare_no_vote (e r t : Z) :
  keeps True (fun _ : core => True) no_vote (invokeDoneAndShare e r t).
Proof.
  unfold invokeDoneAndShare, hasDone, Send_all, to_recvCh. apply keeps_bind.
  { apply keeps_bind; [apply keeps_get|]. intros c. destruct (DoneFlags c !! e).
    - apply keeps_ret.
    - apply keeps_bind; [by apply keeps_modify|]. intros _. apply keeps_ret. }
  intros [|]; (apply keeps_bind; [|intros _; apply keeps_ret]); [apply keeps_ret|].
  repeat (apply keeps_bind; [eauto with keeps|intros ?]);
    repeat first [apply keeps_bind; [apply keeps_get|intros ?]|apply keeps_modify; done
                 |apply keeps_emit; try done].
  all: by match goal with sh : option ElectShare |- _ => destruct sh end.
Qed.

(** [handleDone] never votes, also not when it completes the quorum that makes the
    try ready; and a share that elects the leader of a try that is not ready yet
    makes the node send nothing.  As no later share elects again, a node that learns
    the leader before the quorum of Done messages does not vote in that round. *)
Theorem mercury_late_done_silent (c : core) :
  (forall d err c' es, handleDone d c = Ret (err, c', es) -> Forall no_vote es) /\
  (forall sh err c' es,
     lookup3 (ReadyFlags c) (ElectShare_Epoch sh) (ElectShare_Round sh) (ElectShare_Try sh) = None ->
     handleElectShare sh c = Ret (err, c', es) -> es = []).
Proof.
  split.
  - intros d err c' es Hd.
    enough (wp True (handleDone d) c (fun _ _ es => Forall no_vote es)) as Hw
      by (unfold wp in Hw; by rewrite Hd in Hw).
    unfold handleDone, messgaeFilter. wp_steps. case_bool; wp_steps; [done|].
    destruct (AddDoneVote _ _) as [agg [flag er]]. wp_steps. destruct er; wp_steps; [done|].
    case_bool; [|case_bool; by wp_steps].
    eapply wp_mono; [by apply mercury_invokeDoneAndShare_no_vote|]. by intros ??? [_ ?].
  - intros sh err c' es Hr Hd.
    enough (wp True (handleElectShare sh) c (fun _ _ es => es = [])) as Hw
      by (unfold wp in Hw; by rewrite Hd in Hw).
    unfold handleElectShare, messgaeFilter. wp_steps. case_bool; wp_steps; [done|].
    destruct (AddShareVote _ _) as [[el [leader er]]|]; [|done]. wp_steps.
    destruct er; wp_steps; [done|]. case_bool; wp_steps; [done|].
    unfold processLeader, hasReady. wp_steps. cbn.
    unfold lookup3, lookup2 in Hr. destruct (ReadyFlags c !! _) as [items|]; cbn in Hr; wp_steps;
      [|done].
    destruct (items !! _) as [item|]; cbn in Hr; [|by wp_steps].
    unfold has. rewrite Hr. by wp_steps.
Qed.

End Behaviour.

(** ** Witnesses *)

Section Witness.
Import ToyCrypto ToyNode ToyGob ToyNuts.

(** A block of node 2 for epoch 0, and a node whose database has it. *)
Definition toy_other : Block := mkBlock 2 (mkBatch 7 (Some [[]])) 0 [].
Definition toy_db : nuts :=
  match Block_Encode toy_other with Some v => <[Block_Hash toy_other := v]> ∅ | None => ∅ end.
Definition toy_boot : Core (db := nuts) :=
  boot toy_setting DefaultParameters (NewStore toy_db) toy_pool 4 1.
Definition toy_halt : Halt := mkHalt 3 0 0 2 (Block_Hash toy_other) (mkSignature []).

Lemma mercury_halt_outputs_witness :
  exists c' es, handleHalt toy_halt toy_boot = Ret (None, c', es) /\
    Ret (core_Commitor c') = output_of toy_db (Block_Hash toy_other) (core_Commitor toy_boot) /\
    HaltFlags c' = {[0]} ∪ HaltFlags toy_boot /\ Epoch c' = 0 + 1 /\
    (Leader (core_Elector c') 0 0).2 = 2 /\ proposes toy_boot (0 + 1) 0 (finished toy_boot 0 0) es.
Proof.
  apply (mercury_halt_outputs toy_boot toy_db toy_halt).
  - vm_compute. reflexivity.
  - reflexivity.
  - vm_compute. discriminate.
  - reflexivity.
  - split; vm_compute; [discriminate|reflexivity].
  - vm_compute. discriminate.
  - apply not_elem_of_empty.
Defined.

(** The block is delivered. *)
Example mercury_toy_output :
  (c ← output_of toy_db (Block_Hash toy_other) (core_Commitor toy_boot); Ret (commitCh c)) =
  Ret [toy_other].
Proof. vm_compute. reflexivity. Qed.

(** Node 1 has locked the block of the leader 2 in try 1 of round 0. *)
Definition toy_spb : SPB := mkSPB 2 0 0 (Some (Block_Hash toy_other)) ∅ [] [] true.
Definition toy_locked : Core (db := nuts) :=
  toy_boot <| ReadyFlags := insert3 0 0 1 tt ∅ |> <| SPbInstances := insert3 0 0 2 toy_spb ∅ |>
    <| core_Elector := SetLeader (core_Elector toy_boot) 0 0 2 |>.

Lemma mercury_yes_prevote_misfiled_witness :
  exists p c',
    processLeader 0 0 1 toy_locked =
      Ret (None, c', [ESend 1 NONE (MPrevote p); to_self (MPrevote p)]) /\
    Prevote_Flag p = VOTE_FLAG_YES /\ Prevote_BlockHash p = Block_Hash toy_other /\
    Prevote_Epoch p = 0 /\ Prevote_Round p = 1 /\ Prevote_Try p = 0 /\
    (0 <> 1 -> forall a, lookup3 (prevoteAggreator (AddPreVote a p).1) 0 0 1 =
                         lookup3 (prevoteAggreator a) 0 0 1).
Proof.
  apply (mercury_yes_prevote_misfiled toy_locked 0 0 1 toy_spb (Block_Hash toy_other));
    try reflexivity; vm_compute; try reflexivity. discriminate.
Defined.

Lemma mercury_late_done_silent_witness :
  match handleElectShare (mkElectShare 2 0 0 0 (mkSignatureShare [])) toy_boot with
  | Ret (_, _, es) => es = []
  | Panic => False
  end.
Proof.
  assert (match handleElectShare (mkElectShare 2 0 0 0 (mkSignatureShare [])) toy_boot with
          | Ret _ => true | Panic => false end = true) as Hr by (vm_compute; reflexivity).
  destruct (handleElectShare (mkElectShare 2 0 0 0 (mkSignatureShare [])) toy_boot)
    as [[[err c'] es]|] eqn:Eh; [|discriminate Hr].
  refine (proj2 (mercury_late_done_silent toy_boot) (mkElectShare 2 0 0 0 (mkSignatureShare []))
    err c' es _ Eh). reflexivity.
Defined.

End Witness.
