(* ===== verification/VabaMessage.v ===== *)
(** * vaba: messages

    Models src/core/vaba/consensus/message.go: the block and the eight message
    types, with the constructors that sign them ([New...]), their hashes and
    their verification.  A hash, and with it the signature, covers the fields the
    source hashes and no others: that of a view change covers its author and its
    flags, but neither the epoch nor the leader nor the block. *)

From Stdlib Require Import Strings.Byte.
From S2P Require Import Prelude GoStd Crypto Committee Pool.

Open Scope Z_scope.

Definition PHASE_ONE_FALG : Z := 0.
Definition PHASE_TWO_FALG : Z := 1.
Definition PHASE_THREE_FALG : Z := 2.
Definition PHASE_FOUR_FALG : Z := 3.

(** ** Blocks *)

Record Block := mkBlock { Proposer : NodeID; Block_Batch : Batch; Block_Epoch : Z }.

#[export] Instance Block_eq_dec : EqDecision Block.
Proof. solve_decision. Defined.

Definition NewBlock (proposer : NodeID) (batch : Batch) (epoch : Z) : Block :=
  mkBlock proposer batch epoch.

(** [encoding/gob] on blocks: [None] is an error. *)
Class GobBlock := {
  gob_encode_block : Block -> option bytes;
  gob_decode_block : bytes -> option Block
}.

(** gob omits empty slices, so an empty slice of transactions decodes as nil. *)
Definition gob_norm (b : Block) : Block :=
  mkBlock (Proposer b)
    (mkBatch (Batch_ID (Block_Batch b))
       (match Batch_Txs (Block_Batch b) with Some [] => None | t => t end))
    (Block_Epoch b).

(** Decoding into an empty block gives back what was encoded. *)
Class GobBlockLaws (G : GobBlock) :=
  gob_block_roundtrip : forall b d, gob_encode_block b = Some d ->
    gob_decode_block d = Some (gob_norm b).

(** An encoding with the promised behaviour: the bits of a block's code. *)
Module ToyGob.
Import ToyBits.
#[export] Instance Block_countable : Countable Block.
Proof.
  refine (inj_countable' (fun b => (Proposer b, Block_Batch b, Block_Epoch b))
            (fun '(p, b, e) => mkBlock p b e) _).
  by intros [].
Defined.

#[export] Instance toy_gob : GobBlock := {|
  gob_encode_block := fun b => Some (bits (encode (gob_norm b)));
  gob_decode_block := fun d => decode (unbits d)
|}.
#[export] Instance toy_gob_laws : GobBlockLaws toy_gob.
Proof. intros b d [= <-]. cbn. by rewrite unbits_bits, decode_encode. Qed.
End ToyGob.

Definition Block_Encode `{GobBlock} (b : Block) : option bytes := gob_encode_block b.
Definition Block_Decode `{GobBlock} (data : bytes) : option Block := gob_decode_block data.

Definition Block_Hash (b : Block) : Digest :=
  hash_parts [AppendInt2 (Proposer b); AppendInt2 (Block_Epoch b);
              AppendInt2 (Batch_ID (Block_Batch b))].

(** ** Messages *)

Record Proposal := mkProposal {
  Proposal_Author : NodeID;
  Proposal_Epoch : Z;
  Proposal_Phase : Z;
  Proposal_B : option Block;
  Proposal_Signature : Signature
}.

Definition Proposal_Hash (p : Proposal) : Digest :=
  hash_parts
    ([AppendInt2 (Proposal_Author p); AppendInt2 (Proposal_Phase p); AppendInt2 (Proposal_Epoch p)]
     ++ match Proposal_B p with Some b => [Block_Hash b] | None => [] end).

Record Vote := mkVote {
  Vote_Author : NodeID;
  Vote_Proposer : NodeID;
  Vote_BlockHash : Digest;
  Vote_Epoch : Z;
  Vote_Phase : Z;
  Vote_Signature : Signature
}.

Definition Vote_Hash (p : Vote) : Digest :=
  hash_parts
    [AppendInt2 (Vote_Author p); AppendInt2 (Vote_Phase p); AppendInt2 (Vote_Epoch p);
     AppendInt2 (Vote_Proposer p); Vote_BlockHash p].

Record Done := mkDone {
  Done_Author : NodeID;
  Done_Epoch : Z;
  Done_Signature : Signature
}.

Definition Done_Hash (p : Done) : Digest :=
  hash_parts [AppendInt2 (Done_Author p); AppendInt2 (Done_Epoch p)].

Record SkipShare := mkSkipShare {
  SkipShare_Author : NodeID;
  SkipShare_Epoch : Z;
  SkipShare_Signature : Signature
}.

Definition SkipShare_Hash (p : SkipShare) : Digest :=
  hash_parts [AppendInt2 (SkipShare_Epoch p); AppendInt2 (SkipShare_Author p)].

Record Skip := mkSkip {
  Skip_Author : NodeID;
  Skip_Epoch : Z;
  Skip_Signature : Signature
}.

Definition Skip_Hash (p : Skip) : Digest :=
  hash_parts [AppendInt2 (Skip_Epoch p); AppendInt2 (Skip_Author p)].

Record ElectShare := mkElectShare {
  ElectShare_Author : NodeID;
  ElectShare_Epoch : Z;
  ElectShare_SigShare : SignatureShare
}.

Definition ElectShare_Hash (p : ElectShare) : Digest :=
  hash_parts [AppendInt2 (ElectShare_Epoch p)].

Record ViewChange := mkViewChange {
  ViewChange_Author : NodeID;
  ViewChange_Leader : NodeID;
  ViewChange_Epoch : Z;
  ViewChange_BlockHash : option Digest;
  ViewChange_IsCommit : bool;
  ViewChange_IsLock : bool;
  ViewChange_IsKey : bool;
  ViewChange_Signature : Signature
}.

Definition ViewChange_Hash (p : ViewChange) : Digest :=
  hash_parts
    [AppendInt2 (ViewChange_Author p); AppendBool (ViewChange_IsCommit p);
     AppendBool (ViewChange_IsLock p); AppendBool (ViewChange_IsKey p)].

Record Halt := mkHalt {
  Halt_Author : NodeID;
  Halt_Epoch : Z;
  Halt_Leader : NodeID;
  Halt_BlockHash : Digest;
  Halt_Signature : Signature
}.

Definition Halt_Hash (p : Halt) : Digest :=
  hash_parts
    [AppendInt2 (Halt_Author p); AppendInt2 (Halt_Epoch p); AppendInt2 (Halt_Leader p);
     Halt_BlockHash p].

(** ** Construction and verification *)

Section Signing.
Context {E : Ed25519} {K : Kyber} (sigService : SigService).

Definition NewProposal (Author : NodeID) (Epoch Phase : Z) (B : option Block) : Outcome Proposal :=
  let p := mkProposal Author Epoch Phase B in
  sig ← RequestSignature sigService (Proposal_Hash (p (mkSignature [])));
  mret (p sig).

Definition NewVote (Author Proposer : NodeID) (BlockHash : Digest) (Epoch Phase : Z) :
    Outcome Vote :=
  let vote := mkVote Author Proposer BlockHash Epoch Phase in
  sig ← RequestSignature sigService (Vote_Hash (vote (mkSignature [])));
  mret (vote sig).

Definition NewDone (Author : NodeID) (Epoch : Z) : Outcome Done :=
  let d := mkDone Author Epoch in
  sig ← RequestSignature sigService (Done_Hash (d (mkSignature [])));
  mret (d sig).

Definition NewSkipShare (Author : NodeID) (Epoch : Z) : Outcome SkipShare :=
  let skip := mkSkipShare Author Epoch in
  sig ← RequestSignature sigService (SkipShare_Hash (skip (mkSignature [])));
  mret (skip sig).

Definition NewSkip (Author : NodeID) (Epoch : Z) : Outcome Skip :=
  let skip := mkSkip Author Epoch in
  sig ← RequestSignature sigService (Skip_Hash (skip (mkSignature [])));
  mret (skip sig).

(** [None]: the threshold signature failed and the constructor returns nil. *)
Definition NewElectShare (Author : NodeID) (Epoch : Z) : Outcome (option ElectShare) :=
  let e := mkElectShare Author Epoch in
  '(share, err) ← RequestTsSugnature sigService (ElectShare_Hash (e (mkSignatureShare [])));
  mret (if err : bool then None else Some (e share)).

Definition NewViewChange (Author Leader : NodeID) (Epoch : Z) (BlockHash : option Digest)
    (commit lock key : bool) : Outcome ViewChange :=
  let v := mkViewChange Author Leader Epoch BlockHash commit lock key in
  sig ← RequestSignature sigService (ViewChange_Hash (v (mkSignature [])));
  mret (v sig).

Definition NewHalt (Author Leader : NodeID) (BlockHash : Digest) (Epoch : Z) : Outcome Halt :=
  let h := mkHalt Author Epoch Leader BlockHash in
  sig ← RequestSignature sigService (Halt_Hash (h (mkSignature [])));
  mret (h sig).

End Signing.

(** The messages on the wire and on the receive channel.  [MNil t] is a nil
    pointer of message type [t], which a failed constructor leaves behind. *)
Inductive Message :=
| MProposal (p : Proposal)
| MVote (v : Vote)
| MDone (d : Done)
| MSkipShare (s : SkipShare)
| MSkip (s : Skip)
| MElectShare (e : ElectShare)
| MViewChange (v : ViewChange)
| MHalt (h : Halt)
| MNil (t : Z).

Definition ProposalType : Z := 0.
Definition VoteType : Z := 1.
Definition DoneType : Z := 2.
Definition SkipShareType : Z := 3.
Definition SkipType : Z := 4.
Definition ElectShareType : Z := 5.
Definition ViewChangeType : Z := 6.
Definition HaltType : Z := 7.

Definition MsgType (m : Message) : Z :=
  match m with
  | MProposal _ => ProposalType
  | MVote _ => VoteType
  | MDone _ => DoneType
  | MSkipShare _ => SkipShareType
  | MSkip _ => SkipType
  | MElectShare _ => ElectShareType
  | MViewChange _ => ViewChangeType
  | MHalt _ => HaltType
  | MNil t => t
  end.

(** The keys of [DefaultMessageTypeMap]. *)
Definition DefaultMessageTypes : gset Z :=
  {[ ProposalType; VoteType; DoneType; SkipShareType; SkipType; ElectShareType;
     ViewChangeType; HaltType ]}.

(** The [Author] field every message has. *)
Definition msg_author (m : Message) : option NodeID :=
  match m with
  | MProposal p => Some (Proposal_Author p)
  | MVote v => Some (Vote_Author v)
  | MDone d => Some (Done_Author d)
  | MSkipShare s => Some (SkipShare_Author s)
  | MSkip s => Some (Skip_Author s)
  | MElectShare e => Some (ElectShare_Author e)
  | MViewChange v => Some (ViewChange_Author v)
  | MHalt h => Some (Halt_Author h)
  | MNil _ => None
  end.

(** The [Epoch] field every message has. *)
Definition msg_epoch (m : Message) : Z :=
  match m with
  | MProposal p => Proposal_Epoch p
  | MVote v => Vote_Epoch v
  | MDone d => Done_Epoch d
  | MSkipShare s => SkipShare_Epoch s
  | MSkip s => Skip_Epoch s
  | MElectShare e => ElectShare_Epoch e
  | MViewChange v => ViewChange_Epoch v
  | MHalt h => Halt_Epoch h
  | MNil _ => 0
  end.

Section Verification.
Context {E : Ed25519} (committee : Committee).

Definition Proposal_Verify (p : Proposal) : Outcome bool :=
  verify_sig committee (Proposal_Author p) (Proposal_Signature p) (Proposal_Hash p).
Definition Vote_Verify (v : Vote) : Outcome bool :=
  verify_sig committee (Vote_Author v) (Vote_Signature v) (Vote_Hash v).
Definition Done_Verify (d : Done) : Outcome bool :=
  verify_sig committee (Done_Author d) (Done_Signature d) (Done_Hash d).
Definition SkipShare_Verify (s : SkipShare) : Outcome bool :=
  verify_sig committee (SkipShare_Author s) (SkipShare_Signature s) (SkipShare_Hash s).
Definition Skip_Verify (s : Skip) : Outcome bool :=
  verify_sig committee (Skip_Author s) (Skip_Signature s) (Skip_Hash s).
Definition ElectShare_Verify (e : ElectShare) : Outcome bool :=
  Ret (SignatureShare_Verify (ElectShare_SigShare e) (ElectShare_Hash e)).
Definition ViewChange_Verify (v : ViewChange) : Outcome bool :=
  verify_sig committee (ViewChange_Author v) (ViewChange_Signature v) (ViewChange_Hash v).
Definition Halt_Verify (h : Halt) : Outcome bool :=
  verify_sig committee (Halt_Author h) (Halt_Signature h) (Halt_Hash h).

(** [v.Verify(committee)] through the [Validator] interface; a nil pointer is
    dereferenced. *)
Definition Verify (m : Message) : Outcome bool :=
  match m with
  | MProposal p => Proposal_Verify p
  | MVote v => Vote_Verify v
  | MDone d => Done_Verify d
  | MSkipShare s => SkipShare_Verify s
  | MSkip s => Skip_Verify s
  | MElectShare e => ElectShare_Verify e
  | MViewChange v => ViewChange_Verify v
  | MHalt h => Halt_Verify h
  | MNil _ => Panic
  end.

Lemma vaba_Verify_member (m : Message) (a : NodeID) :
  keys_sized committee -> msg_author m = Some a -> a ∈ members committee -> exists b, Verify m = Ret b.
Proof.
  intros Hk Ha Hm. destruct m; cbn in Ha; simplify_eq; cbn; eauto using verify_sig_member.
Qed.

End Verification.

(** A view change is signed for any epoch, leader and block: who has one signed
    view change of a node has all with its flags. *)
Theorem vaba_view_change_forgeable {E : Ed25519} (c : Committee) (v : ViewChange) (leader : NodeID)
    (epoch : Z) (hash : option Digest) :
  Verify c (MViewChange (mkViewChange (ViewChange_Author v) leader epoch hash
    (ViewChange_IsCommit v) (ViewChange_IsLock v) (ViewChange_IsKey v) (ViewChange_Signature v))) =
  Verify c (MViewChange v).
Proof. reflexivity. Qed.
