(* ===== verification/VabaAggreator.v ===== *)
(** * vaba: aggregators and the leader elector

    Models src/core/vaba/consensus/aggreator.go and elector.go, both with one
    counter per epoch.  Each [Append] returns the new aggregator, and the answer and
    error of the source. *)

From S2P Require Import Prelude GoStd Crypto Committee Quorum Verdict Coin VabaMessage.

Open Scope Z_scope.

Record normalAggreator := mkNormalAggreator { Authors : gset NodeID }.
Definition newNormalAggreator : normalAggreator := mkNormalAggreator ∅.

Definition normalAggreator_Append (node : NodeID) (committee : Committee) (mType epoch : Z)
    (a : normalAggreator) : normalAggreator * (bool * option error) :=
  if bool_decide (node ∈ Authors a) then (a, (false, Some (ErrOneMoreMessage mType epoch 0 node)))
  else
    let a := mkNormalAggreator ({[node]} ∪ Authors a) in
    if Z.of_nat (size (Authors a)) =? HightThreshold committee
    then (a, (true, None)) else (a, (false, None)).

Record Aggreator := mkAggreator {
  agg_committee : Committee;
  doneAggreator : gmap Z normalAggreator;
  skipAggreator : gmap Z normalAggreator
}.
#[export] Instance Aggreator_eta : Settable Aggreator := fun a =>
  mkAggreator (agg_committee a) (doneAggreator a) (skipAggreator a).

Definition NewAggreator (committee : Committee) : Aggreator := mkAggreator committee ∅ ∅.

Definition addDoneVote (a : Aggreator) (done : Done) : Aggreator * (bool * option error) :=
  let '(m, r) := add_item1 (doneAggreator a) (Done_Epoch done) newNormalAggreator
                   (normalAggreator_Append (Done_Author done) (agg_committee a) DoneType
                      (Done_Epoch done)) in
  (a <| doneAggreator := m |>, r).

Definition addSkipVote (a : Aggreator) (share : SkipShare) : Aggreator * (bool * option error) :=
  let '(m, r) := add_item1 (skipAggreator a) (SkipShare_Epoch share) newNormalAggreator
                   (normalAggreator_Append (SkipShare_Author share) (agg_committee a) SkipShareType
                      (SkipShare_Epoch share)) in
  (a <| skipAggreator := m |>, r).

(** ** The elector *)

Record ElectAggreator := mkElectAggreator {
  shares : list SignatureShare;
  elect_authors : gset NodeID
}.
Definition NewElectAggreator : ElectAggreator := mkElectAggreator [] ∅.

Section Elector.
Context {K : Kyber}.

Definition ElectAggreator_Append (committee : Committee) (sigService : SigService)
    (elect : ElectShare) (e : ElectAggreator) :
    Outcome (ElectAggreator * (NodeID * option error)) :=
  if bool_decide (ElectShare_Author elect ∈ elect_authors e) then
    Ret (e, (NONE, Some (ErrOneMoreMessage ElectShareType (ElectShare_Epoch elect) 0
                           (ElectShare_Author elect))))
  else
    let e := mkElectAggreator (shares e ++ [ElectShare_SigShare elect])
               ({[ElectShare_Author elect]} ∪ elect_authors e) in
    if Z.of_nat (length (shares e)) =? HightThreshold committee then
      r ← combine_leader committee sigService (shares e) (ElectShare_Hash elect);
      Ret (e, r)
    else Ret (e, (NONE, None)).

Record Elector := mkElector {
  leaders : gmap Z NodeID;
  electAggreators : gmap Z ElectAggreator;
  el_sigService : SigService;
  el_committee : Committee
}.
#[export] Instance Elector_eta : Settable Elector := fun e =>
  mkElector (leaders e) (electAggreators e) (el_sigService e) (el_committee e).

Definition NewElector (sigService : SigService) (committee : Committee) : Elector :=
  mkElector ∅ ∅ sigService committee.

Definition SetLeader (e : Elector) (epoch : Z) (leader : NodeID) : Elector :=
  e <| leaders := <[epoch := leader]> (leaders e) |>.

Definition Leader (e : Elector) (epoch : Z) : NodeID := default NONE (leaders e !! epoch).

Definition AddShareVote (e : Elector) (share : ElectShare) :
    Outcome (Elector * (NodeID * option error)) :=
  let item := default NewElectAggreator (electAggreators e !! ElectShare_Epoch share) in
  '(item, (node, err)) ← ElectAggreator_Append (el_committee e) (el_sigService e) share item;
  let e := e <| electAggreators := <[ElectShare_Epoch share := item]> (electAggreators e) |> in
  match err with
  | Some _ => Ret (e, (NONE, None))
  | None =>
      let e := if node =? NONE then e else SetLeader e (ElectShare_Epoch share) node in
      Ret (e, (node, None))
  end.
End Elector.

(** ** Specifications *)

Definition done_err (v : Done) : error := ErrOneMoreMessage DoneType (Done_Epoch v) 0 (Done_Author v).
Definition skip_err (v : SkipShare) : error :=
  ErrOneMoreMessage SkipShareType (SkipShare_Epoch v) 0 (SkipShare_Author v).

Lemma normal_append {V : Type} (author : V -> NodeID) (err : V -> error) (c : Committee)
    (mType epoch : Z) (i : normalAggreator) (vs : list V) (v : V) :
  err v = ErrOneMoreMessage mType epoch 0 (author v) -> Authors i = voters author vs ->
  Authors (normalAggreator_Append (author v) c mType epoch i).1 = voters author (vs ++ [v]) /\
  (normalAggreator_Append (author v) c mType epoch i).2 =
    count_verdict author err (HightThreshold c) vs v.
Proof.
  intros He. unfold normalAggreator_Append, count_verdict, hit. destruct i. cbn. intros ->.
  rewrite voters_snoc, <-He.
  destruct (bool_decide_reflect (author v ∈ voters author vs)); cbn; [done|].
  rewrite bool_decide_true by done. by case_bool.
Qed.

Lemma addDoneVote_run (c : Committee) (ds : list Done) :
  (run_calls addDoneVote (NewAggreator c) ds).2 =
  verdicts Done_Epoch (count_verdict Done_Author done_err (HightThreshold c)) [] ds.
Proof.
  rewrite (run_calls_field doneAggreator (fun a => agg_committee a = c) _
    (fun m v => add_item1 m (Done_Epoch v) newNormalAggreator
       (normalAggreator_Append (Done_Author v) c DoneType (Done_Epoch v)))).
  - eapply (run_verdicts look1 Done_Epoch _ (fun v => normalAggreator_Append (Done_Author v) c
      DoneType (Done_Epoch v)) _ (fun i vs => Authors i = voters Done_Author vs));
      [apply add_item1_at_key| |done].
    split; [done|]. intros. by apply (normal_append Done_Author done_err).
  - done.
  - intros a v <-. unfold addDoneVote. by destruct (add_item1 _ _ _ _).
Qed.

Lemma addSkipVote_run (c : Committee) (ss : list SkipShare) :
  (run_calls addSkipVote (NewAggreator c) ss).2 =
  verdicts SkipShare_Epoch (count_verdict SkipShare_Author skip_err (HightThreshold c)) [] ss.
Proof.
  rewrite (run_calls_field skipAggreator (fun a => agg_committee a = c) _
    (fun m v => add_item1 m (SkipShare_Epoch v) newNormalAggreator
       (normalAggreator_Append (SkipShare_Author v) c SkipShareType (SkipShare_Epoch v)))).
  - eapply (run_verdicts look1 SkipShare_Epoch _ (fun v => normalAggreator_Append
      (SkipShare_Author v) c SkipShareType (SkipShare_Epoch v)) _
      (fun i vs => Authors i = voters SkipShare_Author vs)); [apply add_item1_at_key| |done].
    split; [done|]. intros. by apply (normal_append SkipShare_Author skip_err).
  - done.
  - intros a v <-. unfold addSkipVote. by destruct (add_item1 _ _ _ _).
Qed.

(** Whatever messages of other epochs arrive in between and however often an
    author repeats itself, [addDoneVote] and [addSkipVote] report the quorum of an
    epoch exactly once, with the message of the [HightThreshold]-th different
    author, and never without one. *)
Theorem vaba_counters (c : Committee) (e : Z) (ds : list Done) (ss : list SkipShare) :
  let once (n : nat) : nat := if decide (HightThreshold c <= Z.of_nat n) then 1%nat else 0%nat in
  times (true, None) (answers Done_Epoch e ds (run_calls addDoneVote (NewAggreator c) ds).2) =
    once (size (voters Done_Author (at_key Done_Epoch e ds))) /\
  times (true, None) (answers SkipShare_Epoch e ss (run_calls addSkipVote (NewAggreator c) ss).2) =
    once (size (voters SkipShare_Author (at_key SkipShare_Epoch e ss))).
Proof.
  pose proof (thresholds_pos c) as Hth.
  cbn zeta. rewrite addDoneVote_run, addSkipVote_run, !answers_verdicts.
  split; apply count_once; lia.
Qed.

Section ElectorSpec.
Context {K : Kyber} `{!KyberLaws K}.

Lemma vaba_AddShareVote_spec (e : Elector) (share : ElectShare) :
  0 < Committee_Size (el_committee e) ->
  exists e' node, AddShareVote e share = Ret (e', (node, None)) /\
    el_committee e' = el_committee e /\ el_sigService e' = el_sigService e /\
    ((node = NONE /\ leaders e' = leaders e) \/
     (leaders e' = <[ElectShare_Epoch share := node]> (leaders e) /\
      0 <= node < Committee_Size (el_committee e) /\
      exists l coin, CombineIntactTSPartial l (ShareKey (el_sigService e)) (ElectShare_Hash share)
                     = Some coin /\ coin_leader (el_committee e) coin = Some node)).
Proof using Type*.
  intros Hn. unfold AddShareVote, ElectAggreator_Append. case_bool_decide; cbn; [by eauto 10|].
  case_bool; cbn; [|by eauto 10].
  edestruct combine_leader_spec as (node & err & -> & Hnode); [done|]. cbn.
  destruct Hnode as [->|(coin & Hc & -> & Hl & Hr)].
  - destruct err; cbn; eauto 10.
  - rewrite (proj2 (Z.eqb_neq _ _)) by (unfold NONE; lia). eauto 15.
Qed.
End ElectorSpec.

(** In a nonempty committee [AddShareVote] always returns, without error.  Two
    nodes holding the same group key that both elect a leader for an epoch, from
    whatever shares in whatever order, elect the same one; it is a valid index of the
    committee and [Leader] reports it from then on. *)
Theorem vaba_leader_agreement {K : Kyber} `{!KyberLaws K} (e1 e2 : Elector) (s1 s2 : ElectShare) :
  0 < Committee_Size (el_committee e1) ->
  el_committee e2 = el_committee e1 ->
  SSK_PubPoly (ShareKey (el_sigService e2)) = SSK_PubPoly (ShareKey (el_sigService e1)) ->
  SSK_T (ShareKey (el_sigService e2)) = SSK_T (ShareKey (el_sigService e1)) ->
  SSK_N (ShareKey (el_sigService e2)) = SSK_N (ShareKey (el_sigService e1)) ->
  ElectShare_Epoch s2 = ElectShare_Epoch s1 ->
  exists e1' e2' l1 l2,
    AddShareVote e1 s1 = Ret (e1', (l1, None)) /\ AddShareVote e2 s2 = Ret (e2', (l2, None)) /\
    (l1 <> NONE -> l2 <> NONE -> l1 = l2) /\
    (l1 <> NONE -> 0 <= l1 < Committee_Size (el_committee e1) /\
       Leader e1' (ElectShare_Epoch s1) = l1).
Proof.
  intros Hn Hcom Hpub Ht HN Hep.
  destruct (vaba_AddShareVote_spec e1 s1 Hn) as (e1' & l1 & -> & _ & _ & H1).
  destruct (vaba_AddShareVote_spec e2 s2) as (e2' & l2 & -> & _ & _ & H2); [by rewrite Hcom|].
  exists e1', e2', l1, l2. split_and!; [done..| |].
  - intros Hl1 Hl2. destruct H1 as [[? _]|(_ & _ & x1 & c1 & Hc1 & Hi1)]; [done|].
    destruct H2 as [[? _]|(_ & _ & x2 & c2 & Hc2 & Hi2)]; [done|].
    assert (ElectShare_Hash s2 = ElectShare_Hash s1) as Hh
      by (unfold ElectShare_Hash; by rewrite Hep).
    rewrite Hh in Hc2. rewrite (coins_agree _ _ _ _ _ _ _ Hpub Ht HN Hc1 Hc2) in Hi1.
    rewrite Hcom in Hi2. congruence.
  - intros Hl1. destruct H1 as [[? _]|(He & Hr & _)]; [done|]. split; [done|].
    unfold Leader. by rewrite He, lookup_insert_eq.
Qed.

Section Witness.
Import ToyCrypto ToyNode.

Definition toy_share (a : nat) : ElectShare :=
  let m := ElectShare_Hash (mkElectShare (Z.of_nat a) 0 (mkSignatureShare [])) in
  mkElectShare (Z.of_nat a) 0 (mkSignatureShare (byteZ (Z.of_nat a) :: m)).
Definition toy_elector (i a b : nat) : Elector :=
  let add e a := match AddShareVote e (toy_share a) with Ret (e', _) => e' | Panic => e end in
  add (add (NewElector (toy_service 4 i) (toy_committee 4)) a) b.

Lemma vaba_leader_agreement_witness :
  exists e1' e2' l1 l2,
    AddShareVote (toy_elector 0 0 1) (toy_share 2) = Ret (e1', (l1, None)) /\
    AddShareVote (toy_elector 3 2 3) (toy_share 1) = Ret (e2', (l2, None)) /\
    (l1 <> NONE -> l2 <> NONE -> l1 = l2) /\
    (l1 <> NONE -> 0 <= l1 < 4 /\ Leader e1' 0 = l1).
Proof.
  exact (vaba_leader_agreement (toy_elector 0 0 1) (toy_elector 3 2 3) (toy_share 2) (toy_share 1)
    eq_refl eq_refl eq_refl eq_refl eq_refl eq_refl).
Defined.
End Witness.
