(* ===== verification/VabaCommitor.v ===== *)
(** * vaba: ordered delivery

    Models src/core/vaba/consensus/commitor.go: the generic commitor at the type of
    vaba's blocks, and [run], which consumes the channel. *)

From S2P Require Import Prelude Committee Pool Deliver VabaMessage.

Open Scope Z_scope.

Definition Commit : Committor Block -> option Block -> Outcome (Committor Block) :=
  Deliver.Commit Block_Epoch.

(** The consumer: a line (epoch, proposer, batch id) is logged for a block with
    transactions, and every block signals [callBack]. *)
Definition run_step (st : list (Z * NodeID * Z) * nat) (block : Block) :
    list (Z * NodeID * Z) * nat :=
  let '(lines, callbacks) := st in
  ((match Batch_Txs (Block_Batch block) with
    | Some _ => lines ++ [(Block_Epoch block, Proposer block, Batch_ID (Block_Batch block))]
    | None => lines
    end), S callbacks).
Definition Committor_run (blocks : list Block) : list (Z * NodeID * Z) * nat :=
  foldl run_step ([], 0%nat) blocks.

Lemma vaba_Commit_returns (c : Committor Block) (b : Block) :
  exists c', Commit c (Some b) = Ret c'.
Proof. apply Commit_returns. Qed.

Lemma vaba_Commit_prefix (c c' : Committor Block) (b : option Block) :
  Commit c b = Ret c' -> commitCh c `prefix_of` commitCh c'.
Proof. apply Commit_prefix. Qed.

(** A block of the epoch the commitor waits for is delivered at once. *)
Lemma vaba_Commit_next (c c' : Committor Block) (b : Block) :
  Block_Epoch b = Index c -> Blocks c = ∅ -> Commit c (Some b) = Ret c' ->
  commitCh c' = commitCh c ++ [b].
Proof.
  intros He Hb. unfold Commit, Deliver.Commit. rewrite He, Z.ltb_irrefl, Hb. cbn.
  rewrite insert_empty, map_size_singleton. cbn.
  rewrite lookup_singleton_eq. cbn. rewrite delete_singleton_eq, lookup_empty. by intros [= <-].
Qed.
