(* ===== verification/VabaPromote.v ===== *)
(** * vaba: promote instances

    Models src/core/vaba/consensus/promote.go.  [processProposal] and [processVote]
    run as goroutines that share the instance; they are cut at every access to shared
    memory (the block hash under [mHash], the lists under [mUnhandle], the counters
    under [mVoteCnt], the atomic flags, the skip flags of the core under [mSkip]) and
    at every send, so that a scheduler can interleave them the way Go may.  The main
    loop reads an instance in [invokeViewChange] without any lock, one field after
    the other; these reads are steps here too ([VHash] to [VKey]).  [prom_pc] names
    where a goroutine stands, [prom_step] is the step it makes next. *)

From S2P Require Import Prelude Crypto Committee Runtime VabaMessage.

Open Scope Z_scope.

(** [blockHash] is [None] until a hash was stored; [voteCnts] counts per phase. *)
Record Promote := mkPromote {
  prom_Epoch : Z;
  prom_Proposer : NodeID;
  blockHash : option Digest;
  unhandleProposal : list Proposal;
  unhandleVote : list Vote;
  voteCnts : gmap Z Z;
  keyFlag : bool;
  lockFlag : bool;
  prom_commitFlag : bool
}.
#[export] Instance Promote_eta : Settable Promote := fun p =>
  mkPromote (prom_Epoch p) (prom_Proposer p) (blockHash p) (unhandleProposal p) (unhandleVote p)
    (voteCnts p) (keyFlag p) (lockFlag p) (prom_commitFlag p).

Definition NewPromote (epoch : Z) (proposer : NodeID) : Promote :=
  mkPromote epoch proposer None [] [] ∅ false false false.

Definition prom_BlockHash (p : Promote) : option Digest := blockHash p.
Definition IsKey (p : Promote) : bool := keyFlag p.
Definition IsLock (p : Promote) : bool := lockFlag p.
Definition IsCommit (p : Promote) : bool := prom_commitFlag p.

(** Where a goroutine of an instance, or the main loop reading one, stands. *)
Inductive prom_pc :=
| PProposal (p : Proposal)               (* processProposal(p) *)
| PAside (p : Proposal)                  (* a later phase, no hash was seen *)
| PFlag (p : Proposal)                   (* a later phase, a hash was seen *)
| PDrain (d : Digest)                    (* phase one, the hash is stored *)
| PVoteOne (d : Digest)                  (* phase one, the lists were restarted *)
| PVoteLater (phase : Z)                 (* the flag of the phase is set *)
| PVote (v : Vote)                       (* processVote(v) *)
| PVoteAside (v : Vote)                  (* no hash was seen *)
| PCount (v : Vote)                      (* the hash of the vote was seen *)
| PQuorum (v : Vote) (nums : Z)          (* counted as the [nums]-th *)
| VHash                                  (* invokeViewChange: pb.BlockHash() *)
| VCommit (h : option Digest)            (* pb.IsCommit() *)
| VLock (h : option Digest) (c : bool)   (* pb.IsLock() *)
| VKey (h : option Digest) (c l : bool). (* pb.IsKey(), and the message *)

(** On the instance of an (epoch, proposer). *)
Record Thread := mkThread { t_epoch : Z; t_node : NodeID; t_pc : prom_pc }.

Abbreviation effect := (Effect Message Message Thread).

(** [RecvChannel() <- m] *)
Definition recvCh : nat := 0.
Definition to_self (m : Message) : effect := EPush recvCh m.

Section Steps.
Context {E : Ed25519} {K : Kyber}.
(** The fields of [p.C] an instance uses, and [p.C.isSkip(p.Epoch)]. *)
Context (Name : NodeID) (committee : Committee) (sigService : SigService) (isSkip : bool).

Definition spawn (p : Promote) (pc : prom_pc) : effect :=
  EGo (mkThread (prom_Epoch p) (prom_Proposer p) pc).

(** [if p.C.Name != p.Proposer { Send(..., p.Proposer, vote) } else { RecvChannel() <- vote }] *)
Definition answer (vote : Message) : M Promote effect unit :=
  p ← get_st;
  if negb (Name =? prom_Proposer p) then emit (ESend Name (prom_Proposer p) vote)
  else emit (to_self vote).

(** In the name of the proposer of the instance. *)
Definition send_all (m : Message) : M Promote effect unit :=
  p ← get_st; _ ← emit (ESend (prom_Proposer p) NONE m); emit (to_self m).

Definition vote_on (d : Digest) (phase : Z) : M Promote effect unit :=
  p ← get_st;
  vote ← lift_outcome (NewVote sigService Name (prom_Proposer p) d (prom_Epoch p) phase);
  answer (MVote vote).

Definition proposal_step (p : Proposal) : M Promote effect (option prom_pc) :=
  s ← get_st;
  if negb (Proposal_Phase p =? PHASE_ONE_FALG) then
    mret (Some (match blockHash s with None => PAside p | Some _ => PFlag p end))
  else if negb (Proposal_Author p =? prom_Proposer s) then mret None
  else
    match Proposal_B p with
    | None => panic
    | Some b =>
        let d := Block_Hash b in
        _ ← modify (fun s => s <| blockHash := Some d |>);
        mret (Some (PDrain d))
    end.

(** The switch on a later phase; an unknown phase leaves [vote] nil. *)
Definition flag_step (p : Proposal) : M Promote effect (option prom_pc) :=
  if Proposal_Phase p =? PHASE_TWO_FALG then
    _ ← modify (fun s => s <| keyFlag := true |>); mret (Some (PVoteLater PHASE_TWO_FALG))
  else if Proposal_Phase p =? PHASE_THREE_FALG then
    _ ← modify (fun s => s <| lockFlag := true |>); mret (Some (PVoteLater PHASE_THREE_FALG))
  else if Proposal_Phase p =? PHASE_FOUR_FALG then
    _ ← modify (fun s => s <| prom_commitFlag := true |>); mret (Some (PVoteLater PHASE_FOUR_FALG))
  else _ ← answer (MNil VoteType); mret None.

(** A quorum of votes of a phase. *)
Definition quorum_step (v : Vote) (nums : Z) : M Promote effect (option prom_pc) :=
  s ← get_st;
  if nums =? HightThreshold committee then
    if Vote_Phase v <? PHASE_FOUR_FALG then
      proposal ← lift_outcome (NewProposal sigService (prom_Proposer s) (prom_Epoch s)
                                 (Vote_Phase v + 1) None);
      _ ← send_all (MProposal proposal);
      mret None
    else if isSkip then mret None
    else
      done ← lift_outcome (NewDone sigService (prom_Proposer s) (prom_Epoch s));
      _ ← send_all (MDone done);
      mret None
  else mret None.

Definition prom_step (pc : prom_pc) : M Promote effect (option prom_pc) :=
  match pc with
  | PProposal p => proposal_step p
  | PAside p =>
      _ ← modify (fun s => s <| unhandleProposal := unhandleProposal s ++ [p] |>); mret None
  | PFlag p => flag_step p
  | PDrain d =>
      (* the lists are not emptied *)
      fun s => Ret (Some (PVoteOne d), s,
                    ((fun p => spawn s (PProposal p)) <$> unhandleProposal s) ++
                    ((fun v => spawn s (PVote v)) <$> unhandleVote s))
  | PVoteOne d => _ ← vote_on d PHASE_ONE_FALG; mret None
  | PVoteLater phase =>
      s ← get_st;
      match blockHash s with
      | None => panic
      | Some d => _ ← vote_on d phase; mret None
      end
  | PVote v =>
      s ← get_st;
      match blockHash s with
      | None => mret (Some (PVoteAside v))
      | Some d => mret (if bool_decide (d = Vote_BlockHash v) then Some (PCount v) else None)
      end
  | PVoteAside v =>
      _ ← modify (fun s => s <| unhandleVote := unhandleVote s ++ [v] |>); mret None
  | PCount v =>
      s ← get_st;
      let nums := default 0 (voteCnts s !! Vote_Phase v) + 1 in
      _ ← modify (fun s => s <| voteCnts := <[Vote_Phase v := nums]> (voteCnts s) |>);
      mret (Some (PQuorum v nums))
  | PQuorum v nums => quorum_step v nums
  | VHash => s ← get_st; mret (Some (VCommit (prom_BlockHash s)))
  | VCommit h => s ← get_st; mret (Some (VLock h (IsCommit s)))
  | VLock h c => s ← get_st; mret (Some (VKey h c (IsLock s)))
  | VKey h c l =>
      s ← get_st;
      v ← lift_outcome (NewViewChange sigService Name (prom_Proposer s) (prom_Epoch s) h c l (IsKey s));
      _ ← emit (ESend Name NONE (MViewChange v));
      _ ← emit (to_self (MViewChange v));
      mret None
  end.

(** ** The invariant of an instance and of its goroutines *)

(** Messages as the protocol makes them: a member's name, a 64-bit epoch, the four
    phases, a block in phase one.  Signatures and all other contents are arbitrary. *)
Definition proposal_wf (p : Proposal) : Prop :=
  Proposal_Author p ∈ members committee /\ PHASE_ONE_FALG <= Proposal_Phase p <= PHASE_FOUR_FALG /\
  (Proposal_Phase p = PHASE_ONE_FALG -> is_Some (Proposal_B p)).
Definition vote_wf (v : Vote) : Prop := PHASE_ONE_FALG <= Vote_Phase v.

Definition event_ok (m : Message) : Prop :=
  (exists a, msg_author m = Some a /\ a ∈ members committee) /\ in_int64 (msg_epoch m) /\
  (forall p, m = MProposal p -> proposal_wf p) /\ (forall v, m = MVote v -> vote_wf v).

(** A later phase, which no node proposes a block in. *)
Definition later_wf (p : Proposal) : Prop := proposal_wf p /\ Proposal_Phase p <> PHASE_ONE_FALG.

(** The instance of (epoch, node): no flag without a hash, and a hash only if the
    node is a member. *)
Record prom_ok (epoch : Z) (node : NodeID) (s : Promote) : Prop := {
  po_epoch : prom_Epoch s = epoch;
  po_node : prom_Proposer s = node;
  po_flags : IsKey s || IsLock s || IsCommit s = true -> is_Some (blockHash s);
  po_member : is_Some (blockHash s) -> node ∈ members committee;
  po_proposals : Forall later_wf (unhandleProposal s);
  po_votes : Forall vote_wf (unhandleVote s)
}.

(** What is known where a goroutine stands. *)
Definition pc_ok (s : Promote) (pc : prom_pc) : Prop :=
  match pc with
  | PProposal p => proposal_wf p
  | PAside p => later_wf p
  | PFlag p => later_wf p /\ is_Some (blockHash s)
  | PDrain _ | PVoteOne _ => is_Some (blockHash s)
  | PVoteLater phase => PHASE_ONE_FALG <= phase /\ is_Some (blockHash s)
  | PVote v | PVoteAside v => vote_wf v
  | PCount v | PQuorum v _ => vote_wf v /\ is_Some (blockHash s)
  | VHash | VCommit _ | VLock _ _ | VKey _ _ _ => True
  end.

(** A stored hash stays stored and a flag that is set stays set. *)
Definition prom_le (s s' : Promote) : Prop :=
  (is_Some (blockHash s) -> is_Some (blockHash s')) /\ (IsKey s = true -> IsKey s' = true) /\
  (IsLock s = true -> IsLock s' = true) /\ (IsCommit s = true -> IsCommit s' = true).

Lemma prom_le_refl (s : Promote) : prom_le s s.
Proof. done. Qed.

Lemma prom_le_trans (s1 s2 s3 : Promote) : prom_le s1 s2 -> prom_le s2 s3 -> prom_le s1 s3.
Proof. unfold prom_le. naive_solver. Qed.

Lemma prom_pc_ok_mono (s s' : Promote) (pc : prom_pc) : prom_le s s' -> pc_ok s pc -> pc_ok s' pc.
Proof. intros [Hh _]. destruct pc; cbn; naive_solver. Qed.

(** In the name of [f], and verifiable if that is the node's own. *)
Definition signed_by (f : NodeID) (m : Message) : Prop :=
  msg_author m = Some f /\ f ∈ members committee /\ (f = Name -> Verify committee m = Ret true).

(** What an instance may emit: messages of its epoch, none of them a share, and
    goroutines on itself. *)
Definition prom_effect_ok (epoch : Z) (node : NodeID) (s : Promote) (e : effect) : Prop :=
  match e with
  | ESend f _ m => signed_by f m /\ (forall sh, m <> MElectShare sh)
  | EPush ch m => event_ok m
  | EGo t => t_epoch t = epoch /\ t_node t = node /\ pc_ok s (t_pc t)
  end.

Definition prom_post (epoch : Z) (node : NodeID) (s : Promote) (pc' : option prom_pc)
    (s' : Promote) (es : list effect) : Prop :=
  prom_ok epoch node s' /\ prom_le s s' /\ Forall (prom_effect_ok epoch node s') es /\
  (forall pc'', pc' = Some pc'' -> pc_ok s' pc'').

(** The instance is left as it is. *)
Lemma prom_post_same (epoch : Z) (node : NodeID) (s : Promote) (pc' : option prom_pc)
    (es : list effect) :
  prom_ok epoch node s -> Forall (prom_effect_ok epoch node s) es ->
  (forall pc'', pc' = Some pc'' -> pc_ok s pc'') -> prom_post epoch node s pc' s es.
Proof. intros. by split_and!. Qed.

Section Invariant.
Context `{!Ed25519Laws E} (Hsrv : service_for sigService (Committee_Name committee Name)).
Context (Hmem : Name ∈ members committee) (epoch : Z) (He64 : in_int64 epoch).

Lemma vote_on_ok (node : NodeID) (d : Digest) (phase : Z) (s : Promote) :
  prom_ok epoch node s -> PHASE_ONE_FALG <= phase ->
  wp False (_ ← vote_on d phase; mret None) s (prom_post epoch node s).
Proof using Hsrv Hmem He64 Ed25519Laws0.
  intros Hs Hph. pose proof Hs as [He Hn _ _ _ _]. unfold vote_on, answer. wp_steps.
  unfold NewVote. run_sign Hsrv. wp_steps.
  assert (event_ok (MVote (mkVote Name (prom_Proposer s) d (prom_Epoch s) phase sig))) as Hev.
  { split_and!; [by exists Name|cbn; by rewrite He|done|by intros v [= <-]]. }
  destruct (negb _); wp_steps; apply prom_post_same; try done; apply Forall_singleton; [|done].
  by split.
Qed.

Lemma proposal_step_ok (node : NodeID) (p : Proposal) (s : Promote) :
  prom_ok epoch node s -> proposal_wf p ->
  wp False (proposal_step p) s (prom_post epoch node s).
Proof.
  intros Hs Hp. pose proof Hs as [He Hn Hf Hm Hup Huv]. unfold proposal_step. wp_steps.
  case_bool; cbn [negb].
  - case_bool; cbn [negb]; wp_steps; [|by apply prom_post_same].
    destruct Hp as (Ha & _ & Hb). destruct (Hb ltac:(done)) as [b ->]. wp_steps.
    split_and!; [split; cbn; try done; congruence|by unfold prom_le; cbn|done|].
    intros pc'' [= <-]. cbn. eauto.
  - wp_steps. apply prom_post_same; [done..|]. intros pc'' [= <-].
    by destruct (blockHash s) eqn:Eb; cbn; rewrite ?Eb.
Qed.

Lemma flag_step_ok (node : NodeID) (p : Proposal) (s : Promote) :
  prom_ok epoch node s -> later_wf p -> is_Some (blockHash s) ->
  wp False (flag_step p) s (prom_post epoch node s).
Proof.
  intros Hs ((_ & Hph & _) & Hne) Hh. pose proof Hs as [He Hn Hf Hm Hup Huv].
  unfold flag_step, PHASE_ONE_FALG, PHASE_TWO_FALG, PHASE_THREE_FALG, PHASE_FOUR_FALG in *.
  repeat (case_bool; [wp_steps; split_and!; [by split|by unfold prom_le; cbn|done|];
    intros pc'' [= <-]; by split|]). lia.
Qed.

Lemma quorum_step_ok (node : NodeID) (v : Vote) (nums : Z) (s : Promote) :
  prom_ok epoch node s -> vote_wf v -> is_Some (blockHash s) ->
  wp False (quorum_step v nums) s (prom_post epoch node s).
Proof using Hsrv He64 Ed25519Laws0.
  intros Hs Hv Hh. pose proof Hs as [He Hn Hf Hm Hup Huv]. specialize (Hm Hh).
  unfold quorum_step, send_all, vote_wf, PHASE_ONE_FALG, PHASE_FOUR_FALG in *. wp_steps.
  assert (forall m, event_ok m -> signed_by (prom_Proposer s) m -> (forall sh, m <> MElectShare sh) ->
    prom_post epoch node s None s [ESend (prom_Proposer s) NONE m; to_self m]) as Hpost.
  { intros m H1 H2 H3. apply prom_post_same; [done| |done]. apply Forall_cons. split; [done|].
    by apply Forall_singleton. }
  case_bool; [|wp_steps; by apply prom_post_same]. case_bool.
  - unfold NewProposal. wp_steps. run_sign Hsrv. wp_steps. apply Hpost; [| |done].
    + split_and!; [exists (prom_Proposer s); split; [done|by rewrite Hn]|cbn; by rewrite He| |done].
      intros p [= <-]. unfold proposal_wf, PHASE_ONE_FALG, PHASE_FOUR_FALG.
      cbn [Proposal_Author Proposal_Phase]. rewrite Hn. split_and!; [done|lia..].
    + split_and!; [done|by rewrite Hn|]. intros HN. rewrite <-HN in Hv0. exact Hv0.
  - destruct isSkip; [wp_steps; by apply prom_post_same|].
    unfold NewDone. wp_steps. run_sign Hsrv. wp_steps. apply Hpost; [| |done].
    + split_and!; [exists (prom_Proposer s); split; [done|by rewrite Hn]|cbn; by rewrite He|done|done].
    + split_and!; [done|by rewrite Hn|]. intros HN. rewrite <-HN in Hv0. exact Hv0.
Qed.

(** The step of any goroutine, and of the main loop on an instance, keeps the
    invariant and does not panic. *)
Lemma prom_step_ok (node : NodeID) (pc : prom_pc) (s : Promote) :
  prom_ok epoch node s -> pc_ok s pc -> wp False (prom_step pc) s (prom_post epoch node s).
Proof using Hsrv Hmem He64 Ed25519Laws0.
  intros Hs Hpc. pose proof Hs as [He Hn Hf Hm Hup Huv].
  destruct pc as [p|p|p|d|d|phase|v|v|v|v nums| |h|h c|h c l]; cbn in Hpc; unfold prom_step.
  - by apply proposal_step_ok.
  - wp_steps. split_and!; [|done..]. split; try done. cbn. apply Forall_app. auto.
  - by apply flag_step_ok; destruct Hpc.
  - unfold wp. split_and!; [done|done| |by intros pc'' [= <-]]. apply Forall_app.
    split; apply Forall_fmap; (eapply Forall_impl; [eassumption|]); intros x Hx; cbn;
      split_and!; try done. apply Hx.
  - by apply vote_on_ok.
  - destruct Hpc as [Hph [d Hd]]. rewrite wp_bind, wp_get. cbn beta. rewrite Hd.
    by apply vote_on_ok.
  - wp_steps. destruct (blockHash s) as [d|] eqn:Eb; wp_steps.
    + apply prom_post_same; [done..|]. case_bool; [|done]. intros pc'' [= <-]. cbn. by rewrite Eb.
    + apply prom_post_same; [done..|]. by intros pc'' [= <-].
  - wp_steps. split_and!; [|done..]. split; try done. cbn. apply Forall_app. auto.
  - wp_steps. split_and!; [by split|done|done|]. by intros pc'' [= <-].
  - by apply quorum_step_ok; destruct Hpc.
  - wp_steps. apply prom_post_same; [done..|]. by intros pc'' [= <-].
  - wp_steps. apply prom_post_same; [done..|]. by intros pc'' [= <-].
  - wp_steps. apply prom_post_same; [done..|]. by intros pc'' [= <-].
  - wp_steps. unfold NewViewChange. run_sign Hsrv. wp_steps. apply prom_post_same; [done| |done].
    apply Forall_cons. split; [by split|]. apply Forall_singleton.
    split_and!; [by exists Name|cbn; by rewrite He|done|done].
Qed.

End Invariant.

End Steps.
