(* ===== verification/VabaCore.v ===== *)
(** * vaba: the protocol core

    Models src/core/vaba/consensus/core.go.  [Core] is the struct of the same name,
    each handler a command of the handler monad: it reads and writes the core, emits
    the sends, channel writes and [go] statements in program order and returns the
    error of the source.  [handle] is the body of the select loop of [Run] for one
    message; of a share that elects a leader the reads of the leader's instance
    remain, which [tstep] makes one by one.  A call that would block on the batch
    channel for ever has no result, like one that panics. *)

From S2P Require Import Prelude Crypto Committee Store Pool Runtime Quorum Deliver.
From S2P Require Import VabaMessage VabaAggreator VabaCommitor VabaPromote.

Open Scope Z_scope.

Section Core.
Context {E : Ed25519} {K : Kyber} {db : Type} `{HDB : DB db} {GB : GobBlock}.

Record Core := mkCore {
  Name : NodeID;
  core_Committee : Committee;
  core_Parameters : Parameters;
  core_SigService : SigService;
  core_Store : Store db;
  TxPool : Pool;
  core_Commitor : Committor Block;
  core_Aggreator : Aggreator;
  core_Elector : Elector;
  Epoch : Z;
  Lock : Z;
  PBInstances : gmap Z (gmap NodeID Promote);
  SkipFlag : gset Z;
  electFlag : gset Z;
  viewChangeFlag : gset Z;
  viewChangeCnts : gmap Z Z;
  commitFlag : gset Z
}.
#[export] Instance Core_eta : Settable Core := fun c =>
  mkCore (Name c) (core_Committee c) (core_Parameters c) (core_SigService c) (core_Store c)
    (TxPool c) (core_Commitor c) (core_Aggreator c) (core_Elector c) (Epoch c) (Lock c)
    (PBInstances c) (SkipFlag c) (electFlag c) (viewChangeFlag c) (viewChangeCnts c)
    (commitFlag c).

Definition NewCore (Name : NodeID) (committee : Committee) (parameters : Parameters)
    (sigService : SigService) (store : Store db) (txPool : Pool) : Core :=
  mkCore Name committee parameters sigService store txPool NewCommittor (NewAggreator committee)
    (NewElector sigService committee) 0 0 ∅ ∅ ∅ ∅ ∅ ∅.

Abbreviation H A := (M Core effect A).

(** ** Blocks and instances *)

(** A nil block is dereferenced. *)
Definition StoreBlock (block : option Block) : H (option error) :=
  match block with
  | None => panic
  | Some block =>
      let key := Block_Hash block in
      match Block_Encode block with
      | None => mret (Some ErrExternal)
      | Some val =>
          c ← get_st;
          let '(store, err) := Store_Write (core_Store c) key val in
          _ ← modify (fun c => c <| core_Store := store |>);
          mret err
      end
  end.

Definition GetBlock (hash : Digest) : H (option Block * option error) :=
  c ← get_st;
  let '(store, (data, err)) := Store_Read (core_Store c) hash in
  _ ← modify (fun c => c <| core_Store := store |>);
  match err with
  | Some ErrNotFoundKey => mret (None, None)
  | Some e => mret (None, Some e)
  | None =>
      match Block_Decode data with
      | None => mret (None, Some ErrExternal)
      | Some b => mret (Some b, None)
      end
  end.

Definition GetPBInstance (epoch : Z) (node : NodeID) : H Promote :=
  c ← get_st;
  match lookup2 (PBInstances c) epoch node with
  | Some item => mret item
  | None =>
      let item := NewPromote epoch node in
      _ ← modify (fun c => c <| PBInstances := insert2 epoch node item (PBInstances c) |>);
      mret item
  end.

Definition messageFilter (epoch : Z) : H bool := gets (fun c => epoch <? Epoch c).

Definition setSkip (epoch : Z) : H unit := modify (fun c => c <| SkipFlag := {[epoch]} ∪ SkipFlag c |>).
Definition core_isSkip (epoch : Z) : H bool := gets (fun c => bool_decide (epoch ∈ SkipFlag c)).

Definition generatorBlock (epoch : Z) : H Block :=
  c ← get_st;
  match GetBatch (TxPool c) with
  | None => panic
  | Some (batch, pool) =>
      _ ← modify (fun c => c <| TxPool := pool |>);
      mret (NewBlock (Name c) batch epoch)
  end.

Definition Commitor_Commit (b : option Block) : H unit :=
  c ← get_st;
  commitor ← lift_outcome (Commit (core_Commitor c) b);
  modify (fun c => c <| core_Commitor := commitor |>).

(** [c.Transimtor.Send(c.Name, core.NONE, m)] *)
Definition Send_all (m : Message) : H unit := c ← get_st; emit (ESend (Name c) NONE m).
(** [c.Transimtor.RecvChannel() <- m] *)
Definition to_recvCh (m : Message) : H unit := emit (to_self m).
Definition broadcast (m : Message) : H unit := _ ← Send_all m; to_recvCh m.

(** [go item.f(...)] on the instance of (epoch, node). *)
Definition go (epoch : Z) (node : NodeID) (pc : prom_pc) : H unit :=
  emit (EGo (mkThread epoch node pc)).

(** ** Handlers *)

Definition handleProposal (p : Proposal) : H (option error) :=
  _ ← (if Proposal_Phase p =? PHASE_ONE_FALG then
         c ← get_st;
         if bool_decide (Proposal_Epoch p ∈ commitFlag c) then
           if Leader (core_Elector c) (Proposal_Epoch p) =? Proposal_Author p
           then Commitor_Commit (Proposal_B p) else mret tt
         else mret tt
       else mret tt);
  discard ← messageFilter (Proposal_Epoch p);
  if discard : bool then mret None
  else
    let run := (_ ← GetPBInstance (Proposal_Epoch p) (Proposal_Author p);
                _ ← go (Proposal_Epoch p) (Proposal_Author p) (PProposal p);
                mret None) in
    if Proposal_Phase p =? PHASE_ONE_FALG then
      err ← StoreBlock (Proposal_B p);
      match err with
      | Some e => mret (Some e)
      | None => c ← get_st; if Proposal_Epoch p <? Lock c then mret None else run
      end
    else run.

Definition handleVote (v : Vote) : H (option error) :=
  discard ← messageFilter (Vote_Epoch v);
  if discard : bool then mret None
  else
    _ ← GetPBInstance (Vote_Epoch v) (Vote_Proposer v);
    _ ← go (Vote_Epoch v) (Vote_Proposer v) (PVote v);
    mret None.

Definition handleDone (d : Done) : H (option error) :=
  discard ← messageFilter (Done_Epoch d);
  if discard : bool then mret None
  else
    c ← get_st;
    let '(agg, (ok, err)) := addDoneVote (core_Aggreator c) d in
    _ ← modify (fun c => c <| core_Aggreator := agg |>);
    match err with
    | Some e => mret (Some e)
    | None =>
        if ok : bool then
          share ← lift_outcome (NewSkipShare (core_SigService c) (Name c) (Done_Epoch d));
          _ ← broadcast (MSkipShare share);
          mret None
        else mret None
    end.

(** The nil share of a failed threshold signature is a typed nil pointer. *)
Definition share_msg (share : option ElectShare) : Message :=
  match share with Some s => MElectShare s | None => MNil ElectShareType end.

Definition invokeElect (epoch : Z) : H (option error) :=
  c ← get_st;
  if bool_decide (epoch ∈ electFlag c) then mret None
  else
    _ ← modify (fun c => c <| electFlag := {[epoch]} ∪ electFlag c |>);
    elect ← lift_outcome (NewElectShare (core_SigService c) (Name c) epoch);
    _ ← broadcast (share_msg elect);
    mret None.

(** Start to skip an epoch. *)
Definition skip_epoch (epoch : Z) : H (option error) :=
  _ ← setSkip epoch;
  c ← get_st;
  skip ← lift_outcome (NewSkip (core_SigService c) (Name c) epoch);
  _ ← Send_all (MSkip skip);
  invokeElect epoch.

Definition handleSkipShare (s : SkipShare) : H (option error) :=
  discard ← messageFilter (SkipShare_Epoch s);
  if discard : bool then mret None
  else
    c ← get_st;
    let '(agg, (ok, err)) := addSkipVote (core_Aggreator c) s in
    _ ← modify (fun c => c <| core_Aggreator := agg |>);
    match err with
    | Some e => mret (Some e)
    | None => if ok : bool then skip_epoch (SkipShare_Epoch s) else mret None
    end.

Definition handleSkip (s : Skip) : H (option error) :=
  discard ← messageFilter (Skip_Epoch s);
  if discard : bool then mret None
  else
    skipped ← core_isSkip (Skip_Epoch s);
    if skipped : bool then mret None else skip_epoch (Skip_Epoch s).

(** Up to the reads of the leader's instance, which the returned goroutine makes. *)
Definition invokeViewChange (epoch : Z) (leader : NodeID) : H (option Thread) :=
  c ← get_st;
  if bool_decide (epoch ∈ viewChangeFlag c) then mret None
  else
    _ ← modify (fun c => c <| viewChangeFlag := {[epoch]} ∪ viewChangeFlag c |>);
    _ ← (if Leader (core_Elector c) epoch =? NONE
         then modify (fun c => c <| core_Elector := SetLeader (core_Elector c) epoch leader |>)
         else mret tt);
    _ ← GetPBInstance epoch leader;
    mret (Some (mkThread epoch leader VHash)).

(** The error and what remains to be done. *)
Definition handleElectShare (e : ElectShare) : H (option error * option Thread) :=
  discard ← messageFilter (ElectShare_Epoch e);
  if discard : bool then mret (None, None)
  else
    c ← get_st;
    '(elector, (leader, err)) ← lift_outcome (AddShareVote (core_Elector c) e);
    _ ← modify (fun c => c <| core_Elector := elector |>);
    match err with
    | Some err => mret (Some err, None)
    | None =>
        if leader =? NONE then mret (None, None)
        else t ← invokeViewChange (ElectShare_Epoch e) leader; mret (None, t)
    end.

(** The proposal is made in the new epoch, of a new block or of the block with the
    given hash; after an error of the store there is none. *)
Definition advanceNextEpoch (epoch : Z) (blockHash : option Digest) : H (option error) :=
  c ← get_st;
  if epoch <=? Epoch c then mret None
  else
    _ ← modify (fun c => c <| Epoch := epoch |>);
    '(block, err) ← (match blockHash with
                     | None => b ← generatorBlock epoch; mret (Some b, None)
                     | Some h =>
                         '(b, err) ← GetBlock h;
                         match err, b with
                         | Some e, _ => mret (None, Some e)
                         | None, Some b => mret (Some b, None)
                         | None, None => b ← generatorBlock epoch; mret (Some b, None)
                         end
                     end);
    match err with
    | Some e => mret (Some e)
    | None =>
        proposal ← lift_outcome (NewProposal (core_SigService c) (Name c) epoch PHASE_ONE_FALG block);
        _ ← broadcast (MProposal proposal);
        mret None
    end.

(** The batch of the node's own block goes back to the pool when another
    proposer's block is output. *)
Definition returnBatch (epoch : Z) : H unit :=
  c ← get_st;
  pb ← GetPBInstance epoch (Name c);
  match prom_BlockHash pb with
  | None => mret tt
  | Some hash =>
      '(block, err) ← GetBlock hash;
      match err, block with
      | None, Some block =>
          c ← get_st;
          match PutBatch (TxPool c) (Block_Batch block) with
          | None => panic
          | Some pool => modify (fun c => c <| TxPool := pool |>)
          end
      | _, _ => mret tt
      end
  end.

(** Commit the block of a hash as the block of an epoch, whatever its own. *)
Definition output (epoch : Z) (hash : Digest) : H unit :=
  '(block, err) ← GetBlock hash;
  match err, block with
  | None, Some block =>
      let block := mkBlock (Proposer block) (Block_Batch block) epoch in
      _ ← Commitor_Commit (Some block);
      c ← get_st;
      if negb (Proposer block =? Name c) then returnBatch epoch else mret tt
  | _, _ => mret tt
  end.

(** Output, halt and go to the next epoch. *)
Definition commit_epoch (epoch : Z) (leader : NodeID) (hash : Digest) : H unit :=
  _ ← output epoch hash;
  _ ← modify (fun c => c <| commitFlag := {[epoch]} ∪ commitFlag c |>);
  c ← get_st;
  halt ← lift_outcome (NewHalt (core_SigService c) (Name c) leader hash epoch);
  _ ← Send_all (MHalt halt);
  _ ← advanceNextEpoch (int64 (epoch + 1)) None;
  mret tt.

(** [&Block{Epoch: epoch, Batch: pool.Batch{}}] *)
Definition empty_block (epoch : Z) : Block := mkBlock 0 (mkBatch 0 None) epoch.

(** The lock, and the empty block at the [HightThreshold]-th view change of an epoch
    without an output; [cnt] is the epoch's counter. *)
Definition locked_or_empty (v : ViewChange) (cnt : Z) : H (option error) :=
  let epoch := ViewChange_Epoch v in
  _ ← modify (fun c => if ViewChange_IsLock v && (Lock c <=? epoch)
                       then c <| Lock := epoch |> else c);
  c ← get_st;
  if bool_decide (epoch ∈ commitFlag c) then mret None
  else if cnt =? HightThreshold (core_Committee c) then
    _ ← modify (fun c => c <| commitFlag := {[epoch]} ∪ commitFlag c |>);
    _ ← Commitor_Commit (Some (empty_block epoch));
    _ ← advanceNextEpoch (int64 (epoch + 1)) (ViewChange_BlockHash v);
    mret None
  else mret None.

Definition handleViewChange (v : ViewChange) : H (option error) :=
  discard ← messageFilter (ViewChange_Epoch v);
  if discard : bool then mret None
  else
    c ← get_st;
    if bool_decide (ViewChange_Epoch v ∈ commitFlag c) then mret None
    else
      let epoch := ViewChange_Epoch v in
      let cnt := default 0 (viewChangeCnts c !! epoch) + 1 in
      _ ← modify (fun c => c <| viewChangeCnts := <[epoch := cnt]> (viewChangeCnts c) |>);
      _ ← (if ViewChange_IsCommit v then
             match ViewChange_BlockHash v with
             | None => panic
             | Some hash => commit_epoch epoch (ViewChange_Leader v) hash
             end
           else mret tt);
      locked_or_empty v cnt.

Definition handleHalt (halt : Halt) : H (option error) :=
  discard ← messageFilter (Halt_Epoch halt);
  if discard : bool then mret None
  else
    c ← get_st;
    if bool_decide (Halt_Epoch halt ∈ commitFlag c) then mret None
    else
      _ ← commit_epoch (Halt_Epoch halt) (Halt_Leader halt) (Halt_BlockHash halt);
      mret None.

(** ** The main loop *)

Definition no_rest (m : H (option error)) : H (option error * option Thread) :=
  err ← m; mret (err, None).

(** One iteration: verify, then dispatch; the error is logged. *)
Definition dispatch (m : Message) : H (option error * option Thread) :=
  match m with
  | MProposal p => no_rest (handleProposal p)
  | MVote v => no_rest (handleVote v)
  | MDone d => no_rest (handleDone d)
  | MSkipShare s => no_rest (handleSkipShare s)
  | MSkip s => no_rest (handleSkip s)
  | MElectShare s => handleElectShare s
  | MViewChange v => no_rest (handleViewChange v)
  | MHalt h => no_rest (handleHalt h)
  | MNil _ => panic
  end.

Definition handle_msg (m : Message) : H (option error * option Thread) :=
  c ← get_st;
  ok ← lift_outcome (Verify (core_Committee c) m);
  if ok : bool then dispatch m else mret (Some (ErrSignature (MsgType m)), None).

Definition handle (m : Message) : H (option Thread) := '(_, t) ← handle_msg m; mret t.

(** A step on an instance. *)
Definition tstep (t : Thread) : H (option Thread) := fun c =>
  match lookup2 (PBInstances c) (t_epoch t) (t_node t) with
  | None => Panic
  | Some s =>
      match prom_step (Name c) (core_Committee c) (core_SigService c)
              (bool_decide (t_epoch t ∈ SkipFlag c)) (t_pc t) s with
      | Panic => Panic
      | Ret (pc, s', es) =>
          Ret (mkThread (t_epoch t) (t_node t) <$> pc,
               c <| PBInstances := insert2 (t_epoch t) (t_node t) s' (PBInstances c) |>, es)
      end
  end.

(** [Run] up to the loop: the first proposal. *)
Definition Run_start : H unit :=
  c ← get_st;
  block ← generatorBlock (Epoch c);
  proposal ← lift_outcome (NewProposal (core_SigService c) (Name c) (Epoch c) PHASE_ONE_FALG
                             (Some block));
  broadcast (MProposal proposal).

(** [recvCh] is made with 1000 places. *)
Definition chan_cap (ch : nat) : nat := 1000.

Abbreviation node := (Node (Core := Core) (Ev := Message) (Msg := Message) (Thread := Thread)).
Definition node_step := nstep chan_cap handle tstep.
Definition node_run := nrun chan_cap handle tstep.
Definition node_reachable := reachable chan_cap handle tstep.

(** A node that has executed [Run_start]. *)
Definition started (c0 : Core) (n : node) : Prop :=
  exists c es, Run_start c0 = Ret (tt, c, es) /\ n = start c es.

End Core.
