(* ===== verification/VabaSafety.v ===== *)
(** * vaba: safety of a node under every schedule

    The invariant of a running node, in the style of smvba's: handlers and goroutine
    steps keep the invariant of the core and relate the states before and after and
    the effects by [ext].  One thing can crash a node that only gets well-formed
    messages: a view change that claims a commit and names no block. *)

From S2P Require Import Prelude Crypto Committee Store Pool Runtime Quorum Deliver Triple.
From S2P Require Import VabaMessage VabaAggreator VabaCommitor VabaPromote VabaCore.

Open Scope Z_scope.

(** A sent share of an epoch's coin. *)
Definition is_elect (e : Z) (x : effect) : bool :=
  match x with
  | ESend _ _ (MElectShare s) => ElectShare_Epoch s =? e
  | _ => false
  end.
Definition elect_sends (e : Z) (es : list effect) : nat :=
  length (filter (fun x => is_elect e x = true) es).

Lemma elect_sends_app (e : Z) (es1 es2 : list effect) :
  elect_sends e (es1 ++ es2) = (elect_sends e es1 + elect_sends e es2)%nat.
Proof. unfold elect_sends. by rewrite filter_app, length_app. Qed.

Lemma elect_sends_none (e : Z) (es : list effect) :
  Forall (fun x => is_elect e x = false) es -> elect_sends e es = 0%nat.
Proof.
  intros H. unfold elect_sends. induction H as [|x es Hx _ IH]; [done|].
  rewrite filter_cons, Hx. exact IH.
Qed.

(** The shares of an epoch among the sent messages. *)
Definition sent_elects (e : Z) (l : list (NodeID * NodeID * Message)) : nat :=
  length (filter (fun x => is_elect e (ESend x.1.1 x.1.2 x.2) = true) l).

Lemma elect_sends_sends (e : Z) (es : list effect) : elect_sends e es = sent_elects e (sends es).
Proof.
  unfold elect_sends, sent_elects. induction es as [|x es IH]; [done|]. rewrite filter_cons.
  destruct x as [f t m|ch ev|t]; cbn [sends omap list_omap].
  - rewrite filter_cons. cbn [fst snd]. by case_decide; cbn [length]; rewrite IH.
  - rewrite decide_False by done. exact IH.
  - rewrite decide_False by done. exact IH.
Qed.

(** A view change that claims a commit without naming the block. *)
Definition hashless_commit (m : Message) : Prop :=
  exists v, m = MViewChange v /\ ViewChange_IsCommit v = true /\ ViewChange_BlockHash v = None.

Section Safety.
Context {E : Ed25519} {K : Kyber} {db : Type} `{HDB : DB db} {GB : GobBlock}.
Context `{!Ed25519Laws E} `{!KyberLaws K}.
Context (st : setting).
Context (Hst : setting_ok st).

Abbreviation core := (Core (db := db)).
Abbreviation event_ok := (event_ok (s_com st)).

Definition pool_len (c : core) : nat := length (batchChannel (p_queue (TxPool c))).

Record core_ok (c : core) : Prop := {
  co_name : Name c = s_name st;
  co_com : core_Committee c = s_com st;
  co_srv : core_SigService c = s_srv st;
  co_elector : el_committee (core_Elector c) = s_com st;
  co_epoch : in_int64 (Epoch c);
  co_pb : forall e n s, lookup2 (PBInstances c) e n = Some s ->
    prom_ok (s_com st) e n s /\ in_int64 e
}.

(** A goroutine works on an existing instance that it knows enough about. *)
Definition thread_ok (c : core) (t : Thread) : Prop :=
  exists s, lookup2 (PBInstances c) (t_epoch t) (t_node t) = Some s /\
            pc_ok (s_com st) s (t_pc t).

Definition insts_le (c c' : core) : Prop :=
  forall e n s, lookup2 (PBInstances c) e n = Some s ->
    exists s', lookup2 (PBInstances c') e n = Some s' /\ prom_le s s'.

Definition sent_ok (x : effect) : Prop :=
  match x with
  | ESend f _ m => signed_by (s_name st) (s_com st) f m
  | _ => True
  end.

Definition elect_flag (c : core) (e : Z) : nat := if decide (e ∈ electFlag c) then 1 else 0.

Abbreviation eff_ok := (effect_ok (Msg := Message) event_ok thread_ok).

(** What any step does to the core, with the effects it emits. *)
Record adv (c c' : core) (es : list effect) : Prop := {
  a_insts : insts_le c c';
  a_epoch : Epoch c <= Epoch c';
  a_lock : Lock c <= Lock c';
  a_flag : commitFlag c ⊆ commitFlag c';
  a_view : viewChangeFlag c ⊆ viewChangeFlag c';
  a_eff : Forall (eff_ok c') es;
  a_sent : Forall sent_ok es;
  a_elect : forall e, (elect_sends e es + elect_flag c e)%nat = elect_flag c' e;
  a_commit : commitCh (core_Commitor c) `prefix_of` commitCh (core_Commitor c')
}.

(** One that stays in its epoch and adds at most [k] batches to the pool. *)
Record ext (k : nat) (c c' : core) (es : list effect) : Prop := {
  x_adv : adv c c' es;
  x_epoch : Epoch c' = Epoch c;
  x_flag : commitFlag c' = commitFlag c;
  x_pool : (pool_len c' <= pool_len c + k)%nat
}.

Lemma vaba_insts_le_eq (c c' : core) : PBInstances c' = PBInstances c -> insts_le c c'.
Proof. intros He e n s Hs. rewrite He. eauto using prom_le_refl. Qed.

Lemma vaba_insts_le_trans (c1 c2 c3 : core) : insts_le c1 c2 -> insts_le c2 c3 -> insts_le c1 c3.
Proof.
  intros H1 H2 e n s Hs. destruct (H1 _ _ _ Hs) as (s2 & Hs2 & Hl2).
  destruct (H2 _ _ _ Hs2) as (s3 & Hs3 & Hl3). eauto using prom_le_trans.
Qed.

Lemma vaba_thread_ok_mono (c c' : core) (t : Thread) :
  insts_le c c' -> thread_ok c t -> thread_ok c' t.
Proof.
  intros Hle (s & Hs & Hpc). destruct (Hle _ _ _ Hs) as (s' & Hs' & Hl).
  exists s'. eauto using prom_pc_ok_mono.
Qed.

Lemma adv_refl (c : core) : adv c c [].
Proof. split; try done. by apply vaba_insts_le_eq. Qed.

Lemma vaba_adv_trans (c1 c2 c3 : core) (es1 es2 : list effect) :
  adv c1 c2 es1 -> adv c2 c3 es2 -> adv c1 c3 (es1 ++ es2).
Proof.
  intros [A1 B1 C1 D1 E1 F1 G1 H1 I1] [A2 B2 C2 D2 E2 F2 G2 H2 I2]. split.
  - by eapply vaba_insts_le_trans.
  - lia.
  - lia.
  - by etrans.
  - by etrans.
  - apply Forall_app. split; [|done]. eapply effects_mono; [|done].
    intros t. by apply vaba_thread_ok_mono.
  - by apply Forall_app.
  - intros e. rewrite elect_sends_app, <-H2, <-H1. lia.
  - by etrans.
Qed.

(** ** Specifications of commands *)

(** Room for [k] more batches: two at most ever wait in the pool's channel. *)
Definition room (k : nat) (c : core) : Prop := (pool_len c + k <= 2)%nat.

Abbreviation triple := (Triple.triple core_ok room ext).
Abbreviation safe := (Triple.safe core_ok room ext).

Lemma vaba_ext_refl (c : core) : ext 0 c c [].
Proof. split; [apply adv_refl|done..|lia]. Qed.

#[local] Instance vaba_step_rel : StepRel core_ok room ext.
Proof.
  split; unfold room.
  - apply vaba_ext_refl.
  - intros k1 k2 c1 c2 c3 es1 es2 [A1 B1 C1 D1] [A2 B2 C2 D2].
    split; [by eapply vaba_adv_trans|congruence..|lia].
  - intros k1 k2 c1 c2 es [A B C D]. split; [done..|lia].
  - intros. lia.
  - intros k1 k2 c1 c2 es Hr [_ _ _ D]. lia.
Qed.

(** An update of a field the specifications do not look at. *)
Lemma vaba_safe_modify (f : core -> core) :
  (forall c, Name (f c) = Name c /\ core_Committee (f c) = core_Committee c /\
    core_SigService (f c) = core_SigService c /\
    el_committee (core_Elector (f c)) = el_committee (core_Elector c) /\
    Epoch (f c) = Epoch c /\ PBInstances (f c) = PBInstances c /\
    commitFlag (f c) = commitFlag c /\ TxPool (f c) = TxPool c /\
    electFlag (f c) = electFlag c /\ core_Commitor (f c) = core_Commitor c /\
    Lock c <= Lock (f c) /\ viewChangeFlag c ⊆ viewChangeFlag (f c)) ->
  safe (modify f).
Proof.
  intros H. apply triple_modify. intros c [A1 A2 A3 A4 A5 A6] _.
  destruct (H c) as (H1 & H2 & H3 & H4 & H5 & H6 & H7 & H8 & H9 & H10 & H11 & H12).
  split_and!; [| |done].
  - split; rewrite ?H1, ?H2, ?H3, ?H4, ?H5, ?H6; done.
  - split; [|done..|unfold pool_len; rewrite H8; lia].
    split; unfold elect_flag; rewrite ?H5, ?H7, ?H9, ?H10; try done. by apply vaba_insts_le_eq.
Qed.

Lemma vaba_safe_emit' (x : effect) :
  (forall c, core_ok c -> eff_ok c x /\ sent_ok x) -> (forall e, is_elect e x = false) ->
  safe (emit x).
Proof.
  intros Hx Hd. apply safe_emit. intros c Hc. destruct (Hx c Hc).
  split; [|done..|lia]. split; try done; [by apply vaba_insts_le_eq|by apply Forall_singleton..|].
  intros e. by rewrite elect_sends_none by by apply Forall_singleton.
Qed.

(** ** Messages of the node *)

Definition own (m : Message) : Prop :=
  msg_author m = Some (s_name st) /\ Verify (s_com st) m = Ret true /\ in_int64 (msg_epoch m) /\
  (forall p, m = MProposal p -> proposal_wf (s_com st) p) /\ (forall v, m <> MVote v).

Lemma vaba_own_event (m : Message) : own m -> event_ok m.
Proof using Hst.
  intros (Ha & _ & He & Hp & Hv). split_and!; [|done..|].
  - exists (s_name st). split; [done|]. apply st_member, Hst.
  - intros v ->. by edestruct Hv.
Qed.

Lemma own_signed (m : Message) : own m -> signed_by (s_name st) (s_com st) (s_name st) m.
Proof using Hst. intros (Ha & Hv & _). split_and!; [done|apply st_member, Hst|done]. Qed.

Lemma vaba_safe_to_recvCh (m : Message) : own m -> safe (to_recvCh m).
Proof using Hst. intros Hm. apply vaba_safe_emit'; [|done]. intros c _. split; [by apply vaba_own_event|done]. Qed.

Lemma vaba_safe_Send_all (m : Message) : own m -> (forall s, m <> MElectShare s) -> safe (Send_all m).
Proof using Hst.
  intros Hm Hd. apply safe_get. intros c Hc. rewrite (co_name _ Hc).
  apply vaba_safe_emit'; [split; [done|by apply own_signed]|]. intros e. destruct m; try done.
  by edestruct Hd.
Qed.

Lemma vaba_safe_broadcast (m : Message) : own m -> (forall s, m <> MElectShare s) -> safe (broadcast m).
Proof using Hst. intros. apply safe_bind; [by apply vaba_safe_Send_all|]. intros _. by apply vaba_safe_to_recvCh. Qed.

(** Run a constructor and keep what is known of its message. *)
Ltac own_sign :=
  match goal with
  | |- context [RequestSignature ?srv ?h] =>
      let Hs := fresh "Hs" in let Hv := fresh "Hv" in let sig := fresh "sig" in
      destruct (sign_with_name srv _ _ (st_srv _ Hst) h) as (sig & Hs & Hv); rewrite Hs;
      eexists; split; [reflexivity|]; split_and!; [reflexivity|exact Hv|assumption|try done..]
  end.

Lemma NewProposal_own e b :
  in_int64 e -> exists p, NewProposal (s_srv st) (s_name st) e PHASE_ONE_FALG (Some b) = Ret p /\
    own (MProposal p).
Proof using Hst Ed25519Laws0.
  intros He. unfold NewProposal. own_sign. intros p [= <-]. split_and!; [|done..|by eexists].
  apply st_member, Hst.
Qed.

Lemma NewSkipShare_own e :
  in_int64 e -> exists s, NewSkipShare (s_srv st) (s_name st) e = Ret s /\ own (MSkipShare s).
Proof using Hst Ed25519Laws0. intros He. unfold NewSkipShare. own_sign. Qed.

Lemma NewSkip_own e :
  in_int64 e -> exists s, NewSkip (s_srv st) (s_name st) e = Ret s /\ own (MSkip s).
Proof using Hst Ed25519Laws0. intros He. unfold NewSkip. own_sign. Qed.

Lemma vaba_NewElectShare_own e :
  in_int64 e -> exists s, NewElectShare (s_srv st) (s_name st) e = Ret (Some s) /\
    ElectShare_Epoch s = e /\ own (MElectShare s).
Proof using Hst.
  intros He. unfold NewElectShare, RequestTsSugnature, sig_serve. cbn.
  match goal with |- context [tbls_Sign ?sh ?m] => destruct (st_tbls _ Hst sh m) as [s Hs] end.
  rewrite Hs. cbn. eexists. split; [reflexivity|]. by split_and!.
Qed.

Lemma vaba_NewHalt_own l d e :
  in_int64 e -> exists h, NewHalt (s_srv st) (s_name st) l d e = Ret h /\ own (MHalt h).
Proof using Hst Ed25519Laws0. intros He. unfold NewHalt. own_sign. Qed.

(** ** Helpers of the core *)

Lemma safe_messageFilter (e : Z) : safe (messageFilter e).
Proof. apply safe_gets. Qed.

Lemma safe_StoreBlock (b : option Block) : is_Some b -> safe (StoreBlock b).
Proof.
  intros [b' ->]. unfold StoreBlock. destruct (Block_Encode b'); [|apply safe_ret].
  apply safe_get. intros c _. destruct (Store_Write _ _ _). apply safe_bind; [|intros; apply safe_ret].
  by apply vaba_safe_modify.
Qed.

Lemma safe_GetBlock (d : Digest) : safe (GetBlock d).
Proof.
  unfold GetBlock. apply safe_get. intros c _. destruct (Store_Read _ _) as [? [? err]].
  apply safe_bind; [by apply vaba_safe_modify|]. intros _.
  destruct err as [[]|]; try apply safe_ret. destruct (Block_Decode _); apply safe_ret.
Qed.

(** A change of the pool alone. *)
Lemma vaba_ext_pool (k : nat) (c : core) (p : Pool) :
  (length (batchChannel (p_queue p)) <= pool_len c + k)%nat ->
  core_ok c -> core_ok (c <| TxPool := p |>) /\ ext k c (c <| TxPool := p |>) [].
Proof.
  intros Hl []. split; [by split|]. split; [|done..]. split; try done. by apply vaba_insts_le_eq.
Qed.

Lemma vaba_safe_generatorBlock (e : Z) : safe (generatorBlock e).
Proof.
  intros c Hc Hp _. unfold generatorBlock. wp_steps.
  destruct (pool_get_some (TxPool c)) as [[b p] Hg].
  rewrite Hg. wp_steps. apply pool_get_len in Hg.
  destruct (vaba_ext_pool 0 c p) as [H1 H2]; [unfold pool_len; lia|done|]. by split_and!.
Qed.

Lemma vaba_safe_Commitor_Commit (b : option Block) : is_Some b -> safe (Commitor_Commit b).
Proof.
  intros [b' ->] c Hc Hp _. unfold Commitor_Commit. wp_steps.
  destruct (vaba_Commit_returns (core_Commitor c) b') as [c' Hr]. rewrite Hr. wp_steps.
  pose proof (vaba_Commit_prefix _ _ _ Hr). destruct Hc. split_and!; [by split| |done].
  split; [|done..|unfold pool_len; cbn; lia]. split; try done. by apply vaba_insts_le_eq.
Qed.

(** The instance a lookup returns is in the map. *)
Lemma triple_GetPBInstance (I : core -> Prop) (e : Z) (n : NodeID) :
  in_int64 e ->
  triple 0 I (GetPBInstance e n) (fun s c => lookup2 (PBInstances c) e n = Some s).
Proof.
  intros He c Hc Hp Hi. unfold GetPBInstance. wp_steps.
  destruct (lookup2 (PBInstances c) e n) as [s|] eqn:El; wp_steps.
  - auto using vaba_ext_refl.
  - split_and!; [| |cbn; by autorewrite with nested].
    + destruct Hc as [? ? ? ? ? Hs]. split; try done. cbn. intros e' n' s'.
      rewrite lookup2_insert2. case_decide as Hd; [|by apply Hs].
      destruct Hd as (<- & <-). intros [= <-]. split; [|done]. split; try done. by intros [? ?].
    + split; [|done..|unfold pool_len; cbn; lia]. split; try done. intros e' n' s' Hs'. cbn.
      rewrite lookup2_insert2. case_decide as Hd; [destruct Hd as (<- & <-); congruence|].
      eauto using prom_le_refl.
Qed.

Lemma safe_GetPBInstance (e : Z) (n : NodeID) : in_int64 e -> safe (GetPBInstance e n).
Proof. intros He. eapply triple_conseq; [by apply (triple_GetPBInstance (fun _ => True))|done..]. Qed.

(** Look up an instance and start a goroutine on it. *)
Lemma safe_GetPBInstance_go (e : Z) (n : NodeID) (pc : prom_pc) :
  in_int64 e -> (forall s, pc_ok (s_com st) s pc) ->
  safe (_ ← GetPBInstance e n; _ ← go e n pc; mret (@None error)).
Proof.
  intros He Hpc. apply (triple_bind 0 0 _ _ _ (fun s c => lookup2 (PBInstances c) e n = Some s)).
  { by apply triple_GetPBInstance. }
  intros s c Hc Hp Hs. unfold go. wp_steps. split_and!; [done| |done].
  split; [|done..|lia]. split; try done; [by apply vaba_insts_le_eq| |by apply Forall_singleton].
  apply Forall_singleton. cbn. exists s. split; [exact Hs|]. apply Hpc.
Qed.

(** ** Handlers *)

Lemma safe_handleProposal (p : Proposal) :
  in_int64 (Proposal_Epoch p) -> proposal_wf (s_com st) p -> safe (handleProposal p).
Proof.
  intros He Hp. pose proof Hp as (_ & _ & Hb). unfold handleProposal. apply safe_bind.
  - case_bool; [|apply safe_ret]. apply safe_get. intros c _. case_bool_decide; [|apply safe_ret].
    case_bool; [|apply safe_ret]. by apply vaba_safe_Commitor_Commit, Hb.
  - intros _. apply safe_bind; [apply safe_messageFilter|]. intros [|]; [apply safe_ret|]. cbn zeta.
    case_bool; [|by apply safe_GetPBInstance_go].
    apply safe_bind; [by apply safe_StoreBlock, Hb|]. intros [err|]; [apply safe_ret|].
    apply safe_get. intros c _. case_bool; [apply safe_ret|]. by apply safe_GetPBInstance_go.
Qed.

Lemma safe_handleVote (v : Vote) : in_int64 (Vote_Epoch v) -> vote_wf v -> safe (handleVote v).
Proof.
  intros He Hv. unfold handleVote. apply safe_bind; [apply safe_messageFilter|].
  intros [|]; [apply safe_ret|]. by apply safe_GetPBInstance_go.
Qed.

Lemma vaba_safe_handleDone (d : Done) : in_int64 (Done_Epoch d) -> safe (handleDone d).
Proof using Hst Ed25519Laws0.
  intros He. unfold handleDone. apply safe_bind; [apply safe_messageFilter|].
  intros [|]; [apply safe_ret|]. apply safe_get. intros c Hc.
  destruct (addDoneVote _ _) as [agg [ok err]]. apply safe_bind; [by apply vaba_safe_modify|].
  intros _. destruct err; [apply safe_ret|]. destruct ok; [|apply safe_ret].
  rewrite (co_name _ Hc), (co_srv _ Hc).
  destruct (NewSkipShare_own (Done_Epoch d) He) as (s & Hs & Hown).
  eapply safe_lift; [exact Hs|]. apply safe_bind; [by apply vaba_safe_broadcast|]. intros.
  apply safe_ret.
Qed.

(** The share of an epoch is sent when its flag is not set, and sets it. *)
Lemma safe_invokeElect (e : Z) : in_int64 e -> safe (invokeElect e).
Proof using Hst Ed25519Laws0 KyberLaws0.
  intros He c Hc Hp _. unfold invokeElect, broadcast, Send_all, to_recvCh. wp_steps.
  case_bool_decide as Hf; wp_steps; [auto using vaba_ext_refl|].
  rewrite (co_name _ Hc), (co_srv _ Hc).
  destruct (vaba_NewElectShare_own e He) as (sh & Hsh & Hep & Hown).
  rewrite Hsh. wp_steps. cbn [app share_msg].
  pose proof (co_name _ Hc) as Hn. destruct Hc. split_and!; [by split| |done].
  split; [|done..|unfold pool_len; cbn; lia]. split; try done.
  - by apply vaba_insts_le_eq.
  - repeat apply Forall_cons_2; [done|by apply vaba_own_event|by apply Forall_nil].
  - repeat apply Forall_cons_2; [cbn; rewrite Hn; by apply own_signed|done|by apply Forall_nil].
  - intros e'. unfold elect_flag, elect_sends. rewrite !filter_cons. cbn [is_elect electFlag set_field].
    rewrite Hep. destruct (Z.eqb_spec e e') as [<-|Hne]; cbn [length].
    + rewrite (decide_False (P := e ∈ electFlag c)) by done.
      rewrite (decide_True (P := e ∈ {[e]} ∪ electFlag c)) by set_solver. done.
    + assert (e' ∈ {[e]} ∪ electFlag c <-> e' ∈ electFlag c) as Hiff by set_solver.
      rewrite (decide_ext _ _ _ _ Hiff). done.
Qed.

Lemma safe_skip_epoch (e : Z) : in_int64 e -> safe (skip_epoch e).
Proof using Hst Ed25519Laws0 KyberLaws0.
  intros He. unfold skip_epoch. apply safe_bind; [by apply vaba_safe_modify|]. intros _.
  apply safe_get. intros c Hc. rewrite (co_name _ Hc), (co_srv _ Hc).
  destruct (NewSkip_own e He) as (s & Hs & Hown). eapply safe_lift; [exact Hs|].
  apply safe_bind; [by apply vaba_safe_Send_all|]. intros _. by apply safe_invokeElect.
Qed.

Lemma safe_handleSkipShare (s : SkipShare) : in_int64 (SkipShare_Epoch s) -> safe (handleSkipShare s).
Proof using Hst Ed25519Laws0 KyberLaws0.
  intros He. unfold handleSkipShare. apply safe_bind; [apply safe_messageFilter|].
  intros [|]; [apply safe_ret|]. apply safe_get. intros c Hc.
  destruct (addSkipVote _ _) as [agg [ok err]]. apply safe_bind; [by apply vaba_safe_modify|].
  intros _. destruct err; [apply safe_ret|]. destruct ok; [|apply safe_ret].
  by apply safe_skip_epoch.
Qed.

Lemma safe_handleSkip (s : Skip) : in_int64 (Skip_Epoch s) -> safe (handleSkip s).
Proof using Hst Ed25519Laws0 KyberLaws0.
  intros He. unfold handleSkip. apply safe_bind; [apply safe_messageFilter|].
  intros [|]; [apply safe_ret|]. apply safe_bind; [apply safe_gets|].
  intros [|]; [apply safe_ret|]. by apply safe_skip_epoch.
Qed.

Lemma vaba_safe_set_elector (e' : Elector) :
  el_committee e' = s_com st -> safe (modify (fun c : core => c <| core_Elector := e' |>)).
Proof.
  intros He. apply triple_modify. intros c [] _. split_and!; [by split| |done].
  split; [|done..|unfold pool_len; cbn; lia]. split; try done. by apply vaba_insts_le_eq.
Qed.

(** The goroutine that the election leaves is on an existing instance. *)
Lemma triple_invokeViewChange (e : Z) (leader : NodeID) :
  in_int64 e ->
  triple 0 (fun _ => True) (invokeViewChange e leader)
    (fun t c => forall t', t = Some t' -> thread_ok c t').
Proof.
  intros He. unfold invokeViewChange. apply triple_get. intros c0 Hc0 _.
  case_bool_decide; [by apply triple_ret|].
  apply (triple_bind 0 0 _ _ _ (fun _ _ => True)).
  { apply safe_triple, vaba_safe_modify. intros c. split_and!; try done. cbn. apply union_subseteq_r. }
  intros _. apply (triple_bind 0 0 _ _ _ (fun _ _ => True)).
  { case_bool; [|apply safe_ret]. by apply vaba_safe_modify. }
  intros _. apply (triple_bind 0 0 _ _ _ (fun s c => lookup2 (PBInstances c) e leader = Some s)).
  { by apply triple_GetPBInstance. }
  intros s. apply triple_ret. intros c Hs t' [= <-]. by exists s.
Qed.

Lemma triple_handleElectShare (sh : ElectShare) :
  in_int64 (ElectShare_Epoch sh) ->
  triple 0 (fun _ => True) (handleElectShare sh)
    (fun r c => forall t', r.2 = Some t' -> thread_ok c t').
Proof using Hst KyberLaws0.
  intros He. unfold handleElectShare.
  apply (triple_bind 0 0 _ _ _ (fun _ _ => True)); [apply safe_messageFilter|].
  intros [|]; [by apply triple_ret|]. apply triple_get. intros c Hc _.
  destruct (vaba_AddShareVote_spec (core_Elector c) sh) as (e' & node & Hr & Hcom & _).
  { rewrite (co_elector _ Hc). by eapply committee_pos, st_member. }
  apply (triple_bind 0 0 _ _ _ (fun r _ => r = (e', (node, None)))).
  { eapply triple_lift; [exact Hr|]. by apply triple_ret. }
  intros r. apply triple_pre. intros c1 _ ->.
  apply (triple_bind 0 0 _ _ _ (fun _ _ => True)).
  { apply safe_triple, vaba_safe_set_elector. by rewrite Hcom, (co_elector _ Hc). }
  intros _. case_bool; [by apply triple_ret|].
  apply (triple_bind 0 0 _ _ _ (fun t c => forall t', t = Some t' -> thread_ok c t')).
  { by apply triple_invokeViewChange. }
  intros t. by apply triple_ret.
Qed.

(** ** Output and the next epoch *)

Lemma vaba_triple_returnBatch (e : Z) :
  in_int64 e -> triple 1 (fun _ => True) (returnBatch e) (fun _ _ => True).
Proof.
  intros He. unfold returnBatch. apply triple_get. intros c0 _ _.
  apply (triple_bind 0 1 _ _ _ (fun _ _ => True)); [by apply safe_triple, safe_GetPBInstance|].
  intros s. destruct (prom_BlockHash s) as [h|]; [|apply safe_weaken, safe_ret].
  apply (triple_bind 0 1 _ _ _ (fun _ _ => True)); [apply safe_GetBlock|]. intros [b err].
  destruct err; [apply safe_weaken, safe_ret|]. destruct b as [b|]; [|apply safe_weaken, safe_ret].
  intros c Hc Hp _. wp_steps. unfold PutBatch, txQueue_put. unfold room, pool_len in Hp.
  rewrite bool_decide_true by (unfold batch_cap; lia). cbn. wp_steps.
  match goal with |- core_ok (c <| TxPool := ?p |>) /\ _ => destruct (vaba_ext_pool 1 c p) as [H1 H2] end;
    [cbn; rewrite length_app; cbn; unfold pool_len; lia|done|]. done.
Qed.

Lemma triple_output (e : Z) (h : Digest) :
  in_int64 e -> triple 1 (fun _ => True) (output e h) (fun _ _ => True).
Proof.
  intros He. unfold output. apply (triple_bind 0 1 _ _ _ (fun _ _ => True)); [apply safe_GetBlock|].
  intros [b err]. destruct err; [apply safe_weaken, safe_ret|].
  destruct b as [b|]; [|apply safe_weaken, safe_ret]. cbn zeta.
  apply (triple_bind 0 1 _ _ _ (fun _ _ => True)); [by apply vaba_safe_Commitor_Commit|].
  intros _. apply triple_get. intros c0 _ _. destruct (negb _); [|apply safe_weaken, safe_ret].
  eapply triple_conseq; [by apply vaba_triple_returnBatch|done..].
Qed.

Lemma safe_propose_next (e : Z) (b : Block) (c0 : core) :
  in_int64 e -> core_ok c0 ->
  safe (proposal ← lift_outcome (NewProposal (core_SigService c0) (Name c0) e PHASE_ONE_FALG (Some b));
        _ ← broadcast (MProposal proposal); mret (@None error)).
Proof using Hst Ed25519Laws0.
  intros He Hc. rewrite (co_name _ Hc), (co_srv _ Hc).
  destruct (NewProposal_own e b He) as (p & Hp & Hown). eapply safe_lift; [exact Hp|].
  apply safe_bind; [by apply vaba_safe_broadcast|]. intros. apply safe_ret.
Qed.

(** Batches wait in the channel only when the last epoch is over. *)
Definition pool_inv (c : core) : Prop :=
  (pool_len c <= if decide (last_epoch ∈ commitFlag c) then 1 else 0)%nat.

(** Epochs with an output are over. *)
Definition commit_inv (c : core) : Prop :=
  forall e, e ∈ commitFlag c -> e < Epoch c \/ e = last_epoch.

Record inv (c : core) : Prop := {
  i_core : core_ok c;
  i_pool : pool_inv c;
  i_commit : commit_inv c
}.

Lemma vaba_inv_ext (c c' : core) (es : list effect) : inv c -> core_ok c' -> ext 0 c c' es -> inv c'.
Proof.
  intros [Hc Hp Hh] Hc' [_ He Hf Hl]. split; [done|..].
  - unfold pool_inv in *. rewrite Hf. lia.
  - unfold commit_inv in *. by rewrite He, Hf.
Qed.

Lemma inv_room (c : core) : inv c -> room 1 c.
Proof. intros [_ Hp _]. unfold room, pool_inv in *. case_decide; lia. Qed.

(** From any state of the invariant. *)
Lemma triple_inv {A} (m : M core effect A) (Q : A -> core -> Prop) (c : core) :
  triple 0 (fun _ => True) m Q -> inv c ->
  wp False m c (fun a c' es => inv c' /\ ext 0 c c' es /\ Q a c').
Proof.
  intros Hm Hi. eapply wp_mono; [apply Hm; [by apply i_core| |done]|].
  - pose proof (inv_room _ Hi) as Hr. unfold room in *. lia.
  - intros a c' es (Hc' & Hx & HQ). split_and!; [by eapply vaba_inv_ext|done..].
Qed.

(** [advanceNextEpoch] without a hash takes one batch, and one if one waits. *)
Definition takes (h : option Digest) (c c' : core) (e : Z) : Prop :=
  (pool_len c' <= if decide (h = None /\ Epoch c < e)%Z then pred (pool_len c) else pool_len c)%nat.

Lemma generatorBlock_takes (e : Z) (c : core) :
  core_ok c -> (pool_len c <= 2)%nat ->
  wp False (generatorBlock e) c (fun _ c' es => core_ok c' /\ ext 0 c c' es /\
    (pool_len c' <= pred (pool_len c))%nat).
Proof.
  intros Hc Hp. unfold generatorBlock. wp_steps.
  destruct (pool_get_some (TxPool c)) as [[b p] Hg].
  rewrite Hg. wp_steps.
  assert (length (batchChannel (p_queue p)) <= pred (pool_len c))%nat as Hlen.
  { revert Hg. unfold pool_len, GetBatch, txQueue_get.
    destruct (batchChannel (p_queue (TxPool c))) as [|b0 rest] eqn:Ec.
    - unfold txQueue_make. rewrite Ec. cbn. intros [= <- <-]. cbn. lia.
    - cbn. intros [= <- <-]. cbn. lia. }
  destruct (vaba_ext_pool 0 c p) as [H1 H2]; [lia|done|]. by split_and!.
Qed.

(** The block that is proposed: that of the hash if there is one, or a new one. *)
Lemma next_block_spec (e : Z) (h : option Digest) (c : core) :
  core_ok c -> (pool_len c <= 2)%nat ->
  wp False (match h with
            | None => b ← generatorBlock e; mret (Some b, @None error)
            | Some h =>
                '(b, err) ← GetBlock h;
                match err, b with
                | Some e, _ => mret (None, Some e)
                | None, Some b => mret (Some b, None)
                | None, None => b ← generatorBlock e; mret (Some b, None)
                end
            end) c
    (fun r c' es => core_ok c' /\ ext 0 c c' es /\ (r.2 = None -> is_Some r.1) /\
      (pool_len c' <= if decide (h = None) then pred (pool_len c) else pool_len c)%nat).
Proof.
  intros Hc Hp. destruct h as [h|]; rewrite wp_bind.
  - eapply wp_mono; [apply (safe_GetBlock h c Hc); [unfold room; lia|done]|].
    intros [b err] c1 es1 (Hc1 & Hx1 & _). pose proof (x_pool _ _ _ _ Hx1) as Hp1.
    rewrite decide_False by done.
    destruct err; [wp_steps; rewrite ?app_nil_r; split_and!; [done..|lia]|].
    destruct b; [wp_steps; rewrite ?app_nil_r; split_and!; [done..|by eexists|lia]|].
    rewrite wp_bind. eapply wp_mono; [apply generatorBlock_takes; [done|lia]|].
    intros b c2 es2 (Hc2 & Hx2 & Hp2). wp_steps. rewrite app_nil_r.
    split_and!; [done|by eapply (rel_trans 0 0)|by eexists|lia].
  - eapply wp_mono; [by apply generatorBlock_takes|]. intros b c2 es2 (Hc2 & Hx2 & Hp2).
    wp_steps. rewrite app_nil_r. split_and!; [done..|by eexists|by rewrite decide_True].
Qed.

Lemma vaba_advanceNextEpoch_spec (e : Z) (h : option Digest) (c : core) :
  core_ok c -> in_int64 e -> (pool_len c <= 2)%nat ->
  wp False (advanceNextEpoch e h) c (fun _ c' es => core_ok c' /\ adv c c' es /\
    commitFlag c' = commitFlag c /\ Epoch c' = Z.max (Epoch c) e /\ takes h c c' e).
Proof using Hst Ed25519Laws0.
  intros Hc He Hp. unfold advanceNextEpoch, takes. apply wp_bind, wp_get. cbn beta. case_bool.
  - wp_steps. rewrite decide_False by lia. split_and!; [done|apply adv_refl|done|lia|done].
  - rewrite wp_bind, wp_modify. set (c1 := c <| Epoch := e |>).
    assert (core_ok c1) as Hc1 by (destruct Hc; by split).
    assert (adv c c1 []) as Ha.
    { split; try done; [by apply vaba_insts_le_eq|cbn; lia]. }
    rewrite wp_bind. eapply wp_mono; [by apply (next_block_spec e h c1)|]. cbn beta.
    intros [b err] c2 es2 (Hc2 & Hx2 & Hb & Hp2). cbn [fst snd app] in *.
    assert (wp False (match err with
      | Some e => mret (Some e)
      | None =>
        proposal ← lift_outcome (NewProposal (core_SigService c) (Name c) e PHASE_ONE_FALG b);
        _ ← broadcast (MProposal proposal); mret None
      end) c2 (fun _ c' es => core_ok c' /\ ext 0 c2 c' es)) as Hw.
    { destruct err; [wp_steps; auto using vaba_ext_refl|]. destruct (Hb eq_refl) as [b' ->].
      eapply wp_mono; [apply (safe_propose_next e b' c He Hc c2 Hc2); [|done]|naive_solver].
      unfold room. revert Hp2. change (pool_len c1) with (pool_len c). case_decide; lia. }
    eapply wp_mono; [exact Hw|]. intros _ c3 es3 [Hc3 Hx3].
    pose proof Hx2 as [Ha2 He2 Hf2 _]. pose proof Hx3 as [Ha3 He3 Hf3 Hp3].
    split_and!; [done|by eapply (vaba_adv_trans c c1 c3 []), vaba_adv_trans|by rewrite Hf3, Hf2| |].
    + rewrite He3, He2. cbn. lia.
    + rewrite Nat.add_0_r in Hp3. etrans; [exact Hp3|]. etrans; [exact Hp2|].
      change (pool_len c1) with (pool_len c). repeat case_decide; naive_solver lia.
Qed.

(** The end of an epoch without an output so far. *)
Lemma epoch_end (e : Z) (h : option Digest) (c c1 : core) (es1 : list effect) :
  in_int64 e -> inv c -> Epoch c <= e -> e ∉ commitFlag c -> core_ok c1 -> adv c c1 es1 ->
  Epoch c1 = Epoch c -> commitFlag c1 = {[e]} ∪ commitFlag c ->
  (pool_len c1 <= pool_len c + if decide (h = None) then 1 else 0)%nat ->
  wp False (advanceNextEpoch (int64 (e + 1)) h) c1
    (fun _ c' es => inv c' /\ adv c c' (es1 ++ es) /\ e ∈ commitFlag c').
Proof using Hst Ed25519Laws0 KyberLaws0.
  intros He Hi Hge Hf Hc1 Ha1 Hep Hfl Hpl. pose proof Hi as [Hc Hp Hh].
  pose proof (co_epoch _ Hc) as [Hlo _]. unfold pool_inv in Hp.
  eapply wp_mono; [apply vaba_advanceNextEpoch_spec; [done|apply int64_range|]|].
  { revert Hpl. repeat case_decide; lia. }
  intros _ c2 es2 (Hc2 & Ha2 & Hfl2 & Hep2 & Ht). unfold takes in Ht. rewrite Hep in *.
  assert (e ∈ commitFlag c2) as Hin by (rewrite Hfl2, Hfl; set_solver).
  split_and!; [|by eapply vaba_adv_trans|done]. split; [done|..].
  - unfold pool_inv. rewrite Hfl2, Hfl. destruct (decide (e = last_epoch)) as [->|Hne].
    + rewrite (decide_False (P := last_epoch ∈ commitFlag c)) in Hp by done.
      rewrite (decide_True (P := last_epoch ∈ {[last_epoch]} ∪ _)) by set_solver.
      revert Hpl Ht. repeat case_decide; lia.
    + assert (last_epoch ∈ {[e]} ∪ commitFlag c <-> last_epoch ∈ commitFlag c) as Hiff by set_solver.
      rewrite (decide_ext _ _ _ _ Hiff). rewrite int64_next in Ht by done.
      revert Hpl Ht Hp. destruct (decide (h = None)) as [->|]; repeat case_decide; naive_solver lia.
  - intros e'. rewrite Hfl2, Hfl, Hep2, elem_of_union, elem_of_singleton.
    intros [->|[Hlt|Hlast]%Hh]; [|lia|by right].
    destruct (decide (e = last_epoch)); [by right|]. rewrite int64_next by done. lia.
Qed.

Lemma commit_epoch_spec (e : Z) (leader : NodeID) (h : Digest) (c : core) :
  in_int64 e -> inv c -> Epoch c <= e -> e ∉ commitFlag c ->
  wp False (commit_epoch e leader h) c
    (fun _ c' es => inv c' /\ adv c c' es /\ e ∈ commitFlag c').
Proof using Hst Ed25519Laws0 KyberLaws0.
  intros He Hi Hge Hf. unfold commit_epoch. rewrite wp_bind.
  eapply wp_mono; [apply (triple_output e h He c (i_core _ Hi) (inv_room _ Hi)); done|].
  cbn beta. intros _ c1 es1 (Hc1 & [Ha1 He1 Hf1 Hp1] & _).
  rewrite wp_bind, wp_modify. cbn beta. set (c2 := c1 <| commitFlag := _ |>).
  assert (core_ok c2) as Hc2 by (destruct Hc1; by split).
  assert (adv c1 c2 []) as Ha2.
  { split; try done; [by apply vaba_insts_le_eq|]. cbn. apply union_subseteq_r. }
  rewrite wp_bind, wp_get. cbn beta. rewrite (co_name _ Hc2), (co_srv _ Hc2).
  destruct (vaba_NewHalt_own leader h e He) as (halt & Hh & Hown).
  rewrite wp_bind, wp_lift, Hh. cbn beta iota. rewrite wp_bind.
  assert (safe (Send_all (MHalt halt))) as Hsend by by apply vaba_safe_Send_all.
  eapply wp_mono; [apply (Hsend c2 Hc2)|]; [|done|].
  { pose proof (inv_room _ Hi). unfold room, pool_len in *. cbn. lia. }
  cbn beta. intros _ c3 es3 (Hc3 & [Ha3 He3 Hf3 Hp3] & _). rewrite wp_bind.
  assert (adv c c3 (es1 ++ es3)) as Ha.
  { eapply vaba_adv_trans; [done|]. by eapply (vaba_adv_trans c1 c2 c3 []). }
  eapply wp_mono; [apply (epoch_end e None c c3 (es1 ++ es3)); try done|].
  - by rewrite He3, <-He1.
  - rewrite Hf3. cbn. by rewrite Hf1.
  - rewrite decide_True by done. unfold pool_len in *. cbn in Hp3. lia.
  - cbn beta. intros _ c4 es4 (Hi4 & Ha4 & Hin). rewrite wp_ret. cbn [app].
    rewrite app_nil_r, (assoc_L (++)). done.
Qed.

Lemma empty_epoch_spec (e : Z) (h : option Digest) (c : core) :
  in_int64 e -> inv c -> Epoch c <= e -> e ∉ commitFlag c ->
  wp False (_ ← modify (fun c : core => c <| commitFlag := {[e]} ∪ commitFlag c |>);
            _ ← Commitor_Commit (Some (empty_block e));
            _ ← advanceNextEpoch (int64 (e + 1)) h; mret (@None error)) c
    (fun _ c' es => inv c' /\ adv c c' es).
Proof using Hst Ed25519Laws0 KyberLaws0.
  intros He Hi Hge Hf. rewrite wp_bind, wp_modify. cbn beta. set (c1 := c <| commitFlag := _ |>).
  assert (core_ok c1) as Hc1 by (destruct (i_core _ Hi); by split).
  assert (adv c c1 []) as Ha1.
  { split; try done; [by apply vaba_insts_le_eq|]. cbn. apply union_subseteq_r. }
  assert (safe (Commitor_Commit (Some (empty_block e)))) as Hcom by by apply vaba_safe_Commitor_Commit.
  rewrite wp_bind. eapply wp_mono; [apply (Hcom c1 Hc1); [|done]|].
  { pose proof (inv_room _ Hi). unfold room, pool_len in *. cbn. lia. }
  cbn beta. intros _ c2 es2 (Hc2 & [Ha2 He2 Hf2 Hp2] & _). rewrite wp_bind.
  eapply wp_mono; [apply (epoch_end e h c c2 es2); try done|].
  - by apply (vaba_adv_trans c c1 c2 []).
  - unfold pool_len in *. cbn in Hp2. lia.
  - cbn beta. intros _ c3 es3 (Hi3 & Ha3 & _). rewrite wp_ret. cbn [app].
    by rewrite app_nil_r.
Qed.

Lemma vaba_handleHalt_spec (h : Halt) (c : core) :
  in_int64 (Halt_Epoch h) -> inv c ->
  wp False (handleHalt h) c (fun _ c' es => inv c' /\ adv c c' es).
Proof using Hst Ed25519Laws0 KyberLaws0.
  intros He Hi. unfold handleHalt, messageFilter. rewrite wp_bind, wp_gets. cbn beta.
  destruct (Z.ltb_spec (Halt_Epoch h) (Epoch c)); [rewrite wp_ret; auto using adv_refl|].
  rewrite wp_bind, wp_get. cbn beta. case_bool_decide; [rewrite wp_ret; auto using adv_refl|].
  rewrite wp_bind. eapply wp_mono; [by apply commit_epoch_spec|]. cbn beta.
  intros _ c' es (Hi' & Ha & _). rewrite wp_ret. by rewrite !app_nil_r.
Qed.

Lemma locked_or_empty_spec (v : ViewChange) (cnt : Z) (c : core) :
  in_int64 (ViewChange_Epoch v) -> inv c ->
  ViewChange_Epoch v ∈ commitFlag c \/ Epoch c <= ViewChange_Epoch v ->
  wp False (locked_or_empty v cnt) c (fun _ c' es => inv c' /\ adv c c' es).
Proof using Hst Ed25519Laws0 KyberLaws0.
  intros He Hi Hor. unfold locked_or_empty. cbn zeta. set (e := ViewChange_Epoch v) in *.
  set (f := fun c : core => if ViewChange_IsLock v && (Lock c <=? e) then c <| Lock := e |> else c).
  assert (safe (modify f)) as Hf.
  { apply vaba_safe_modify. intros c0. unfold f. destruct (ViewChange_IsLock v); cbn [andb]; [|done].
    case_bool; [|done]. by split_and!. }
  rewrite wp_bind. eapply wp_mono; [by apply (triple_inv _ _ c Hf)|]. cbn beta.
  intros _ c1 es1 (Hi1 & [Ha1 He1 Hf1 _] & _). rewrite wp_bind, wp_get. cbn beta.
  case_bool_decide as Hin; [rewrite wp_ret; by rewrite !app_nil_r|].
  destruct Hor as [Hor|Hle]; [by rewrite Hf1 in Hin|].
  case_bool; [|rewrite wp_ret; by rewrite !app_nil_r].
  eapply wp_mono; [apply empty_epoch_spec; [done|done|lia|done]|]. cbn beta.
  intros _ c2 es2 [Hi2 Ha2]. split; [done|]. by eapply vaba_adv_trans.
Qed.

(** Only a commit without a hash panics. *)
Lemma handleViewChange_spec (v : ViewChange) (c : core) :
  in_int64 (ViewChange_Epoch v) -> inv c ->
  wp (hashless_commit (MViewChange v)) (handleViewChange v) c (fun _ c' es => inv c' /\ adv c c' es).
Proof using Hst Ed25519Laws0 KyberLaws0.
  intros He Hi. unfold handleViewChange, messageFilter. rewrite wp_bind, wp_gets. cbn beta.
  destruct (Z.ltb_spec (ViewChange_Epoch v) (Epoch c)); [rewrite wp_ret; auto using adv_refl|].
  rewrite wp_bind, wp_get. cbn beta. case_bool_decide as Hf; [rewrite wp_ret; auto using adv_refl|].
  cbn zeta. rewrite wp_bind, wp_modify. cbn beta. set (c1 := c <| viewChangeCnts := _ |>).
  set (cnt := default 0 _ + 1).
  assert (inv c1) as Hi1 by (destruct Hi as [[]]; by split).
  assert (adv c c1 []) as Ha1 by (split; try done; by apply vaba_insts_le_eq).
  assert (forall c2 es2, inv c2 -> adv c1 c2 es2 ->
    ViewChange_Epoch v ∈ commitFlag c2 \/ Epoch c2 <= ViewChange_Epoch v ->
    wp False (locked_or_empty v cnt) c2 (fun _ c' es => inv c' /\ adv c c' (es2 ++ es))) as Hrest.
  { intros c2 es2 Hi2 Ha2 Hor. eapply wp_mono; [by apply locked_or_empty_spec|]. cbn beta.
    intros _ c3 es3 [Hi3 Ha3]. split; [done|]. apply (vaba_adv_trans c c1 c3 []); [done|].
    by eapply vaba_adv_trans. }
  rewrite wp_bind. destruct (ViewChange_IsCommit v) eqn:Ec.
  - destruct (ViewChange_BlockHash v) as [h|] eqn:Eh; [|by exists v].
    apply wp_safe. eapply wp_mono; [by apply (commit_epoch_spec _ (ViewChange_Leader v) h c1)|].
    cbn beta. intros _ c2 es2 (Hi2 & Ha2 & Hin). apply wp_safe. apply Hrest; auto.
  - rewrite wp_ret. apply wp_safe. apply (Hrest c1 []); auto using adv_refl.
Qed.

(** ** The steps of a node *)

(** What a handler leaves: a good core, and a goroutine to run on if any. *)
Definition handled (c : core) (r : option error * option Thread) (c' : core) (es : list effect) : Prop :=
  inv c' /\ adv c c' es /\ (forall t, r.2 = Some t -> thread_ok c' t).

Lemma no_rest_spec (p : Prop) (m : M core effect (option error)) (c : core) :
  wp p m c (fun _ c' es => inv c' /\ adv c c' es) -> wp p (no_rest m) c (handled c).
Proof.
  intros Hm. unfold no_rest. rewrite wp_bind. eapply wp_mono; [exact Hm|]. cbn beta.
  intros err c' es [H1 H2]. rewrite wp_ret. rewrite app_nil_r. by split_and!.
Qed.

Lemma no_rest_safe (m : M core effect (option error)) (c : core) :
  safe m -> inv c -> wp False (no_rest m) c (handled c).
Proof.
  intros Hm Hi. apply no_rest_spec. eapply wp_mono; [by apply (triple_inv _ _ c Hm)|].
  cbn beta. intros _ c' es (Hi' & Hx & _). split; [done|by apply x_adv in Hx].
Qed.

Lemma vaba_dispatch_spec (m : Message) (c : core) :
  event_ok m -> inv c -> wp (hashless_commit m) (dispatch m) c (handled c).
Proof using Hst Ed25519Laws0 KyberLaws0.
  intros ((a & Ha & Hm) & He & Hp & Hv) Hi. destruct m; cbn in *; try done.
  - apply wp_safe, no_rest_safe; [by apply safe_handleProposal, Hp|done].
  - apply wp_safe, no_rest_safe; [by apply safe_handleVote, Hv|done].
  - apply wp_safe, no_rest_safe; [by apply vaba_safe_handleDone|done].
  - apply wp_safe, no_rest_safe; [by apply safe_handleSkipShare|done].
  - apply wp_safe, no_rest_safe; [by apply safe_handleSkip|done].
  - apply wp_safe. eapply wp_mono; [by apply (triple_inv _ _ c (triple_handleElectShare e He))|]. cbn beta.
    intros r c' es (Hi' & Hx & Ht). split_and!; [done|by apply x_adv in Hx|done].
  - by apply no_rest_spec, handleViewChange_spec.
  - by apply no_rest_spec, wp_safe, vaba_handleHalt_spec.
Qed.

Lemma vaba_handle_spec (m : Message) (c : core) :
  event_ok m -> inv c ->
  wp (hashless_commit m) (handle m) c (fun t c' es => inv c' /\ adv c c' es /\
    (forall t', t = Some t' -> thread_ok c' t')).
Proof using Hst Ed25519Laws0 KyberLaws0.
  intros Hm Hinv. unfold handle, handle_msg. rewrite wp_bind, wp_bind, wp_get. cbn beta.
  rewrite wp_bind, wp_lift, (co_com _ (i_core _ Hinv)).
  pose proof Hm as ((a & Ha & Hin) & _).
  destruct (vaba_Verify_member (s_com st) m a (st_keys _ Hst) Ha Hin) as [[|] ->].
  - eapply wp_mono; [by apply vaba_dispatch_spec|]. cbn beta. intros [err t] c' es (H1 & H2 & H3).
    rewrite wp_ret. cbn [app]. by rewrite app_nil_r.
  - rewrite !wp_ret. cbn [app]. split_and!; [done|apply adv_refl|done].
Qed.

(** A goroutine's step: [ext] of the core, and the goroutine goes on knowing
    what it needs. *)
Lemma vaba_tstep_spec (t : Thread) (c : core) :
  core_ok c -> thread_ok c t ->
  wp False (tstep t) c (fun t' c' es => core_ok c' /\ ext 0 c c' es /\
    (forall t'', t' = Some t'' -> thread_ok c' t'')).
Proof using Hst Ed25519Laws0.
  intros Hc (s & Hs & Hpc). unfold wp, tstep. rewrite Hs.
  destruct (co_pb _ Hc _ _ _ Hs) as [Hok Hep].
  rewrite (co_name _ Hc), (co_com _ Hc), (co_srv _ Hc).
  pose proof (prom_step_ok (s_name st) (s_com st) (s_srv st) (bool_decide (t_epoch t ∈ SkipFlag c))
    (st_srv _ Hst) (st_member _ Hst) (t_epoch t) Hep (t_node t) (t_pc t) s Hok Hpc) as Hw.
  unfold wp in Hw. destruct (prom_step _ _ _ _ _ s) as [[[pc s'] es]|]; [|done].
  destruct Hw as (Hok' & Hle & Heff & Hnext). set (c' := c <| PBInstances := _ |>).
  assert (lookup2 (PBInstances c') (t_epoch t) (t_node t) = Some s') as Hl'
    by (cbn; by autorewrite with nested).
  rewrite Forall_forall in Heff.
  split_and!; [|split; [split; try done|done..|unfold pool_len; cbn; lia]|].
  - destruct Hc as [? ? ? ? ? Hsp]. split; try done. intros e n x. cbn. rewrite lookup2_insert2.
    case_decide as Hd; [|by apply Hsp]. destruct Hd as (<- & <-). intros [= <-]. done.
  - intros e n x Hx. cbn. rewrite lookup2_insert2. case_decide as Hd.
    + destruct Hd as (<- & <-). rewrite Hs in Hx. injection Hx as <-. eauto.
    + eauto using prom_le_refl.
  - apply Forall_forall. intros x Hx. specialize (Heff x Hx).
    destruct x as [f to m|ch m|t1]; cbn in *; [done..|].
    destruct Heff as (He1 & He2 & Hp1). unfold thread_ok. rewrite He1, He2. by exists s'.
  - apply Forall_forall. intros x Hx. specialize (Heff x Hx). by destruct x; destruct Heff.
  - intros e. rewrite elect_sends_none; [done|]. apply Forall_forall. intros x Hx.
    specialize (Heff x Hx). destruct x as [f to []|?|]; try done. destruct Heff as [_ Hno].
    by edestruct Hno.
  - intros t'' Ht''. destruct pc as [pc|]; [|done]. injection Ht'' as <-. exists s'. auto.
Qed.

(** The invariant with the history of effects. *)
Definition hist_inv (c : core) (log : list effect) : Prop :=
  inv c /\ (forall e, elect_sends e log = elect_flag c e) /\ Forall sent_ok log.

Lemma vaba_adv_hist (c c' : core) (log es : list effect) :
  hist_inv c log -> inv c' -> adv c c' es -> step_post hist_inv event_ok thread_ok c log c' es.
Proof.
  intros (Hi & Hd & Hs) Hi' Ha. split_and!; [split_and!|by apply (a_eff _ _ _ Ha)|].
  - done.
  - intros e. rewrite elect_sends_app, Hd, <-(a_elect _ _ _ Ha). lia.
  - apply Forall_app. split; [done|]. apply (a_sent _ _ _ Ha).
  - intros t. apply vaba_thread_ok_mono, (a_insts _ _ _ Ha).
Qed.

Lemma vaba_handle_ok (m : Message) (c : core) (log : list effect) :
  event_ok m -> hist_inv c log ->
  wp (hashless_commit m) (handle m) c (fun t' c' es =>
    step_post hist_inv event_ok thread_ok c log c' es /\
    (forall t'', t' = Some t'' -> thread_ok c' t'')).
Proof using Hst Ed25519Laws0 KyberLaws0.
  intros Hm Hh. eapply wp_mono; [apply vaba_handle_spec; [done|apply Hh]|].
  intros t' c' es (Hi & Ha & Ht). split; [by apply vaba_adv_hist|done].
Qed.

Lemma vaba_tstep_ok (t : Thread) (c : core) (log : list effect) :
  thread_ok c t -> hist_inv c log ->
  wp False (tstep t) c (fun t' c' es =>
    step_post hist_inv event_ok thread_ok c log c' es /\
    (forall t'', t' = Some t'' -> thread_ok c' t'')).
Proof using Hst Ed25519Laws0.
  intros Ht Hh. eapply wp_mono; [apply vaba_tstep_spec; [apply Hh|done]|].
  intros t' c' es (Hc & Hx & Hn). split; [|done].
  apply vaba_adv_hist; [done|eapply vaba_inv_ext; [apply Hh|done..]|by apply x_adv in Hx].
Qed.

(** A new node with an empty pool. *)
Definition boot (params : Parameters) (store : Store db) (pool : PoolParams.t) (N Id : Z) : core :=
  NewCore (s_name st) (s_com st) params (s_srv st) store (NewPool pool N Id).

Lemma vaba_boot_inv params store pool N Id : inv (boot params store pool N Id).
Proof.
  split; [split; try done|..].
  - unfold pool_inv. change (pool_len _) with 0%nat. lia.
  - intros e He. cbn in He. by apply elem_of_empty in He.
Qed.

Lemma vaba_boot_started params store pool N Id :
  exists n0, started (boot params store pool N Id) n0 /\
    node_ok hist_inv event_ok thread_ok n0 /\ sent_inv n0.
Proof using Hst Ed25519Laws0.
  set (c0 := boot params store pool N Id).
  pose proof (vaba_boot_inv params store pool N Id) as Hi. fold c0 in Hi.
  assert (safe Run_start) as Hsafe.
  { unfold Run_start. apply safe_get. intros c Hc. apply safe_bind; [apply vaba_safe_generatorBlock|].
    intros b. rewrite (co_name _ Hc), (co_srv _ Hc).
    destruct (NewProposal_own (Epoch c) b (co_epoch _ Hc)) as (p & Hp & Hown).
    eapply safe_lift; [exact Hp|]. by apply vaba_safe_broadcast. }
  pose proof (triple_inv _ _ c0 Hsafe Hi) as Hadv. unfold wp in Hadv.
  destruct (Run_start c0) as [[[[] c] es]|] eqn:Er; [|done]. destruct Hadv as (Hic & [Ha _ _ _] & _).
  exists (start c es). split_and!; [by exists c, es| |apply start_sent].
  apply start_ok; [|by apply (a_eff _ _ _ Ha)]. split_and!; [done| |by apply (a_sent _ _ _ Ha)].
  intros e. rewrite <-(a_elect _ _ _ Ha). unfold elect_flag at 1.
  rewrite decide_False by apply not_elem_of_empty. lia.
Qed.

Lemma vaba_started_unique c0 n1 n2 : started (db := db) c0 n1 -> started c0 n2 -> n1 = n2.
Proof. intros (c & es & H1 & ->) (c' & es' & H2 & ->). congruence. Qed.

Lemma vaba_reachable_ok params store pool N Id n0 n :
  started (boot params store pool N Id) n0 -> node_reachable event_ok n0 n ->
  node_ok hist_inv event_ok thread_ok n0 /\ node_ok hist_inv event_ok thread_ok n /\ sent_inv n.
Proof using Hst Ed25519Laws0 KyberLaws0.
  intros H0 Hr. destruct (vaba_boot_started params store pool N Id) as (n1 & H1 & Hok & Hsent).
  rewrite <-(vaba_started_unique _ _ _ H0 H1) in *. split_and!; [done| |by eapply reachable_sent].
  eapply node_invariant; [apply vaba_handle_ok|apply vaba_tstep_ok| |exact Hok|exact Hr]. done.
Qed.

End Safety.

(** ** Theorems on every reachable state *)

Section Theorems.
Context {E : Ed25519} {K : Kyber} {db : Type} `{HDB : DB db} {GB : GobBlock}.
Context `{!Ed25519Laws E} `{!KyberLaws K}.

(** C4. A correctly configured node starts, and from then on there is one way to crash
    it, whatever well-formed messages arrive and however the main loop and the
    goroutines are interleaved: the main loop handles a view change that claims a
    commit and names no block.  In particular no goroutine ever panics, and no step
    blocks for ever on the batch channel. *)
Theorem vaba_crash_cause (st : setting) (params : Parameters) (store : Store db)
    (pool : PoolParams.t) (N Id : Z) :
  setting_ok st ->
  exists n0, started (boot st params store pool N Id) n0 /\
    forall n ch, node_reachable (event_ok (s_com st)) n0 n ->
      allowed (event_ok (s_com st)) ch -> node_step ch n = Crash ->
      exists k v rest, ch = CHandle k /\ n_main n = [] /\ n_cont n = None /\
        chan n k = MViewChange v :: rest /\
        ViewChange_IsCommit v = true /\ ViewChange_BlockHash v = None.
Proof.
  intros Hst. destruct (vaba_boot_started st Hst params store pool N Id) as (n0 & H0 & Hok & _).
  exists n0. split; [done|]. intros n ch Hr Hch Hcr.
  destruct (node_crash_cause _ _ _ _ _ _ _ (fun _ => hashless_commit) (vaba_handle_ok st Hst) (vaba_tstep_ok st Hst)
    (fun _ H => H) n0 n ch Hok Hr Hch Hcr) as (k & m & rest & -> & Hm & Hk & Hc & v & -> & Hv).
  exists k, v, rest. naive_solver.
Qed.

(** C11. In every reachable state, under every interleaving: a message the node has sent
    in its own name verifies; it has sent at most one share of the coin per epoch, and
    recorded that it did; a promote instance with its key, lock or commit flag set has
    a block hash; an epoch with an output is below the node's epoch. *)
Theorem vaba_node_invariant (st : setting) (params : Parameters) (store : Store db)
    (pool : PoolParams.t) (N Id : Z) n0 n :
  setting_ok st -> started (boot st params store pool N Id) n0 ->
  node_reachable (event_ok (s_com st)) n0 n ->
  (forall t m, (s_name st, t, m) ∈ n_sent n -> Verify (s_com st) m = Ret true) /\
  (forall e, (sent_elects e (n_sent n) <= 1)%nat /\
     ((sent_elects e (n_sent n) = 1)%nat -> e ∈ electFlag (n_core n))) /\
  (forall e p s, lookup2 (PBInstances (n_core n)) e p = Some s ->
     IsKey s || IsLock s || IsCommit s = true -> is_Some (prom_BlockHash s)) /\
  (forall e, e ∈ commitFlag (n_core n) -> e < Epoch (n_core n) \/ e = last_epoch).
Proof.
  intros Hst H0 Hr. destruct (vaba_reachable_ok st Hst _ _ _ _ _ _ _ H0 Hr) as (_ & Hok & Hsent).
  destruct Hok as (([Hc _ Hh] & Hd & Hlog) & _). split_and!; [| | |exact Hh].
  - intros t m Hin. eapply sent_in_log in Hin; [|exact Hsent].
    rewrite Forall_forall in Hlog. destruct (Hlog _ Hin) as (_ & _ & Hv). by apply Hv.
  - intros e. specialize (Hd e).
    assert (sent_elects e (n_sent n) <= elect_sends e (n_log n))%nat as Hle.
    { rewrite elect_sends_sends. unfold sent_inv in Hsent. unfold sent_elects. rewrite Hsent.
      rewrite filter_app, length_app. lia. }
    unfold elect_flag in Hd. case_decide; split; try lia; done.
  - intros e p s Hs Hf. destruct (co_pb _ _ Hc _ _ _ Hs) as [Hs' _]. by apply (po_flags _ _ _ _ Hs').
Qed.

(** No step takes anything back: the epoch and the lock do not decrease, epochs
    with an output keep it, a set flag of a promote instance stays set, and the
    delivered sequence of blocks only grows at its end. *)
Theorem vaba_step_monotone (st : setting) (params : Parameters) (store : Store db)
    (pool : PoolParams.t) (N Id : Z) n0 n n' ch :
  setting_ok st -> started (boot st params store pool N Id) n0 ->
  node_reachable (event_ok (s_com st)) n0 n -> node_step ch n = Next n' ->
  Epoch (n_core n) <= Epoch (n_core n') /\ Lock (n_core n) <= Lock (n_core n') /\
  commitFlag (n_core n) ⊆ commitFlag (n_core n') /\
  commitCh (core_Commitor (n_core n)) `prefix_of` commitCh (core_Commitor (n_core n')) /\
  (forall e p s, lookup2 (PBInstances (n_core n)) e p = Some s ->
     exists s', lookup2 (PBInstances (n_core n')) e p = Some s' /\
       (IsKey s = true -> IsKey s' = true) /\ (IsLock s = true -> IsLock s' = true) /\
       (IsCommit s = true -> IsCommit s' = true)).
Proof.
  intros Hst H0 Hr Hs. destruct (vaba_reachable_ok st Hst _ _ _ _ _ _ _ H0 Hr) as (_ & Hok & _).
  pose proof Hok as ((Hi & _) & _).
  assert (exists es, adv st (n_core n) (n_core n') es) as [es [A1 A2 A3 A4 _ _ _ _ A9]].
  { destruct (nstep_core _ _ _ _ _ _ _ _ _ Hok Hs) as [->|[(m & u & es & Hm & Hh)|(t & t' & es & Ht & Hh)]].
    - eexists. apply adv_refl.
    - pose proof (vaba_handle_spec st Hst m _ Hm Hi) as Hw. unfold wp in Hw. rewrite Hh in Hw.
      destruct Hw as (_ & Ha & _). eauto.
    - pose proof (vaba_tstep_spec st Hst t _ (i_core _ _ Hi) Ht) as Hw. unfold wp in Hw. rewrite Hh in Hw.
      destruct Hw as (_ & [Ha _ _ _] & _). eauto. }
  split_and!; [done..|]. intros e p s Hp. destruct (A1 _ _ _ Hp) as (s' & Hs' & _ & Hle).
  eauto.
Qed.

End Theorems.

(** ** Witnesses *)

Section Witness.
Import ToyCrypto ToyNode ToyGob.

(** Node 1 of four, on an empty in-memory database. *)
Definition toy_core : Core (db := gmap bytes bytes) :=
  boot toy_setting DefaultParameters (NewStore ∅) toy_pool 4 1.

Definition toy_start : Node :=
  match Run_start toy_core with
  | Ret (_, c, es) => start c es
  | Panic => start toy_core []
  end.

Lemma vaba_toy_started : started toy_core toy_start.
Proof.
  assert (match Run_start toy_core with Ret _ => true | Panic => false end = true) as Hr
    by (vm_compute; reflexivity).
  unfold started, toy_start. by destruct (Run_start toy_core) as [[[[] c] es]|]; [eauto|].
Qed.

Lemma vaba_crash_cause_witness :
  exists n0, started toy_core n0 /\
    forall n ch, node_reachable (event_ok (toy_committee 4)) n0 n ->
      allowed (event_ok (toy_committee 4)) ch -> node_step ch n = Crash ->
      exists k v rest, ch = CHandle k /\ n_main n = [] /\ n_cont n = None /\
        chan n k = MViewChange v :: rest /\
        ViewChange_IsCommit v = true /\ ViewChange_BlockHash v = None.
Proof. apply (vaba_crash_cause toy_setting). exact toy_setting_ok. Defined.

(** The first message of the node: its proposal for epoch 0. *)
Definition toy_next : Node :=
  match node_step CMain toy_start with Next n => n | _ => toy_start end.
Lemma vaba_toy_next_reachable : node_reachable (event_ok (toy_committee 4)) toy_start toy_next.
Proof.
  eapply reach_step; [apply reach_init|]. exists CMain. split; [done|].
  assert (is_next (node_step CMain toy_start) = true) as Hr by (vm_compute; reflexivity).
  unfold toy_next. change (nstep chan_cap handle tstep) with (node_step (E := toy_ed25519)
    (K := toy_kyber) (db := gmap bytes bytes)).
  by destruct (node_step CMain toy_start).
Qed.

Lemma vaba_node_invariant_witness :
  (forall t m, (1, t, m) ∈ n_sent toy_next -> Verify (toy_committee 4) m = Ret true) /\
  (forall e, (sent_elects e (n_sent toy_next) <= 1)%nat /\
     ((sent_elects e (n_sent toy_next) = 1)%nat -> e ∈ electFlag (n_core toy_next))) /\
  (forall e p s, lookup2 (PBInstances (n_core toy_next)) e p = Some s ->
     IsKey s || IsLock s || IsCommit s = true -> is_Some (prom_BlockHash s)) /\
  (forall e, e ∈ commitFlag (n_core toy_next) -> e < Epoch (n_core toy_next) \/ e = last_epoch).
Proof.
  exact (vaba_node_invariant toy_setting DefaultParameters (NewStore ∅) toy_pool
    4 1 toy_start toy_next toy_setting_ok vaba_toy_started vaba_toy_next_reachable).
Defined.

Lemma vaba_step_monotone_witness :
  exists n', node_step CMain toy_next = Next n' /\
  Epoch (n_core toy_next) <= Epoch (n_core n') /\ Lock (n_core toy_next) <= Lock (n_core n').
Proof.
  assert (is_next (node_step CMain toy_next) = true) as Hr by (vm_compute; reflexivity).
  destruct (node_step CMain toy_next) as [n'| |] eqn:Es; [|discriminate..]. exists n'. split; [reflexivity|].
  destruct (vaba_step_monotone toy_setting DefaultParameters (NewStore ∅) toy_pool 4 1 toy_start
    toy_next n' CMain toy_setting_ok vaba_toy_started vaba_toy_next_reachable Es) as (H1 & H2 & _).
  exact (conj H1 H2).
Defined.

End Witness.
