(* ===== verification/VabaBehaviour.v ===== *)
(** * vaba: what the handlers do, case by case

    The output of an epoch, by a halt and by view changes, and the behaviours of the
    code that break what the protocol promises: the order of view changes decides
    what is delivered, a block that arrives late is lost, and one message, or a race
    between correct nodes, crashes a node. *)

From S2P Require Import Prelude GoStd Crypto Committee Store Pool Runtime Quorum Deliver Triple.
From S2P Require Import VabaMessage VabaAggreator VabaCommitor VabaPromote VabaCore VabaSafety.

Open Scope Z_scope.

Section Behaviour.
Context {E : Ed25519} {K : Kyber} {db : Type} `{HDB : DB db} {GB : GobBlock}.

Abbreviation core := (Core (db := db)).

(** ** Reading blocks *)

(** What [GetBlock] returns for a digest, given the database. *)
Definition block_at (d : db) (digest : Digest) : option Block * option error :=
  match db_Get d digest with
  | (_, Some ErrNotFoundKey) => (None, None)
  | (_, Some e) => (None, Some e)
  | (value, None) =>
      match Block_Decode value with
      | None => (None, Some ErrExternal)
      | Some b => (Some b, None)
      end
  end.

(** No request waits at the store: the core is its only client. *)
Definition store_idle (c : core) (d : db) : Prop := core_Store c = mkStore d [].

Lemma wp_GetBlock p (c : core) (d : db) (digest : Digest) Q :
  store_idle c d -> wp p (GetBlock digest) c Q <-> Q (block_at d digest) c [].
Proof.
  intros Hs. destruct c. unfold store_idle in Hs. cbn in Hs. subst.
  unfold wp, GetBlock, mbind, M_bind, get_st, modify. cbn [core_Store]. rewrite Store_Read_idle.
  unfold block_at. destruct (db_Get d digest) as [v err].
  destruct err as [[]|]; try done. by destruct (Block_Decode v).
Qed.

(** ** Output of an epoch *)

(** Fields that returning a batch to the pool does not touch. *)
Record same_output (c c' : core) : Prop := {
  so_name : Name c' = Name c;
  so_com : core_Committee c' = core_Committee c;
  so_srv : core_SigService c' = core_SigService c;
  so_elector : core_Elector c' = core_Elector c;
  so_commitor : core_Commitor c' = core_Commitor c;
  so_flag : commitFlag c' = commitFlag c;
  so_ep : Epoch c' = Epoch c;
  so_store : core_Store c' = core_Store c;
  so_pool : (pool_len c' <= S (pool_len c))%nat
}.

Lemma same_output_refl (c : core) : same_output c c.
Proof. split; try done. lia. Qed.

Lemma wp_GetPBInstance (c : core) (e : Z) (n : NodeID) Q :
  (forall s c', same_output c c' -> TxPool c' = TxPool c -> Q s c' []) ->
  wp False (GetPBInstance e n) c Q.
Proof.
  intros HQ. unfold GetPBInstance. wp_steps. destruct (lookup2 _ _ _); wp_steps.
  - apply HQ; [|done]. apply same_output_refl.
  - apply HQ; [|done]. split; try done. unfold pool_len. cbn. lia.
Qed.

Lemma vaba_wp_returnBatch (c : core) (d : db) (e : Z) :
  store_idle c d -> (pool_len c < batch_cap)%nat ->
  wp False (returnBatch e) c (fun _ c' es => same_output c c' /\ es = []).
Proof.
  intros Hs Hp. unfold returnBatch. rewrite wp_bind, wp_get. cbn beta.
  rewrite wp_bind. apply wp_GetPBInstance. intros s c1 H1 Hpool.
  destruct (prom_BlockHash s) as [h|]; [|by wp_steps].
  rewrite wp_bind, (wp_GetBlock _ c1 d) by (unfold store_idle in *; by rewrite (so_store _ _ H1)).
  destruct (block_at d h) as [[b|] [err|]]; wp_steps; try done.
  unfold PutBatch, txQueue_put. rewrite Hpool.
  rewrite bool_decide_true by (unfold pool_len in Hp; done). cbn. wp_steps. split; [|done].
  destruct H1. split; try done. unfold pool_len. cbn. rewrite length_app. cbn. lia.
Qed.

(** A node proposes a new block of its own for an epoch: one broadcast. *)
Definition proposes (c : core) (e : Z) (es : list effect) : Prop :=
  exists p b, es = [ESend (Name c) NONE (MProposal p); to_self (MProposal p)] /\
    Proposal_Author p = Name c /\ Proposal_B p = Some b /\ Proposal_Epoch p = e /\
    Proposal_Phase p = PHASE_ONE_FALG /\ Proposer b = Name c /\ Block_Epoch b = e.

Lemma vaba_wp_advanceNextEpoch (c : core) (e : Z) :
  length (Prikey (PriKey (core_SigService c))) = 64%nat -> (pool_len c <= 2)%nat ->
  Epoch c < e ->
  wp False (advanceNextEpoch e None) c (fun _ c' es =>
    core_Commitor c' = core_Commitor c /\ commitFlag c' = commitFlag c /\
    core_Elector c' = core_Elector c /\ Epoch c' = e /\ proposes c e es).
Proof.
  intros Hk Hp He. unfold advanceNextEpoch. rewrite wp_bind, wp_get. cbn beta.
  rewrite (proj2 (Z.leb_gt _ _)) by lia. rewrite wp_bind, wp_modify. cbn beta.
  unfold generatorBlock. rewrite !wp_bind, wp_get. cbn beta.
  destruct (pool_get_some (TxPool (c <| Epoch := e |>))) as [[b p] Hg].
  rewrite Hg. unfold NewProposal, broadcast, Send_all, to_recvCh. wp_steps.
  rewrite RequestSignature_ok by done. cbn [mbind Outcome_bind mret Outcome_ret]. wp_steps.
  split_and!; try done. eexists _, _. split_and!; done.
Qed.

(** The block of a hash, if the store has it. *)
Definition found (d : db) (h : Digest) : option Block :=
  match block_at d h with (Some b, None) => Some b | _ => None end.

(** As the block of an epoch. *)
Definition for_epoch (e : Z) (b : Block) : Block := mkBlock (Proposer b) (Block_Batch b) e.

(** What the committor is after the output: unchanged when the block is missing. *)
Definition outputs (c c' : core) (e : Z) (b : option Block) : Prop :=
  match b with
  | Some b => Ret (core_Commitor c') = Commit (core_Commitor c) (Some (for_epoch e b))
  | None => core_Commitor c' = core_Commitor c
  end.

Lemma wp_output (c : core) (d : db) (e : Z) (h : Digest) :
  store_idle c d -> (pool_len c <= 1)%nat ->
  wp False (output e h) c (fun _ c' es => es = [] /\ outputs c c' e (found d h) /\
    Name c' = Name c /\ core_SigService c' = core_SigService c /\
    core_Elector c' = core_Elector c /\ commitFlag c' = commitFlag c /\ Epoch c' = Epoch c /\
    (pool_len c' <= S (pool_len c))%nat).
Proof.
  intros Hs Hp. unfold output, found. rewrite wp_bind, (wp_GetBlock _ _ d) by done.
  destruct (block_at d h) as [[b|] [err|]]; cbn beta iota; try (wp_steps; split_and!; [done..|lia]).
  cbn zeta. unfold Commitor_Commit. rewrite wp_bind, wp_bind, wp_get. cbn beta.
  rewrite wp_bind, wp_lift.
  destruct (vaba_Commit_returns (core_Commitor c) (for_epoch e b)) as [cm Hcm].
  unfold outputs. fold (for_epoch e b). rewrite Hcm. rewrite wp_modify, wp_bind, wp_get. cbn beta.
  set (c1 := c <| core_Commitor := cm |>).
  assert (wp False (if negb (Proposer (for_epoch e b) =? Name c1) then returnBatch e else mret tt)
    c1 (fun _ c' es => same_output c1 c' /\ es = [])) as Hret.
  { case_match; [|wp_steps; by split; [apply same_output_refl|]].
    apply (vaba_wp_returnBatch c1 d); [done|]. unfold pool_len, batch_cap in *. cbn. lia. }
  eapply wp_mono; [exact Hret|]. intros _ c2 es2 [[] ->]. split_and!; try done. by f_equal.
Qed.

(** The first halt of an epoch, or a view change with a commit. *)
Lemma wp_commit_epoch (c : core) (d : db) (e : Z) (leader : NodeID) (h : Digest) :
  length (Prikey (PriKey (core_SigService c))) = 64%nat ->
  store_idle c d -> (pool_len c <= 1)%nat -> - 2 ^ 63 <= Epoch c -> Epoch c <= e < last_epoch ->
  wp False (commit_epoch e leader h) c (fun _ c' es => outputs c c' e (found d h) /\
    commitFlag c' = {[e]} ∪ commitFlag c /\ Epoch c' = e + 1 /\
    core_Elector c' = core_Elector c /\
    exists halt es', es = ESend (Name c) NONE (MHalt halt) :: es' /\ Halt_Author halt = Name c /\
      Halt_Epoch halt = e /\ Halt_Leader halt = leader /\ Halt_BlockHash halt = h /\
      proposes c (e + 1) es').
Proof.
  intros Hk Hs Hp Hlo He. unfold commit_epoch. rewrite wp_bind.
  eapply wp_mono; [by apply (wp_output c d)|]. cbn beta.
  intros _ c1 es1 (-> & Hout & Hn & Hsrv & Hel & Hf & Hep & Hpl).
  rewrite wp_bind, wp_modify, wp_bind, wp_get. cbn beta. set (c2 := c1 <| commitFlag := _ |>).
  rewrite wp_bind, wp_lift. unfold NewHalt.
  rewrite RequestSignature_ok by (change (core_SigService c2) with (core_SigService c1); by rewrite Hsrv).
  cbn [mbind Outcome_bind mret Outcome_ret]. unfold Send_all. rewrite wp_bind, wp_bind, wp_get. cbn beta.
  rewrite wp_emit, wp_bind.
  assert (int64 (e + 1) = e + 1) as ->.
  { apply int64_next; [unfold in_int64, last_epoch in *; lia|lia]. }
  eapply wp_mono; [apply vaba_wp_advanceNextEpoch|].
  - change (core_SigService c2) with (core_SigService c1). by rewrite Hsrv.
  - change (pool_len c2) with (pool_len c1). lia.
  - change (Epoch c2) with (Epoch c1). lia.
  - cbn beta. intros _ c3 es3 (G1 & G2 & G3 & G4 & G5). rewrite wp_ret. cbn [app].
    rewrite app_nil_r. split_and!; [|by rewrite G2; cbn; rewrite Hf|done|by rewrite G3|].
    + revert Hout. unfold outputs. rewrite G1. done.
    + eexists _, es3. rewrite <-Hn at 1. split; [reflexivity|].
      split_and!; try done. revert G5. unfold proposes. change (Name c2) with (Name c1). by rewrite Hn.
Qed.

(** C14. The output of an epoch.  The first Halt of an epoch that is not over hands the
    block it names, if the node has stored it, to the committor, as a block of that
    epoch; the epoch is marked, the node's own Halt with the same leader and hash is
    broadcast, and the node proposes a new block of its own for the next epoch. *)
Theorem vaba_halt_outputs (c : core) (d : db) (h : Halt) :
  length (Prikey (PriKey (core_SigService c))) = 64%nat ->
  store_idle c d -> (pool_len c <= 1)%nat ->
  - 2 ^ 63 <= Epoch c -> Epoch c <= Halt_Epoch h < last_epoch -> Halt_Epoch h ∉ commitFlag c ->
  exists c' halt es, handleHalt h c = Ret (None, c', ESend (Name c) NONE (MHalt halt) :: es) /\
    outputs c c' (Halt_Epoch h) (found d (Halt_BlockHash h)) /\
    commitFlag c' = {[Halt_Epoch h]} ∪ commitFlag c /\ Epoch c' = Halt_Epoch h + 1 /\
    Halt_Author halt = Name c /\ Halt_Epoch halt = Halt_Epoch h /\
    Halt_Leader halt = Halt_Leader h /\ Halt_BlockHash halt = Halt_BlockHash h /\
    proposes c (Halt_Epoch h + 1) es.
Proof.
  intros Hk Hs Hp Hlo He Hf.
  pose proof (wp_commit_epoch c d (Halt_Epoch h) (Halt_Leader h) (Halt_BlockHash h) Hk Hs Hp Hlo He) as Hw.
  unfold handleHalt, messageFilter, wp, mbind, M_bind, gets, get_st in *.
  rewrite (proj2 (Z.ltb_ge _ _)) by lia. rewrite bool_decide_false by done.
  destruct (commit_epoch _ _ _ c) as [[[[] c'] es]|]; [|done]. cbn [app] in *.
  destruct Hw as (H1 & H2 & H3 & _ & halt & es' & -> & H4). exists c', halt, es'.
  cbn. rewrite app_nil_r. naive_solver.
Qed.

(** A block that is missing when its epoch is over is lost.  A Halt that names a
    block the node has not stored ends the epoch without an output, and unless the
    node has itself elected that epoch's leader, the leader's proposal with the block
    is dropped when it arrives: the committor never gets a block of that epoch from a
    proposal. *)
Theorem vaba_late_block_lost (c : core) (d : db) (h : Halt) (p : Proposal) :
  length (Prikey (PriKey (core_SigService c))) = 64%nat ->
  store_idle c d -> (pool_len c <= 1)%nat ->
  - 2 ^ 63 <= Epoch c -> Epoch c <= Halt_Epoch h < last_epoch -> Halt_Epoch h ∉ commitFlag c ->
  found d (Halt_BlockHash h) = None -> Leader (core_Elector c) (Halt_Epoch h) = NONE ->
  Proposal_Epoch p = Halt_Epoch h -> Proposal_Author p <> NONE ->
  exists c' es, handleHalt h c = Ret (None, c', es) /\ core_Commitor c' = core_Commitor c /\
    handleProposal p c' = Ret (None, c', []).
Proof.
  intros Hk Hs Hp Hlo He Hf Hno Hl Hpe Ha.
  pose proof (wp_commit_epoch c d (Halt_Epoch h) (Halt_Leader h) (Halt_BlockHash h) Hk Hs Hp Hlo He) as Hw.
  unfold handleHalt, messageFilter, wp, mbind, M_bind, gets, get_st in *.
  rewrite (proj2 (Z.ltb_ge _ _)) by lia. rewrite bool_decide_false by done.
  destruct (commit_epoch _ _ _ c) as [[[[] c'] es]|]; [|done]. cbn [app] in *.
  rewrite Hno in Hw. destruct Hw as (H1 & H2 & H3 & H4 & _). exists c', (es ++ []).
  split_and!; [done|done|].
  assert (wp False (handleProposal p) c' (fun r c2 es => r = None /\ c2 = c' /\ es = [])) as Hw.
  { unfold handleProposal, messageFilter. rewrite wp_bind.
    assert (forall Q, Q tt c' [] -> wp False (if Proposal_Phase p =? PHASE_ONE_FALG then
      c0 ← get_st;
      if bool_decide (Proposal_Epoch p ∈ commitFlag c0) then
        if Leader (core_Elector c0) (Proposal_Epoch p) =? Proposal_Author p
        then Commitor_Commit (Proposal_B p) else mret tt
      else mret tt else mret tt) c' Q) as Hskip.
    { intros Q HQ. case_bool; wp_steps; [|done]. rewrite Hpe, H4, Hl.
      rewrite (proj2 (Z.eqb_neq NONE (Proposal_Author p))) by done.
      by case_bool; wp_steps. }
    apply Hskip. wp_steps. rewrite Hpe, H3. rewrite (proj2 (Z.ltb_lt _ _)) by lia. by wp_steps. }
  unfold wp in Hw. destruct (handleProposal p c') as [[[r c2] es2]|]; [|done]. naive_solver.
Qed.

(** ** View changes *)

Fixpoint handle_views (vs : list ViewChange) : M core effect unit :=
  match vs with
  | [] => mret tt
  | v :: vs => _ ← handleViewChange v; handle_views vs
  end.

Lemma wp_handle_views_app (vs ws : list ViewChange) (c : core) Q :
  wp False (handle_views (vs ++ ws)) c Q <->
  wp False (handle_views vs) c (fun _ c1 es1 =>
    wp False (handle_views ws) c1 (fun u c2 es2 => Q u c2 (es1 ++ es2))).
Proof.
  revert c Q. induction vs as [|v vs IH]; intros c Q; cbn [app handle_views].
  - rewrite wp_ret. done.
  - rewrite !wp_bind. unfold wp at 1 3. destruct (handleViewChange v c) as [[[r c1] es1]|]; [|done].
    rewrite IH. unfold wp. destruct (handle_views vs c1) as [[[[] c2] es2]|]; [|done].
    destruct (handle_views ws c2) as [[[u c3] es3]|]; [|done]. by rewrite (assoc_L (++)).
Qed.

(** Of epochs that are over nothing happens. *)
Lemma wp_views_over (vs : list ViewChange) (c : core) :
  Forall (fun v => ViewChange_Epoch v < Epoch c) vs ->
  wp False (handle_views vs) c (fun _ c' es => c' = c /\ es = []).
Proof.
  induction 1 as [|v vs Hv _ IH]; cbn [handle_views]; [by rewrite wp_ret|].
  rewrite wp_bind. unfold handleViewChange, messageFilter. rewrite wp_bind, wp_gets. cbn beta.
  rewrite (proj2 (Z.ltb_lt _ _)) by done. rewrite wp_ret. cbn [app]. exact IH.
Qed.

(** Fields that a view change without effect does not touch. *)
Record same_views (c c' : core) : Prop := {
  sv_com : core_Committee c' = core_Committee c;
  sv_srv : core_SigService c' = core_SigService c;
  sv_commitor : core_Commitor c' = core_Commitor c;
  sv_flag : commitFlag c' = commitFlag c;
  sv_ep : Epoch c' = Epoch c;
  sv_store : core_Store c' = core_Store c;
  sv_pool : TxPool c' = TxPool c
}.

Definition view_count (c : core) (e : Z) : Z := default 0 (viewChangeCnts c !! e).

(** Counting a view change without commit, below the threshold or at it. *)
Lemma wp_plain_view (v : ViewChange) (c : core) Q :
  ViewChange_IsCommit v = false -> Epoch c <= ViewChange_Epoch v ->
  ViewChange_Epoch v ∉ commitFlag c ->
  (forall c', same_views c c' ->
     view_count c' (ViewChange_Epoch v) = view_count c (ViewChange_Epoch v) + 1 ->
     if view_count c' (ViewChange_Epoch v) =? HightThreshold (core_Committee c) then
       wp False (_ ← modify (fun c : core => c <| commitFlag := {[ViewChange_Epoch v]} ∪ commitFlag c |>);
                 _ ← Commitor_Commit (Some (empty_block (ViewChange_Epoch v)));
                 _ ← advanceNextEpoch (int64 (ViewChange_Epoch v + 1)) (ViewChange_BlockHash v);
                 mret (@None error)) c' Q
     else Q None c' []) ->
  wp False (handleViewChange v) c Q.
Proof.
  intros Hc He Hf HQ. unfold handleViewChange, messageFilter, locked_or_empty.
  rewrite wp_bind, wp_gets. cbn beta. rewrite (proj2 (Z.ltb_ge _ _)) by lia.
  rewrite wp_bind, wp_get. cbn beta. rewrite bool_decide_false by done. cbn zeta.
  rewrite wp_bind, wp_modify, wp_bind. cbn beta. rewrite Hc, wp_ret. rewrite wp_bind, wp_modify.
  cbn beta. set (c1 := c <| viewChangeCnts := _ |>).
  set (c2 := if ViewChange_IsLock v && _ then _ else c1).
  assert (same_views c c2) as Hsv by (unfold c2; case_match; by split).
  assert (view_count c2 (ViewChange_Epoch v) = view_count c (ViewChange_Epoch v) + 1) as Hcnt.
  { unfold c2, view_count. case_match; cbn; by rewrite lookup_insert_eq. }
  specialize (HQ c2 Hsv Hcnt). rewrite Hcnt in HQ. rewrite wp_bind, wp_get. cbn beta.
  rewrite (sv_flag _ _ Hsv), bool_decide_false by done. rewrite (sv_com _ _ Hsv).
  unfold view_count in HQ. by destruct (_ =? _).
Qed.

Lemma wp_views_below (vs : list ViewChange) (e : Z) (c : core) :
  Forall (fun v => ViewChange_Epoch v = e /\ ViewChange_IsCommit v = false) vs ->
  Epoch c <= e -> e ∉ commitFlag c ->
  view_count c e + Z.of_nat (length vs) < HightThreshold (core_Committee c) ->
  wp False (handle_views vs) c (fun _ c' es => same_views c c' /\ es = [] /\
    view_count c' e = view_count c e + Z.of_nat (length vs)).
Proof.
  intros Hvs. revert c. induction Hvs as [|v vs [Hv Hc] _ IH]; intros c He Hf Hcnt; cbn [handle_views].
  - rewrite wp_ret. split_and!; [done|done|cbn; lia].
  - rewrite wp_bind. apply wp_plain_view; [done|by rewrite Hv..|]. rewrite Hv.
    intros c1 H1 Hc1. cbn [length] in Hcnt. rewrite (proj2 (Z.eqb_neq _ _)) by lia. cbn [app].
    eapply wp_mono; [apply IH|].
    + by rewrite (sv_ep _ _ H1).
    + by rewrite (sv_flag _ _ H1).
    + rewrite (sv_com _ _ H1). lia.
    + intros _ c2 es (H2 & -> & Hc2). destruct H1, H2. split_and!; [split; congruence|done|].
      cbn [length]. lia.
Qed.

(** Whatever is proposed next, the committor stays. *)
Lemma wp_advance_any (c : core) (d : db) (e : Z) (h : option Digest) :
  length (Prikey (PriKey (core_SigService c))) = 64%nat -> store_idle c d -> (pool_len c <= 2)%nat ->
  Epoch c < e ->
  wp False (advanceNextEpoch e h) c (fun _ c' _ =>
    core_Commitor c' = core_Commitor c /\ Epoch c' = e).
Proof.
  intros Hk Hs Hp He. destruct h as [h|].
  2:{ eapply wp_mono; [by apply vaba_wp_advanceNextEpoch|]. naive_solver. }
  unfold advanceNextEpoch. rewrite wp_bind, wp_get. cbn beta.
  rewrite (proj2 (Z.leb_gt _ _)) by lia. rewrite wp_bind, wp_modify. cbn beta.
  rewrite wp_bind, wp_bind, (wp_GetBlock _ _ d) by done.
  unfold NewProposal, broadcast, Send_all, to_recvCh, generatorBlock.
  destruct (block_at d h) as [[b|] [err|]]; cbn beta iota; wp_steps; try done.
  - rewrite RequestSignature_ok by done. cbn [mbind Outcome_bind mret Outcome_ret]. by wp_steps.
  - destruct (pool_get_some (TxPool (c <| Epoch := e |>))) as [[b p] Hg].
    rewrite Hg. wp_steps. rewrite RequestSignature_ok by done.
    cbn [mbind Outcome_bind mret Outcome_ret]. by wp_steps.
Qed.

Lemma next_epoch_id (e lo : Z) : - 2 ^ 63 <= lo -> lo <= e < last_epoch -> int64 (e + 1) = e + 1.
Proof. intros. apply int64_next; unfold in_int64, last_epoch in *; lia. Qed.

(** The [HightThreshold]-th view change without commit. *)
Lemma wp_last_view (v : ViewChange) (c : core) (d : db) :
  length (Prikey (PriKey (core_SigService c))) = 64%nat ->
  store_idle c d -> (pool_len c <= 1)%nat -> - 2 ^ 63 <= Epoch c ->
  Epoch c <= ViewChange_Epoch v < last_epoch -> ViewChange_Epoch v ∉ commitFlag c ->
  Index (core_Commitor c) = ViewChange_Epoch v -> Blocks (core_Commitor c) = ∅ ->
  ViewChange_IsCommit v = false ->
  view_count c (ViewChange_Epoch v) + 1 = HightThreshold (core_Committee c) ->
  wp False (handleViewChange v) c (fun _ c' _ => Epoch c' = ViewChange_Epoch v + 1 /\
    commitCh (core_Commitor c') = commitCh (core_Commitor c) ++ [empty_block (ViewChange_Epoch v)]).
Proof.
  intros Hk Hs Hp Hlo He Hf Hidx Hbl Hc Hcnt. apply wp_plain_view; [done|lia|done|].
  intros c1 Hsv Hc1. rewrite (proj2 (Z.eqb_eq _ _)) by lia. rewrite wp_bind, wp_modify, wp_bind.
  unfold Commitor_Commit. rewrite wp_bind, wp_get. cbn beta. rewrite wp_bind, wp_lift.
  cbn [core_Commitor set_field]. rewrite (sv_commitor _ _ Hsv).
  destruct (vaba_Commit_returns (core_Commitor c) (empty_block (ViewChange_Epoch v))) as [cm Hcm].
  rewrite Hcm. rewrite wp_modify, wp_bind. rewrite (next_epoch_id _ _ Hlo He).
  eapply wp_mono; [apply (wp_advance_any _ d)|].
  - cbn. by rewrite (sv_srv _ _ Hsv).
  - unfold store_idle. cbn. by rewrite (sv_store _ _ Hsv).
  - unfold pool_len in *. cbn. rewrite (sv_pool _ _ Hsv). lia.
  - cbn. rewrite (sv_ep _ _ Hsv). lia.
  - cbn beta. intros _ c2 es2 [H1 H2]. rewrite wp_ret. split; [done|]. rewrite H1. cbn.
    by eapply (vaba_Commit_next _ _ (empty_block (ViewChange_Epoch v))).
Qed.

Lemma wp_commit_view (v : ViewChange) (c : core) (d : db) (h : Digest) (b : Block) :
  length (Prikey (PriKey (core_SigService c))) = 64%nat ->
  store_idle c d -> (pool_len c <= 1)%nat -> - 2 ^ 63 <= Epoch c ->
  Epoch c <= ViewChange_Epoch v < last_epoch -> ViewChange_Epoch v ∉ commitFlag c ->
  Index (core_Commitor c) = ViewChange_Epoch v -> Blocks (core_Commitor c) = ∅ ->
  ViewChange_IsCommit v = true -> ViewChange_BlockHash v = Some h -> found d h = Some b ->
  wp False (handleViewChange v) c (fun _ c' _ => Epoch c' = ViewChange_Epoch v + 1 /\
    commitCh (core_Commitor c') = commitCh (core_Commitor c) ++ [for_epoch (ViewChange_Epoch v) b]).
Proof.
  intros Hk Hs Hp Hlo He Hf Hidx Hbl Hc Hh Hb.
  unfold handleViewChange, messageFilter, locked_or_empty. rewrite wp_bind, wp_gets. cbn beta.
  rewrite (proj2 (Z.ltb_ge _ _)) by lia. rewrite wp_bind, wp_get. cbn beta.
  rewrite bool_decide_false by done. cbn zeta. rewrite wp_bind, wp_modify, wp_bind. cbn beta.
  rewrite Hc, Hh. eapply wp_mono; [by apply (wp_commit_epoch _ d)|]. cbn beta.
  intros _ c1 es1 (H1 & H2 & H3 & _). rewrite Hb in H1. unfold outputs in H1.
  cbn [core_Commitor set_field] in H1. rewrite wp_bind, wp_modify. cbn beta.
  set (c2 := if _ && _ then _ else c1).
  assert (commitFlag c2 = commitFlag c1 /\ core_Commitor c2 = core_Commitor c1 /\
    Epoch c2 = Epoch c1) as (G1 & G2 & G3) by (unfold c2; by case_match).
  rewrite wp_bind, wp_get. cbn beta. rewrite bool_decide_true.
  - rewrite wp_ret. split; [by rewrite G3|]. rewrite G2.
    by eapply (vaba_Commit_next _ _ (for_epoch (ViewChange_Epoch v) b)).
  - rewrite G1, H2. apply elem_of_union_l, elem_of_singleton_2. done.
Qed.

(** C35. What is delivered depends on the order in which view changes arrive.  From one
    state of a node at epoch [e], a quorum of view changes without commit followed by
    one with a commit delivers the empty block, and the same messages with the commit
    first deliver the committed block: two correct nodes that get the same view
    changes in different orders deliver different blocks for the epoch. *)
Theorem vaba_view_change_order (c : core) (d : db) (e : Z) (vs : list ViewChange)
    (v : ViewChange) (h : Digest) (b : Block) :
  length (Prikey (PriKey (core_SigService c))) = 64%nat ->
  store_idle c d -> (pool_len c <= 1)%nat -> - 2 ^ 63 <= Epoch c -> Epoch c <= e < last_epoch ->
  e ∉ commitFlag c -> viewChangeCnts c !! e = None ->
  Index (core_Commitor c) = e -> Blocks (core_Commitor c) = ∅ ->
  Forall (fun v => ViewChange_Epoch v = e /\ ViewChange_IsCommit v = false) vs ->
  Z.of_nat (length vs) = HightThreshold (core_Committee c) ->
  ViewChange_Epoch v = e -> ViewChange_IsCommit v = true -> ViewChange_BlockHash v = Some h ->
  found d h = Some b ->
  exists c1 es1 c2 es2,
    handle_views (vs ++ [v]) c = Ret (tt, c1, es1) /\ handle_views (v :: vs) c = Ret (tt, c2, es2) /\
    commitCh (core_Commitor c1) = commitCh (core_Commitor c) ++ [empty_block e] /\
    commitCh (core_Commitor c2) = commitCh (core_Commitor c) ++ [for_epoch e b].
Proof.
  intros Hk Hs Hp Hlo He Hf Hcnt Hidx Hbl Hvs Hlen Hv Hvc Hvh Hb.
  assert (wp False (handle_views (vs ++ [v])) c (fun _ c1 _ =>
    commitCh (core_Commitor c1) = commitCh (core_Commitor c) ++ [empty_block e])) as H1.
  { destruct (exists_last (l := vs)) as (ws & w & ->).
    { intros ->. pose proof (thresholds_pos (core_Committee c)). cbn in Hlen. lia. }
    rewrite length_app in Hlen. cbn in Hlen. apply Forall_app in Hvs as [Hws Hw].
    apply Forall_cons in Hw as [Hw _]. destruct Hw as [Hwe Hwc]. assert (view_count c e = 0) as Hc0 by (unfold view_count; by rewrite Hcnt).
    rewrite <-(assoc_L (++)), wp_handle_views_app.
    eapply wp_mono; [apply (wp_views_below ws e c); [done|lia|done|lia]|].
    cbn beta. intros _ c1 es1 ([] & -> & Hc1). cbn [app]. change [w; v] with ([w] ++ [v]).
    rewrite wp_handle_views_app. cbn [handle_views]. rewrite wp_bind.
    eapply wp_mono; [apply (wp_last_view w c1 d); rewrite ?Hwe; unfold store_idle, pool_len in *;
      rewrite ?sv_com0; try congruence; try lia|].
    cbn beta. intros _ c2 es2 [Hep Hcc]. rewrite wp_ret.
    eapply wp_mono; [apply (wp_views_over [v] c2)|].
    - apply Forall_singleton. lia.
    - intros _ c3 es3 [-> _]. congruence. }
  assert (wp False (handle_views (v :: vs)) c (fun _ c2 _ =>
    commitCh (core_Commitor c2) = commitCh (core_Commitor c) ++ [for_epoch e b])) as H2.
  { cbn [handle_views]. rewrite wp_bind.
    eapply wp_mono; [apply (wp_commit_view v c d h b); rewrite ?Hv; done|]. cbn beta. intros _ c1 es1 [Hep Hcc].
    eapply wp_mono; [apply (wp_views_over vs c1)|].
    - eapply Forall_impl; [exact Hvs|]. intros w [Hw _]. lia.
    - intros _ c3 es3 [-> _]. by rewrite <-Hv. }
  unfold wp in H1, H2. destruct (handle_views (vs ++ [v]) c) as [[[[] c1] es1]|]; [|done].
  destruct (handle_views (v :: vs) c) as [[[[] c2] es2]|]; [|done].
  by exists c1, es1, c2, es2.
Qed.

End Behaviour.

(** ** Crashes *)

Section Crash.
Context {E : Ed25519} {K : Kyber} {db : Type} `{HDB : DB db} {GB : GobBlock}.
Context `{!Ed25519Laws E} `{!KyberLaws K}.

(** A view change that claims a commit and carries no hash is fatal: a node that has no
    output for its epoch yet dereferences the missing hash. *)
Lemma commit_without_hash_panics (v : ViewChange) (c : Core (db := db)) :
  Verify (core_Committee c) (MViewChange v) = Ret true ->
  ViewChange_IsCommit v = true -> ViewChange_BlockHash v = None ->
  Epoch c <= ViewChange_Epoch v -> ViewChange_Epoch v ∉ commitFlag c ->
  handle (MViewChange v) c = Panic.
Proof.
  intros Hv Hc Hh He Hf. unfold handle, handle_msg, mbind, M_bind, get_st, lift_outcome. rewrite Hv.
  unfold dispatch, no_rest, handleViewChange, messageFilter, mbind, M_bind, gets, get_st.
  rewrite (proj2 (Z.ltb_ge _ _)) by lia. rewrite bool_decide_false by done. cbn. by rewrite Hc, Hh.
Qed.

(** One message of one faulty member crashes every correct node: any member can
    sign such a view change. *)
Theorem vaba_one_message_crashes (st : setting) (e : Z) :
  setting_ok st -> in_int64 e ->
  exists v, ViewChange_Author v = s_name st /\ ViewChange_Epoch v = e /\
    event_ok (s_com st) (MViewChange v) /\ Verify (s_com st) (MViewChange v) = Ret true /\
    forall c : Core (db := db), core_Committee c = s_com st -> Epoch c <= e -> e ∉ commitFlag c ->
      handle (MViewChange v) c = Panic.
Proof.
  intros Hst He.
  destruct (sign_with_name (s_srv st) _ _ (st_srv _ Hst)
    (ViewChange_Hash (mkViewChange (s_name st) 0 e None true false false (mkSignature []))))
    as (sig & _ & Hv).
  exists (mkViewChange (s_name st) 0 e None true false false sig). split_and!; try done.
  - split_and!; [|done..]. exists (s_name st). split; [done|]. apply st_member, Hst.
  - intros c Hc Hep Hf. apply commit_without_hash_panics; try done. by rewrite Hc.
Qed.

(** What a goroutine that makes its steps in the states [cs] emits, up to its end; the
    states differ by what other goroutines do in between. *)
Fixpoint emitted_at (t : Thread) (cs : list (Core (db := db))) : option (list effect) :=
  match cs with
  | [] => None
  | c :: cs =>
      match tstep t c with
      | Panic => None
      | Ret (None, _, es) => Some es
      | Ret (Some t', _, es) => app es <$> emitted_at t' cs
      end
  end.

Lemma emitted_at_read (e : Z) (n : NodeID) (pc pc' : prom_pc) (c : Core (db := db)) cs (s : Promote) :
  lookup2 (PBInstances c) e n = Some s ->
  prom_step (Name c) (core_Committee c) (core_SigService c) (bool_decide (e ∈ SkipFlag c)) pc s =
    Ret (Some pc', s, []) ->
  emitted_at (mkThread e n pc) (c :: cs) = emitted_at (mkThread e n pc') cs.
Proof.
  intros Hs Hp. cbn [emitted_at]. unfold tstep. cbn [t_epoch t_node t_pc]. rewrite Hs, Hp. cbn.
  by destruct (emitted_at _ _).
Qed.

Lemma emitted_at_end (e : Z) (n : NodeID) (pc : prom_pc) (c : Core (db := db)) cs (s s' : Promote) es :
  lookup2 (PBInstances c) e n = Some s ->
  prom_step (Name c) (core_Committee c) (core_SigService c) (bool_decide (e ∈ SkipFlag c)) pc s =
    Ret (None, s', es) ->
  emitted_at (mkThread e n pc) (c :: cs) = Some es.
Proof.
  intros Hs Hp. cbn [emitted_at]. unfold tstep. cbn [t_epoch t_node t_pc]. by rewrite Hs, Hp.
Qed.

(** C33. The view change of a correct node can crash it and every other one.
    [invokeViewChange] reads the hash and the three flags of the leader's instance one
    after the other, while the goroutines of that instance run.  Whatever four states the
    reads find, the message that is broadcast carries the hash of the first state and the
    flags of the next three.  If the hash is still missing in the first and the commit
    flag is set in the second, every node, the sender included, that takes the message
    before it has an output for the epoch panics.  Two reads of one state cannot do that:
    an instance never has the flag without the hash. *)
Theorem vaba_race_crashes (st : setting) (params : Parameters) (store : Store db) (pool : PoolParams.t)
    (N Id : Z) n0 n1 n2 n3 n4 (e : Z) (leader : NodeID) (s1 s2 s3 s4 : Promote) :
  let reach := node_reachable (event_ok (s_com st)) in
  let inst n := lookup2 (PBInstances (n_core n)) e leader in
  setting_ok st -> started (boot st params store pool N Id) n0 ->
  reach n0 n1 -> reach n1 n2 -> reach n2 n3 -> reach n3 n4 ->
  inst n1 = Some s1 -> inst n2 = Some s2 -> inst n3 = Some s3 -> inst n4 = Some s4 ->
  exists v,
    emitted_at (mkThread e leader VHash) (n_core <$> [n1; n2; n3; n4]) =
      Some [ESend (s_name st) NONE (MViewChange v); to_self (MViewChange v)] /\
    (ViewChange_Author v = s_name st /\ ViewChange_Leader v = leader /\ ViewChange_Epoch v = e /\
     ViewChange_BlockHash v = blockHash s1 /\ ViewChange_IsCommit v = IsCommit s2 /\
     ViewChange_IsLock v = IsLock s3 /\ ViewChange_IsKey v = IsKey s4) /\
    (blockHash s1 = None -> IsCommit s2 = true ->
     forall c : Core (db := db), core_Committee c = s_com st -> Epoch c <= e -> e ∉ commitFlag c ->
       handle (MViewChange v) c = Panic) /\
    (s2 = s1 -> ~ (blockHash s1 = None /\ IsCommit s2 = true)).
Proof.
  intros reach inst Hst H0 R1 R2 R3 R4 H1 H2 H3 H4.
  assert (forall n, reach n0 n -> core_ok st (n_core n)) as Hcore.
  { intros n Hr. destruct (vaba_reachable_ok st Hst _ _ _ _ _ _ _ H0 Hr) as (_ & Hok & _).
    by destruct Hok as (([] & _) & _). }
  destruct (Hcore n4) as [Hname _ Hsrv _ _ Hpb]; [by do 3 (eapply reachable_trans; [|done])|].
  destruct (Hpb _ _ _ H4) as [[He Hl _ _ _ _] _].
  destruct (sign_with_name (s_srv st) _ _ (st_srv _ Hst) (ViewChange_Hash (mkViewChange (s_name st) leader e
    (blockHash s1) (IsCommit s2) (IsLock s3) (IsKey s4) (mkSignature [])))) as (sig & Hs & Hv).
  exists (mkViewChange (s_name st) leader e (blockHash s1) (IsCommit s2) (IsLock s3) (IsKey s4) sig).
  split_and!; try done.
  - cbn [fmap list_fmap]. erewrite emitted_at_read by done. erewrite emitted_at_read by done. erewrite emitted_at_read by done.
    eapply emitted_at_end; [done|]. rewrite Hname, Hsrv.
    unfold prom_step, NewViewChange, mbind, M_bind, lift_outcome, get_st. rewrite He, Hl.
    unfold Outcome_bind, prom_BlockHash. by rewrite Hs.
  - intros Hh Hc c Hcom Hep Hf. apply commit_without_hash_panics; try done. by rewrite Hcom.
  - intros -> [Hh Hc]. destruct (co_pb _ _ (Hcore n1 R1) _ _ _ H1) as [Hok _].
    destruct (po_flags _ _ _ _ Hok) as [h Hs1]; [by rewrite Hc, !orb_true_r|congruence].
Qed.

Lemma vaba_run_reachable (env : Message -> Prop)
    (n0 n : Node (Core := Core (db := db)) (Ev := Message) (Msg := Message) (Thread := Thread)) cs :
  Forall (allowed env) cs -> node_run cs n0 = Next n -> node_reachable env n0 n.
Proof. apply nrun_reachable, reach_init. Qed.

End Crash.

Section Race.
Import ToyCrypto ToyNode ToyGob.

(** A correct node's message. *)
Definition made {A} (wrap : A -> Message) (o : Outcome A) : Message :=
  match o with Ret m => wrap m | Panic => MNil 0 end.
Definition race_leader : nat := 2.
Definition leader_says (phase : Z) (b : option Block) : Message :=
  made MProposal (NewProposal (toy_service 4 race_leader) (Z.of_nat race_leader) 0 phase b).
Definition leader_block : Block := mkBlock (Z.of_nat race_leader) (mkBatch 5 None) 0.
Definition share_of (i : nat) : Message :=
  match NewElectShare (toy_service 4 i) (Z.of_nat i) 0 with
  | Ret (Some s) => MElectShare s
  | _ => MNil ElectShareType
  end.

(** The leader's four proposals and three shares of the coin reach node 1.  Its main
    loop starts a goroutine for each proposal before any of them runs, elects the
    leader and reads the missing hash; then the goroutines of phases one and four run,
    and the loop reads the commit flag. *)
Definition race_messages : list Message :=
  [leader_says PHASE_ONE_FALG (Some leader_block); leader_says PHASE_TWO_FALG None;
   leader_says PHASE_THREE_FALG None; leader_says PHASE_FOUR_FALG None;
   share_of 0; share_of 2; share_of 3].
Definition race_schedule : list choice :=
  [CMain; CMain] ++ (CRecv <$> race_messages) ++
  [CHandle 0; CMain; CHandle 0; CMain; CHandle 0; CMain; CHandle 0; CMain; CHandle 0; CMain;
   CHandle 0; CHandle 0; CHandle 0; CMain; CGo 1; CGo 4; CGo 4;
   CMain; CMain; CMain; CMain; CMain; CHandle 0].

Lemma race_messages_ok : Forall (event_ok (toy_committee 4)) race_messages.
Proof.
  assert (forall i : nat, bool_decide (Z.of_nat i ∈ members (toy_committee 4)) ->
    Z.of_nat i ∈ members (toy_committee 4)) as Hmem by (intros i H; by apply bool_decide_unpack in H).
  assert (in_int64 0) as H0 by (unfold in_int64; lia).
  assert (forall ph b, PHASE_ONE_FALG <= ph <= PHASE_FOUR_FALG -> (ph = PHASE_ONE_FALG -> is_Some b) ->
    event_ok (toy_committee 4) (leader_says ph b)) as Hp.
  { intros ph b Hph Hb. unfold leader_says, NewProposal. rewrite RequestSignature_ok by done. cbn.
    split_and!; [exists 2; split; [done|by apply (Hmem 2%nat)]|done| |done].
    intros p [= <-]. split_and!; [by apply (Hmem 2%nat)|apply Hph..|done]. }
  assert (forall i : nat, bool_decide (Z.of_nat i ∈ members (toy_committee 4)) ->
    event_ok (toy_committee 4) (share_of i)) as Hs.
  { intros i Hi. cbn. split_and!; [|done..]. exists (Z.of_nat i). split; [done|]. by apply Hmem. }
  unfold race_messages, PHASE_ONE_FALG, PHASE_TWO_FALG, PHASE_THREE_FALG, PHASE_FOUR_FALG in *.
  repeat apply Forall_cons_2; try (apply Hp; [lia|]; try done; by eexists); try by apply Hs.
  by apply Forall_nil.
Qed.

Lemma race_schedule_allowed : Forall (allowed (event_ok (toy_committee 4))) race_schedule.
Proof.
  unfold race_schedule. rewrite !Forall_app. split_and!.
  - by repeat constructor.
  - apply Forall_fmap. exact race_messages_ok.
  - by repeat constructor.
Qed.

(** Node 1 after choices [i] to [j] of the schedule, and the leader's instance. *)
Abbreviation rnode :=
  (Node (Core := Core (db := gmap bytes bytes)) (Ev := Message) (Msg := Message) (Thread := Thread)).
Definition race_on (i j : nat) (n : rnode) : rnode :=
  match node_run (drop i (take j race_schedule)) n with Next n' => n' | _ => n end.
Definition race_inst (n : rnode) : option Promote :=
  lookup2 (PBInstances (n_core n)) 0 (Z.of_nat race_leader).

Lemma race_on_reachable (i j : nat) (n : rnode) :
  node_reachable (event_ok (toy_committee 4)) n (race_on i j n).
Proof.
  unfold race_on. destruct (node_run (drop i (take j race_schedule)) n) as [n'| |] eqn:En;
    [|apply reach_init..].
  refine (vaba_run_reachable _ _ _ _ _ En). by apply Forall_drop, Forall_take, race_schedule_allowed.
Qed.

(** It reads the hash after 22 choices and the flags after 26, 27 and 28; its message is
    next on its channel after 31. *)
Definition race1 : rnode := race_on 0 22 toy_start.
Definition race2 : rnode := race_on 22 26 race1.
Definition race3 : rnode := race_on 26 27 race2.
Definition race4 : rnode := race_on 27 28 race3.
Definition race_end : rnode := race_on 28 31 race4.

Lemma race_inst_field {A : Type} (f : Promote -> A) (n : rnode) (s : Promote) (x : A) :
  race_inst n = Some s -> f <$> race_inst n = Some x -> f s = x.
Proof. intros -> [= <-]. done. Qed.

Lemma race_inst_some (n : rnode) :
  match race_inst n with Some _ => true | None => false end = true -> exists s, race_inst n = Some s.
Proof. destruct (race_inst n); [eauto|done]. Qed.

Lemma vaba_race_crashes_witness :
  exists v, emitted_at (mkThread 0 2 VHash) (n_core <$> [race1; race2; race3; race4]) =
      Some [ESend 1 NONE (MViewChange v); to_self (MViewChange v)] /\
    handle (MViewChange v) (n_core race_end) = Panic.
Proof.
  destruct (race_inst_some race1) as [s1 E1]; [vm_compute; reflexivity|].
  destruct (race_inst_some race2) as [s2 E2]; [vm_compute; reflexivity|].
  destruct (race_inst_some race3) as [s3 E3]; [vm_compute; reflexivity|].
  destruct (race_inst_some race4) as [s4 E4]; [vm_compute; reflexivity|].
  destruct (vaba_race_crashes toy_setting DefaultParameters (NewStore ∅) toy_pool 4 1 toy_start
    race1 race2 race3 race4 0 2 s1 s2 s3 s4 toy_setting_ok vaba_toy_started
    (race_on_reachable _ _ _) (race_on_reachable _ _ _) (race_on_reachable _ _ _) (race_on_reachable _ _ _)
    E1 E2 E3 E4) as (v & Hem & _ & Hp & _).
  exists v. split; [exact Hem|]. apply Hp.
  - apply (race_inst_field blockHash race1 _ _ E1). vm_compute. reflexivity.
  - apply (race_inst_field IsCommit race2 _ _ E2). vm_compute. reflexivity.
  - vm_compute. reflexivity.
  - vm_compute. discriminate.
  - apply (bool_decide_eq_true_1 (0 ∉ commitFlag (n_core race_end))). vm_compute. reflexivity.
Defined.
End Race.

(** ** Witnesses *)

Section Witness.
Import ToyCrypto ToyNode ToyGob.

Definition toy_stored : Block := mkBlock 2 (mkBatch 7 None) 0.
Definition toy_store : gmap bytes bytes :=
  {[ Block_Hash toy_stored := default [] (Block_Encode toy_stored) ]}.
Definition toy_halt : Halt := mkHalt 3 0 2 (Block_Hash toy_stored) (mkSignature []).
Definition toy_core2 : Core (db := gmap bytes bytes) :=
  boot toy_setting DefaultParameters (NewStore toy_store) toy_pool 4 1.

Lemma vaba_halt_outputs_witness :
  exists c' halt es, handleHalt toy_halt toy_core2 = Ret (None, c', ESend 1 NONE (MHalt halt) :: es) /\
    outputs toy_core2 c' 0 (found toy_store (Block_Hash toy_stored)) /\
    commitFlag c' = {[0]} ∪ ∅ /\ Epoch c' = 1 /\
    Halt_Author halt = 1 /\ Halt_Epoch halt = 0 /\ Halt_Leader halt = 2 /\
    Halt_BlockHash halt = Block_Hash toy_stored /\ proposes toy_core2 1 es.
Proof.
  apply (vaba_halt_outputs toy_core2 toy_store toy_halt).
  - vm_compute. reflexivity.
  - reflexivity.
  - vm_compute. lia.
  - cbn. lia.
  - cbn. unfold last_epoch. lia.
  - intros H. by apply elem_of_empty in H.
Defined.

Lemma vaba_late_block_lost_witness :
  let p := mkProposal 2 0 PHASE_ONE_FALG (Some toy_stored) (mkSignature []) in
  exists c' es, handleHalt toy_halt toy_core = Ret (None, c', es) /\
    core_Commitor c' = core_Commitor toy_core /\ handleProposal p c' = Ret (None, c', []).
Proof.
  intros p. apply (vaba_late_block_lost toy_core ∅ toy_halt p).
  - vm_compute. reflexivity.
  - reflexivity.
  - vm_compute. lia.
  - cbn. lia.
  - cbn. unfold last_epoch. lia.
  - intros H. by apply elem_of_empty in H.
  - vm_compute. reflexivity.
  - vm_compute. reflexivity.
  - reflexivity.
  - discriminate.
Defined.

Definition toy_view (i : Z) (commit : bool) : ViewChange :=
  mkViewChange i 2 0 (Some (Block_Hash toy_stored)) commit true true (mkSignature []).

Lemma vaba_view_change_order_witness :
  exists c1 es1 c2 es2,
    handle_views ([toy_view 0 false; toy_view 2 false; toy_view 3 false] ++ [toy_view 1 true])
      toy_core2 = Ret (tt, c1, es1) /\
    handle_views (toy_view 1 true :: [toy_view 0 false; toy_view 2 false; toy_view 3 false])
      toy_core2 = Ret (tt, c2, es2) /\
    commitCh (core_Commitor c1) = [] ++ [empty_block 0] /\
    commitCh (core_Commitor c2) = [] ++ [for_epoch 0 toy_stored].
Proof.
  apply (vaba_view_change_order toy_core2 toy_store 0
    [toy_view 0 false; toy_view 2 false; toy_view 3 false] (toy_view 1 true)
    (Block_Hash toy_stored) toy_stored); try reflexivity.
  - vm_compute. lia.
  - cbn. lia.
  - cbn. unfold last_epoch. lia.
  - intros H. by apply elem_of_empty in H.
  - by repeat constructor.
Defined.

Lemma vaba_one_message_crashes_witness :
  exists v, ViewChange_Author v = 1 /\ ViewChange_Epoch v = 0 /\
    event_ok (toy_committee 4) (MViewChange v) /\ Verify (toy_committee 4) (MViewChange v) = Ret true /\
    forall c : Core (db := gmap bytes bytes), core_Committee c = toy_committee 4 -> Epoch c <= 0 ->
      0 ∉ commitFlag c -> handle (MViewChange v) c = Panic.
Proof. apply (vaba_one_message_crashes toy_setting 0); [exact toy_setting_ok|]. unfold in_int64. lia. Defined.

End Witness.
