(* ===== verification/MvbaMessage.v ===== *)
(** * mvba: blocks, messages, signing and verification

    Models src/core/mvba/consensus/message.go.  A message is a record with the fields
    of the struct; its hash is the SHA-256 of the parts the source adds, in order.
    Integers are hashed as eight bytes, little-endian in the messages of the
    broadcasts and big-endian in those of the agreement.

    The [C] field of a commitment is a Go slice: [SFinals e] is the slice the core
    keeps in [cbcFinalIndexs] for epoch [e] (the message the node sends to itself
    shares it), [SVal] any other one, [SNil] nil. *)

From Stdlib Require Import Strings.Byte.
From S2P Require Import Prelude GoStd Crypto Committee Store Pool.

Open Scope Z_scope.

Definition FLAG_YES : Z := 0.
Definition FLAG_NO : Z := 1.

(** ** Blocks *)

Record Block := mkBlock { Proposer : NodeID; Block_Batch : Batch; Block_Epoch : Z }.

#[export] Instance Block_eq_dec : EqDecision Block.
Proof. solve_decision. Defined.

Definition NewBlock (proposer : NodeID) (batch : Batch) (epoch : Z) : Block :=
  mkBlock proposer batch epoch.

(** [encoding/gob] on blocks: [None] is an error. *)
Class GobBlock := {
  gob_encode_block : Block -> option bytes;
  gob_decode_block : bytes -> option Block
}.

(** gob omits empty slices, so an empty slice of transactions decodes as nil. *)
Definition gob_norm (b : Block) : Block :=
  mkBlock (Proposer b)
    (mkBatch (Batch_ID (Block_Batch b))
       (match Batch_Txs (Block_Batch b) with Some [] => None | t => t end))
    (Block_Epoch b).

(** Decoding into an empty block gives back what was encoded. *)
Class GobBlockLaws (G : GobBlock) :=
  gob_block_roundtrip : forall b d, gob_encode_block b = Some d ->
    gob_decode_block d = Some (gob_norm b).

(** An encoding with the promised behaviour: the bits of a block's code. *)
Module ToyGob.
Import ToyBits.
#[export] Instance Block_countable : Countable Block.
Proof.
  refine (inj_countable' (fun b => (Proposer b, Block_Batch b, Block_Epoch b))
            (fun '(p, b, e) => mkBlock p b e) _).
  by intros [].
Defined.

#[export] Instance toy_gob : GobBlock := {|
  gob_encode_block := fun b => Some (bits (encode (gob_norm b)));
  gob_decode_block := fun d => decode (unbits d)
|}.
#[export] Instance toy_gob_laws : GobBlockLaws toy_gob.
Proof. intros b d [= <-]. cbn. by rewrite unbits_bits, decode_encode. Qed.
End ToyGob.

Definition Block_Encode `{GobBlock} (b : Block) : option bytes := gob_encode_block b.
Definition Block_Decode `{GobBlock} (data : bytes) : option Block := gob_decode_block data.

Definition Block_Hash (b : Block) : Digest :=
  hash_parts [AppendInt2 (Proposer b); AppendInt2 (Block_Epoch b);
              AppendInt2 (Batch_ID (Block_Batch b))].

(** ** Messages *)

Inductive bool_slice :=
| SNil
| SVal (l : list bool)
| SFinals (epoch : Z).

Record Proposal := mkProposal {
  Proposal_Author : NodeID;
  Proposal_B : option Block;
  Proposal_Epoch : Z;
  Proposal_Signature : Signature
}.

(** The hash of a nil block dereferences it. *)
Definition Proposal_Hash (p : Proposal) : Outcome Digest :=
  match Proposal_B p with
  | None => Panic
  | Some b => Ret (hash_parts [LittleEndian_AppendUint64 (Proposal_Author p);
                               LittleEndian_AppendUint64 (Proposal_Epoch p); Block_Hash b])
  end.

Record Commitment := mkCommitment {
  Commitment_Author : NodeID;
  Commitment_C : bool_slice;
  Commitment_Epoch : Z;
  Commitment_Signature : Signature
}.

Definition Commitment_Hash (p : Commitment) : Digest :=
  hash_parts
    [LittleEndian_AppendUint64 (Commitment_Author p);
     LittleEndian_AppendUint64 (Commitment_Epoch p)].

Record Ready := mkReady {
  Ready_Author : NodeID;
  Ready_Proposer : NodeID;
  Ready_Epoch : Z;
  Ready_Tag : Z;
  Ready_Signature : Signature
}.

Definition Ready_Hash (p : Ready) : Digest :=
  hash_parts
    [LittleEndian_AppendUint64 (Ready_Author p);
     LittleEndian_AppendUint64 (Ready_Proposer p);
     LittleEndian_AppendUint64 (Ready_Epoch p);
     [byteZ (Ready_Tag p)]].

Record Final := mkFinal {
  Final_Author : NodeID;
  Final_Epoch : Z;
  Final_Tag : Z;
  Final_Signature : Signature
}.

Definition Final_Hash (p : Final) : Digest :=
  hash_parts
    [LittleEndian_AppendUint64 (Final_Author p);
     LittleEndian_AppendUint64 (Final_Epoch p);
     [byteZ (Final_Tag p)]].

Record ElectShare := mkElectShare {
  ElectShare_Author : NodeID;
  ElectShare_Epoch : Z;
  ElectShare_Share : SignatureShare
}.

Definition ElectShare_Hash (p : ElectShare) : Digest :=
  hash_parts
    [LittleEndian_AppendUint64 (ElectShare_Epoch p)].

Record Vote := mkVote {
  Vote_Author : NodeID;
  Vote_Leader : NodeID;
  Vote_Epoch : Z;
  Vote_Round : Z;
  Vote_Flag : Z;
  Vote_Signature : Signature
}.

Definition Vote_Hash (p : Vote) : Digest :=
  hash_parts
    [BigEndian_AppendUint64 (Vote_Author p);
     BigEndian_AppendUint64 (Vote_Leader p);
     BigEndian_AppendUint64 (Vote_Epoch p);
     [byteZ (Vote_Flag p)]].

Record ABAVal := mkABAVal {
  ABAVal_Author : NodeID;
  ABAVal_Leader : NodeID;
  ABAVal_Epoch : Z;
  ABAVal_Round : Z;
  ABAVal_InRound : Z;
  ABAVal_Flag : Z;
  ABAVal_Signature : Signature
}.

Definition ABAVal_Hash (p : ABAVal) : Digest :=
  hash_parts
    [BigEndian_AppendUint64 (ABAVal_Author p);
     BigEndian_AppendUint64 (ABAVal_Leader p);
     BigEndian_AppendUint64 (ABAVal_Epoch p);
     [byteZ (ABAVal_Flag p)]].

Record ABAMux := mkABAMux {
  ABAMux_Author : NodeID;
  ABAMux_Leader : NodeID;
  ABAMux_Epoch : Z;
  ABAMux_Round : Z;
  ABAMux_InRound : Z;
  ABAMux_Flag : Z;
  ABAMux_Signature : Signature
}.

Definition ABAMux_Hash (p : ABAMux) : Digest :=
  hash_parts
    [BigEndian_AppendUint64 (ABAMux_Author p);
     BigEndian_AppendUint64 (ABAMux_Leader p);
     BigEndian_AppendUint64 (ABAMux_Epoch p);
     [byteZ (ABAMux_Flag p)]].

Record CoinShare := mkCoinShare {
  CoinShare_Author : NodeID;
  CoinShare_Leader : NodeID;
  CoinShare_Epoch : Z;
  CoinShare_Round : Z;
  CoinShare_InRound : Z;
  CoinShare_Share : SignatureShare
}.

Definition CoinShare_Hash (p : CoinShare) : Digest :=
  hash_parts
    [BigEndian_AppendUint64 (CoinShare_Leader p);
     BigEndian_AppendUint64 (CoinShare_Epoch p);
     BigEndian_AppendUint64 (CoinShare_InRound p)].

Record ABAHalt := mkABAHalt {
  ABAHalt_Author : NodeID;
  ABAHalt_Leader : NodeID;
  ABAHalt_Epoch : Z;
  ABAHalt_Round : Z;
  ABAHalt_InRound : Z;
  ABAHalt_Flag : Z;
  ABAHalt_Signature : Signature
}.

Definition ABAHalt_Hash (p : ABAHalt) : Digest :=
  hash_parts
    [BigEndian_AppendUint64 (ABAHalt_Author p);
     BigEndian_AppendUint64 (ABAHalt_Leader p);
     BigEndian_AppendUint64 (ABAHalt_Epoch p);
     [byteZ (ABAHalt_Flag p)]].

(** ** Construction and verification *)

Section Signing.
Context {E : Ed25519} {K : Kyber} (sigService : SigService).

Definition NewProposal (Author : NodeID) (B : option Block) (Epoch : Z) : Outcome Proposal :=
  let p := mkProposal Author B Epoch in
  hash ← Proposal_Hash (p (mkSignature []));
  sig ← RequestSignature sigService hash;
  mret (p sig).

Definition NewCommitment (Author : NodeID) (C : bool_slice) (Epoch : Z) :
    Outcome Commitment :=
  let p := mkCommitment Author C Epoch in
  sig ← RequestSignature sigService (Commitment_Hash (p (mkSignature [])));
  mret (p sig).

Definition NewReady (Author : NodeID) (Proposer : NodeID) (Epoch : Z) (Tag : Z) :
    Outcome Ready :=
  let p := mkReady Author Proposer Epoch Tag in
  sig ← RequestSignature sigService (Ready_Hash (p (mkSignature [])));
  mret (p sig).

Definition NewFinal (Author : NodeID) (Epoch : Z) (Tag : Z) :
    Outcome Final :=
  let p := mkFinal Author Epoch Tag in
  sig ← RequestSignature sigService (Final_Hash (p (mkSignature [])));
  mret (p sig).

(** [None]: the threshold signature failed and the constructor returns nil. *)
Definition NewElectShare (Author : NodeID) (Epoch : Z) :
    Outcome (option ElectShare) :=
  let p := mkElectShare Author Epoch in
  '(share, err) ← RequestTsSugnature sigService (ElectShare_Hash (p (mkSignatureShare [])));
  mret (if err : bool then None else Some (p share)).

Definition NewVote (Author : NodeID) (Leader : NodeID) (Epoch : Z) (Round : Z) (Flag : Z) :
    Outcome Vote :=
  let p := mkVote Author Leader Epoch Round Flag in
  sig ← RequestSignature sigService (Vote_Hash (p (mkSignature [])));
  mret (p sig).

Definition NewABAVal (Author : NodeID) (Leader : NodeID) (Epoch : Z) (Round : Z) (InRound : Z) (Flag : Z) :
    Outcome ABAVal :=
  let p := mkABAVal Author Leader Epoch Round InRound Flag in
  sig ← RequestSignature sigService (ABAVal_Hash (p (mkSignature [])));
  mret (p sig).

Definition NewABAMux (Author : NodeID) (Leader : NodeID) (Epoch : Z) (Round : Z) (InRound : Z) (Flag : Z) :
    Outcome ABAMux :=
  let p := mkABAMux Author Leader Epoch Round InRound Flag in
  sig ← RequestSignature sigService (ABAMux_Hash (p (mkSignature [])));
  mret (p sig).

(** [None]: the threshold signature failed and the constructor returns nil. *)
Definition NewCoinShare (Author : NodeID) (Leader : NodeID) (Epoch : Z) (Round : Z) (InRound : Z) :
    Outcome (option CoinShare) :=
  let p := mkCoinShare Author Leader Epoch Round InRound in
  '(share, err) ← RequestTsSugnature sigService (CoinShare_Hash (p (mkSignatureShare [])));
  mret (if err : bool then None else Some (p share)).

Definition NewABAHalt (Author : NodeID) (Leader : NodeID) (Epoch : Z) (Round : Z) (InRound : Z) (Flag : Z) :
    Outcome ABAHalt :=
  let p := mkABAHalt Author Leader Epoch Round InRound Flag in
  sig ← RequestSignature sigService (ABAHalt_Hash (p (mkSignature [])));
  mret (p sig).

End Signing.

(** The messages on the wire and on the receive channel.  [MNil t] is a nil
    pointer of message type [t], which a failed constructor leaves behind. *)
Inductive Message :=
| MProposal (p : Proposal)
| MCommitment (p : Commitment)
| MReady (p : Ready)
| MFinal (p : Final)
| MElectShare (p : ElectShare)
| MVote (p : Vote)
| MABAVal (p : ABAVal)
| MABAMux (p : ABAMux)
| MCoinShare (p : CoinShare)
| MABAHalt (p : ABAHalt)
| MNil (t : Z).

Definition ProposalType : Z := 0.
Definition CommitmentType : Z := 1.
Definition ReadyType : Z := 2.
Definition FinalType : Z := 3.
Definition ElectShareType : Z := 4.
Definition VoteType : Z := 5.
Definition ABAValType : Z := 6.
Definition ABAMuxType : Z := 7.
Definition CoinShareType : Z := 8.
Definition ABAHaltType : Z := 9.

Definition MsgType (m : Message) : Z :=
  match m with
  | MProposal _ => ProposalType
  | MCommitment _ => CommitmentType
  | MReady _ => ReadyType
  | MFinal _ => FinalType
  | MElectShare _ => ElectShareType
  | MVote _ => VoteType
  | MABAVal _ => ABAValType
  | MABAMux _ => ABAMuxType
  | MCoinShare _ => CoinShareType
  | MABAHalt _ => ABAHaltType
  | MNil t => t
  end.

(** The keys of [DefaultMessageTypeMap]. *)
Definition DefaultMessageTypes : gset Z :=
  {[ ProposalType; CommitmentType; ReadyType; FinalType; ElectShareType; VoteType; ABAValType; ABAMuxType; CoinShareType; ABAHaltType ]}.

(** The [Author] field every message has. *)
Definition msg_author (m : Message) : option NodeID :=
  match m with
  | MProposal p => Some (Proposal_Author p)
  | MCommitment p => Some (Commitment_Author p)
  | MReady p => Some (Ready_Author p)
  | MFinal p => Some (Final_Author p)
  | MElectShare p => Some (ElectShare_Author p)
  | MVote p => Some (Vote_Author p)
  | MABAVal p => Some (ABAVal_Author p)
  | MABAMux p => Some (ABAMux_Author p)
  | MCoinShare p => Some (CoinShare_Author p)
  | MABAHalt p => Some (ABAHalt_Author p)
  | MNil _ => None
  end.

(** The [Epoch] field every message has. *)
Definition msg_epoch (m : Message) : Z :=
  match m with
  | MProposal p => Proposal_Epoch p
  | MCommitment p => Commitment_Epoch p
  | MReady p => Ready_Epoch p
  | MFinal p => Final_Epoch p
  | MElectShare p => ElectShare_Epoch p
  | MVote p => Vote_Epoch p
  | MABAVal p => ABAVal_Epoch p
  | MABAMux p => ABAMux_Epoch p
  | MCoinShare p => CoinShare_Epoch p
  | MABAHalt p => ABAHalt_Epoch p
  | MNil _ => 0
  end.

Section Verification.
Context {E : Ed25519} (committee : Committee).

Definition Proposal_Verify (p : Proposal) : Outcome bool :=
  hash ← Proposal_Hash p; verify_sig committee (Proposal_Author p) (Proposal_Signature p) hash.
Definition Commitment_Verify (p : Commitment) : Outcome bool :=
  verify_sig committee (Commitment_Author p) (Commitment_Signature p) (Commitment_Hash p).
Definition Ready_Verify (p : Ready) : Outcome bool :=
  verify_sig committee (Ready_Author p) (Ready_Signature p) (Ready_Hash p).
Definition Final_Verify (p : Final) : Outcome bool :=
  verify_sig committee (Final_Author p) (Final_Signature p) (Final_Hash p).
Definition ElectShare_Verify (p : ElectShare) : Outcome bool :=
  Ret (SignatureShare_Verify (ElectShare_Share p) (ElectShare_Hash p)).
Definition Vote_Verify (p : Vote) : Outcome bool :=
  verify_sig committee (Vote_Author p) (Vote_Signature p) (Vote_Hash p).
Definition ABAVal_Verify (p : ABAVal) : Outcome bool :=
  verify_sig committee (ABAVal_Author p) (ABAVal_Signature p) (ABAVal_Hash p).
Definition ABAMux_Verify (p : ABAMux) : Outcome bool :=
  verify_sig committee (ABAMux_Author p) (ABAMux_Signature p) (ABAMux_Hash p).
Definition CoinShare_Verify (p : CoinShare) : Outcome bool :=
  Ret (SignatureShare_Verify (CoinShare_Share p) (CoinShare_Hash p)).
Definition ABAHalt_Verify (p : ABAHalt) : Outcome bool :=
  verify_sig committee (ABAHalt_Author p) (ABAHalt_Signature p) (ABAHalt_Hash p).

(** [v.Verify(committee)] through the [Validator] interface; a nil pointer is
    dereferenced. *)
Definition Verify (m : Message) : Outcome bool :=
  match m with
  | MProposal p => Proposal_Verify p
  | MCommitment p => Commitment_Verify p
  | MReady p => Ready_Verify p
  | MFinal p => Final_Verify p
  | MElectShare p => ElectShare_Verify p
  | MVote p => Vote_Verify p
  | MABAVal p => ABAVal_Verify p
  | MABAMux p => ABAMux_Verify p
  | MCoinShare p => CoinShare_Verify p
  | MABAHalt p => ABAHalt_Verify p
  | MNil _ => Panic
  end.

(** A proposal carries a block. *)
Definition proposal_wf (m : Message) : Prop := forall p, m = MProposal p -> is_Some (Proposal_B p).

Lemma mvba_Verify_member (m : Message) (a : NodeID) :
  keys_sized committee -> msg_author m = Some a -> a ∈ members committee -> proposal_wf m ->
  exists b, Verify m = Ret b.
Proof.
  intros Hk Ha Hm Hp. destruct m as [p|p|p|p|p|p|p|p|p|p|t]; cbn in Ha; simplify_eq; cbn;
    eauto using verify_sig_member.
  destruct (Hp p eq_refl) as [b Hb]. unfold Proposal_Verify, Proposal_Hash. rewrite Hb. cbn.
  eauto using verify_sig_member.
Qed.

End Verification.
