(* ===== verification/MvbaAggreator.v ===== *)
(** * mvba: vote and coin aggregators

    Models src/core/mvba/consensus/aggreator.go.  The aggregators are kept per epoch
    and round, those of coins also per inner round.  [append] returns the new
    aggregator with the answer and error of the source.  A coin aggregator never
    records the authors it has seen. *)

From Stdlib Require Import Strings.Byte.
From S2P Require Import Prelude GoStd Crypto Committee Quorum Verdict Coin MvbaMessage.

Open Scope Z_scope.

(** ** Votes *)

Definition ACTION_NO : Z := 0.
Definition ACTION_ONE : Z := 1.
Definition ACTION_TWO : Z := 2.

Record VoteAggreator := mkVoteAggreator { Used : gset NodeID; flag : bool }.
Definition NewVoteAggreator : VoteAggreator := mkVoteAggreator ∅ false.

Definition VoteAggreator_append (committee : Committee) (vote : Vote) (v : VoteAggreator) :
    VoteAggreator * (Z * option error) :=
  if bool_decide (Vote_Author vote ∈ Used v) then
    (v, (ACTION_NO, Some (ErrOneMoreMessage VoteType (Vote_Epoch vote) (Vote_Round vote)
                            (Vote_Author vote))))
  else
    let used := {[Vote_Author vote]} ∪ Used v in
    if negb (flag v) && (Vote_Flag vote =? FLAG_YES)
    then (mkVoteAggreator used true, (ACTION_ONE, None))
    else if negb (flag v) && (Z.of_nat (size used) =? HightThreshold committee)
    then (mkVoteAggreator used true, (ACTION_TWO, None))
    else (mkVoteAggreator used (flag v), (ACTION_NO, None)).

(** ** Coins *)

Record CoinAggreator := mkCoinAggreator { coin_Used : gset NodeID; Shares : list SignatureShare }.
Definition NewCoinAggreator : CoinAggreator := mkCoinAggreator ∅ [].

(** [RANDOM_LEN] of mvba *)
Definition SEED_LEN : nat := 7.

(** The loop over the first bytes of a combined signature, in integers that wrap as
    [w] does: unsigned for a coin, signed for the elector's seed. *)
Definition seed_of (w : Z -> Z) (data : bytes) : Z :=
  foldl (fun seed b => w (Z.shiftl seed 8 + Zbyte b)) 0 (take SEED_LEN data).

(** (ok, coin, error) *)
Definition CoinAggreator_append {K : Kyber} (committee : Committee) (sigService : SigService)
    (share : CoinShare) (c : CoinAggreator) : CoinAggreator * (bool * Z * option error) :=
  if bool_decide (CoinShare_Author share ∈ coin_Used c) then
    (c, (false, 0, Some (ErrOneMoreMessage CoinShareType (CoinShare_Epoch share)
                           (CoinShare_Round share) (CoinShare_Author share))))
  else
    let c := mkCoinAggreator (coin_Used c) (Shares c ++ [CoinShare_Share share]) in
    if Z.of_nat (length (Shares c)) =? HightThreshold committee then
      match CombineIntactTSPartial (Shares c) (ShareKey sigService) (CoinShare_Hash share) with
      | None => (c, (false, 0, Some ErrExternal))
      | Some data => (c, (true, seed_of uint64 data mod 2, None))
      end
    else (c, (false, 0, None)).

(** ** The aggregator of the core *)

Section Aggreator.
Context {K : Kyber}.

Record Aggreator := mkAggreator {
  agg_committee : Committee;
  agg_sigService : SigService;
  votes : gmap Z (gmap Z VoteAggreator);
  coins : gmap Z (gmap Z (gmap Z CoinAggreator))
}.
#[export] Instance Aggreator_eta : Settable Aggreator := fun a =>
  mkAggreator (agg_committee a) (agg_sigService a) (votes a) (coins a).

Definition NewAggreator (committee : Committee) (sigService : SigService) : Aggreator :=
  mkAggreator committee sigService ∅ ∅.

Definition addVote (a : Aggreator) (vote : Vote) : Aggreator * (Z * option error) :=
  let '(m, r) := add_item (votes a) (Vote_Epoch vote) (Vote_Round vote) NewVoteAggreator
                   (VoteAggreator_append (agg_committee a) vote) in
  (a <| votes := m |>, r).

Definition addCoinShare (a : Aggreator) (share : CoinShare) :
    Aggreator * (bool * Z * option error) :=
  let '(m, r) := add_item3 (coins a) (CoinShare_Epoch share) (CoinShare_Round share)
                   (CoinShare_InRound share) NewCoinAggreator
                   (CoinAggreator_append (agg_committee a) (agg_sigService a) share) in
  (a <| coins := m |>, r).

End Aggreator.

(** ** Specifications *)

(** The bytes are read as one big-endian number, which does not overflow. *)
Lemma seed_of_value (w : Z -> Z) (data : bytes) :
  (forall z, 0 <= z < 2 ^ 63 -> w z = z) ->
  seed_of w data = foldl (fun seed b => 256 * seed + Zbyte b) 0 (take SEED_LEN data) /\
  0 <= seed_of w data < 2 ^ 56.
Proof.
  intros Hw. unfold seed_of.
  assert (length (take SEED_LEN data) <= 7)%nat as Hl
    by (unfold SEED_LEN; rewrite length_take; lia).
  assert (forall (l : bytes) (k : nat) a, (length l + k <= 7)%nat -> 0 <= a < 256 ^ Z.of_nat k ->
    foldl (fun seed b => w (Z.shiftl seed 8 + Zbyte b)) a l =
    foldl (fun seed b => 256 * seed + Zbyte b) a l /\
    0 <= foldl (fun seed b => 256 * seed + Zbyte b) a l < 256 ^ Z.of_nat (length l + k)) as H.
  { induction l as [|b l IH]; intros k a Hk Ha; cbn [foldl length]; [done|].
    pose proof (Zbyte_range b) as Hb. cbn [length] in Hk.
    assert (256 ^ Z.of_nat (S k) = 256 * 256 ^ Z.of_nat k) as Hp
      by (rewrite Nat2Z.inj_succ, Z.pow_succ_r by lia; lia).
    assert (256 ^ Z.of_nat (S k) <= 256 ^ 7) as Hle by (apply Z.pow_le_mono_r; lia).
    change (256 ^ 7) with (2 ^ 56) in Hle.
    rewrite Z.shiftl_mul_pow2 by lia. rewrite (Z.mul_comm a). change (2 ^ 8) with 256.
    rewrite Hw by lia. replace (S (length l) + k)%nat with (length l + S k)%nat by lia.
    apply (IH (S k)); lia. }
  destruct (H (take SEED_LEN data) 0%nat 0) as [H1 H2]; [lia|cbn; lia|].
  rewrite H1. split; [done|]. split; [lia|]. eapply Z.lt_le_trans; [apply H2|].
  change (2 ^ 56) with (256 ^ 7). apply Z.pow_le_mono_r; lia.
Qed.

Lemma uint64_small (z : Z) : 0 <= z < 2 ^ 63 -> uint64 z = z.
Proof. intros H. unfold wrapU. apply Z.mod_small. lia. Qed.

Lemma int64_small (z : Z) : 0 <= z < 2 ^ 63 -> int64 z = z.
Proof. intros H. apply int64_id. unfold in_int64. lia. Qed.

(** *** Votes *)

Definition vote_err (v : Vote) : error :=
  ErrOneMoreMessage VoteType (Vote_Epoch v) (Vote_Round v) (Vote_Author v).
Definition is_yes (v : Vote) : bool := Vote_Flag v =? FLAG_YES.
Definition vote_key (v : Vote) : Z * Z := (Vote_Epoch v, Vote_Round v).

(** The votes of a round decide with the first yes or with a quorum. *)
Definition decided (c : Committee) (vs : list Vote) : bool :=
  (0 <? tally Vote_Author is_yes vs) ||
  (HightThreshold c <=? Z.of_nat (size (voters Vote_Author vs))).

Definition vote_verdict (c : Committee) (prior : list Vote) (v : Vote) : Z * option error :=
  if bool_decide (Vote_Author v ∈ voters Vote_Author prior) then (ACTION_NO, Some (vote_err v))
  else if decided c prior then (ACTION_NO, None)
  else if is_yes v then (ACTION_ONE, None)
  else if decided c (prior ++ [v]) then (ACTION_TWO, None)
  else (ACTION_NO, None).

Definition vote_abs (c : Committee) (i : VoteAggreator) (vs : list Vote) : Prop :=
  Used i = voters Vote_Author vs /\ flag i = decided c vs.

Lemma decided_nil (c : Committee) : decided c [] = false.
Proof.
  pose proof (thresholds_pos c). unfold decided. rewrite tally_nil. cbn [orb].
  change (size (voters Vote_Author [])) with 0%nat. by rewrite (proj2 (Z.leb_gt _ _)) by lia.
Qed.

Lemma decided_new (c : Committee) (vs : list Vote) (v : Vote) :
  Vote_Author v ∉ voters Vote_Author vs -> decided c vs = false ->
  decided c (vs ++ [v]) =
  is_yes v || (Z.of_nat (size ({[Vote_Author v]} ∪ voters Vote_Author vs)) =? HightThreshold c).
Proof.
  intros Hv Hd. unfold decided in *. apply orb_false_iff in Hd as [H1 H2].
  rewrite tally_snoc, size_voters_snoc, !bool_decide_false by done.
  rewrite size_insert_new by done.
  pose proof (tally_nonneg Vote_Author is_yes vs). apply Z.ltb_ge in H1. apply Z.leb_gt in H2.
  destruct (is_yes v).
  - rewrite (proj2 (Z.ltb_lt _ _)) by lia. done.
  - rewrite (proj2 (Z.ltb_ge _ _)) by lia. cbn [orb].
    destruct (Z.eqb_spec (Z.of_nat (S (size (voters Vote_Author vs)))) (HightThreshold c)).
    + rewrite (proj2 (Z.leb_le _ _)) by lia. done.
    + rewrite (proj2 (Z.leb_gt _ _)) by lia. done.
Qed.

Lemma decided_mono (c : Committee) (vs ws : list Vote) :
  decided c vs = true -> decided c (vs ++ ws) = true.
Proof.
  unfold decided. rewrite !orb_true_iff, !Z.ltb_lt, !Z.leb_le.
  pose proof (tally_mono Vote_Author is_yes vs ws).
  assert (size (voters Vote_Author vs) <= size (voters Vote_Author (vs ++ ws)))%nat
    by (apply subseteq_size, voters_prefix; by eexists). lia.
Qed.

Lemma vote_refines (c : Committee) :
  refines_verdict NewVoteAggreator (fun v => VoteAggreator_append c v) (vote_abs c) (vote_verdict c).
Proof.
  split.
  { split; [done|]. by rewrite decided_nil. }
  intros [u f] vs v [Hu Hf]. cbn in Hu, Hf. subst u f.
  unfold VoteAggreator_append, vote_verdict, vote_abs. cbn [Used flag].
  destruct (bool_decide_reflect (Vote_Author v ∈ voters Vote_Author vs)) as [Hin|Hni].
  { cbn. split; [|done]. rewrite voters_snoc, bool_decide_true by done. split; [done|].
    unfold decided. rewrite tally_snoc, size_voters_snoc, !bool_decide_true by done.
    by rewrite Z.add_0_r. }
  rewrite voters_snoc, bool_decide_false by done.
  destruct (decided c vs) eqn:Ed; cbn [negb andb].
  { cbn. split; [|done]. split; [done|]. symmetry. by apply decided_mono. }
  rewrite (decided_new c vs v Hni Ed). unfold is_yes. destruct (Vote_Flag v =? FLAG_YES); [done|].
  cbn [orb]. by destruct (_ =? _).
Qed.

Section VoteSpec.
Context {K : Kyber}.

Lemma addVote_run (c : Committee) (srv : SigService) (vs : list Vote) :
  (run_calls addVote (NewAggreator c srv) vs).2 = verdicts vote_key (vote_verdict c) [] vs.
Proof.
  rewrite (run_calls_field votes (fun a => agg_committee a = c) _
    (fun m v => add_item m (vote_key v).1 (vote_key v).2 NewVoteAggreator (VoteAggreator_append c v))).
  - eapply run_verdicts; [apply (add_item_at_key NewVoteAggreator
      (fun v => VoteAggreator_append c v) vote_key)|apply vote_refines|done].
  - done.
  - intros a v <-. unfold addVote, vote_key. cbn [fst snd]. by destruct (add_item _ _ _ _ _).
Qed.

End VoteSpec.

(** The answers of [addVote] to the votes of a round, among all votes. *)
Definition vote_answers {K : Kyber} (c : Committee) (srv : SigService) (e r : Z) (vs : list Vote) :
    list (Z * option error) :=
  answers vote_key (e, r) vs (run_calls addVote (NewAggreator c srv) vs).2.

Definition is_action (a : Z * option error) : bool := negb (a.1 =? ACTION_NO).

(** C23. The votes of a round cause one action, as soon as there is a yes or a quorum of
    votes, and none before, whatever votes of other rounds arrive in between and
    however often a node repeats its vote.  The action for no is taken only after a
    quorum of different nodes voted and none of them yes. *)
Theorem mvba_vote_decides_once {K : Kyber} (c : Committee) (srv : SigService) (e r : Z)
    (vs : list Vote) :
  length (filter (fun a => is_action a = true) (vote_answers c srv e r vs)) =
    (if decided c (at_key vote_key (e, r) vs) then 1%nat else 0%nat) /\
  ((ACTION_ONE, None) ∈ vote_answers c srv e r vs ->
     0 < tally Vote_Author is_yes (at_key vote_key (e, r) vs)) /\
  ((ACTION_TWO, None) ∈ vote_answers c srv e r vs ->
     exists l, l `prefix_of` at_key vote_key (e, r) vs /\ tally Vote_Author is_yes l = 0 /\
       HightThreshold c <= Z.of_nat (size (voters Vote_Author l))).
Proof.
  unfold vote_answers. rewrite addVote_run, answers_verdicts. change (at_key vote_key (e, r) []) with (@nil Vote).
  set (ws := at_key vote_key (e, r) vs). split_and!.
  - induction ws as [|v l IH] using rev_ind.
    { by rewrite decided_nil. }
    rewrite solo_snoc, filter_app, length_app, IH. cbn [app].
    rewrite filter_cons, filter_nil. unfold vote_verdict.
    destruct (bool_decide_reflect (Vote_Author v ∈ voters Vote_Author l)) as [Hin|Hni].
    { assert (decided c (l ++ [v]) = decided c l) as ->.
      { unfold decided. rewrite tally_snoc, size_voters_snoc, !bool_decide_true by done.
        by rewrite Z.add_0_r. }
      rewrite decide_False by done. cbn [length]. lia. }
    destruct (decided c l) eqn:Ed; [rewrite (decided_mono c l [v] Ed), decide_False by done; done|].
    rewrite (decided_new c l v Hni Ed). destruct (is_yes v); [done|]. by destruct (_ =? _).
  - intros (l & v & l' & Hl & Ha)%solo_elem. rewrite Hl. revert Ha. cbn [app]. unfold vote_verdict.
    destruct (bool_decide_reflect (Vote_Author v ∈ voters Vote_Author l)) as [Hin|Hni]; [done|].
    destruct (decided c l); [done|]. destruct (is_yes v) eqn:Ey; [|by case_match].
    intros _. pose proof (tally_mono Vote_Author is_yes (l ++ [v]) l') as Hm.
    rewrite <-app_assoc in Hm. cbn [app] in Hm. rewrite tally_snoc, bool_decide_false, Ey in Hm by done.
    pose proof (tally_nonneg Vote_Author is_yes l). lia.
  - intros (l & v & l' & Hl & Ha)%solo_elem. exists (l ++ [v]). revert Ha. cbn [app].
    unfold vote_verdict.
    destruct (bool_decide_reflect (Vote_Author v ∈ voters Vote_Author l)) as [Hin|Hni]; [done|].
    destruct (decided c l) eqn:Ed; [done|]. destruct (is_yes v) eqn:Ey; [done|].
    destruct (decided c (l ++ [v])) eqn:Ed2; [|done]. intros _.
    split; [exists l'; by rewrite Hl, <-app_assoc|].
    unfold decided in Ed, Ed2. apply orb_false_iff in Ed as [Ed _]. apply Z.ltb_ge in Ed.
    pose proof (tally_nonneg Vote_Author is_yes l).
    rewrite tally_snoc, bool_decide_false, Ey in Ed2 |- * by done.
    rewrite (proj2 (Z.ltb_ge _ _)) in Ed2 by lia. apply Z.leb_le in Ed2. lia.
Qed.

(** *** Coins *)

Section CoinSpec.
Context {K : Kyber}.

Definition coin_key (s : CoinShare) : Z * Z * Z :=
  (CoinShare_Epoch s, CoinShare_Round s, CoinShare_InRound s).

(** Every share counts, whoever sent it and however often: with the
    [HightThreshold]-th the shares so far are combined, never again. *)
Definition coin_verdict (c : Committee) (srv : SigService) (prior : list CoinShare) (s : CoinShare) :
    bool * Z * option error :=
  if Z.of_nat (length (prior ++ [s])) =? HightThreshold c then
    match CombineIntactTSPartial (CoinShare_Share <$> (prior ++ [s])) (ShareKey srv)
            (CoinShare_Hash s) with
    | None => (false, 0, Some ErrExternal)
    | Some data => (true, seed_of uint64 data mod 2, None)
    end
  else (false, 0, None).

Lemma coin_refines (c : Committee) (srv : SigService) :
  refines_verdict NewCoinAggreator (fun s => CoinAggreator_append c srv s)
    (fun i vs => coin_Used i = ∅ /\ Shares i = CoinShare_Share <$> vs) (coin_verdict c srv).
Proof.
  split; [done|]. intros [u l] vs s. cbn. intros [-> ->].
  unfold CoinAggreator_append, coin_verdict. cbn [coin_Used Shares].
  rewrite bool_decide_false by apply not_elem_of_empty.
  assert ((CoinShare_Share <$> vs) ++ [CoinShare_Share s] = CoinShare_Share <$> (vs ++ [s])) as ->
    by by rewrite fmap_app.
  rewrite length_fmap. case_bool; [|done]. by destruct (CombineIntactTSPartial _ _ _).
Qed.

Lemma addCoinShare_run (c : Committee) (srv : SigService) (ss : list CoinShare) :
  (run_calls addCoinShare (NewAggreator c srv) ss).2 =
  verdicts coin_key (coin_verdict c srv) [] ss.
Proof.
  rewrite (run_calls_field coins (fun a => agg_committee a = c /\ agg_sigService a = srv) _
    (fun m s => add_item3 m (coin_key s).1.1 (coin_key s).1.2 (coin_key s).2 NewCoinAggreator
                  (CoinAggreator_append c srv s))).
  - eapply run_verdicts; [apply (add_item3_at_key NewCoinAggreator
      (fun s => CoinAggreator_append c srv s) coin_key)|apply coin_refines|done].
  - done.
  - intros a s [<- <-]. unfold addCoinShare, coin_key. cbn [fst snd].
    by destruct (add_item3 _ _ _ _ _ _).
Qed.

(** The answers of [addCoinShare] to the shares of an inner round, among all. *)
Definition coin_answers (c : Committee) (srv : SigService) (k : Z * Z * Z) (ss : list CoinShare) :
    list (bool * Z * option error) :=
  answers coin_key k ss (run_calls addCoinShare (NewAggreator c srv) ss).2.

End CoinSpec.

(** One faulty node can take the coin of an inner round away from a node: shares are
    counted per message and not per author, so that [HightThreshold] copies of its own
    share fill the aggregator.  If they do not combine, no later share has an answer:
    the node never gets that coin, whatever the correct nodes send. *)
Theorem mvba_coin_blocked {K : Kyber} (c : Committee) (srv : SigService) (s : CoinShare)
    (later : list CoinShare) :
  let th := Z.to_nat (HightThreshold c) in
  CombineIntactTSPartial (replicate th (CoinShare_Share s)) (ShareKey srv) (CoinShare_Hash s) = None ->
  Forall (fun r => r = (false, 0, None) \/ r = (false, 0, Some ErrExternal))
    (coin_answers c srv (coin_key s) (replicate th s ++ later)).
Proof.
  intros th Hc. pose proof (thresholds_pos c) as Hth.
  unfold coin_answers. rewrite addCoinShare_run, answers_verdicts.
  change (at_key coin_key (coin_key s) []) with (@nil CoinShare).
  apply Forall_forall. intros r (l & v & l' & Hl & ->)%solo_elem. cbn [app]. unfold coin_verdict.
  destruct (Z.eqb_spec (Z.of_nat (length (l ++ [v]))) (HightThreshold c)) as [He|]; [|by left].
  assert (l ++ [v] = replicate th s) as Hrep.
  { unfold at_key in Hl. rewrite filter_app in Hl.
    assert (filter (fun x => coin_key x = coin_key s) (replicate th s) = replicate th s) as Hf.
    { apply (at_key_all coin_key). by apply Forall_replicate. }
    rewrite Hf in Hl. assert (length (l ++ [v]) = th) as Hlen by (unfold th; lia).
    assert (l ++ v :: l' = (l ++ [v]) ++ l') as Heq by by rewrite <-app_assoc.
    rewrite Heq in Hl. apply (f_equal (take th)) in Hl.
    rewrite take_app_le in Hl by (rewrite length_replicate; lia).
    rewrite take_ge in Hl by (rewrite length_replicate; lia).
    rewrite <-Hlen, take_app_length in Hl. by rewrite Hlen in Hl. }
  assert (v = s) as ->.
  { assert (v ∈ replicate th s) as Hv by (rewrite <-Hrep; apply elem_of_app; right; constructor).
    by apply elem_of_replicate in Hv as [-> _]. }
  rewrite Hrep, fmap_replicate, Hc. by right.
Qed.

(** Two nodes holding the same group key that both get a coin for the same leader,
    epoch and inner round get the same, from whatever shares; it is one of the two
    flags. *)
Theorem mvba_coin_agreement {K : Kyber} `{!KyberLaws K} (c1 c2 : Committee) (srv1 srv2 : SigService)
    (s1 s2 : CoinShare) (ss1 ss2 : list CoinShare) (b1 b2 : Z) (l : NodeID) :
  SSK_PubPoly (ShareKey srv2) = SSK_PubPoly (ShareKey srv1) ->
  SSK_T (ShareKey srv2) = SSK_T (ShareKey srv1) ->
  SSK_N (ShareKey srv2) = SSK_N (ShareKey srv1) ->
  CoinShare_Epoch s2 = CoinShare_Epoch s1 -> CoinShare_InRound s2 = CoinShare_InRound s1 ->
  Forall (fun s => CoinShare_Leader s = l) (ss1 ++ ss2) ->
  (true, b1, None) ∈ coin_answers c1 srv1 (coin_key s1) ss1 ->
  (true, b2, None) ∈ coin_answers c2 srv2 (coin_key s2) ss2 ->
  b1 = b2 /\ (b1 = FLAG_YES \/ b1 = FLAG_NO).
Proof.
  intros Hpub Ht Hn He Hi [Hl1 Hl2]%Forall_app. unfold coin_answers. rewrite !addCoinShare_run, !answers_verdicts.
  assert (forall c srv s ss b, Forall (fun s => CoinShare_Leader s = l) ss ->
    (true, b, None) ∈ solo (coin_verdict c srv) [] (at_key coin_key (coin_key s) ss) ->
    exists shares data, CombineIntactTSPartial shares (ShareKey srv)
      (hash_parts [BigEndian_AppendUint64 l; BigEndian_AppendUint64 (CoinShare_Epoch s);
                   BigEndian_AppendUint64 (CoinShare_InRound s)]) = Some data /\
      b = seed_of uint64 data mod 2) as H.
  { intros c srv s ss b Hl (h & v & h' & Hv & Ha)%solo_elem. cbn [app] in Ha. unfold coin_verdict in Ha.
    case_match; [|done]. destruct (CombineIntactTSPartial _ _ _) as [data|] eqn:Ec; [|done].
    assert (v ∈ at_key coin_key (coin_key s) ss) as Hin
      by (rewrite Hv; apply elem_of_app; right; constructor).
    unfold at_key in Hin. apply list_elem_of_filter in Hin as [Hk Hin].
    rewrite Forall_forall in Hl. specialize (Hl v Hin). injection Hk as Hk1 _ Hk3.
    unfold CoinShare_Hash in Ec. rewrite Hl, Hk1, Hk3 in Ec. exists (CoinShare_Share <$> (h ++ [v])), data.
    split; [done|]. congruence. }
  intros (sh1 & d1 & Hd1 & ->)%H (sh2 & d2 & Hd2 & ->)%H; [|done..]. rewrite He, Hi in Hd2.
  rewrite (coins_agree _ _ _ _ _ _ _ Hpub Ht Hn Hd1 Hd2). split; [done|].
  pose proof (Z.mod_pos_bound (seed_of uint64 d2) 2 ltac:(lia)). unfold FLAG_YES, FLAG_NO. lia.
Qed.

Section Witness.
Import ToyCrypto ToyNode.

Definition toy_coin (a : nat) : CoinShare :=
  let m := CoinShare_Hash (mkCoinShare (Z.of_nat a) 2 0 0 0 (mkSignatureShare [])) in
  mkCoinShare (Z.of_nat a) 2 0 0 0 (mkSignatureShare (byteZ (Z.of_nat a) :: m)).

Lemma mvba_coin_blocked_witness :
  Forall (fun r => r = (false, 0, None) \/ r = (false, 0, Some ErrExternal))
    (coin_answers (toy_committee 4) (toy_service 4 1) (coin_key (toy_coin 0))
       (replicate (Z.to_nat (HightThreshold (toy_committee 4))) (toy_coin 0) ++
        [toy_coin 1; toy_coin 2; toy_coin 3])).
Proof.
  apply (mvba_coin_blocked (toy_committee 4) (toy_service 4 1) (toy_coin 0)).
  vm_compute. reflexivity.
Defined.

Lemma mvba_coin_agreement_witness :
  exists b1 b2, b1 = b2 /\ (b1 = FLAG_YES \/ b1 = FLAG_NO).
Proof.
  set (ans := coin_answers (toy_committee 4) (toy_service 4 1) (coin_key (toy_coin 0))
                [toy_coin 0; toy_coin 1; toy_coin 2]).
  assert (exists b, (true, b, None) ∈ ans) as [b1 H1].
  { assert (existsb (fun r => r.1.1 && bool_decide (r.2 = None)) ans = true) as He
      by (vm_compute; reflexivity).
    apply existsb_exists in He as ([[[] b] e] & Hin & He); [|discriminate]. exists b.
    apply bool_decide_eq_true in He. cbn in He. subst e. by apply list_elem_of_In. }
  set (ans2 := coin_answers (toy_committee 4) (toy_service 4 3) (coin_key (toy_coin 0))
                [toy_coin 3; toy_coin 1; toy_coin 2]).
  assert (exists b, (true, b, None) ∈ ans2) as [b2 H2].
  { assert (existsb (fun r => r.1.1 && bool_decide (r.2 = None)) ans2 = true) as He
      by (vm_compute; reflexivity).
    apply existsb_exists in He as ([[[] b] e] & Hin & He); [|discriminate]. exists b.
    apply bool_decide_eq_true in He. cbn in He. subst e. by apply list_elem_of_In. }
  exists b1, b2.
  apply (mvba_coin_agreement (toy_committee 4) (toy_committee 4) (toy_service 4 1) (toy_service 4 3)
    (toy_coin 0) (toy_coin 0) [toy_coin 0; toy_coin 1; toy_coin 2]
    [toy_coin 3; toy_coin 1; toy_coin 2] b1 b2 2); try reflexivity; [|exact H1|exact H2].
  by repeat constructor.
Defined.
End Witness.
