(* ===== verification/MvbaElector.v ===== *)
(** * mvba: the elector

    Models src/core/mvba/consensus/elector.go.  A quorum of shares of an epoch gives a
    seed, and the seed a random order of the nodes, from which the leaders of the
    rounds are taken.  [rand.Shuffle] is the loop of the Go library with the indices
    it draws as a parameter: a function of the seed that stays within bounds.  The
    authors seen are looked up and never recorded. *)

From Stdlib Require Import Strings.Byte.
From S2P Require Import Prelude GoStd Crypto Committee Coin MvbaMessage MvbaAggreator.

Open Scope Z_scope.

(** The index that [rand.New(rand.NewSource(seed)).Shuffle(n, swap)] draws for [i],
    which is in [0, i]. *)
Class MathRand := {
  rand_draw : Z -> nat -> nat -> nat;
  rand_draw_le : forall seed n i, (rand_draw seed n i <= i)%nat
}.

(** [l[i], l[j] = l[j], l[i]]; the indices of the loop are in range
    ([Shuffle_in_range]). *)
Definition swap {A : Type} (l : list A) (i j : nat) : list A :=
  match l !! i, l !! j with
  | Some x, Some y => <[j := x]> (<[i := y]> l)
  | _, _ => l
  end.

(** The loop [for ; i > 0; i-- { swap(i, draw) }]. *)
Fixpoint Shuffle_loop {R : MathRand} {A : Type} (seed : Z) (n i : nat) (l : list A) : list A :=
  match i with
  | O => l
  | S i' => Shuffle_loop seed n i' (swap l i (rand_draw seed n i))
  end.
Definition Shuffle {R : MathRand} {A : Type} (seed : Z) (l : list A) : list A :=
  Shuffle_loop seed (length l) (pred (length l)) l.

Section Elector.
Context {K : Kyber} {R : MathRand}.

Record Elector := mkElector {
  el_committee : Committee;
  el_sigService : SigService;
  seeds : gmap Z Z;
  randGen : gmap Z (list NodeID);
  used : gmap Z (gset NodeID);
  electShares : gmap Z (list SignatureShare)
}.
#[export] Instance Elector_eta : Settable Elector := fun e =>
  mkElector (el_committee e) (el_sigService e) (seeds e) (randGen e) (used e) (electShares e).

Definition NewElector (committee : Committee) (sigService : SigService) : Elector :=
  mkElector committee sigService ∅ ∅ ∅ ∅.

Definition addSeed (e : Elector) (epoch seed : Z) : Elector :=
  let randLeader := Z.of_nat <$> seq 0 (Z.to_nat (Committee_Size (el_committee e))) in
  e <| seeds := <[epoch := seed]> (seeds e) |>
    <| randGen := <[epoch := Shuffle seed randLeader]> (randGen e) |>.

Definition addElectShare (e : Elector) (share : ElectShare) : Elector * (bool * option error) :=
  let used_e := default ∅ (used e !! ElectShare_Epoch share) in
  let shares := default [] (electShares e !! ElectShare_Epoch share) in
  let e := e <| used := <[ElectShare_Epoch share := used_e]> (used e) |>
             <| electShares := <[ElectShare_Epoch share := shares]> (electShares e) |> in
  if bool_decide (ElectShare_Author share ∈ used_e) then
    (e, (false, Some (ErrOneMoreMessage ElectShareType (ElectShare_Epoch share) 0
                        (ElectShare_Author share))))
  else
    let shares := shares ++ [ElectShare_Share share] in
    let e := e <| electShares := <[ElectShare_Epoch share := shares]> (electShares e) |> in
    if Z.of_nat (length shares) =? HightThreshold (el_committee e) then
      match CombineIntactTSPartial shares (ShareKey (el_sigService e)) (ElectShare_Hash share) with
      | None => (e, (false, Some ErrExternal))
      | Some data => (addSeed e (ElectShare_Epoch share) (seed_of int64 data), (true, None))
      end
    else (e, (false, None)).

(** An index out of range panics. *)
Definition Leader (e : Elector) (epoch round : Z) : Outcome NodeID :=
  match randGen e !! epoch with
  | None => Ret NONE
  | Some gen =>
      if round <? 0 then Panic
      else match gen !! Z.to_nat round with Some l => Ret l | None => Panic end
  end.

(** ** Specifications *)

Lemma swap_perm {A : Type} (l : list A) (i j : nat) : swap l i j ≡ₚ l.
Proof.
  unfold swap. destruct (l !! i) as [x|] eqn:Hi; [|done]. destruct (l !! j) as [y|] eqn:Hj; [|done].
  destruct (decide (i = j)) as [<-|Hne].
  { rewrite Hi in Hj. injection Hj as <-. by rewrite list_insert_insert_eq, list_insert_id. }
  by apply Permutation_insert_swap.
Qed.

Lemma Shuffle_perm {A : Type} (seed : Z) (l : list A) : Shuffle seed l ≡ₚ l.
Proof.
  unfold Shuffle. generalize (pred (length l)) as i. generalize (length l) as n. intros n i.
  revert l. induction i as [|i IH]; intros l; cbn [Shuffle_loop]; [done|]. by rewrite IH, swap_perm.
Qed.

Lemma length_swap {A : Type} (l : list A) (i j : nat) : length (swap l i j) = length l.
Proof. unfold swap. destruct (l !! i); [|done]. destruct (l !! j); [|done]. by rewrite !length_insert. Qed.

(** Every access of the loop is in range. *)
Lemma Shuffle_in_range {A : Type} (seed : Z) (n i : nat) (l : list A) :
  (i < length l)%nat ->
  is_Some (l !! i) /\ is_Some (l !! rand_draw seed n i) /\
  (pred i < length (swap l i (rand_draw seed n i)))%nat.
Proof.
  intros Hi. pose proof (rand_draw_le seed n i). rewrite !lookup_lt_is_Some, length_swap. lia.
Qed.

(** The leaders of an epoch are the node numbers in some order. *)
Definition gen_ok (e : Elector) : Prop :=
  forall epoch gen, randGen e !! epoch = Some gen ->
    gen ≡ₚ (Z.of_nat <$> seq 0 (Z.to_nat (Committee_Size (el_committee e)))).

Lemma addSeed_gen_ok (e : Elector) (epoch seed : Z) : gen_ok e -> gen_ok (addSeed e epoch seed).
Proof.
  intros He ep gen. unfold addSeed. cbn. rewrite lookup_insert_Some.
  intros [[<- <-]|[_ Hg]]; [apply Shuffle_perm|exact (He _ _ Hg)].
Qed.

Lemma addElectShare_gen_ok (e : Elector) (s : ElectShare) : gen_ok e -> gen_ok (addElectShare e s).1.
Proof.
  intros He. unfold addElectShare. cbn zeta. destruct (bool_decide _); [done|]. destruct (_ =? _); [|done].
  destruct (CombineIntactTSPartial _ _ _); [|done]. by apply addSeed_gen_ok.
Qed.

Lemma addElectShare_committee (e : Elector) (s : ElectShare) :
  el_committee (addElectShare e s).1 = el_committee e.
Proof.
  unfold addElectShare. cbn zeta. destruct (bool_decide _); [done|]. destruct (_ =? _); [|done].
  by destruct (CombineIntactTSPartial _ _ _).
Qed.

(** The answer true comes with leaders for the epoch of the share, and no other epoch
    gets any. *)
Lemma addElectShare_elects (e e' : Elector) (s : ElectShare) (err : option error) :
  addElectShare e s = (e', (true, err)) -> is_Some (randGen e' !! ElectShare_Epoch s).
Proof.
  unfold addElectShare. cbn zeta. destruct (bool_decide _); [done|]. destruct (_ =? _); [|done].
  destruct (CombineIntactTSPartial _ _ _); [|done]. intros [= <- <-]. cbn.
  rewrite lookup_insert_eq. by eexists.
Qed.

Lemma addElectShare_other (e : Elector) (s : ElectShare) (epoch : Z) :
  epoch <> ElectShare_Epoch s -> randGen (addElectShare e s).1 !! epoch = randGen e !! epoch.
Proof.
  intros Hne. unfold addElectShare. cbn zeta. destruct (bool_decide _); [done|]. destruct (_ =? _); [|done].
  destruct (CombineIntactTSPartial _ _ _); [|done]. cbn. by rewrite lookup_insert_ne.
Qed.

(** The leader of a round of an epoch with a seed. *)
Lemma Leader_elected (e : Elector) (epoch round : Z) (gen : list NodeID) :
  gen_ok e -> randGen e !! epoch = Some gen ->
  (0 <= round < Committee_Size (el_committee e) ->
     exists l, Leader e epoch round = Ret l /\ 0 <= l < Committee_Size (el_committee e)) /\
  (~ 0 <= round < Committee_Size (el_committee e) -> Leader e epoch round = Panic).
Proof.
  intros He Hg. pose proof (He _ _ Hg) as Hp. unfold Leader. rewrite Hg.
  assert (length gen = Z.to_nat (Committee_Size (el_committee e))) as Hl
    by by rewrite Hp, length_fmap, length_seq.
  split; intros Hr.
  - rewrite (proj2 (Z.ltb_ge _ _)) by lia.
    destruct (lookup_lt_is_Some_2 gen (Z.to_nat round)) as [l Hi]; [lia|]. rewrite Hi.
    exists l. split; [done|].
    assert (l ∈ gen) as Hin by (apply list_elem_of_lookup; eauto). rewrite Hp in Hin.
    apply list_elem_of_fmap in Hin as (k & -> & Hk%elem_of_seq). lia.
  - case_bool; [done|]. rewrite (proj2 (lookup_ge_None gen _)) by lia. done.
Qed.

(** All shares of an epoch, in the order they came. *)
Definition elect_all (e : Elector) (ss : list ElectShare) : Elector :=
  foldl (fun e s => (addElectShare e s).1) e ss.

Lemma elect_all_ok (c : Committee) (srv : SigService) (ss : list ElectShare) :
  let e := elect_all (NewElector c srv) ss in
  gen_ok e /\ el_committee e = c /\
  forall epoch gen, randGen e !! epoch = Some gen ->
    exists shares data, CombineIntactTSPartial shares (ShareKey srv)
      (hash_parts [LittleEndian_AppendUint64 epoch]) = Some data /\
      gen = Shuffle (seed_of int64 data) (Z.of_nat <$> seq 0 (Z.to_nat (Committee_Size c))).
Proof.
  intros e. subst e. assert (el_sigService (elect_all (NewElector c srv) ss) = srv /\
    gen_ok (elect_all (NewElector c srv) ss) /\
    el_committee (elect_all (NewElector c srv) ss) = c /\
    forall epoch gen, randGen (elect_all (NewElector c srv) ss) !! epoch = Some gen ->
      exists shares data, CombineIntactTSPartial shares (ShareKey srv)
        (hash_parts [LittleEndian_AppendUint64 epoch]) = Some data /\
        gen = Shuffle (seed_of int64 data) (Z.of_nat <$> seq 0 (Z.to_nat (Committee_Size c)))) as H;
    [|apply H].
  unfold elect_all. induction ss as [|s ss IH] using rev_ind; [by split_and!|].
  rewrite foldl_app. cbn [foldl].
  set (e := foldl (fun e s => (addElectShare e s).1) (NewElector c srv) ss) in *.
  destruct IH as (Hs & Hg & Hc & Hd). split_and!.
  - rewrite <-Hs. unfold addElectShare. cbn zeta. destruct (bool_decide _); [done|]. destruct (_ =? _); [|done].
    by destruct (CombineIntactTSPartial _ _ _).
  - by apply addElectShare_gen_ok.
  - by rewrite addElectShare_committee.
  - intros epoch gen. unfold addElectShare. cbn zeta. destruct (bool_decide _); [by apply Hd|].
    destruct (_ =? _); [|by apply Hd]. destruct (CombineIntactTSPartial _ _ _) as [data|] eqn:Ec; [|by apply Hd].
    cbn. rewrite lookup_insert_Some. intros [[<- <-]|[_ Hin]]; [|by apply Hd].
    cbn in Ec. rewrite Hs in Ec. rewrite Hc. eauto.
Qed.

End Elector.

(** C24. The leaders of an epoch, once elected from whatever shares have come in: every
    node of the committee leads exactly one of its rounds, and a round past the size
    of the committee has no leader: asking for it panics. *)
Theorem mvba_leaders_permutation {K : Kyber} {R : MathRand} (c : Committee) (srv : SigService)
    (ss : list ElectShare) (epoch : Z) :
  let e := elect_all (NewElector c srv) ss in
  is_Some (randGen e !! epoch) ->
  (exists ls, ls ≡ₚ (Z.of_nat <$> seq 0 (Z.to_nat (Committee_Size c))) /\
     forall k l, ls !! k = Some l <-> Leader e epoch (Z.of_nat k) = Ret l) /\
  (forall round, ~ 0 <= round < Committee_Size c -> Leader e epoch round = Panic).
Proof.
  intros e [gen Hg]. destruct (elect_all_ok c srv ss) as (Hok & Hc & _). fold e in Hok, Hc. split.
  - exists gen. rewrite <-Hc. split; [exact (Hok _ _ Hg)|]. intros k l. unfold Leader. rewrite Hg.
    rewrite (proj2 (Z.ltb_ge _ _)), Nat2Z.id by lia. destruct (gen !! k); naive_solver.
  - intros round Hr. rewrite <-Hc in Hr. by apply (Leader_elected e epoch round gen).
Qed.

(** Two nodes of one committee holding the same group key that have both elected the
    leaders of an epoch have the same leader in every round, from whatever shares in
    whatever order. *)
Theorem mvba_leader_agreement {K : Kyber} {R : MathRand} `{!KyberLaws K} (c : Committee)
    (srv1 srv2 : SigService) (ss1 ss2 : list ElectShare) (epoch round : Z) :
  SSK_PubPoly (ShareKey srv2) = SSK_PubPoly (ShareKey srv1) ->
  SSK_T (ShareKey srv2) = SSK_T (ShareKey srv1) ->
  SSK_N (ShareKey srv2) = SSK_N (ShareKey srv1) ->
  let e1 := elect_all (NewElector c srv1) ss1 in
  let e2 := elect_all (NewElector c srv2) ss2 in
  is_Some (randGen e1 !! epoch) -> is_Some (randGen e2 !! epoch) ->
  Leader e1 epoch round = Leader e2 epoch round.
Proof.
  intros Hpub Ht Hn e1 e2 [g1 H1] [g2 H2].
  destruct (elect_all_ok c srv1 ss1) as (_ & _ & Hd1). destruct (Hd1 _ _ H1) as (sh1 & d1 & Hc1 & Hg1).
  destruct (elect_all_ok c srv2 ss2) as (_ & _ & Hd2). destruct (Hd2 _ _ H2) as (sh2 & d2 & Hc2 & Hg2).
  rewrite (coins_agree _ _ _ _ _ _ _ Hpub Ht Hn Hc1 Hc2) in Hg1.
  unfold Leader. by rewrite H1, H2, Hg1, Hg2.
Qed.

(** A source of indices with the promised bounds. *)
Module ToyRand.
#[export] Instance toy_rand : MathRand.
Proof.
  refine {| rand_draw := fun seed n i => (Z.to_nat (seed mod 7) * (S i) / 11 mod (S i))%nat |}.
  intros seed n i. pose proof (Nat.mod_upper_bound (Z.to_nat (seed mod 7) * S i / 11) (S i)). lia.
Defined.
End ToyRand.

Section Witness.
Import ToyCrypto ToyNode ToyRand.

Definition toy_elect (a : nat) : ElectShare :=
  let m := ElectShare_Hash (mkElectShare (Z.of_nat a) 0 (mkSignatureShare [])) in
  mkElectShare (Z.of_nat a) 0 (mkSignatureShare (byteZ (Z.of_nat a) :: m)).
Definition toy_elector (i : nat) (l : list nat) : Elector :=
  elect_all (NewElector (toy_committee 4) (toy_service 4 i)) (toy_elect <$> l).

Lemma toy_elected (i : nat) (l : list nat) :
  bool_decide (is_Some (randGen (toy_elector i l) !! 0)) = true ->
  is_Some (randGen (elect_all (NewElector (toy_committee 4) (toy_service 4 i)) (toy_elect <$> l)) !! 0).
Proof. apply bool_decide_eq_true. Qed.

Lemma mvba_leaders_permutation_witness :
  (exists ls, ls ≡ₚ (Z.of_nat <$> seq 0 (Z.to_nat (Committee_Size (toy_committee 4)))) /\
     forall k l, ls !! k = Some l <->
       Leader (elect_all (NewElector (toy_committee 4) (toy_service 4 1)) (toy_elect <$> [0%nat; 2%nat; 3%nat]))
         0 (Z.of_nat k) = Ret l) /\
  (forall round, ~ 0 <= round < Committee_Size (toy_committee 4) ->
     Leader (elect_all (NewElector (toy_committee 4) (toy_service 4 1)) (toy_elect <$> [0%nat; 2%nat; 3%nat]))
       0 round = Panic).
Proof.
  assert (bool_decide (is_Some (randGen (toy_elector 1 [0%nat; 2%nat; 3%nat]) !! 0)) = true) as H
    by (vm_compute; reflexivity).
  exact (mvba_leaders_permutation (toy_committee 4) (toy_service 4 1)
    (toy_elect <$> [0%nat; 2%nat; 3%nat]) 0 (toy_elected _ _ H)).
Defined.

Lemma mvba_leader_agreement_witness :
  Leader (elect_all (NewElector (toy_committee 4) (toy_service 4 1)) (toy_elect <$> [0%nat; 2%nat; 3%nat])) 0 1 =
  Leader (elect_all (NewElector (toy_committee 4) (toy_service 4 2)) (toy_elect <$> [3%nat; 1%nat; 2%nat])) 0 1.
Proof.
  assert (bool_decide (is_Some (randGen (toy_elector 1 [0%nat; 2%nat; 3%nat]) !! 0)) = true) as H1
    by (vm_compute; reflexivity).
  assert (bool_decide (is_Some (randGen (toy_elector 2 [3%nat; 1%nat; 2%nat]) !! 0)) = true) as H2
    by (vm_compute; reflexivity).
  exact (mvba_leader_agreement (toy_committee 4) (toy_service 4 1) (toy_service 4 2)
    (toy_elect <$> [0%nat; 2%nat; 3%nat]) (toy_elect <$> [3%nat; 1%nat; 2%nat]) 0 1 eq_refl eq_refl eq_refl
    (toy_elected _ _ H1) (toy_elected _ _ H2)).
Defined.
End Witness.
