(* ===== verification/MvbaCommitor.v ===== *)
(** * mvba: ordered delivery

    Models src/core/mvba/consensus/commitor.go.  A block is committed under an epoch
    that is an argument of the call, not a field of the block, and the leader of the
    epoch is recorded even when the block is not there yet.  [delivery] holds
    [curIndex], [commitBlocks] and the sequence sent on [blockChan], each block with
    the epoch it was committed under; its loop is that of the other packages. *)

From S2P Require Import Prelude Committee Pool Deliver MvbaMessage.

Open Scope Z_scope.

Record Commitor := mkCommitor {
  commitLeaders : gmap Z NodeID;
  delivery : Committor (Z * Block)
}.
#[export] Instance Commitor_eta : Settable Commitor := fun c =>
  mkCommitor (commitLeaders c) (delivery c).

Definition NewCommitor : Commitor := mkCommitor ∅ NewCommittor.

Definition CommitLeader (c : Commitor) (epoch : Z) : NodeID :=
  default NONE (commitLeaders c !! epoch).

(** The loop removes a block in every iteration: its fuel is enough
    ([mvba_Commit_returns]). *)
Definition Commit (c : Commitor) (epoch : Z) (leader : NodeID) (block : option Block) :
    Outcome Commitor :=
  if epoch <? Index (delivery c) then Ret c
  else
    let c := c <| commitLeaders := <[epoch := leader]> (commitLeaders c) |> in
    match block with
    | None => Ret c
    | Some block =>
        let d := (delivery c) <| Blocks := <[epoch := (epoch, block)]> (Blocks (delivery c)) |> in
        match commit_loop (S (size (Blocks d))) d with
        | Some d => Ret (c <| delivery := d |>)
        | None => Panic
        end
    end.

(** The goroutine of [NewCommitor] that consumes the channel: a line (epoch, proposer,
    batch id) is logged for a block with transactions, every block signals
    [callBack]. *)
Definition consume_step (st : list (Z * NodeID * Z) * nat) (block : Block) :
    list (Z * NodeID * Z) * nat :=
  let '(lines, callbacks) := st in
  ((match Batch_Txs (Block_Batch block) with
    | Some _ => lines ++ [(Block_Epoch block, Proposer block, Batch_ID (Block_Batch block))]
    | None => lines
    end), S callbacks).
Definition consume (blocks : list Block) : list (Z * NodeID * Z) * nat :=
  foldl consume_step ([], 0%nat) blocks.

(** ** Specifications *)

(** With a block it is the commitor of the other packages. *)
Lemma mvba_Commit_deliver (c : Commitor) (epoch : Z) (leader : NodeID) (b : Block) :
  exists d, Deliver.Commit fst (delivery c) (Some (epoch, b)) = Ret d /\
    Commit c epoch leader (Some b) =
      Ret (mkCommitor (if epoch <? Index (delivery c) then commitLeaders c
                       else <[epoch := leader]> (commitLeaders c)) d).
Proof.
  destruct (Commit_returns fst (delivery c) (epoch, b)) as [d Hd]. exists d. split; [done|].
  revert Hd. unfold Commit, Deliver.Commit. cbn [fst]. destruct (epoch <? Index (delivery c)).
  - intros [= <-]. by destruct c.
  - cbn zeta. cbn [delivery set_field].
    match goal with |- context [commit_loop ?f ?x] => destruct (commit_loop f x) end; [|done].
    by intros [= <-].
Qed.

Lemma mvba_Commit_returns (c : Commitor) (epoch : Z) (leader : NodeID) (b : option Block) :
  exists c', Commit c epoch leader b = Ret c' /\
    commitCh (delivery c) `prefix_of` commitCh (delivery c') /\
    (forall e, is_Some (commitLeaders c' !! e) -> e = epoch \/ is_Some (commitLeaders c !! e)).
Proof.
  destruct b as [b|].
  - destruct (mvba_Commit_deliver c epoch leader b) as (d & Hd & ->). eexists. split; [done|].
    cbn. split; [by eapply Commit_prefix|]. intros e. case_bool; [by right|].
    rewrite lookup_insert_is_Some'. naive_solver.
  - unfold Commit. case_bool; (eexists; split; [done|]); [auto|]. cbn. split; [done|].
    intros e. rewrite lookup_insert_is_Some'. naive_solver.
Qed.

(** A call: the epoch, its leader, and the block if the node has it. *)
Definition call : Type := Z * NodeID * option Block.

Fixpoint commit_calls (c : Commitor) (l : list call) : Outcome Commitor :=
  match l with
  | [] => Ret c
  | (e, n, b) :: l => c' ← Commit c e n b; commit_calls c' l
  end.

(** The blocks among the calls, with their epochs. *)
Definition blocks_of (l : list call) : list (Z * Block) :=
  omap (fun x => (fun b => (x.1.1, b)) <$> x.2) l.

Lemma commit_calls_deliver (c : Commitor) (l : list call) :
  exists c' d, commit_calls c l = Ret c' /\ delivery c' = d /\
    commit_all fst (delivery c) (blocks_of l) = Ret d.
Proof.
  revert c. induction l as [|[[e n] [b|]] l IH]; intros c; cbn [commit_calls blocks_of omap list_omap].
  - by exists c, (delivery c).
  - destruct (mvba_Commit_deliver c e n b) as (d & Hd & ->). cbn [mbind Outcome_bind].
    cbn [fst snd fmap option_fmap option_map commit_all]. rewrite Hd. cbn [mbind Outcome_bind].
    exact (IH (mkCommitor _ d)).
  - unfold Commit. cbn [snd fmap option_fmap option_map]. case_bool; cbn [mbind Outcome_bind];
      [apply IH|]. destruct (IH (c <| commitLeaders := <[e := n]> (commitLeaders c) |>)) as (c' & d & Hcd).
    by exists c', d.
Qed.

(** C19. Every call of [Commit] returns, whatever is committed in whatever order, and what
    is sent on the channel is in epoch order without gap or repetition: the [k]-th
    block sent was committed under epoch [k], and it is sent as soon as all epochs up
    to [k] have a block. *)
Theorem mvba_commit_in_order (l : list call) :
  Forall (fun x => x.1 < last_epoch) (blocks_of l) ->
  exists c, commit_calls NewCommitor l = Ret c /\
    (forall (k : nat) e b, commitCh (delivery c) !! k = Some (e, b) ->
       e = Z.of_nat k /\ (e, b) ∈ blocks_of l) /\
    (forall k : nat, (k < length (commitCh (delivery c)))%nat <->
       forall j : nat, (j <= k)%nat -> exists b, (Z.of_nat j, b) ∈ blocks_of l).
Proof.
  intros Hl. destruct (commit_calls_deliver NewCommitor l) as (c & d & Hc & <- & Hd).
  destruct (deliver_in_order fst (blocks_of l) Hl) as (d' & Hd' & H1 & H2).
  change (delivery NewCommitor) with (@NewCommittor (Z * Block)) in Hd.
  rewrite Hd in Hd'. injection Hd' as <-. exists c. split_and!; [done|..].
  - intros k e b Hk. exact (H1 k (e, b) Hk).
  - intros k. rewrite H2. split; intros H j Hj; destruct (H j Hj) as [x Hx].
    + destruct x as [e b], Hx as [Hin He]. cbn in He. subst e. eauto.
    + by exists (Z.of_nat j, x).
Qed.

Lemma mvba_commit_in_order_witness :
  exists c, commit_calls NewCommitor
    [(1, 2, Some (mkBlock 2 (mkBatch 5 None) 1)); (0, 3, None);
     (0, 3, Some (mkBlock 3 (mkBatch 4 None) 0))] = Ret c /\
    (length (commitCh (delivery c)) = 2)%nat.
Proof.
  destruct (mvba_commit_in_order
    [(1, 2, Some (mkBlock 2 (mkBatch 5 None) 1)); (0, 3, None);
     (0, 3, Some (mkBlock 3 (mkBatch 4 None) 0))]) as (c & Hc & _).
  { by repeat constructor. }
  exists c. split; [exact Hc|]. revert Hc. vm_compute. intros [= <-]. reflexivity.
Defined.
