(* ===== verification/MvbaInstance.v ===== *)
(** * mvba: instances of broadcast and agreement

    Models src/core/mvba/consensus/cbc.go and aba.go.  The [Process...] methods run as
    goroutines that share the instance; they are cut at every access to shared memory
    (the block hash and commitment under [BMutex], the lists under [unHandleMutex], the
    atomic counters; the counters of the agreement under [valMutex] and [muxMutex], its
    flags under [flagMutex], the atomic [halt]) so that a scheduler can interleave them
    the way Go may.  A lock that is held over a send is released with the step here:
    that allows more interleavings, never fewer.  [cbc_pc] and [aba_pc] name where a
    goroutine stands, [cbc_step] and [aba_step] are the step it makes next. *)

From S2P Require Import Prelude Crypto Committee Runtime MvbaMessage.

Open Scope Z_scope.

(** ** Call backs, goroutines and effects *)

Record CBCBack := mkCBCBack {
  CBCBack_Epoch : Z;
  CBCBack_Author : NodeID;
  CBCBack_Tag : Z;
  CBCBack_Commitment : bool_slice
}.

Definition DATA_CBC : Z := 0.
Definition COMMIT_CBC : Z := 1.

Definition ABA_INVOKE : Z := 0.
Definition ABA_HALT : Z := 1.

Record ABABack := mkABABack {
  ABABack_Typ : Z;
  ABABack_Epoch : Z;
  ABABack_ExRound : Z;
  ABABack_InRound : Z;
  ABABack_Flag : Z;
  ABABack_Leader : NodeID
}.

(** Where a goroutine of a broadcast stands. *)
Inductive cbc_pc :=
| CProposal (p : Proposal)        (* ProcessProposal(p) *)
| CCommitment (p : Commitment)    (* ProcessCommitment(p) *)
| CDrain (tag : Z)                (* the block hash or commitment is stored *)
| CVote (tag : Z)                 (* the lists were restarted *)
| CReady (r : Ready)              (* ProcessReady(r) *)
| CReadyAside (r : Ready)         (* nothing was stored yet *)
| CReadyCount (r : Ready)         (* something was *)
| CFinal (f : Final)              (* ProcessFinal(f) *)
| CFinalAside (f : Final)         (* nothing was stored yet *)
| CFinalCount (f : Final)         (* something was *)
| CFinalNotify (f : Final).       (* counted as the first *)

(** Where a goroutine of an agreement stands. *)
Inductive aba_pc :=
| AVal (v : ABAVal)                            (* ProcessABAVal(v) *)
| AValCount (v : ABAVal)                       (* not halted *)
| AValMux (v : ABAVal)                         (* counted as the quorum's last *)
| AMux (m : ABAMux)                            (* ProcessABAMux(m) *)
| AMuxFin (m : ABAMux)                         (* not halted *)
| AMuxCount (m : ABAMux)                       (* the inner round is not finished *)
| AMuxVals (m : ABAMux) (yes no : Z)           (* counted *)
| AMuxDecide (m : ABAMux) (yes no vyes vno : Z) (* the vals were read *)
| ACoin (inRound coin : Z) (leader : NodeID)   (* ProcessCoin(inRound, coin, leader) *)
| AHalt (h : ABAHalt).                         (* ProcessHalt(h) *)

(** On the broadcast of (epoch, node, tag) or the agreement of (epoch, round). *)
Inductive Thread :=
| TCBC (epoch : Z) (node : NodeID) (tag : Z) (pc : cbc_pc)
| TABA (epoch round : Z) (pc : aba_pc).

(** What the select loop takes: a message, or a call back of an instance. *)
Inductive Ev :=
| EvMsg (m : Message)
| EvCBC (b : CBCBack)
| EvABA (b : ABABack).

Abbreviation effect := (Effect Ev Message Thread).

(** The channels: [recvCh], [cbcCallBack], [abaCallBack]. *)
Definition recvCh : nat := 0.
Definition cbcCallBack : nat := 1.
Definition abaCallBack : nat := 2.

Definition to_self (m : Message) : effect := EPush recvCh (EvMsg m).

Section Steps.
Context {E : Ed25519} {K : Kyber}.
(** The fields of [c] the instances use. *)
Context (Name : NodeID) (committee : Committee) (sigService : SigService).

(** [Send(Name, NONE, m)], then [RecvChannel() <- m]. *)
Definition send_all {S : Type} (m : Message) : M S effect unit :=
  _ ← emit (ESend Name NONE m); emit (to_self m).

(** ** Consistent broadcast *)

Record CBC := mkCBC {
  cbc_Proposer : NodeID;
  cbc_Epoch : Z;
  BlockHash : option Digest;
  cbc_Commitment : bool_slice;
  unHandleReady : list Ready;
  unHandleFinal : list Final;
  readyCnts : Z;
  finalCnts : Z
}.
#[export] Instance CBC_eta : Settable CBC := fun c =>
  mkCBC (cbc_Proposer c) (cbc_Epoch c) (BlockHash c) (cbc_Commitment c) (unHandleReady c)
    (unHandleFinal c) (readyCnts c) (finalCnts c).

Definition NewCBC (Proposer : NodeID) (Epoch : Z) : CBC :=
  mkCBC Proposer Epoch None SNil [] [] 0 0.

(** An [atomic.Int32] wraps. *)
Definition int32 (z : Z) : Z := wrapS 32 z.

Definition is_nil (s : bool_slice) : bool := match s with SNil => true | _ => false end.

(** Nothing to vote on yet: [flag] of [ProcessReady] and [ProcessFinal]. *)
Definition waits (tag : Z) (s : CBC) : bool :=
  if tag =? DATA_CBC then match BlockHash s with None => true | Some _ => false end
  else if tag =? COMMIT_CBC then is_nil (cbc_Commitment s)
  else false.

Definition cbc_step (epoch : Z) (node : NodeID) (tag : Z) (pc : cbc_pc) : M CBC effect (option cbc_pc) :=
  s ← get_st;
  match pc with
  | CProposal p =>
      if negb (Proposal_Author p =? cbc_Proposer s) then mret None
      else
        match Proposal_B p with
        | None => panic
        | Some b =>
            _ ← modify (fun s => s <| BlockHash := Some (Block_Hash b) |>);
            mret (Some (CDrain DATA_CBC))
        end
  | CCommitment p =>
      if negb (Commitment_Author p =? cbc_Proposer s) then mret None
      else
        _ ← modify (fun s => s <| cbc_Commitment := Commitment_C p |>);
        mret (Some (CDrain COMMIT_CBC))
  | CDrain t =>
      fun s => Ret (Some (CVote t), s <| unHandleReady := [] |> <| unHandleFinal := [] |>,
                    ((fun r => EGo (TCBC epoch node tag (CReady r))) <$> unHandleReady s) ++
                    ((fun f => EGo (TCBC epoch node tag (CFinal f))) <$> unHandleFinal s))
  | CVote t =>
      ready ← lift_outcome (NewReady sigService Name (cbc_Proposer s) (cbc_Epoch s) t);
      _ ← (if Name =? cbc_Proposer s then emit (to_self (MReady ready))
           else emit (ESend Name (cbc_Proposer s) (MReady ready)));
      mret None
  | CReady r => mret (Some (if waits (Ready_Tag r) s then CReadyAside r else CReadyCount r))
  | CReadyAside r =>
      _ ← modify (fun s => s <| unHandleReady := unHandleReady s ++ [r] |>); mret None
  | CReadyCount r =>
      let cnts := int32 (readyCnts s + 1) in
      _ ← modify (fun s => s <| readyCnts := cnts |>);
      if cnts =? HightThreshold committee then
        final ← lift_outcome (NewFinal sigService Name (cbc_Epoch s) (Ready_Tag r));
        _ ← send_all (MFinal final);
        mret None
      else mret None
  | CFinal f => mret (Some (if waits (Final_Tag f) s then CFinalAside f else CFinalCount f))
  | CFinalAside f =>
      _ ← modify (fun s => s <| unHandleFinal := unHandleFinal s ++ [f] |>); mret None
  | CFinalCount f =>
      let cnts := int32 (finalCnts s + 1) in
      _ ← modify (fun s => s <| finalCnts := cnts |>);
      mret (if cnts =? 1 then Some (CFinalNotify f) else None)
  | CFinalNotify f =>
      _ ← emit (EPush cbcCallBack (EvCBC (mkCBCBack (cbc_Epoch s) (cbc_Proposer s) (Final_Tag f)
                                           (cbc_Commitment s))));
      mret None
  end.

(** ** Binary agreement *)

Record ABA := mkABA {
  aba_Epoch : Z;
  ExRound : Z;
  valYesCnt : gmap Z Z;
  valNoCnt : gmap Z Z;
  muxFlag : gset Z;
  muxFinFlag : gset Z;
  yesFlag : gset Z;
  noFlag : gset Z;
  muxYesCnt : gmap Z Z;
  muxNoCnt : gmap Z Z;
  halt : bool
}.
#[export] Instance ABA_eta : Settable ABA := fun a =>
  mkABA (aba_Epoch a) (ExRound a) (valYesCnt a) (valNoCnt a) (muxFlag a) (muxFinFlag a)
    (yesFlag a) (noFlag a) (muxYesCnt a) (muxNoCnt a) (halt a).

Definition NewABA (Epoch ExRound : Z) : ABA :=
  mkABA Epoch ExRound ∅ ∅ ∅ ∅ ∅ ∅ ∅ ∅ false.

(** [m[i]] of a map of counters. *)
Definition count (m : gmap Z Z) (i : Z) : Z := default 0 (m !! i).
Definition incr (m : gmap Z Z) (i : Z) : gmap Z Z := <[i := count m i + 1]> m.

(** Count a val; the counter it increased, or 0 for an unknown flag. *)
Definition count_val (v : ABAVal) (a : ABA) : ABA * Z :=
  let i := ABAVal_InRound v in
  if ABAVal_Flag v =? FLAG_NO
  then (a <| valNoCnt := incr (valNoCnt a) i |>, count (valNoCnt a) i + 1)
  else if ABAVal_Flag v =? FLAG_YES
  then (a <| valYesCnt := incr (valYesCnt a) i |>, count (valYesCnt a) i + 1)
  else (a, 0).

Definition count_mux (m : ABAMux) (a : ABA) : ABA :=
  let i := ABAMux_InRound m in
  if ABAMux_Flag m =? FLAG_NO then a <| muxNoCnt := incr (muxNoCnt a) i |>
  else if ABAMux_Flag m =? FLAG_YES then a <| muxYesCnt := incr (muxYesCnt a) i |>
  else a.

(** Which of [yesFlag] and [noFlag] an inner round gets. *)
Definition mux_flags (yes no vyes vno : Z) : bool * bool :=
  let th := HightThreshold committee in
  if th <=? yes + no then
    if (th <=? vyes) && (th <=? vno) then (0 <? yes, 0 <? no)
    else if (th <=? vyes) && (th <=? yes) then (true, false)
    else if (th <=? vno) && (th <=? no) then (false, true)
    else (false, false)
  else (false, false).

Definition set_flags (i : Z) (y n : bool) (a : ABA) : ABA :=
  let a := if y then a <| yesFlag := {[i]} ∪ yesFlag a |> <| muxFinFlag := {[i]} ∪ muxFinFlag a |>
           else a in
  if n then a <| noFlag := {[i]} ∪ noFlag a |> <| muxFinFlag := {[i]} ∪ muxFinFlag a |> else a.

(** The nil share of a failed threshold signature is a typed nil pointer. *)
Definition coin_msg (share : option CoinShare) : Message :=
  match share with Some s => MCoinShare s | None => MNil CoinShareType end.

Definition decide_step (m : ABAMux) (yes no vyes vno : Z) : M ABA effect (option aba_pc) :=
  a ← get_st;
  if bool_decide (ABAMux_InRound m ∈ muxFinFlag a) then mret None
  else
    let '(y, n) := mux_flags yes no vyes vno in
    _ ← modify (set_flags (ABAMux_InRound m) y n);
    if y || n then
      share ← lift_outcome (NewCoinShare sigService Name (ABAMux_Leader m) (ABAMux_Epoch m)
                              (ABAMux_Round m) (ABAMux_InRound m));
      _ ← send_all (coin_msg share);
      mret None
    else mret None.

Definition coin_step (inRound coin : Z) (leader : NodeID) : M ABA effect (option aba_pc) :=
  a ← get_st;
  let okYes := bool_decide (inRound ∈ yesFlag a) in
  let okNo := bool_decide (inRound ∈ noFlag a) in
  let next flag :=
    v ← lift_outcome (NewABAVal sigService Name leader (aba_Epoch a) (ExRound a)
                        (int64 (inRound + 1)) flag);
    _ ← send_all (MABAVal v);
    mret None in
  if (okYes && okNo) || (negb okYes && negb okNo) then next coin
  else if (okYes && (coin =? FLAG_YES)) || (okNo && (coin =? FLAG_NO)) then
    h ← lift_outcome (NewABAHalt sigService Name leader (aba_Epoch a) (ExRound a) inRound coin);
    _ ← send_all (MABAHalt h);
    mret None
  else next (if okYes then FLAG_YES else FLAG_NO).

Definition halt_step (h : ABAHalt) : M ABA effect (option aba_pc) :=
  a ← get_st;
  if halt a then mret None
  else
    _ ← modify (fun a => a <| halt := true |>);
    temp ← lift_outcome (NewABAHalt sigService Name (ABAHalt_Leader h) (aba_Epoch a) (ExRound a)
                           (ABAHalt_InRound h) (ABAHalt_Flag h));
    _ ← send_all (MABAHalt temp);
    _ ← emit (EPush abaCallBack (EvABA (mkABABack ABA_HALT (ABAHalt_Epoch h) (ABAHalt_Round h)
                                         (ABAHalt_InRound h) (ABAHalt_Flag h) (ABAHalt_Leader h))));
    mret None.

Definition aba_step (pc : aba_pc) : M ABA effect (option aba_pc) :=
  a ← get_st;
  match pc with
  | AVal v => mret (if halt a then None else Some (AValCount v))
  | AValCount v =>
      let '(a', cnt) := count_val v a in
      _ ← modify (fun _ => a');
      if cnt =? LowThreshold committee then
        _ ← emit (EPush abaCallBack (EvABA (mkABABack ABA_INVOKE (aba_Epoch a) (ExRound a)
                                             (ABAVal_InRound v) (ABAVal_Flag v) (ABAVal_Leader v))));
        mret None
      else mret (if cnt =? HightThreshold committee then Some (AValMux v) else None)
  | AValMux v =>
      if bool_decide (ABAVal_InRound v ∈ muxFlag a) then mret None
      else
        _ ← modify (fun a => a <| muxFlag := {[ABAVal_InRound v]} ∪ muxFlag a |>);
        mux ← lift_outcome (NewABAMux sigService Name (ABAVal_Leader v) (ABAVal_Epoch v)
                              (ABAVal_Round v) (ABAVal_InRound v) (ABAVal_Flag v));
        _ ← send_all (MABAMux mux);
        mret None
  | AMux m => mret (if halt a then None else Some (AMuxFin m))
  | AMuxFin m =>
      mret (if bool_decide (ABAMux_InRound m ∈ muxFinFlag a) then None else Some (AMuxCount m))
  | AMuxCount m =>
      let a' := count_mux m a in
      _ ← modify (fun _ => a');
      mret (Some (AMuxVals m (count (muxYesCnt a') (ABAMux_InRound m))
                    (count (muxNoCnt a') (ABAMux_InRound m))))
  | AMuxVals m yes no =>
      mret (Some (AMuxDecide m yes no (count (valYesCnt a) (ABAMux_InRound m))
                    (count (valNoCnt a) (ABAMux_InRound m))))
  | AMuxDecide m yes no vyes vno => decide_step m yes no vyes vno
  | ACoin inRound coin leader => coin_step inRound coin leader
  | AHalt h => halt_step h
  end.

End Steps.
