(* ===== verification/MvbaInvariant.v ===== *)
(** * mvba: what the goroutines of an instance keep

    Invariants of a broadcast and of an agreement that every step of every goroutine
    keeps, what a goroutine knows where it stands, and that no step panics.  The flags
    of an agreement are backed by the counters, and with every inner round that is
    finished one share of its coin has been sent. *)

From S2P Require Import Prelude Crypto Committee Runtime MvbaMessage MvbaInstance.

Open Scope Z_scope.

(** ** Counting sent messages *)

Definition sends_of (f : Message -> bool) (es : list effect) : nat :=
  length (filter (fun x => match x with ESend _ _ m => f m | _ => false end = true) es).

(** The coin share, or the mux, of an inner round. *)
Definition is_coin (e r i : Z) (m : Message) : bool :=
  match m with
  | MCoinShare s => bool_decide ((CoinShare_Epoch s, CoinShare_Round s, CoinShare_InRound s) = (e, r, i))
  | _ => false
  end.
Definition is_mux (e r i : Z) (m : Message) : bool :=
  match m with
  | MABAMux s => bool_decide ((ABAMux_Epoch s, ABAMux_Round s, ABAMux_InRound s) = (e, r, i))
  | _ => false
  end.

Lemma sends_of_app (f : Message -> bool) (es1 es2 : list effect) :
  sends_of f (es1 ++ es2) = (sends_of f es1 + sends_of f es2)%nat.
Proof. unfold sends_of. by rewrite filter_app, length_app. Qed.

Lemma sends_of_none (f : Message -> bool) (es : list effect) :
  Forall (fun x => forall g t m, x = ESend g t m -> f m = false) es -> sends_of f es = 0%nat.
Proof.
  intros H. unfold sends_of. induction H as [|x es Hx _ IH]; [done|].
  rewrite filter_cons, decide_False; [exact IH|]. destruct x as [g t m| |]; try done.
  by rewrite (Hx g t m eq_refl).
Qed.

(** The messages of a kind among those sent. *)
Definition sent_of (f : Message -> bool) (l : list (NodeID * NodeID * Message)) : nat :=
  length (filter (fun x => f x.2 = true) l).

Lemma sends_of_sends (f : Message -> bool) (es : list effect) : sends_of f es = sent_of f (sends es).
Proof.
  unfold sends_of, sent_of. induction es as [|x es IH]; [done|]. rewrite filter_cons.
  destruct x as [g t m|ch ev|t]; cbn [sends omap list_omap].
  - rewrite filter_cons. cbn [snd]. by case_decide; cbn [length]; rewrite IH.
  - rewrite decide_False by done. exact IH.
  - rewrite decide_False by done. exact IH.
Qed.

Definition mark (s : gset Z) (i : Z) : nat := if decide (i ∈ s) then 1 else 0.

Section Steps.
Context {E : Ed25519} {K : Kyber} (Name : NodeID) (committee : Committee) (sigService : SigService).

(** ** Well-formed events *)

(** A message names a member as its author, and a proposal carries a block. *)
Definition msg_ok (m : Message) : Prop :=
  (exists a, msg_author m = Some a /\ a ∈ members committee) /\ in_int64 (msg_epoch m) /\
  proposal_wf m.

Definition event_ok (ev : Ev) : Prop :=
  match ev with
  | EvMsg m => msg_ok m
  | EvCBC b => CBCBack_Author b ∈ members committee /\ in_int64 (CBCBack_Epoch b)
  | EvABA b => in_int64 (ABABack_Epoch b)
  end.

(** What the network delivers. *)
Definition net_ok (ev : Ev) : Prop := exists m, ev = EvMsg m /\ msg_ok m.

(** A message of the node itself. *)
Definition own (m : Message) : Prop :=
  msg_author m = Some Name /\ Verify committee m = Ret true /\ in_int64 (msg_epoch m) /\ proposal_wf m.

Lemma mvba_own_event (m : Message) : Name ∈ members committee -> own m -> msg_ok m.
Proof. intros Hn (Ha & _ & He & Hp). split_and!; eauto. Qed.

(** ** Broadcasts *)

(** Finals wait only for a proposer that is a member. *)
Record cbc_ok (epoch : Z) (node : NodeID) (s : CBC) : Prop := {
  bo_epoch : cbc_Epoch s = epoch;
  bo_node : cbc_Proposer s = node;
  bo_final : unHandleFinal s <> [] -> node ∈ members committee
}.

Definition cbc_pc_ok (node : NodeID) (pc : cbc_pc) : Prop :=
  match pc with
  | CProposal p => is_Some (Proposal_B p)
  | CFinal _ | CFinalAside _ | CFinalCount _ | CFinalNotify _ => node ∈ members committee
  | _ => True
  end.

(** A hash that was stored is replaced at most. *)
Definition cbc_le (s s' : CBC) : Prop := is_Some (BlockHash s) -> is_Some (BlockHash s').

Definition cbc_effect_ok (epoch : Z) (node : NodeID) (tag : Z) (x : effect) : Prop :=
  match x with
  | ESend f _ m => f = Name /\ own m /\ (forall p, m <> MCoinShare p) /\ (forall p, m <> MABAMux p)
  | EPush _ ev => event_ok ev
  | EGo t => exists pc, t = TCBC epoch node tag pc /\ cbc_pc_ok node pc
  end.

Definition cbc_post (epoch : Z) (node : NodeID) (tag : Z) (s : CBC) (pc' : option cbc_pc) (s' : CBC)
    (es : list effect) : Prop :=
  cbc_ok epoch node s' /\ cbc_le s s' /\ Forall (cbc_effect_ok epoch node tag) es /\
  (forall pc'', pc' = Some pc'' -> cbc_pc_ok node pc'').

Lemma cbc_post_same (epoch : Z) (node : NodeID) (tag : Z) (s : CBC) (pc' : option cbc_pc)
    (es : list effect) :
  cbc_ok epoch node s -> Forall (cbc_effect_ok epoch node tag) es ->
  (forall pc'', pc' = Some pc'' -> cbc_pc_ok node pc'') -> cbc_post epoch node tag s pc' s es.
Proof. intros H1 H2 H3. exact (conj H1 (conj (fun H => H) (conj H2 H3))). Qed.

(** ** Agreements *)

Definition at_most (m m' : gmap Z Z) : Prop := forall i, count m i <= count m' i.

(** The flags of an inner round and what they rest on: with one flag a quorum of muxes
    for its value, with both a quorum of vals for each value. *)
Record aba_ok (epoch round : Z) (a : ABA) : Prop := {
  ao_epoch : aba_Epoch a = epoch;
  ao_round : ExRound a = round;
  ao_fin : muxFinFlag a = yesFlag a ∪ noFlag a;
  ao_yes : forall i, i ∈ yesFlag a ->
    HightThreshold committee <= count (valYesCnt a) i /\ 0 < count (muxYesCnt a) i /\
    (i ∉ noFlag a -> HightThreshold committee <= count (muxYesCnt a) i);
  ao_no : forall i, i ∈ noFlag a ->
    HightThreshold committee <= count (valNoCnt a) i /\ 0 < count (muxNoCnt a) i /\
    (i ∉ yesFlag a -> HightThreshold committee <= count (muxNoCnt a) i)
}.

(** Counters grow, flags stay, and those of a finished inner round do not change. *)
Record aba_le (a a' : ABA) : Prop := {
  al_vy : at_most (valYesCnt a) (valYesCnt a');
  al_vn : at_most (valNoCnt a) (valNoCnt a');
  al_my : at_most (muxYesCnt a) (muxYesCnt a');
  al_mn : at_most (muxNoCnt a) (muxNoCnt a');
  al_mux : muxFlag a ⊆ muxFlag a';
  al_fin : muxFinFlag a ⊆ muxFinFlag a';
  al_yes : forall i, i ∈ muxFinFlag a -> (i ∈ yesFlag a' <-> i ∈ yesFlag a);
  al_no : forall i, i ∈ muxFinFlag a -> (i ∈ noFlag a' <-> i ∈ noFlag a);
  al_halt : halt a = true -> halt a' = true
}.

Definition aba_pc_ok (epoch round : Z) (a : ABA) (pc : aba_pc) : Prop :=
  match pc with
  | AVal v | AValCount v | AValMux v => ABAVal_Epoch v = epoch /\ ABAVal_Round v = round
  | AMux m | AMuxFin m | AMuxCount m => ABAMux_Epoch m = epoch /\ ABAMux_Round m = round
  | AMuxVals m yes no =>
      ABAMux_Epoch m = epoch /\ ABAMux_Round m = round /\
      yes <= count (muxYesCnt a) (ABAMux_InRound m) /\ no <= count (muxNoCnt a) (ABAMux_InRound m)
  | AMuxDecide m yes no vyes vno =>
      ABAMux_Epoch m = epoch /\ ABAMux_Round m = round /\
      yes <= count (muxYesCnt a) (ABAMux_InRound m) /\ no <= count (muxNoCnt a) (ABAMux_InRound m) /\
      vyes <= count (valYesCnt a) (ABAMux_InRound m) /\ vno <= count (valNoCnt a) (ABAMux_InRound m)
  | ACoin _ _ _ => True
  | AHalt h => ABAHalt_Epoch h = epoch /\ ABAHalt_Round h = round
  end.

Definition aba_effect_ok (x : effect) : Prop :=
  match x with
  | ESend f _ m => f = Name /\ own m
  | EPush _ ev => event_ok ev
  | EGo _ => False
  end.

(** Messages of a kind sent by the step on (epoch, round) that marks inner rounds. *)
Definition sends_marks (kind : Z -> Z -> Z -> Message -> bool) (epoch round : Z) (s s' : gset Z)
    (es : list effect) : Prop :=
  forall e r i, sends_of (kind e r i) es =
    if decide (e = epoch /\ r = round) then (mark s' i - mark s i)%nat else 0%nat.

Definition aba_post (epoch round : Z) (a : ABA) (pc' : option aba_pc) (a' : ABA)
    (es : list effect) : Prop :=
  aba_ok epoch round a' /\ aba_le a a' /\ Forall aba_effect_ok es /\
  sends_marks is_coin epoch round (muxFinFlag a) (muxFinFlag a') es /\
  sends_marks is_mux epoch round (muxFlag a) (muxFlag a') es /\
  (forall pc'', pc' = Some pc'' -> aba_pc_ok epoch round a' pc'').

Lemma at_most_refl (m : gmap Z Z) : at_most m m.
Proof. intros i. lia. Qed.

Lemma at_most_incr (m : gmap Z Z) (i : Z) : at_most m (incr m i).
Proof. intros j. unfold incr, count. rewrite lookup_insert. case_decide; subst; cbn; lia. Qed.

Lemma aba_le_refl (a : ABA) : aba_le a a.
Proof. split; try done; apply at_most_refl. Qed.

Lemma aba_le_trans (a1 a2 a3 : ABA) : aba_le a1 a2 -> aba_le a2 a3 -> aba_le a1 a3.
Proof.
  intros [A1 B1 C1 D1 E1 F1 G1 H1 I1] [A2 B2 C2 D2 E2 F2 G2 H2 I2]. split; try by etrans.
  1-4: intros i; etrans; eauto.
  - intros i Hi. rewrite G2 by set_solver. auto.
  - intros i Hi. rewrite H2 by set_solver. auto.
  - auto.
Qed.

Lemma aba_pc_ok_mono (epoch round : Z) (a a' : ABA) (pc : aba_pc) :
  aba_le a a' -> aba_pc_ok epoch round a pc -> aba_pc_ok epoch round a' pc.
Proof.
  intros [A B C D _ _ _ _ _]. destruct pc; cbn; try done.
  - intros (? & ? & ? & ?). pose proof (C (ABAMux_InRound m)). pose proof (D (ABAMux_InRound m)). lia.
  - intros (? & ? & ? & ? & ? & ?). pose proof (A (ABAMux_InRound m)). pose proof (B (ABAMux_InRound m)).
    pose proof (C (ABAMux_InRound m)). pose proof (D (ABAMux_InRound m)). lia.
Qed.

(** A step that only counts keeps what the flags rest on. *)
Lemma aba_ok_counted (epoch round : Z) (a a' : ABA) :
  aba_ok epoch round a -> aba_Epoch a' = aba_Epoch a -> ExRound a' = ExRound a ->
  muxFinFlag a' = muxFinFlag a -> yesFlag a' = yesFlag a -> noFlag a' = noFlag a ->
  at_most (valYesCnt a) (valYesCnt a') -> at_most (valNoCnt a) (valNoCnt a') ->
  at_most (muxYesCnt a) (muxYesCnt a') -> at_most (muxNoCnt a) (muxNoCnt a') ->
  aba_ok epoch round a'.
Proof.
  intros [H1 H2 H3 H4 H5] Ee Er Ef Ey En A B C D. split; rewrite ?Ee, ?Er, ?Ef, ?Ey, ?En; try done.
  - intros i Hi. destruct (H4 i Hi) as (? & ? & H). pose proof (A i). pose proof (C i).
    split_and!; [lia..|]. intros Hn. specialize (H Hn). lia.
  - intros i Hi. destruct (H5 i Hi) as (? & ? & H). pose proof (B i). pose proof (D i).
    split_and!; [lia..|]. intros Hn. specialize (H Hn). lia.
Qed.

Lemma sends_marks_same (kind : Z -> Z -> Z -> Message -> bool) (epoch round : Z) (s : gset Z)
    (es : list effect) :
  Forall (fun x => forall g t m, x = ESend g t m -> forall e r i, kind e r i m = false) es ->
  sends_marks kind epoch round s s es.
Proof.
  intros H e r i. rewrite sends_of_none; [case_decide; lia|].
  eapply Forall_impl; [exact H|]. cbn. intros x Hx g t m Hm. eauto.
Qed.

(** A broadcast message of the round that marks its inner round. *)
Lemma sends_marks_new (kind : Z -> Z -> Z -> Message -> bool) (epoch round j : Z) (s : gset Z)
    (m : Message) (f t : NodeID) (ch : nat) (ev : Ev) :
  (forall e r i, kind e r i m = bool_decide ((epoch, round, j) = (e, r, i))) -> j ∉ s ->
  sends_marks kind epoch round s ({[j]} ∪ s) [ESend f t m; EPush ch ev].
Proof.
  intros Hm Hj e r i. unfold sends_of. rewrite filter_cons, Hm, filter_cons.
  rewrite (decide_False (P := false = true)) by done. rewrite filter_nil. unfold mark.
  destruct (decide (e = epoch /\ r = round)) as [[-> ->]|Hne].
  - destruct (decide (i = j)) as [->|Hi].
    + rewrite bool_decide_true, decide_True by done.
      rewrite (decide_True (P := j ∈ {[j]} ∪ s)), (decide_False (P := j ∈ s)) by set_solver. done.
    + rewrite bool_decide_false, decide_False by congruence.
      assert (i ∈ {[j]} ∪ s <-> i ∈ s) as Hiff by set_solver. cbn. repeat case_decide; naive_solver lia.
  - rewrite bool_decide_false, decide_False; [done|done|]. intros [= <- <- <-]. by apply Hne.
Qed.

(** ** The steps *)

Section Invariant.
Context `{!Ed25519Laws E} (Hsrv : service_for sigService (Committee_Name committee Name)).
Context (Hmem : Name ∈ members committee) (Htbls : forall sh m, is_Some (tbls_Sign sh m)).
Context (epoch : Z) (He64 : in_int64 epoch).

Lemma cbc_step_ok (node : NodeID) (tag : Z) (pc : cbc_pc) (s : CBC) :
  cbc_ok epoch node s -> cbc_pc_ok node pc ->
  wp False (cbc_step Name committee sigService epoch node tag pc) s (cbc_post epoch node tag s).
Proof using Hsrv Hmem He64 Ed25519Laws0.
  intros Hs Hpc. pose proof Hs as [He Hn Hf].
  destruct pc as [p|p|t|t|r|r|r|f|f|f|f]; cbn in Hpc; unfold cbc_step, send_all; wp_steps.
  - destruct (negb _); wp_steps; [by apply cbc_post_same|]. destruct Hpc as [b ->]. wp_steps.
    split_and!; [by split|by eexists|done|]. by intros pc'' [= <-].
  - destruct (negb _); wp_steps; [by apply cbc_post_same|].
    split_and!; [by split|by intros ?|done|]. by intros pc'' [= <-].
  - unfold wp. split_and!; [by split|by intros ?| |by intros pc'' [= <-]]. cbn [app]. apply Forall_app.
    split; apply Forall_fmap, Forall_forall; intros x Hx; cbn; (eexists; split; [done|]); cbn; [done|].
    apply Hf. by intros Hnil; rewrite Hnil in Hx; apply not_elem_of_nil in Hx.
  - unfold NewReady. run_sign Hsrv. wp_steps.
    assert (own (MReady (mkReady Name (cbc_Proposer s) (cbc_Epoch s) t sig))) as Hown
      by (split_and!; [done|done|cbn; by rewrite He|done]).
    destruct (_ =? _); wp_steps; apply cbc_post_same; try done; apply Forall_singleton; [|done].
    by apply mvba_own_event.
  - apply cbc_post_same; [done..|]. intros pc'' [= <-]. by destruct (waits _ _).
  - split_and!; [by split|by intros ?|done|done].
  - assert (cbc_ok epoch node (s <| readyCnts := int32 (readyCnts s + 1) |>)) as Hs' by by split.
    destruct (_ =? _); wp_steps; [|split_and!; by try intros ?]. unfold NewFinal. run_sign Hsrv. wp_steps.
    assert (own (MFinal (mkFinal Name (cbc_Epoch s) (Ready_Tag r) sig))) as Hown
      by (split_and!; [done|done|cbn; by rewrite He|done]).
    split_and!; [done|by intros ?| |done]. apply Forall_cons. split; [done|]. apply Forall_singleton.
    by apply mvba_own_event.
  - apply cbc_post_same; [done..|]. intros pc'' [= <-]. by destruct (waits _ _).
  - split_and!; [by split|by intros ?|done|done].
  - split_and!; [by split|by intros ?|done|]. intros pc''. by destruct (_ =? _); intros [= <-].
  - apply cbc_post_same; [done| |done]. apply Forall_singleton. cbn. by rewrite He, Hn.
Qed.

(** *** Agreement *)

Context (round : Z).

(** Steps that send neither a coin share nor a mux and leave the flags. *)
Lemma aba_post_quiet (a a' : ABA) (pc' : option aba_pc) (es : list effect) :
  aba_ok epoch round a' -> aba_le a a' -> muxFinFlag a' = muxFinFlag a -> muxFlag a' = muxFlag a ->
  Forall aba_effect_ok es ->
  Forall (fun x => forall g t m, x = ESend g t m -> exists v, m = MABAVal v \/ exists h, m = MABAHalt h) es ->
  (forall pc'', pc' = Some pc'' -> aba_pc_ok epoch round a' pc'') ->
  aba_post epoch round a pc' a' es.
Proof.
  intros Hok Hle Hf Hm Heff Hq Hpc. split_and!; try done; rewrite ?Hf, ?Hm; apply sends_marks_same;
    (eapply Forall_impl; [exact Hq|]); intros x Hx g t m ->;
    by destruct (Hx g t m eq_refl) as [v [->|[h ->]]].
Qed.

Lemma aba_post_same (a : ABA) (pc' : option aba_pc) :
  aba_ok epoch round a -> (forall pc'', pc' = Some pc'' -> aba_pc_ok epoch round a pc'') ->
  aba_post epoch round a pc' a [].
Proof. intros Hok Hpc. apply aba_post_quiet; try done; apply aba_le_refl. Qed.

Lemma count_val_le (v : ABAVal) (a : ABA) : aba_le a (count_val v a).1.
Proof.
  unfold count_val. cbn zeta. destruct (_ =? _); [|destruct (_ =? _)]; cbn [fst]; [..|apply aba_le_refl];
    split; cbn; try done; try apply at_most_refl; apply at_most_incr.
Qed.

Lemma count_mux_le (m : ABAMux) (a : ABA) : aba_le a (count_mux m a).
Proof.
  unfold count_mux. cbn zeta. destruct (_ =? _); [|destruct (_ =? _)]; [..|apply aba_le_refl];
    split; cbn; try done; try apply at_most_refl; apply at_most_incr.
Qed.

Lemma aba_le_ok (a a' : ABA) :
  aba_ok epoch round a -> aba_le a a' -> aba_Epoch a' = aba_Epoch a -> ExRound a' = ExRound a ->
  muxFinFlag a' = muxFinFlag a -> yesFlag a' = yesFlag a -> noFlag a' = noFlag a ->
  aba_ok epoch round a'.
Proof. intros Hok [] ? ? ? ? ?. by eapply aba_ok_counted. Qed.

(** The val or halt message of a coin. *)
Lemma aba_post_say (a a' : ABA) (m : Message) (es : list effect) :
  aba_ok epoch round a' -> aba_le a a' -> muxFinFlag a' = muxFinFlag a -> muxFlag a' = muxFlag a ->
  own m -> ((exists v, m = MABAVal v) \/ exists h, m = MABAHalt h) ->
  Forall (fun x => exists ch b, x = EPush ch (EvABA b) /\ in_int64 (ABABack_Epoch b)) es ->
  aba_post epoch round a None a' (ESend Name NONE m :: to_self m :: es).
Proof using Hmem.
  intros Hok Hle Hf Hm Hown Hsay Hes. apply aba_post_quiet; try done.
  - repeat apply Forall_cons_2; [done|by apply mvba_own_event|]. eapply Forall_impl; [exact Hes|].
    by intros x (ch & b & -> & Hb).
  - repeat apply Forall_cons_2; [intros g t m' [= <- <- <-]|done|].
    + destruct Hsay as [[v ->]|[h ->]]; [|exists (mkABAVal 0 0 0 0 0 0 (mkSignature []))]; eauto.
    + eapply Forall_impl; [exact Hes|]. by intros x (ch & b & -> & _).
Qed.

Lemma coin_step_ok (inRound coin : Z) (leader : NodeID) (a : ABA) :
  aba_ok epoch round a ->
  wp False (coin_step Name sigService inRound coin leader) a (aba_post epoch round a).
Proof using Hsrv Hmem He64 Ed25519Laws0.
  intros Hok. pose proof Hok as [He Hr _ _ _]. unfold coin_step. rewrite wp_bind, wp_get. cbn beta zeta.
  assert (forall flag, wp False
    (v ← lift_outcome (NewABAVal sigService Name leader (aba_Epoch a) (ExRound a)
                        (int64 (inRound + 1)) flag);
     _ ← send_all Name (MABAVal v); mret None) a (aba_post epoch round a)) as Hnext.
  { intros flag. unfold NewABAVal, send_all. run_sign Hsrv. wp_steps.
    apply aba_post_say; try done; [apply aba_le_refl| |by left; eauto].
    split_and!; [done|done|cbn; by rewrite He|done]. }
  destruct (_ || _); [apply Hnext|]. destruct (_ || _); [|apply Hnext].
  unfold NewABAHalt, send_all. run_sign Hsrv. wp_steps.
  apply aba_post_say; try done; [apply aba_le_refl| |by right; eauto].
  split_and!; [done|done|cbn; by rewrite He|done].
Qed.

Lemma halt_step_ok (h : ABAHalt) (a : ABA) :
  aba_ok epoch round a -> ABAHalt_Epoch h = epoch ->
  wp False (halt_step Name sigService h) a (aba_post epoch round a).
Proof using Hsrv Hmem He64 Ed25519Laws0.
  intros Hok Hh. pose proof Hok as [He Hr _ _ _]. unfold halt_step, send_all. wp_steps.
  destruct (halt a); wp_steps; [by apply aba_post_same|]. unfold NewABAHalt. run_sign Hsrv. wp_steps.
  cbn [app].
  assert (aba_le a (a <| halt := true |>)) as Hle by (split; try done; apply at_most_refl).
  apply aba_post_say; try done; [by eapply aba_le_ok| |by right; eauto|].
  - split_and!; [done|done|cbn; by rewrite He|done].
  - apply Forall_singleton. do 2 eexists. split; [done|]. cbn. by rewrite Hh.
Qed.

(** The flags that a quorum of muxes sets. *)
Lemma mux_flags_spec (yes no vyes vno : Z) (y n : bool) :
  mux_flags committee yes no vyes vno = (y, n) ->
  (y = true -> HightThreshold committee <= vyes /\ 0 < yes /\
     (n = false -> HightThreshold committee <= yes)) /\
  (n = true -> HightThreshold committee <= vno /\ 0 < no /\
     (y = false -> HightThreshold committee <= no)).
Proof.
  pose proof (thresholds_pos committee). unfold mux_flags. cbn zeta. repeat (case_bool; cbn [andb]); intros [= <- <-];
    split_and!; intros; try done; try lia.
Qed.

(** The inner rounds a flag is set for. *)
Lemma set_flags_in (i : Z) (y n : bool) (a : ABA) :
  (forall j, j ∈ yesFlag (set_flags i y n a) <-> (j = i /\ y = true) \/ j ∈ yesFlag a) /\
  (forall j, j ∈ noFlag (set_flags i y n a) <-> (j = i /\ n = true) \/ j ∈ noFlag a) /\
  (forall j, j ∈ muxFinFlag (set_flags i y n a) <-> (j = i /\ y || n = true) \/ j ∈ muxFinFlag a).
Proof. unfold set_flags. destruct y, n; cbn; split_and!; intros j; set_solver. Qed.

Lemma set_flags_rest (i : Z) (y n : bool) (a : ABA) :
  let a' := set_flags i y n a in
  aba_Epoch a' = aba_Epoch a /\ ExRound a' = ExRound a /\ valYesCnt a' = valYesCnt a /\
  valNoCnt a' = valNoCnt a /\ muxYesCnt a' = muxYesCnt a /\ muxNoCnt a' = muxNoCnt a /\
  muxFlag a' = muxFlag a /\ halt a' = halt a.
Proof. unfold set_flags. by destruct y, n. Qed.

Lemma set_flags_ok (m : ABAMux) (yes no vyes vno : Z) (y n : bool) (a : ABA) :
  aba_ok epoch round a -> aba_pc_ok epoch round a (AMuxDecide m yes no vyes vno) ->
  ABAMux_InRound m ∉ muxFinFlag a -> mux_flags committee yes no vyes vno = (y, n) ->
  let a' := set_flags (ABAMux_InRound m) y n a in
  aba_ok epoch round a' /\ aba_le a a'.
Proof.
  intros Hok (_ & _ & H1 & H2 & H3 & H4) Hi Hf a'. set (i := ABAMux_InRound m) in *.
  destruct (mux_flags_spec _ _ _ _ _ _ Hf) as [Hy Hn].
  destruct (set_flags_in i y n a) as (Iy & In & If). fold a' in Iy, In, If.
  destruct (set_flags_rest i y n a) as (E1 & E2 & E3 & E4 & E5 & E6 & E7 & E8).
  fold a' in E1, E2, E3, E4, E5, E6, E7, E8. destruct Hok as [O1 O2 O3 O4 O5].
  rewrite O3, not_elem_of_union in Hi. destruct Hi as [Hiy Hin]. split.
  - split; rewrite ?E1, ?E2, ?E3, ?E4, ?E5, ?E6; try done.
    + apply set_eq. intros j. rewrite elem_of_union, If, Iy, In, O3, elem_of_union, orb_true_iff. tauto.
    + intros j. rewrite Iy, In. intros [[-> Hj]|Hj].
      * destruct (Hy Hj) as (? & ? & Hq). split_and!; [lia..|]. intros Hno. destruct n; [tauto|].
        specialize (Hq eq_refl). lia.
      * destruct (O4 j Hj) as (? & ? & Hq). split_and!; [lia..|]. tauto.
    + intros j. rewrite Iy, In. intros [[-> Hj]|Hj].
      * destruct (Hn Hj) as (? & ? & Hq). split_and!; [lia..|]. intros Hno. destruct y; [tauto|].
        specialize (Hq eq_refl). lia.
      * destruct (O5 j Hj) as (? & ? & Hq). split_and!; [lia..|]. tauto.
  - split; rewrite ?E3, ?E4, ?E5, ?E6, ?E7, ?E8; try apply at_most_refl; try done.
    + intros j Hj. apply If. by right.
    + intros j Hj. rewrite Iy. rewrite O3, elem_of_union in Hj. split; [|by right].
      intros [[-> _]|Hy']; [tauto|done].
    + intros j Hj. rewrite In. rewrite O3, elem_of_union in Hj. split; [|by right].
      intros [[-> _]|Hy']; [tauto|done].
Qed.

Lemma NewCoinShare_own (leader : NodeID) (r i : Z) :
  exists s, NewCoinShare sigService Name leader epoch r i = Ret (Some s) /\ own (MCoinShare s) /\
    CoinShare_Epoch s = epoch /\ CoinShare_Round s = r /\ CoinShare_InRound s = i.
Proof using Htbls He64.
  unfold NewCoinShare, RequestTsSugnature, sig_serve. cbn.
  match goal with |- context [tbls_Sign ?sh ?m] => destruct (Htbls sh m) as [s Hs] end.
  rewrite Hs. cbn. eexists. split; [reflexivity|]. by split_and!.
Qed.

Lemma decide_step_ok (m : ABAMux) (yes no vyes vno : Z) (a : ABA) :
  aba_ok epoch round a -> aba_pc_ok epoch round a (AMuxDecide m yes no vyes vno) ->
  wp False (decide_step Name committee sigService m yes no vyes vno) a (aba_post epoch round a).
Proof using Hsrv Hmem Htbls He64 Ed25519Laws0.
  intros Hok Hpc. pose proof Hpc as (Hme & Hmr & _). unfold decide_step, send_all.
  rewrite wp_bind, wp_get. cbn beta. case_bool_decide as Hi; [rewrite wp_ret; by apply aba_post_same|].
  destruct (mux_flags committee yes no vyes vno) as [y n] eqn:Hf.
  destruct (set_flags_ok m yes no vyes vno y n a Hok Hpc Hi Hf) as [Hok' Hle].
  destruct (set_flags_in (ABAMux_InRound m) y n a) as (_ & _ & If).
  destruct (set_flags_rest (ABAMux_InRound m) y n a) as (_ & _ & _ & _ & _ & _ & Em & _).
  rewrite wp_bind, wp_modify. cbn beta. set (a' := set_flags (ABAMux_InRound m) y n a) in *.
  destruct (y || n) eqn:Eyn.
  - rewrite Hme, Hmr. destruct (NewCoinShare_own (ABAMux_Leader m) round (ABAMux_InRound m))
      as (s & Hs & Hown & Hse & Hsr & Hsi). rewrite Hs. wp_steps. cbn [app coin_msg].
    split_and!; [done|done| | | |done].
    + repeat apply Forall_cons_2; [done|by apply mvba_own_event|by apply Forall_nil].
    + replace (muxFinFlag a') with ({[ABAMux_InRound m]} ∪ muxFinFlag a) by (apply set_eq; set_solver).
      apply sends_marks_new; [|done]. intros e r i. cbn. by rewrite Hse, Hsr, Hsi.
    + rewrite Em. apply sends_marks_same. by repeat (apply Forall_cons_2; [by intros ? ? ? [= _ _ <-]|]).
  - rewrite wp_ret. cbn [app]. apply aba_post_quiet; try done. apply set_eq. intros j. rewrite If. naive_solver.
Qed.

(** Every step of an agreement. *)
Lemma aba_step_ok (pc : aba_pc) (a : ABA) :
  aba_ok epoch round a -> aba_pc_ok epoch round a pc ->
  wp False (aba_step Name committee sigService pc) a (aba_post epoch round a).
Proof using Hsrv Hmem Htbls He64 Ed25519Laws0.
  intros Hok Hpc. pose proof Hok as [He Hr _ _ _].
  destruct pc as [v|v|v|m|m|m|m yes no|m yes no vyes vno|i coin l|h]; unfold aba_step;
    rewrite wp_bind, wp_get; cbn beta iota.
  - rewrite wp_ret. apply aba_post_same; [done|]. destruct (halt a); [done|]. by intros pc'' [= <-].
  - pose proof (count_val_le v a) as Hle.
    assert (aba_ok epoch round (count_val v a).1 /\ muxFinFlag (count_val v a).1 = muxFinFlag a /\
      muxFlag (count_val v a).1 = muxFlag a) as (Hok' & Hf & Hm).
    { unfold count_val in *. cbn zeta in *. destruct (_ =? _); [|destruct (_ =? _)];
        (split; [by eapply aba_le_ok|done]). }
    destruct (count_val v a) as [a' cnt]. cbn [fst] in *. rewrite wp_bind, wp_modify. cbn beta.
    destruct (cnt =? LowThreshold committee); wp_steps; cbn [app]; apply aba_post_quiet; try done.
    + apply Forall_singleton. cbn. by rewrite He.
    + by apply Forall_singleton.
    + destruct (_ =? _); [|done]. by intros pc'' [= <-].
  - case_bool_decide as Hi; [rewrite wp_ret; by apply aba_post_same|].
    destruct Hpc as [Hve Hvr]. unfold NewABAMux, send_all. rewrite wp_bind, wp_modify. run_sign Hsrv. wp_steps.
    cbn [app]. assert (aba_le a (a <| muxFlag := {[ABAVal_InRound v]} ∪ muxFlag a |>)) as Hle
      by (split; cbn; try done; try apply at_most_refl; apply union_subseteq_r).
    split_and!; [by eapply aba_le_ok|done| | | |done].
    + assert (own (MABAMux (mkABAMux Name (ABAVal_Leader v) (ABAVal_Epoch v) (ABAVal_Round v)
        (ABAVal_InRound v) (ABAVal_Flag v) sig))) as Hown by (split_and!; [done|done|cbn; by rewrite Hve|done]).
      repeat apply Forall_cons_2; [done|by apply mvba_own_event|by apply Forall_nil].
    + apply sends_marks_same. by repeat (apply Forall_cons_2; [by intros ? ? ? [= _ _ <-]|]).
    + apply sends_marks_new; [|done]. intros e r i. cbn. by rewrite Hve, Hvr.
  - rewrite wp_ret. apply aba_post_same; [done|]. destruct (halt a); [done|]. by intros pc'' [= <-].
  - rewrite wp_ret. apply aba_post_same; [done|]. destruct (bool_decide _); [done|]. by intros pc'' [= <-].
  - pose proof (count_mux_le m a) as Hle.
    assert (aba_ok epoch round (count_mux m a) /\ muxFinFlag (count_mux m a) = muxFinFlag a /\
      muxFlag (count_mux m a) = muxFlag a) as (Hok' & Hf & Hm).
    { unfold count_mux in *. cbn zeta in *. destruct (_ =? _); [|destruct (_ =? _)];
        (split; [by eapply aba_le_ok|done]). }
    cbn zeta. wp_steps. cbn [app]. apply aba_post_quiet; try done. intros pc'' [= <-].
    destruct Hpc as [? ?]. cbn. split_and!; [done|done|lia|lia].
  - rewrite wp_ret. apply aba_post_same; [done|]. intros pc'' [= <-]. destruct Hpc as (? & ? & ? & ?).
    cbn. split_and!; [done|done|lia..].
  - by apply decide_step_ok.
  - by apply coin_step_ok.
  - apply halt_step_ok; [done|]. apply Hpc.
Qed.

End Invariant.

End Steps.
