(* ===== verification/MvbaCore.v ===== *)
(** * mvba: the protocol core

    Models src/core/mvba/consensus/core.go.  [Core] is the struct of the same name,
    each handler a command of the handler monad: it reads and writes the core, emits
    the sends, channel writes and [go] statements in program order and returns the
    error of the source.  [handle] is the body of the select loop of [Run], which takes
    messages and the call backs of the instances.  An index out of range panics; a
    call that would block on the batch channel for ever has no result either. *)

From S2P Require Import Prelude Crypto Committee Store Pool Runtime Quorum Deliver.
From S2P Require Import MvbaMessage MvbaAggreator MvbaElector MvbaCommitor MvbaInstance.

Open Scope Z_scope.

Section Core.
Context {E : Ed25519} {K : Kyber} {R : MathRand} {db : Type} `{HDB : DB db} {GB : GobBlock}.

Record Core := mkCore {
  Name : NodeID;
  core_Committee : Committee;
  core_Parameters : Parameters;
  core_SigService : SigService;
  core_Store : Store db;
  TxPool : Pool;
  core_Commitor : Commitor;
  core_Elector : Elector;
  core_Aggreator : Aggreator;
  Epoch : Z;
  cbcInstances : gmap Z (gmap NodeID (gmap Z CBC));
  cbcFinalCnts : gmap Z (gmap Z Z);
  cbcFinalIndexs : gmap Z (list bool);
  commitments : gmap Z (gmap NodeID bool_slice);
  abaInstances : gmap Z (gmap Z ABA);
  abaInvokeFlag : gset (Z * Z * Z * Z)
}.
#[export] Instance Core_eta : Settable Core := fun c =>
  mkCore (Name c) (core_Committee c) (core_Parameters c) (core_SigService c) (core_Store c)
    (TxPool c) (core_Commitor c) (core_Elector c) (core_Aggreator c) (Epoch c) (cbcInstances c)
    (cbcFinalCnts c) (cbcFinalIndexs c) (commitments c) (abaInstances c) (abaInvokeFlag c).

Definition NewCore (name : NodeID) (committee : Committee) (parameters : Parameters)
    (SigService : SigService) (store : Store db) (txPool : Pool) : Core :=
  mkCore name committee parameters SigService store txPool NewCommitor
    (NewElector committee SigService) (NewAggreator committee SigService) 0 ∅ ∅ ∅ ∅ ∅ ∅.

Abbreviation H A := (M Core effect A).

(** ** Blocks, instances and flags *)

(** A nil block is dereferenced. *)
Definition storeBlock (block : option Block) : H (option error) :=
  match block with
  | None => panic
  | Some block =>
      let key := Block_Hash block in
      match Block_Encode block with
      | None => mret (Some ErrExternal)
      | Some val =>
          c ← get_st;
          let '(store, err) := Store_Write (core_Store c) key val in
          _ ← modify (fun c => c <| core_Store := store |>);
          mret err
      end
  end.

(** A missing key is an error here. *)
Definition getBlock (digest : Digest) : H (option Block * option error) :=
  c ← get_st;
  let '(store, (data, err)) := Store_Read (core_Store c) digest in
  _ ← modify (fun c => c <| core_Store := store |>);
  match err with
  | Some e => mret (None, Some e)
  | None =>
      match Block_Decode data with
      | None => mret (None, Some ErrExternal)
      | Some b => mret (Some b, None)
      end
  end.

Definition getCBCInstance (epoch : Z) (node : NodeID) (tag : Z) : H CBC :=
  c ← get_st;
  match lookup3 (cbcInstances c) epoch node tag with
  | Some instance => mret instance
  | None =>
      let instance := NewCBC node epoch in
      _ ← modify (fun c => c <| cbcInstances := insert3 epoch node tag instance (cbcInstances c) |>);
      mret instance
  end.

Definition getABAInstance (epoch round : Z) : H ABA :=
  c ← get_st;
  match lookup2 (abaInstances c) epoch round with
  | Some instance => mret instance
  | None =>
      let instance := NewABA epoch round in
      _ ← modify (fun c => c <| abaInstances := insert2 epoch round instance (abaInstances c) |>);
      mret instance
  end.

Definition isInvokeABA (epoch round inRound tag : Z) : H bool :=
  gets (fun c => bool_decide ((epoch, round, inRound, tag) ∈ abaInvokeFlag c)).

(** [l[i]]; [None] out of range. *)
Definition at_index {A : Type} (l : list A) (i : Z) : option A :=
  if i <? 0 then None else l !! Z.to_nat i.

(** The elements of a slice; [None] for nil. *)
Definition elements_of (c : Core) (s : bool_slice) : option (list bool) :=
  match s with
  | SNil => None
  | SVal l => Some l
  | SFinals epoch => cbcFinalIndexs c !! epoch
  end.

(** The counters and indices of an epoch, made on its first final. *)
Definition ensure_finals (epoch : Z) : H unit :=
  c ← get_st;
  match cbcFinalCnts c !! epoch with
  | Some _ => mret tt
  | None =>
      modify (fun c => c <| cbcFinalCnts := <[epoch := ∅]> (cbcFinalCnts c) |>
        <| cbcFinalIndexs := <[epoch := replicate (Z.to_nat (Committee_Size (core_Committee c))) false]>
                               (cbcFinalIndexs c) |>)
  end.

Definition addFinals (epoch tag : Z) (node : NodeID) : H Z :=
  _ ← ensure_finals epoch;
  c ← get_st;
  _ ← (if tag =? DATA_CBC then
         let l := default [] (cbcFinalIndexs c !! epoch) in
         match at_index l node with
         | None => panic
         | Some _ =>
             modify (fun c => c <| cbcFinalIndexs := <[epoch := <[Z.to_nat node := true]> l]>
                                                      (cbcFinalIndexs c) |>)
         end
       else mret tt);
  let cnt := default 0 (lookup2 (cbcFinalCnts c) epoch tag) + 1 in
  _ ← modify (fun c => c <| cbcFinalCnts := insert2 epoch tag cnt (cbcFinalCnts c) |>);
  mret cnt.

Definition addCommitment (epoch : Z) (node : NodeID) (commitment : bool_slice) : H unit :=
  modify (fun c => c <| commitments := insert2 epoch node commitment (commitments c) |>).

(** Does a vote for no contradict its author's commitment? *)
Definition checkVote (vote : Vote) : H bool :=
  c ← get_st;
  if Vote_Flag vote =? FLAG_NO then
    match lookup2 (commitments c) (Vote_Epoch vote) (Vote_Author vote) with
    | None => mret false
    | Some item =>
        match elements_of c item with
        | None => mret false
        | Some l => match at_index l (Vote_Leader vote) with None => panic | Some b => mret b end
        end
    end
  else mret false.

Definition messageFilter (epoch : Z) : H bool := gets (fun c => epoch <? Epoch c).

Definition generateBlock (epoch : Z) : H Block :=
  c ← get_st;
  match GetBatch (TxPool c) with
  | None => panic
  | Some (batch, pool) =>
      _ ← modify (fun c => c <| TxPool := pool |>);
      mret (NewBlock (Name c) batch epoch)
  end.

Definition Commitor_Commit (epoch : Z) (leader : NodeID) (b : option Block) : H unit :=
  c ← get_st;
  commitor ← lift_outcome (Commit (core_Commitor c) epoch leader b);
  modify (fun c => c <| core_Commitor := commitor |>).

(** [c.Transimtor.Send(c.Name, core.NONE, m); c.Transimtor.RecvChannel() <- m] *)
Definition broadcast (m : Message) : H unit := c ← get_st; send_all (Name c) m.

Definition go_cbc (epoch : Z) (node : NodeID) (tag : Z) (pc : cbc_pc) : H (option error) :=
  _ ← getCBCInstance epoch node tag; _ ← emit (EGo (TCBC epoch node tag pc)); mret None.
Definition go_aba (epoch round : Z) (pc : aba_pc) : H (option error) :=
  _ ← getABAInstance epoch round; _ ← emit (EGo (TABA epoch round pc)); mret None.

(** A handler for messages of epochs that are not over. *)
Definition unless_over (epoch : Z) (m : H (option error)) : H (option error) :=
  discard ← messageFilter epoch; if discard : bool then mret None else m.

(** ** Stage one: broadcast *)

Definition handleProposal (p : Proposal) : H (option error) :=
  unless_over (Proposal_Epoch p)
    (c ← get_st;
     _ ← (if CommitLeader (core_Commitor c) (Proposal_Epoch p) =? Proposal_Author p
          then Commitor_Commit (Proposal_Epoch p) (Proposal_Author p) (Proposal_B p)
          else mret tt);
     err ← storeBlock (Proposal_B p);
     match err with
     | Some e => mret (Some e)
     | None => go_cbc (Proposal_Epoch p) (Proposal_Author p) DATA_CBC (CProposal p)
     end).

Definition handleReady (r : Ready) : H (option error) :=
  unless_over (Ready_Epoch r) (go_cbc (Ready_Epoch r) (Ready_Proposer r) (Ready_Tag r) (CReady r)).

Definition handleFinal (f : Final) : H (option error) :=
  unless_over (Final_Epoch f) (go_cbc (Final_Epoch f) (Final_Author f) (Final_Tag f) (CFinal f)).

Definition handleCommitment (p : Commitment) : H (option error) :=
  unless_over (Commitment_Epoch p)
    (go_cbc (Commitment_Epoch p) (Commitment_Author p) COMMIT_CBC (CCommitment p)).

(** The nil share of a failed threshold signature is a typed nil pointer. *)
Definition share_msg (share : option ElectShare) : Message :=
  match share with Some s => MElectShare s | None => MNil ElectShareType end.

Definition processCBCBack (back : CBCBack) : H (option error) :=
  unless_over (CBCBack_Epoch back)
    (cnt ← addFinals (CBCBack_Epoch back) (CBCBack_Tag back) (CBCBack_Author back);
     _ ← (if CBCBack_Tag back =? COMMIT_CBC
          then addCommitment (CBCBack_Epoch back) (CBCBack_Author back) (CBCBack_Commitment back)
          else mret tt);
     c ← get_st;
     if cnt =? HightThreshold (core_Committee c) then
       if CBCBack_Tag back =? DATA_CBC then
         msg ← lift_outcome (NewCommitment (core_SigService c) (Name c)
                               (SFinals (CBCBack_Epoch back)) (CBCBack_Epoch back));
         _ ← broadcast (MCommitment msg);
         mret None
       else if CBCBack_Tag back =? COMMIT_CBC then
         elect ← lift_outcome (NewElectShare (core_SigService c) (Name c) (CBCBack_Epoch back));
         _ ← broadcast (share_msg elect);
         mret None
       else mret None
     else mret None).

(** ** Stage two: agreement *)

(** The leader's block was broadcast, as far as this node knows. *)
Definition committed_to (c : Core) (epoch : Z) (leader : NodeID) : Outcome bool :=
  match cbcFinalIndexs c !! epoch with
  | None => Ret false
  | Some l => match at_index l leader with Some b => Ret b | None => Panic end
  end.

Definition invokeStageTwo (epoch round : Z) : H (option error) :=
  c ← get_st;
  leader ← lift_outcome (Leader (core_Elector c) epoch round);
  yes ← lift_outcome (committed_to c epoch leader);
  vote ← lift_outcome (NewVote (core_SigService c) (Name c) leader epoch round
                         (if yes : bool then FLAG_YES else FLAG_NO));
  _ ← broadcast (MVote vote);
  mret None.

(** It is the node's epoch that enters stage two. *)
Definition handleElectShare (elect : ElectShare) : H (option error) :=
  unless_over (ElectShare_Epoch elect)
    (c ← get_st;
     let '(elector, (flag, err)) := addElectShare (core_Elector c) elect in
     _ ← modify (fun c => c <| core_Elector := elector |>);
     match err with
     | Some e => mret (Some e)
     | None => if flag : bool then invokeStageTwo (Epoch c) 0 else mret None
     end).

Definition invokeABAVal (leader : NodeID) (epoch round inRound flag : Z) : H (option error) :=
  invoked ← isInvokeABA epoch round inRound flag;
  if invoked : bool then mret None
  else
    c ← get_st;
    _ ← modify (fun c => c <| abaInvokeFlag := {[(epoch, round, inRound, flag)]} ∪ abaInvokeFlag c |>);
    v ← lift_outcome (NewABAVal (core_SigService c) (Name c) leader epoch round inRound flag);
    _ ← broadcast (MABAVal v);
    mret None.

Definition handleVote (vote : Vote) : H (option error) :=
  unless_over (Vote_Epoch vote)
    (bad ← checkVote vote;
     if bad : bool then
       mret (Some (ErrVoteCheck (Vote_Epoch vote) (Vote_Round vote) (Vote_Author vote) (Vote_Leader vote)))
     else
       c ← get_st;
       let '(agg, (flag, err)) := addVote (core_Aggreator c) vote in
       _ ← modify (fun c => c <| core_Aggreator := agg |>);
       match err with
       | Some e => mret (Some e)
       | None =>
           if flag =? ACTION_NO then mret None
           else invokeABAVal (Vote_Leader vote) (Vote_Epoch vote) (Vote_Round vote) 0
                  (if flag =? ACTION_ONE then FLAG_YES else FLAG_NO)
       end).

Definition handleABAVal (v : ABAVal) : H (option error) :=
  unless_over (ABAVal_Epoch v) (go_aba (ABAVal_Epoch v) (ABAVal_Round v) (AVal v)).

Definition handleABAMux (m : ABAMux) : H (option error) :=
  unless_over (ABAMux_Epoch m) (go_aba (ABAMux_Epoch m) (ABAMux_Round m) (AMux m)).

Definition handleCoinShare (share : CoinShare) : H (option error) :=
  unless_over (CoinShare_Epoch share)
    (c ← get_st;
     let '(agg, (ok, coin, err)) := addCoinShare (core_Aggreator c) share in
     _ ← modify (fun c => c <| core_Aggreator := agg |>);
     match err with
     | Some e => mret (Some e)
     | None =>
         if ok : bool then
           go_aba (CoinShare_Epoch share) (CoinShare_Round share)
             (ACoin (CoinShare_InRound share) coin (CoinShare_Leader share))
         else mret None
     end).

Definition handleABAHalt (h : ABAHalt) : H (option error) :=
  unless_over (ABAHalt_Epoch h) (go_aba (ABAHalt_Epoch h) (ABAHalt_Round h) (AHalt h)).

(** ** Output and the next epoch *)

Definition abvanceNextEpoch (epoch : Z) : H (option error) :=
  c ← get_st;
  if epoch <=? Epoch c then mret None
  else
    _ ← modify (fun c => c <| Epoch := epoch |>);
    block ← generateBlock epoch;
    proposal ← lift_outcome (NewProposal (core_SigService c) (Name c) (Some block) epoch);
    _ ← broadcast (MProposal proposal);
    mret None.

(** The batch of the node's own block goes back to the pool when another
    proposer's block is output. *)
Definition returnBatch (epoch : Z) : H unit :=
  c ← get_st;
  cbc ← getCBCInstance epoch (Name c) DATA_CBC;
  match BlockHash cbc with
  | None => mret tt
  | Some hash =>
      '(block, err) ← getBlock hash;
      match err, block with
      | None, Some block =>
          c ← get_st;
          match PutBatch (TxPool c) (Block_Batch block) with
          | None => panic
          | Some pool => modify (fun c => c <| TxPool := pool |>)
          end
      | _, _ => mret tt
      end
  end.

Definition output_block (epoch : Z) (leader : NodeID) : H unit :=
  cbc ← getCBCInstance epoch leader DATA_CBC;
  match BlockHash cbc with
  | None => mret tt
  | Some hash =>
      '(block, err) ← getBlock hash;
      match err, block with
      | None, Some block =>
          _ ← Commitor_Commit epoch leader (Some block);
          c ← get_st;
          if negb (Proposer block =? Name c) then returnBatch epoch else mret tt
      | _, _ => Commitor_Commit epoch leader None
      end
  end.

Definition handleOutput (epoch : Z) (leader : NodeID) : H (option error) :=
  _ ← output_block epoch leader;
  abvanceNextEpoch (int64 (epoch + 1)).

Definition processABABack (back : ABABack) : H (option error) :=
  if ABABack_Typ back =? ABA_INVOKE then
    invokeABAVal (ABABack_Leader back) (ABABack_Epoch back) (ABABack_ExRound back)
      (ABABack_InRound back) (ABABack_Flag back)
  else if ABABack_Typ back =? ABA_HALT then
    if ABABack_Flag back =? FLAG_NO then
      invokeStageTwo (ABABack_Epoch back) (int64 (ABABack_ExRound back + 1))
    else if ABABack_Flag back =? FLAG_YES then
      handleOutput (ABABack_Epoch back) (ABABack_Leader back)
    else mret None
  else mret None.

(** ** The main loop *)

Definition dispatch (m : Message) : H (option error) :=
  match m with
  | MProposal p => handleProposal p
  | MCommitment p => handleCommitment p
  | MReady p => handleReady p
  | MFinal p => handleFinal p
  | MElectShare p => handleElectShare p
  | MVote p => handleVote p
  | MABAVal p => handleABAVal p
  | MABAMux p => handleABAMux p
  | MCoinShare p => handleCoinShare p
  | MABAHalt p => handleABAHalt p
  | MNil _ => panic
  end.

(** The answer of [Verify] sets [err], which the handler's result overwrites: the
    message is handled whether it verifies or not. *)
Definition handle_msg (m : Message) : H (option error) :=
  c ← get_st;
  _ ← lift_outcome (Verify (core_Committee c) m);
  dispatch m.

Definition handle_ev (ev : Ev) : H (option error) :=
  match ev with
  | EvMsg m => handle_msg m
  | EvCBC back => processCBCBack back
  | EvABA back => processABABack back
  end.

(** A handler leaves nothing to do but its effects. *)
Definition handle (ev : Ev) : H (option Thread) := _ ← handle_ev ev; mret None.

(** A step on an instance. *)
Definition tstep (t : Thread) : H (option Thread) := fun c =>
  match t with
  | TCBC epoch node tag pc =>
      match lookup3 (cbcInstances c) epoch node tag with
      | None => Panic
      | Some s =>
          match cbc_step (Name c) (core_Committee c) (core_SigService c) epoch node tag pc s with
          | Panic => Panic
          | Ret (pc, s', es) =>
              Ret (TCBC epoch node tag <$> pc,
                   c <| cbcInstances := insert3 epoch node tag s' (cbcInstances c) |>, es)
          end
      end
  | TABA epoch round pc =>
      match lookup2 (abaInstances c) epoch round with
      | None => Panic
      | Some a =>
          match aba_step (Name c) (core_Committee c) (core_SigService c) pc a with
          | Panic => Panic
          | Ret (pc, a', es) =>
              Ret (TABA epoch round <$> pc,
                   c <| abaInstances := insert2 epoch round a' (abaInstances c) |>, es)
          end
      end
  end.

(** [Run] up to the loop: the first proposal. *)
Definition Run_start : H unit :=
  c ← get_st;
  block ← generateBlock (Epoch c);
  proposal ← lift_outcome (NewProposal (core_SigService c) (Name c) (Some block) (Epoch c));
  broadcast (MProposal proposal).

(** Each of the three channels is made with 1000 places. *)
Definition chan_cap (ch : nat) : nat := 1000.

Abbreviation node := (Node (Core := Core) (Ev := Ev) (Msg := Message) (Thread := Thread)).
Definition node_step := nstep chan_cap handle tstep.
Definition node_run := nrun chan_cap handle tstep.
Definition node_reachable := reachable chan_cap handle tstep.

(** A node that has executed [Run_start]. *)
Definition started (c0 : Core) (n : node) : Prop :=
  exists c es, Run_start c0 = Ret (tt, c, es) /\ n = start c es.

End Core.
