(* ===== verification/MvbaSafety.v ===== *)
(** * mvba: safety of a node under every schedule

    The invariant of a running node.  Handlers and goroutine steps keep it and relate
    the states before and after and the effects by [ext].  The goroutines never panic;
    [doomed] lists the events on which the main loop does: an index out of the range
    of the committee, or of the leaders elected so far, and a full pool. *)

From S2P Require Import Prelude Crypto Committee Store Pool Runtime Quorum Deliver Triple.
From S2P Require Import MvbaMessage MvbaAggreator MvbaElector MvbaCommitor MvbaInstance MvbaInvariant MvbaCore.

Open Scope Z_scope.

Section Safety.
Context {E : Ed25519} {K : Kyber} {R : MathRand} {db : Type} `{HDB : DB db} {GB : GobBlock}.
Context `{!Ed25519Laws E} (st : setting).

Abbreviation core := (Core (db := db)).
Abbreviation event_ok := (event_ok (s_com st)).
Abbreviation own := (own (s_name st) (s_com st)).

Record core_ok (c : core) : Prop := {
  co_name : Name c = s_name st;
  co_com : core_Committee c = s_com st;
  co_srv : core_SigService c = s_srv st;
  co_elector : el_committee (core_Elector c) = s_com st;
  co_gen : gen_ok (core_Elector c);
  co_epoch : in_int64 (Epoch c);
  co_finals : forall e l, cbcFinalIndexs c !! e = Some l ->
    length l = Z.to_nat (Committee_Size (s_com st));
  co_cnts : forall e, is_Some (cbcFinalCnts c !! e) -> is_Some (cbcFinalIndexs c !! e);
  co_cbc : forall e n t s, lookup3 (cbcInstances c) e n t = Some s ->
    cbc_ok (s_com st) e n s /\ in_int64 e;
  co_aba : forall e r a, lookup2 (abaInstances c) e r = Some a ->
    aba_ok (s_com st) e r a /\ in_int64 e
}.

(** A goroutine works on an existing instance that it knows enough about. *)
Definition thread_ok (c : core) (t : Thread) : Prop :=
  match t with
  | TCBC e n t pc => is_Some (lookup3 (cbcInstances c) e n t) /\ cbc_pc_ok (s_com st) n pc
  | TABA e r pc => exists a, lookup2 (abaInstances c) e r = Some a /\ aba_pc_ok e r a pc
  end.

Definition insts_le (c c' : core) : Prop :=
  (forall e n t s, lookup3 (cbcInstances c) e n t = Some s ->
     exists s', lookup3 (cbcInstances c') e n t = Some s' /\ cbc_le s s') /\
  (forall e r a, lookup2 (abaInstances c) e r = Some a ->
     exists a', lookup2 (abaInstances c') e r = Some a' /\ aba_le a a').

Definition sent_ok (x : effect) : Prop :=
  match x with ESend f _ m => f = s_name st /\ own m | _ => True end.

(** Whether an inner round is finished, and whether its mux was sent. *)
Definition fin_mark (c : core) (e r i : Z) : nat :=
  match lookup2 (abaInstances c) e r with Some a => mark (muxFinFlag a) i | None => 0 end.
Definition mux_mark (c : core) (e r i : Z) : nat :=
  match lookup2 (abaInstances c) e r with Some a => mark (muxFlag a) i | None => 0 end.

Abbreviation eff_ok := (effect_ok (Msg := Message) event_ok thread_ok).

(** What any step does to the core, with the effects it emits. *)
Record adv (c c' : core) (es : list effect) : Prop := {
  a_insts : insts_le c c';
  a_epoch : Epoch c <= Epoch c';
  a_invoke : abaInvokeFlag c ⊆ abaInvokeFlag c';
  a_eff : Forall (eff_ok c') es;
  a_sent : Forall sent_ok es;
  a_coin : forall e r i, (sends_of (is_coin e r i) es + fin_mark c e r i)%nat = fin_mark c' e r i;
  a_mux : forall e r i, (sends_of (is_mux e r i) es + mux_mark c e r i)%nat = mux_mark c' e r i;
  a_commit : commitCh (delivery (core_Commitor c)) `prefix_of` commitCh (delivery (core_Commitor c'))
}.

Definition pool_len (c : core) : nat := length (batchChannel (p_queue (TxPool c))).

(** One that stays in its epoch, records no new leader and returns no batch. *)
Record ext (k : nat) (c c' : core) (es : list effect) : Prop := {
  x_adv : adv c c' es;
  x_epoch : Epoch c' = Epoch c;
  x_leaders : forall e, is_Some (commitLeaders (core_Commitor c') !! e) ->
    is_Some (commitLeaders (core_Commitor c) !! e);
  x_pool : (pool_len c' <= pool_len c)%nat
}.

Lemma mvba_insts_le_eq (c c' : core) :
  cbcInstances c' = cbcInstances c -> abaInstances c' = abaInstances c -> insts_le c c'.
Proof.
  intros H1 H2. split; [intros e n t s|intros e r a]; rewrite ?H1, ?H2; [|eauto using aba_le_refl].
  intros Hs. exists s. split; [done|]. by intros ?.
Qed.

Lemma mvba_insts_le_trans (c1 c2 c3 : core) : insts_le c1 c2 -> insts_le c2 c3 -> insts_le c1 c3.
Proof.
  intros [A1 B1] [A2 B2]. split.
  - intros e n t s Hs. destruct (A1 _ _ _ _ Hs) as (s2 & Hs2 & H2).
    destruct (A2 _ _ _ _ Hs2) as (s3 & Hs3 & H3). exists s3. split; [done|]. intros H. auto.
  - intros e r a Ha. destruct (B1 _ _ _ Ha) as (a2 & Ha2 & H2).
    destruct (B2 _ _ _ Ha2) as (a3 & Ha3 & H3). eauto using aba_le_trans.
Qed.

Lemma mvba_thread_ok_mono (c c' : core) (t : Thread) :
  insts_le c c' -> thread_ok c t -> thread_ok c' t.
Proof.
  intros [A B]. destruct t as [e n t pc|e r pc]; cbn.
  - intros [[s Hs] Hpc]. destruct (A _ _ _ _ Hs) as (s' & Hs' & _). split; [by eexists|done].
  - intros (a & Ha & Hpc). destruct (B _ _ _ Ha) as (a' & Ha' & Hle). eauto using aba_pc_ok_mono.
Qed.

Lemma mvba_adv_refl (c : core) : adv c c [].
Proof. split; try done. by apply mvba_insts_le_eq. Qed.

Lemma mvba_adv_trans (c1 c2 c3 : core) (es1 es2 : list effect) :
  adv c1 c2 es1 -> adv c2 c3 es2 -> adv c1 c3 (es1 ++ es2).
Proof.
  intros [A1 B1 C1 D1 E1 F1 G1 H1] [A2 B2 C2 D2 E2 F2 G2 H2]. split.
  - by eapply mvba_insts_le_trans.
  - lia.
  - by etrans.
  - apply Forall_app. split; [|done]. eapply effects_mono; [|done].
    intros t. by apply mvba_thread_ok_mono.
  - by apply Forall_app.
  - intros e r i. rewrite sends_of_app, <-F2, <-F1. lia.
  - intros e r i. rewrite sends_of_app, <-G2, <-G1. lia.
  - by etrans.
Qed.

(** ** Specifications of commands *)

Definition room (k : nat) (c : core) : Prop := True.

Abbreviation triple := (Triple.triple core_ok room ext).
Abbreviation safe := (Triple.safe core_ok room ext).

Lemma mvba_ext_refl (k : nat) (c : core) : ext k c c [].
Proof. by split; [apply mvba_adv_refl|..]. Qed.

#[local] Instance mvba_step_rel : StepRel core_ok room ext.
Proof.
  split; try done.
  - apply mvba_ext_refl.
  - intros k1 k2 c1 c2 c3 es1 es2 [A1 B1 C1 D1] [A2 B2 C2 D2].
    split; [by eapply mvba_adv_trans|congruence|auto|lia].
  - intros k1 k2 c1 c2 es [A B C D]. by split.
Qed.

(** A change that leaves the instances, the epoch and the delivered blocks alone. *)
Lemma mvba_ext_quiet (c c' : core) :
  cbcInstances c' = cbcInstances c -> abaInstances c' = abaInstances c -> Epoch c' = Epoch c ->
  core_Commitor c' = core_Commitor c -> abaInvokeFlag c ⊆ abaInvokeFlag c' ->
  (pool_len c' <= pool_len c)%nat -> ext 0 c c' [].
Proof.
  intros H1 H2 H3 H4 H5 H6. split; [|done|by rewrite H4|done].
  split; rewrite ?H3, ?H4; try done; [by apply mvba_insts_le_eq|..]; intros e r i;
    unfold fin_mark, mux_mark; by rewrite H2.
Qed.

Lemma mvba_safe_modify (f : core -> core) :
  (forall c, Name (f c) = Name c /\ core_Committee (f c) = core_Committee c /\
    core_SigService (f c) = core_SigService c /\ core_Elector (f c) = core_Elector c /\
    Epoch (f c) = Epoch c /\ cbcInstances (f c) = cbcInstances c /\
    abaInstances (f c) = abaInstances c /\ core_Commitor (f c) = core_Commitor c /\
    cbcFinalIndexs (f c) = cbcFinalIndexs c /\ cbcFinalCnts (f c) = cbcFinalCnts c /\
    abaInvokeFlag c ⊆ abaInvokeFlag (f c) /\ (pool_len (f c) <= pool_len c)%nat) ->
  safe (modify f).
Proof.
  intros H. apply triple_modify. intros c [] _.
  destruct (H c) as (H1 & H2 & H3 & H4 & H5 & H6 & H7 & H8 & H9 & H10 & H11 & H12).
  split_and!; [|by apply mvba_ext_quiet|done].
  split; rewrite ?H1, ?H2, ?H3, ?H4, ?H5, ?H6, ?H7, ?H9, ?H10; done.
Qed.

Lemma mvba_safe_emit (x : effect) :
  (forall c, core_ok c -> eff_ok c x /\ sent_ok x) ->
  (forall g t m, x = ESend g t m -> forall e r i, is_coin e r i m = false /\ is_mux e r i m = false) ->
  safe (emit x).
Proof.
  intros Hx Hd. apply safe_emit. intros c Hc. destruct (Hx c Hc).
  split; [|done..]. split; try done; [by apply mvba_insts_le_eq|by apply Forall_singleton..| |];
    intros e r i; rewrite sends_of_none; try done; apply Forall_singleton; intros g t m Hm;
    by destruct (Hd g t m Hm e r i).
Qed.

Context (Hst : setting_ok st) (Hids : dense (s_com st)).

(** ** Messages of the node *)

Lemma mvba_own_msg_ok (m : Message) : own m -> msg_ok (s_com st) m.
Proof using Hst. apply mvba_own_event, st_member, Hst. Qed.

Lemma mvba_safe_broadcast (m : Message) :
  own m -> (forall s, m <> MCoinShare s) -> (forall s, m <> MABAMux s) -> safe (broadcast m).
Proof using Hst.
  intros Hm Hc Hx. unfold broadcast, send_all. apply safe_get. intros c Hok. rewrite (co_name _ Hok).
  apply safe_bind; [|intros _]; apply mvba_safe_emit.
  - by intros c' _.
  - intros g t m' [= <- <- <-] e r i. destruct m; try done; [by edestruct Hx|by edestruct Hc].
  - intros c' _. split; [by apply mvba_own_msg_ok|done].
  - done.
Qed.

(** Run a constructor and keep what is known of its message. *)
Ltac own_sign :=
  match goal with
  | |- context [RequestSignature ?srv ?h] =>
      let Hs := fresh "Hs" in let Hv := fresh "Hv" in let sig := fresh "sig" in
      destruct (sign_with_name srv _ _ (st_srv _ Hst) h) as (sig & Hs & Hv); rewrite Hs;
      eexists; split; [reflexivity|]; split_and!; [reflexivity|exact Hv|assumption|try done..]
  end.

Lemma mvba_NewProposal_own (b : Block) (e : Z) :
  in_int64 e ->
  exists p, NewProposal (s_srv st) (s_name st) (Some b) e = Ret p /\ own (MProposal p).
Proof using Hst Ed25519Laws0.
  intros He. unfold NewProposal. cbn [Proposal_Hash Proposal_B mbind Outcome_bind]. own_sign.
  intros p [= <-]. by eexists.
Qed.

Lemma NewCommitment_own (s : bool_slice) (e : Z) :
  in_int64 e -> exists p, NewCommitment (s_srv st) (s_name st) s e = Ret p /\ own (MCommitment p).
Proof using Hst Ed25519Laws0. intros He. unfold NewCommitment. own_sign. Qed.

Lemma mvba_NewVote_own (l e r f : Z) :
  in_int64 e -> exists p, NewVote (s_srv st) (s_name st) l e r f = Ret p /\ own (MVote p).
Proof using Hst Ed25519Laws0. intros He. unfold NewVote. own_sign. Qed.

Lemma NewABAVal_own (l e r i f : Z) :
  in_int64 e -> exists p, NewABAVal (s_srv st) (s_name st) l e r i f = Ret p /\ own (MABAVal p).
Proof using Hst Ed25519Laws0. intros He. unfold NewABAVal. own_sign. Qed.

Lemma mvba_NewElectShare_own (e : Z) :
  in_int64 e ->
  exists s, NewElectShare (s_srv st) (s_name st) e = Ret (Some s) /\ own (MElectShare s).
Proof using Hst.
  intros He. unfold NewElectShare, RequestTsSugnature, sig_serve. cbn.
  match goal with |- context [tbls_Sign ?sh ?m] => destruct (st_tbls _ Hst sh m) as [s Hs] end.
  rewrite Hs. cbn. eexists. split; [reflexivity|]. by split_and!.
Qed.

(** ** Helpers of the core *)

Lemma mvba_safe_storeBlock (b : option Block) : is_Some b -> safe (storeBlock b).
Proof using.
  intros [b' ->]. unfold storeBlock. destruct (Block_Encode b'); [|apply safe_ret].
  apply safe_get. intros c _. destruct (Store_Write _ _ _). apply safe_bind; [|intros; apply safe_ret].
  by apply mvba_safe_modify.
Qed.

Lemma mvba_safe_getBlock (d : Digest) : safe (getBlock d).
Proof using.
  unfold getBlock. apply safe_get. intros c _. destruct (Store_Read _ _) as [? [? err]].
  apply safe_bind; [by apply mvba_safe_modify|]. intros _.
  destruct err; [apply safe_ret|]. destruct (Block_Decode _); apply safe_ret.
Qed.

Lemma safe_generateBlock (e : Z) : safe (generateBlock e).
Proof using.
  intros c Hc _ _. unfold generateBlock. wp_steps.
  destruct (pool_get_some (TxPool c)) as [[b p] Hg]. rewrite Hg. wp_steps. apply pool_get_len in Hg.
  destruct Hc. split_and!; [by split| |done]. by apply mvba_ext_quiet.
Qed.

Lemma mvba_Commitor_Commit_spec (e : Z) (l : NodeID) (b : option Block) (c : core) :
  core_ok c ->
  wp False (Commitor_Commit e l b) c (fun _ c' es => core_ok c' /\ adv c c' es /\ Epoch c' = Epoch c /\
    TxPool c' = TxPool c /\
    forall e', is_Some (commitLeaders (core_Commitor c') !! e') ->
      e' = e \/ is_Some (commitLeaders (core_Commitor c) !! e')).
Proof using.
  intros Hc. unfold Commitor_Commit. wp_steps.
  destruct (mvba_Commit_returns (core_Commitor c) e l b) as (c' & Hr & Hp & Hk). rewrite Hr. wp_steps.
  destruct Hc. split_and!; [by split| |done|done|exact Hk]. split; try done. by apply mvba_insts_le_eq.
Qed.

(** The instance a lookup returns is in the map. *)
Lemma triple_getCBCInstance (I : core -> Prop) (e : Z) (n : NodeID) (t : Z) :
  in_int64 e ->
  triple 0 I (getCBCInstance e n t) (fun s c => lookup3 (cbcInstances c) e n t = Some s).
Proof using.
  intros He c Hc Hp Hi. unfold getCBCInstance. wp_steps.
  destruct (lookup3 (cbcInstances c) e n t) as [s|] eqn:El; wp_steps.
  - auto using mvba_ext_refl.
  - split_and!; [| |cbn; by autorewrite with nested].
    + destruct Hc as [? ? ? ? ? ? ? ? Hs ?]. split; try done. cbn. intros e' n' t' s'.
      rewrite lookup3_insert3. case_decide as Hd; [|by apply Hs].
      destruct Hd as (<- & <- & <-). intros [= <-]. done.
    + split; [|done..]. split; try done. split; cbn; [|eauto using aba_le_refl].
      intros e' n' t' s' Hs'. rewrite lookup3_insert3.
      case_decide as Hd; [destruct Hd as (<- & <- & <-); congruence|].
      exists s'. split; [done|]. by intros ?.
Qed.

Lemma triple_getABAInstance (I : core -> Prop) (e r : Z) :
  in_int64 e ->
  triple 0 I (getABAInstance e r) (fun a c => lookup2 (abaInstances c) e r = Some a).
Proof using.
  intros He c Hc Hp Hi. unfold getABAInstance. wp_steps.
  destruct (lookup2 (abaInstances c) e r) as [a|] eqn:El; wp_steps.
  - auto using mvba_ext_refl.
  - split_and!; [| |cbn; by autorewrite with nested].
    + destruct Hc as [? ? ? ? ? ? ? ? ? Ha]. split; try done. cbn. intros e' r' a'.
      rewrite lookup2_insert2. case_decide as Hd; [|by apply Ha].
      destruct Hd as (<- & <-). intros [= <-]. split; [|done]. split; cbn; try done; set_solver.
    + split; [|done..]. split; try done.
      * split; cbn; [intros e' n' t' s' Hs'; exists s'; split; [done|]; by intros ?|].
        intros e' r' a' Ha'. rewrite lookup2_insert2.
        case_decide as Hd; [destruct Hd as (<- & <-); congruence|]. eauto using aba_le_refl.
      * intros e' r' i. unfold fin_mark. cbn. rewrite lookup2_insert2.
        case_decide as Hd; [|done]. destruct Hd as (<- & <-). by rewrite El.
      * intros e' r' i. unfold mux_mark. cbn. rewrite lookup2_insert2.
        case_decide as Hd; [|done]. destruct Hd as (<- & <-). by rewrite El.
Qed.

Lemma safe_getCBCInstance (e : Z) (n : NodeID) (t : Z) : in_int64 e -> safe (getCBCInstance e n t).
Proof using. intros He. eapply triple_conseq; [by apply (triple_getCBCInstance (fun _ => True))|done..]. Qed.

(** A goroutine started in a state it is good in. *)
Lemma ext_go (k : nat) (c : core) (t : Thread) : thread_ok c t -> ext k c c [EGo t].
Proof using.
  intros Ht. split; [|done..]. split; try done; [by apply mvba_insts_le_eq|by apply Forall_singleton..].
Qed.

Lemma safe_go_cbc (e : Z) (n : NodeID) (t : Z) (pc : cbc_pc) :
  in_int64 e -> cbc_pc_ok (s_com st) n pc -> safe (go_cbc e n t pc).
Proof using.
  intros He Hpc. unfold go_cbc.
  apply (triple_bind 0 0 _ _ _ (fun s c => lookup3 (cbcInstances c) e n t = Some s)).
  { by apply triple_getCBCInstance. }
  intros s c Hc Hp Hs. wp_steps. split_and!; [done| |done]. apply ext_go. cbn. rewrite Hs. by split.
Qed.

Lemma safe_go_aba (e r : Z) (pc : aba_pc) :
  in_int64 e -> (forall a, aba_pc_ok e r a pc) -> safe (go_aba e r pc).
Proof using.
  intros He Hpc. unfold go_aba.
  apply (triple_bind 0 0 _ _ _ (fun a c => lookup2 (abaInstances c) e r = Some a)).
  { by apply triple_getABAInstance. }
  intros a c Hc Hp Ha. wp_steps. split_and!; [done| |done]. apply ext_go. exists a. auto.
Qed.

Lemma safe_unless_over (e : Z) (m : M core effect (option error)) : safe m -> safe (unless_over e m).
Proof using.
  intros Hm. unfold unless_over, messageFilter. apply safe_bind; [apply safe_gets|].
  intros [|]; [apply safe_ret|exact Hm].
Qed.

(** ** Handlers of stage one *)

Lemma mvba_safe_handleProposal (p : Proposal) :
  msg_ok (s_com st) (MProposal p) -> safe (handleProposal p).
Proof using Hids.
  intros ((a & [= <-] & Ha) & He & Hw). specialize (Hw p eq_refl). apply safe_unless_over.
  apply triple_get. intros c0 _ _.
  apply (triple_bind 0 0 _ _ _ (fun _ _ => True)).
  - case_bool; [|by apply triple_ret]. intros c Hc _ ->.
    eapply wp_mono; [by apply mvba_Commitor_Commit_spec|]. cbn beta.
    intros _ c' es (Hc' & Ha' & He' & Hp & Hk). split_and!; [done| |done]. split; [done..| |by unfold pool_len; rewrite Hp].
    intros e' [->|?]%Hk; [|done]. unfold CommitLeader, NONE in *.
    specialize (Hids _ Ha). destruct (commitLeaders _ !! _); [by eexists|]. cbn in *. lia.
  - intros _. apply safe_bind; [by apply mvba_safe_storeBlock|]. intros [err|]; [apply safe_ret|].
    by apply safe_go_cbc.
Qed.

Lemma safe_handleReady (r : Ready) : msg_ok (s_com st) (MReady r) -> safe (handleReady r).
Proof using. intros (_ & He & _). by apply safe_unless_over, safe_go_cbc. Qed.

Lemma safe_handleFinal (f : Final) : msg_ok (s_com st) (MFinal f) -> safe (handleFinal f).
Proof using. intros ((a & [= <-] & Ha) & He & _). by apply safe_unless_over, safe_go_cbc. Qed.

Lemma safe_handleCommitment (p : Commitment) :
  msg_ok (s_com st) (MCommitment p) -> safe (handleCommitment p).
Proof using. intros (_ & He & _). by apply safe_unless_over, safe_go_cbc. Qed.

Lemma at_index_lt {A : Type} (l : list A) (i : Z) : 0 <= i < Z.of_nat (length l) -> is_Some (at_index l i).
Proof using. intros Hi. unfold at_index. rewrite (proj2 (Z.ltb_ge _ _)) by lia. apply lookup_lt_is_Some. lia. Qed.

(** A change of the finals of an epoch alone. *)
Lemma ext_finals (c : core) (f : gmap Z (list bool)) (n : gmap Z (gmap Z Z)) :
  core_ok c ->
  (forall e l, f !! e = Some l -> length l = Z.to_nat (Committee_Size (s_com st))) ->
  (forall e, is_Some (n !! e) -> is_Some (f !! e)) ->
  let c' := c <| cbcFinalCnts := n |> <| cbcFinalIndexs := f |> in core_ok c' /\ ext 0 c c' [].
Proof using. intros [] Hf Hn c'. split; [by split|by apply mvba_ext_quiet]. Qed.

Lemma triple_ensure_finals (e : Z) :
  triple 0 (fun _ => True) (ensure_finals e) (fun _ c => is_Some (cbcFinalCnts c !! e)).
Proof using.
  intros c Hc _ _. unfold ensure_finals. wp_steps.
  destruct (cbcFinalCnts c !! e) as [m|] eqn:Ee; wp_steps.
  - split_and!; [done|apply mvba_ext_refl|by rewrite Ee].
  - rewrite (co_com _ Hc). pose proof Hc as [_ _ _ _ _ _ Hf Hcn _ _].
    match goal with |- context [<[e := replicate ?k false]> _] =>
      destruct (ext_finals c (<[e := replicate k false]> (cbcFinalIndexs c))
        (<[e := ∅]> (cbcFinalCnts c))) as [H1 H2]; [done|..] end.
    + intros e' l. rewrite lookup_insert_Some. intros [[_ <-]|[_ Hl]]; [apply length_replicate|eauto].
    + intros e'. rewrite !lookup_insert_is_Some'. naive_solver.
    + split_and!; [done..|]. cbn. rewrite lookup_insert_eq. by eexists.
Qed.

(** Counting a final of a known epoch; a block's final is marked at its proposer. *)
Lemma mark_final_spec (c : core) (e t : Z) (n : NodeID) (l : list bool) (cnt : Z) :
  core_ok c -> cbcFinalIndexs c !! e = Some l ->
  let c' := c <| cbcFinalCnts := insert2 e t cnt (cbcFinalCnts c) |>
              <| cbcFinalIndexs := if t =? DATA_CBC then <[e := <[Z.to_nat n := true]> l]> (cbcFinalIndexs c)
                                   else cbcFinalIndexs c |> in
  core_ok c' /\ ext 0 c c' [].
Proof using.
  intros Hc Hl. pose proof Hc as [_ _ _ _ _ _ Hf Hcn _ _]. apply (ext_finals c); [done|..].
  - intros e' l'. destruct (t =? DATA_CBC); [|eauto].
    rewrite lookup_insert_Some. intros [[_ <-]|[_ Hl']]; [rewrite length_insert|]; eauto.
  - intros e'. unfold insert2. rewrite lookup_insert_is_Some'.
    destruct (t =? DATA_CBC); rewrite ?lookup_insert_is_Some'; [naive_solver|].
    intros [<-|He']; [by rewrite Hl|auto].
Qed.

Lemma safe_addFinals (e t : Z) (n : NodeID) : n ∈ members (s_com st) -> safe (addFinals e t n).
Proof using Hids.
  intros Hn. unfold addFinals.
  apply (triple_bind 0 0 _ _ _ (fun _ c => is_Some (cbcFinalCnts c !! e))).
  { apply triple_ensure_finals. }
  intros _ c Hc _ Hs. pose proof Hc as [_ _ _ _ _ _ Hf Hcn _ _]. destruct (Hcn e Hs) as [l Hl].
  pose proof (mark_final_spec c e t n l (default 0 (lookup2 (cbcFinalCnts c) e t) + 1) Hc Hl) as [H1 H2].
  rewrite wp_bind, wp_get. cbn beta zeta. rewrite Hl. cbn [from_option id].
  pose proof (Hf e l Hl) as Hlen. specialize (Hids n Hn).
  destruct (t =? DATA_CBC); wp_steps; [|by split_and!].
  destruct (at_index_lt l n) as [b ->]; [lia|]. wp_steps. by split_and!.
Qed.

Lemma safe_processCBCBack (b : CBCBack) : event_ok (EvCBC b) -> safe (processCBCBack b).
Proof using Hst Hids Ed25519Laws0.
  intros [Hn He]. apply safe_unless_over. apply safe_bind; [by apply safe_addFinals|]. intros cnt.
  apply safe_bind.
  { destruct (_ =? _); [|apply safe_ret]. by apply mvba_safe_modify. }
  intros _. apply safe_get. intros c Hc. rewrite (co_name _ Hc), (co_srv _ Hc).
  destruct (cnt =? _); [|apply safe_ret]. destruct (_ =? DATA_CBC); [|destruct (_ =? COMMIT_CBC)].
  - destruct (NewCommitment_own (SFinals (CBCBack_Epoch b)) (CBCBack_Epoch b) He) as (p & Hp & Hown).
    eapply safe_lift; [exact Hp|]. apply safe_bind; [by apply mvba_safe_broadcast|]. intros. apply safe_ret.
  - destruct (mvba_NewElectShare_own (CBCBack_Epoch b) He) as (p & Hp & Hown).
    eapply safe_lift; [exact Hp|]. apply safe_bind; [by apply mvba_safe_broadcast|]. intros. apply safe_ret.
  - apply safe_ret.
Qed.

(** ** Handlers of stage two *)

(** Asking for the leader of the round, or indexing with it, is out of range. *)
Definition leaderless (c : core) (e r : Z) : Prop :=
  match randGen (core_Elector c) !! e with
  | None => is_Some (cbcFinalIndexs c !! e)
  | Some _ => ~ 0 <= r < Committee_Size (core_Committee c)
  end.

(** A vote for no whose leader is not an index of its author's commitment. *)
Definition short_commitment (c : core) (v : Vote) : Prop :=
  Vote_Flag v = FLAG_NO /\
  exists item l, lookup2 (commitments c) (Vote_Epoch v) (Vote_Author v) = Some item /\
    elements_of c item = Some l /\ at_index l (Vote_Leader v) = None.

Definition kept (c : core) {A : Type} (_ : A) (c' : core) (es : list effect) : Prop :=
  core_ok c' /\ ext 0 c c' es.

Lemma safe_kept {A : Type} (m : M core effect A) (c : core) (p : Prop) :
  safe m -> core_ok c -> wp p m c (kept c).
Proof using. intros Hm Hc. apply wp_safe. eapply wp_mono; [by apply (Hm c)|]. by intros a c' es (? & ? & _). Qed.

Lemma kept_bind {A B : Type} (m : M core effect A) (f : A -> M core effect B) (c : core) (p : Prop) :
  wp p m c (kept c) -> (forall a, safe (f a)) -> core_ok c -> wp p (m ≫= f) c (kept c).
Proof using.
  intros Hm Hf Hc. rewrite wp_bind. eapply wp_mono; [exact Hm|]. intros a c1 es1 [Hc1 Hx1].
  eapply wp_mono; [by apply safe_kept|]. intros b c2 es2 [Hc2 Hx2]. split; [done|].
  by apply (rel_trans 0 0 c c1 c2).
Qed.

Lemma committed_to_spec (c : core) (e r : Z) :
  core_ok c -> leaderless c e r \/
  exists leader yes, Leader (core_Elector c) e r = Ret leader /\ committed_to c e leader = Ret yes.
Proof using.
  intros Hc. pose proof Hc as [_ Hcom _ Hel Hg _ Hf _ _ _]. unfold leaderless, committed_to.
  destruct (randGen (core_Elector c) !! e) as [gen|] eqn:Eg.
  - destruct (decide (0 <= r < Committee_Size (core_Committee c))) as [Hr|Hr]; [|by left]. right.
    destruct (Leader_elected (core_Elector c) e r gen Hg Eg) as [Hin _]. rewrite Hel, <-Hcom in Hin.
    destruct (Hin Hr) as (l & Hl & Hlt). rewrite Hl. exists l.
    destruct (cbcFinalIndexs c !! e) as [bs|] eqn:Eb; [|eauto].
    rewrite Hcom in Hlt. destruct (at_index_lt bs l) as [b ->]; [|eauto]. rewrite (Hf _ _ Eb). lia.
  - destruct (cbcFinalIndexs c !! e) as [bs|]; [by left; eexists|]. right.
    unfold Leader. rewrite Eg. eauto.
Qed.

Lemma invokeStageTwo_spec (c : core) (e r : Z) :
  core_ok c -> in_int64 e -> wp (leaderless c e r) (invokeStageTwo e r) c (kept c).
Proof using Hst Ed25519Laws0.
  intros Hc He. pose proof (committed_to_spec c e r Hc) as Hd. unfold invokeStageTwo.
  rewrite wp_bind, wp_get. cbn beta. rewrite wp_bind, wp_lift.
  destruct (Leader _ _ _) as [leader|]; [|by destruct Hd as [?|(? & ? & ? & _)]]. rewrite wp_bind, wp_lift.
  destruct (committed_to _ _ _) as [yes|] eqn:Ey; [|destruct Hd as [?|(? & ? & [= <-] & ?)]; [done|congruence]]. rewrite (co_name _ Hc), (co_srv _ Hc).
  destruct (mvba_NewVote_own leader e r (if yes then FLAG_YES else FLAG_NO) He) as (v & Hv & Hown).
  eapply wp_mono; [apply safe_kept; [|done]|by intros].
  eapply safe_lift; [exact Hv|]. apply safe_bind; [by apply mvba_safe_broadcast|]. intros. apply safe_ret.
Qed.

Lemma handleElectShare_spec (s : ElectShare) (c : core) :
  core_ok c -> in_int64 (ElectShare_Epoch s) ->
  wp (Epoch c < ElectShare_Epoch s /\ leaderless c (Epoch c) 0) (handleElectShare s) c (kept c).
Proof using Hst Ed25519Laws0.
  intros Hc He. unfold handleElectShare, unless_over, messageFilter. rewrite wp_bind, wp_gets. cbn beta.
  destruct (Z.ltb_spec (ElectShare_Epoch s) (Epoch c)) as [|Hge]; [by apply safe_kept; [apply safe_ret|]|].
  rewrite wp_bind, wp_get. cbn beta.
  pose proof (addElectShare_gen_ok _ s (co_gen _ Hc)) as Hg.
  pose proof (addElectShare_committee (core_Elector c) s) as Hcom.
  pose proof (addElectShare_other (core_Elector c) s (Epoch c)) as Hother.
  pose proof (addElectShare_elects (core_Elector c)) as Hel.
  destruct (addElectShare (core_Elector c) s) as [e' [flag err]] eqn:Ea. cbn [fst] in *.
  rewrite wp_bind, wp_modify. cbn beta. set (c1 := c <| core_Elector := e' |>).
  assert (core_ok c1) as Hc1 by (destruct Hc; split; try done; cbn; congruence).
  assert (ext 0 c c1 []) as Hx1 by by apply mvba_ext_quiet.
  assert (forall p (m : M core effect (option error)), wp p m c1 (kept c1) ->
    wp p m c1 (fun b s2 e2 => kept c b s2 ([] ++ ([] ++ ([] ++ e2))))) as Hlift.
  { intros p m Hm. eapply wp_mono; [exact Hm|]. intros b c2 es2 [Hc2 Hx2].
    split; [done|]. by apply (rel_trans 0 0 c c1 c2 []). }
  apply Hlift. destruct err; [apply safe_kept; [apply safe_ret|done]|].
  destruct flag; [|apply safe_kept; [apply safe_ret|done]].
  eapply wp_panic_mono; [|apply invokeStageTwo_spec; [done|by destruct Hc]].
  intros Hl. unfold leaderless in *. cbn in Hl. destruct (decide (Epoch c = ElectShare_Epoch s)) as [Heq|Hne].
  - destruct (Hel _ _ _ Ea) as [gen Hgen]. rewrite Heq, Hgen in Hl. destruct Hl. rewrite (co_com _ Hc).
    split; [done|]. by eapply committee_pos, st_member.
  - rewrite (Hother Hne) in Hl. split; [lia|done].
Qed.

Lemma safe_invokeABAVal (l : NodeID) (e r i f : Z) : in_int64 e -> safe (invokeABAVal l e r i f).
Proof using Hst Ed25519Laws0.
  intros He. unfold invokeABAVal, isInvokeABA. apply safe_bind; [apply safe_gets|].
  intros [|]; [apply safe_ret|]. apply safe_get. intros c Hc. rewrite (co_name _ Hc), (co_srv _ Hc).
  apply safe_bind.
  { apply mvba_safe_modify. intros c0. split_and!; try done. apply union_subseteq_r. }
  intros _. destruct (NewABAVal_own l e r i f He) as (v & Hv & Hown). eapply safe_lift; [exact Hv|].
  apply safe_bind; [by apply mvba_safe_broadcast|]. intros. apply safe_ret.
Qed.

Lemma handleVote_spec (v : Vote) (c : core) :
  core_ok c -> in_int64 (Vote_Epoch v) -> wp (short_commitment c v) (handleVote v) c (kept c).
Proof using Hst Ed25519Laws0.
  intros Hc He. unfold handleVote, unless_over, messageFilter. rewrite wp_bind, wp_gets. cbn beta.
  destruct (_ <? _); [by apply safe_kept; [apply safe_ret|]|].
  eapply wp_mono; [apply (kept_bind (checkVote v)); [| |done]|by intros].
  - unfold checkVote. rewrite wp_bind, wp_get. cbn beta.
    destruct (Z.eqb_spec (Vote_Flag v) FLAG_NO) as [Hf|]; [|by apply safe_kept; [apply safe_ret|]].
    destruct (lookup2 _ _ _) as [item|] eqn:El; [|by apply safe_kept; [apply safe_ret|]].
    destruct (elements_of c item) as [l|] eqn:Ee; [|by apply safe_kept; [apply safe_ret|]].
    destruct (at_index l _) as [b|] eqn:Ei; [by apply safe_kept; [apply safe_ret|]|].
    rewrite wp_panic. split; [done|]. eauto.
  - intros [|]; [apply safe_ret|]. apply safe_get. intros c0 _.
    destruct (addVote _ _) as [agg [flag err]]. apply safe_bind; [by apply mvba_safe_modify|]. intros _.
    destruct err; [apply safe_ret|]. destruct (_ =? _); [apply safe_ret|]. by apply safe_invokeABAVal.
Qed.

Lemma safe_handleABAVal (v : ABAVal) : in_int64 (ABAVal_Epoch v) -> safe (handleABAVal v).
Proof using. intros He. by apply safe_unless_over, safe_go_aba. Qed.

Lemma safe_handleABAMux (m : ABAMux) : in_int64 (ABAMux_Epoch m) -> safe (handleABAMux m).
Proof using. intros He. by apply safe_unless_over, safe_go_aba. Qed.

Lemma safe_handleABAHalt (h : ABAHalt) : in_int64 (ABAHalt_Epoch h) -> safe (handleABAHalt h).
Proof using. intros He. by apply safe_unless_over, safe_go_aba. Qed.

Lemma safe_handleCoinShare (s : CoinShare) : in_int64 (CoinShare_Epoch s) -> safe (handleCoinShare s).
Proof using.
  intros He. apply safe_unless_over. apply safe_get. intros c _.
  destruct (addCoinShare _ _) as [agg [[ok coin] err]]. apply safe_bind; [by apply mvba_safe_modify|].
  intros _. destruct err; [apply safe_ret|]. destruct ok; [|apply safe_ret]. by apply safe_go_aba.
Qed.

(** ** Output and the next epoch *)

(** Epochs with a recorded leader are over. *)
Definition commit_inv (c : core) : Prop :=
  forall e, is_Some (commitLeaders (core_Commitor c) !! e) -> e < Epoch c \/ e = last_epoch.

Record inv (c : core) : Prop := { i_core : core_ok c; i_commit : commit_inv c }.

Lemma mvba_inv_ext (c c' : core) (es : list effect) : inv c -> core_ok c' -> ext 0 c c' es -> inv c'.
Proof using.
  intros [Hc Hi] Hc' [_ He Hl _]. split; [done|]. intros e Hs. rewrite He. by apply Hi, Hl.
Qed.

Definition moved (c : core) {A : Type} (_ : A) (c' : core) (es : list effect) : Prop :=
  inv c' /\ adv c c' es.

Lemma kept_moved {A : Type} (m : M core effect A) (c : core) (p : Prop) :
  inv c -> wp p m c (kept c) -> wp p m c (moved c).
Proof using.
  intros Hi Hm. eapply wp_mono; [exact Hm|]. intros a c' es [Hc' Hx].
  split; [by eapply mvba_inv_ext|by apply x_adv in Hx].
Qed.

(** Leaders recorded since [c] are of epoch [e], which goes on. *)
Definition output_post (e : Z) (c : core) {A : Type} (_ : A) (c' : core) (es : list effect) : Prop :=
  core_ok c' /\ adv c c' es /\ Epoch c' = Epoch c /\
  forall e', is_Some (commitLeaders (core_Commitor c') !! e') ->
    e' = e \/ is_Some (commitLeaders (core_Commitor c) !! e').

Lemma returnBatch_spec (e : Z) (c : core) :
  core_ok c -> in_int64 e ->
  wp (batch_cap <= pool_len c)%nat (returnBatch e) c (fun _ c' es =>
    core_ok c' /\ adv c c' es /\ Epoch c' = Epoch c /\
    forall e', is_Some (commitLeaders (core_Commitor c') !! e') -> is_Some (commitLeaders (core_Commitor c) !! e')).
Proof using.
  intros Hc He. unfold returnBatch. rewrite wp_bind, wp_get. cbn beta. rewrite wp_bind.
  eapply wp_mono; [by apply safe_kept; [apply safe_getCBCInstance|]|].
  intros cbc c1 es1 [Hc1 [Ha1 He1 Hl1 Hp1]]. destruct (BlockHash cbc) as [h|]; [|by rewrite wp_ret, !app_nil_r].
  rewrite wp_bind. eapply wp_mono; [by apply safe_kept; [apply mvba_safe_getBlock|]|].
  intros [b err] c2 es2 [Hc2 [Ha2 He2 Hl2 Hp2]]. cbn beta iota.
  assert (adv c c2 (es1 ++ es2)) as Ha by by eapply mvba_adv_trans.
  destruct err; [rewrite wp_ret, !app_nil_r; split_and!; [done..|congruence|auto]|].
  destruct b as [b|]; [|rewrite wp_ret, !app_nil_r; split_and!; [done..|congruence|auto]].
  rewrite wp_bind, wp_get. cbn beta. unfold PutBatch, txQueue_put.
  case_bool_decide as Hd; cbn [mbind option_bind]; [|apply wp_panic; unfold pool_len in *; lia].
  rewrite wp_modify, !app_nil_r. destruct Hc2. split_and!; [by split| |cbn; congruence|auto].
  match goal with |- adv c ?c3 _ => assert (adv c2 c3 []) as Ha3 end.
  { split; try done. by apply mvba_insts_le_eq. }
  pose proof (mvba_adv_trans _ _ _ _ _ Ha Ha3) as Ht. by rewrite app_nil_r in Ht.
Qed.

Lemma output_block_spec (e : Z) (l : NodeID) (c : core) :
  core_ok c -> in_int64 e ->
  wp (batch_cap <= pool_len c)%nat (output_block e l) c (output_post e c).
Proof using.
  intros Hc He. unfold output_block, output_post. rewrite wp_bind.
  eapply wp_mono; [by apply safe_kept; [apply safe_getCBCInstance|]|].
  intros cbc c1 es1 [Hc1 [Ha1 He1 Hl1 Hp1]].
  destruct (BlockHash cbc) as [h|]; [|rewrite wp_ret, !app_nil_r; split_and!; auto].
  rewrite wp_bind. eapply wp_mono; [by apply safe_kept; [apply mvba_safe_getBlock|]|].
  intros [b err] c2 es2 [Hc2 [Ha2 He2 Hl2 Hp2]]. cbn beta iota.
  assert (adv c c2 (es1 ++ es2)) as Ha by by eapply mvba_adv_trans.
  assert (wp (batch_cap <= pool_len c)%nat (Commitor_Commit e l None) c2 (fun b s2 e2 =>
    output_post e c b s2 (es1 ++ es2 ++ e2))) as Hnone.
  { apply wp_safe. eapply wp_mono; [by apply mvba_Commitor_Commit_spec|]. cbn beta.
    intros u c3 es3 (Hc3 & Ha3 & He3 & Hp3 & Hk3). rewrite (assoc_L (++)).
    split_and!; [done|by eapply mvba_adv_trans|congruence|]. intros e' [?|?]%Hk3; auto. }
  destruct err; [exact Hnone|]. destruct b as [b|]; [|exact Hnone].
  rewrite wp_bind. eapply wp_mono; [by apply wp_safe, mvba_Commitor_Commit_spec|].
  cbn beta. intros u c3 es3 (Hc3 & Ha3 & He3 & Hp3 & Hk3). rewrite wp_bind, wp_get. cbn beta.
  assert (adv c c3 (es1 ++ es2 ++ es3)) as Hadv by (rewrite (assoc_L (++)); by eapply mvba_adv_trans).
  destruct (negb _).
  - eapply wp_panic_mono; [|eapply wp_mono; [by apply (returnBatch_spec e c3)|]].
    + unfold pool_len in *. rewrite Hp3. lia.
    + intros u' c4 es4 (Hc4 & Ha4 & He4 & Hk4). rewrite !app_nil_l, !(assoc_L (++)).
      rewrite !(assoc_L (++)) in Hadv. split_and!; [done|by eapply mvba_adv_trans|congruence|].
      intros e' [?|?]%Hk4%Hk3; auto.
  - rewrite wp_ret, !app_nil_r. split_and!; [done|done|congruence|]. intros e' [?|?]%Hk3; auto.
Qed.

Lemma abvanceNextEpoch_spec (e : Z) (c : core) :
  core_ok c -> in_int64 e ->
  wp False (abvanceNextEpoch e) c (fun _ c' es => core_ok c' /\ adv c c' es /\
    Epoch c' = Z.max (Epoch c) e /\
    forall e', is_Some (commitLeaders (core_Commitor c') !! e') -> is_Some (commitLeaders (core_Commitor c) !! e')).
Proof using Hst Ed25519Laws0.
  intros Hc He. unfold abvanceNextEpoch. rewrite wp_bind, wp_get. cbn beta. case_bool.
  { rewrite wp_ret. split_and!; [done|apply mvba_adv_refl|lia|done]. }
  rewrite wp_bind, wp_modify. cbn beta. set (c1 := c <| Epoch := e |>).
  assert (core_ok c1) as Hc1 by (destruct Hc; by split).
  assert (adv c c1 []) as Ha1 by (split; try done; [by apply mvba_insts_le_eq|cbn; lia]).
  rewrite (co_name _ Hc), (co_srv _ Hc).
  eapply wp_mono; [apply safe_kept; [|exact Hc1]|].
  { apply safe_bind; [apply safe_generateBlock|]. intros b.
    destruct (mvba_NewProposal_own b e He) as (p & Hp & Hown). eapply safe_lift; [exact Hp|].
    apply safe_bind; [by apply mvba_safe_broadcast|]. intros. apply safe_ret. }
  intros _ c2 es2 [Hc2 [Ha2 He2 Hl2 _]].
  split_and!; [done|by apply (mvba_adv_trans c c1 c2 [])|rewrite He2; cbn; lia|done].
Qed.

Lemma handleOutput_spec (e : Z) (l : NodeID) (c : core) :
  inv c -> in_int64 e ->
  wp (batch_cap <= pool_len c)%nat (handleOutput e l) c (moved c).
Proof using Hst Ed25519Laws0.
  intros [Hc Hi] He. unfold handleOutput. rewrite wp_bind.
  eapply wp_mono; [by apply output_block_spec|]. intros _ c1 es1 (Hc1 & Ha1 & He1 & Hk1).
  apply wp_safe. eapply wp_mono; [apply abvanceNextEpoch_spec; [done|apply int64_range]|].
  intros u c2 es2 (Hc2 & Ha2 & He2 & Hk2). split; [|by eapply mvba_adv_trans]. split; [done|].
  intros e' [Heq|Hs]%Hk2%Hk1.
  - subst e'. destruct (decide (e = last_epoch)); [by right|left]. rewrite He2, int64_next by done. lia.
  - apply Hi in Hs. lia.
Qed.

(** ** The steps of a node *)

(** The events on which the main loop panics or blocks for ever. *)
Definition doomed (c : core) (ev : Ev) : Prop :=
  match ev with
  | EvMsg (MElectShare s) => Epoch c < ElectShare_Epoch s /\ leaderless c (Epoch c) 0
  | EvMsg (MVote v) => short_commitment c v
  | EvABA b =>
      ABABack_Typ b = ABA_HALT /\
      ((ABABack_Flag b = FLAG_NO /\ leaderless c (ABABack_Epoch b) (int64 (ABABack_ExRound b + 1))) \/
       (ABABack_Flag b = FLAG_YES /\ (batch_cap <= pool_len c)%nat))
  | _ => False
  end.

Lemma processABABack_spec (b : ABABack) (c : core) :
  inv c -> event_ok (EvABA b) -> wp (doomed c (EvABA b)) (processABABack b) c (moved c).
Proof using Hst Ed25519Laws0.
  intros Hi He. cbn in He. pose proof (i_core _ Hi) as Hc. unfold processABABack, doomed.
  case_bool; [apply kept_moved; [done|]; by apply safe_kept; [apply safe_invokeABAVal|]|].
  case_bool; [|apply kept_moved; [done|]; by apply safe_kept; [apply safe_ret|]].
  case_bool; [|case_bool; [|apply kept_moved; [done|]; by apply safe_kept; [apply safe_ret|]]].
  - apply kept_moved; [done|]. eapply wp_panic_mono; [|by apply invokeStageTwo_spec]. auto.
  - eapply wp_panic_mono; [|by apply handleOutput_spec]. auto.
Qed.

Lemma mvba_dispatch_spec (m : Message) (c : core) :
  inv c -> msg_ok (s_com st) m -> wp (doomed c (EvMsg m)) (dispatch m) c (moved c).
Proof using Hst Hids Ed25519Laws0.
  intros Hi Hm. pose proof (i_core _ Hi) as Hc. apply kept_moved; [done|].
  pose proof Hm as ((a & Ha & _) & He & _). destruct m; cbn [dispatch]; cbn in He; try done.
  - by apply safe_kept; [apply mvba_safe_handleProposal|].
  - by apply safe_kept; [apply safe_handleCommitment|].
  - by apply safe_kept; [apply safe_handleReady|].
  - by apply safe_kept; [apply safe_handleFinal|].
  - by apply handleElectShare_spec.
  - by apply handleVote_spec.
  - by apply safe_kept; [apply safe_handleABAVal|].
  - by apply safe_kept; [apply safe_handleABAMux|].
  - by apply safe_kept; [apply safe_handleCoinShare|].
  - by apply safe_kept; [apply safe_handleABAHalt|].
Qed.

Lemma mvba_handle_spec (ev : Ev) (c : core) :
  event_ok ev -> inv c -> wp (doomed c ev) (handle ev) c (fun t c' es => moved c t c' es /\ t = None).
Proof using Hst Hids Ed25519Laws0.
  intros Hev Hi. unfold handle. rewrite wp_bind.
  assert (wp (doomed c ev) (handle_ev ev) c (moved c)) as Hw.
  { destruct ev as [m|b|b]; cbn [handle_ev].
    - unfold handle_msg. rewrite wp_bind, wp_get. cbn beta. rewrite wp_bind, wp_lift, (co_com _ (i_core _ Hi)).
      pose proof Hev as ((a & Ha & Hin) & _ & Hw).
      destruct (mvba_Verify_member (s_com st) m a (st_keys _ Hst) Ha Hin Hw) as [b ->].
      eapply wp_mono; [by apply mvba_dispatch_spec|]. by intros.
    - apply kept_moved; [done|]. by apply safe_kept; [apply safe_processCBCBack|destruct Hi].
    - by apply processABABack_spec. }
  eapply wp_mono; [exact Hw|]. intros err c' es Hmv. rewrite wp_ret, app_nil_r. done.
Qed.

(** What a goroutine leaves: a good core, and itself knowing what it needs. *)
Definition stepped (c : core) (t' : option Thread) (c' : core) (es : list effect) : Prop :=
  kept c t' c' es /\ (forall t'', t' = Some t'' -> thread_ok c' t'').

Lemma cbc_tstep_spec (e : Z) (n : NodeID) (t : Z) (pc : cbc_pc) (c : core) :
  core_ok c -> thread_ok c (TCBC e n t pc) -> wp False (tstep (TCBC e n t pc)) c (stepped c).
Proof using Hst Ed25519Laws0.
  intros Hc [[s Hs] Hpc]. unfold wp, tstep. rewrite Hs.
  destruct (co_cbc _ Hc _ _ _ _ Hs) as [Hok Hep]. rewrite (co_name _ Hc), (co_com _ Hc), (co_srv _ Hc).
  pose proof (cbc_step_ok (s_name st) (s_com st) (s_srv st) (st_srv _ Hst) (st_member _ Hst) e Hep n t pc s
    Hok Hpc) as Hw.
  unfold wp in Hw. destruct (cbc_step _ _ _ _ _ _ _ s) as [[[pc' s'] es]|]; [|done].
  destruct Hw as (Hok' & Hle & Heff & Hnext). set (c' := c <| cbcInstances := _ |>).
  assert (lookup3 (cbcInstances c') e n t = Some s') as Hl' by (cbn; by autorewrite with nested).
  assert (forall kind : Message -> bool, (forall m, kind m = true -> (exists p, m = MCoinShare p) \/
    exists p, m = MABAMux p) -> sends_of kind es = 0%nat) as Hno.
  { intros kind Hk. apply sends_of_none. eapply Forall_impl; [exact Heff|]. intros x Hx g to m ->.
    destruct Hx as (_ & _ & H1 & H2). destruct (kind m) eqn:Ek; [|done].
    destruct (Hk m Ek) as [[p ->]|[p ->]]; [by edestruct H1|by edestruct H2]. }
  split; [split; [|split; [split; try done|done..]]|].
  - destruct Hc as [? ? ? ? ? ? ? ? Hsp ?]. split; try done. intros e' n' t' x. cbn. rewrite lookup3_insert3.
    case_decide as Hd; [|by apply Hsp]. destruct Hd as (<- & <- & <-). by intros [= <-].
  - split; cbn; [|eauto using aba_le_refl]. intros e' n' t' x Hx. rewrite lookup3_insert3. case_decide as Hd.
    + destruct Hd as (<- & <- & <-). rewrite Hs in Hx. injection Hx as <-. eauto.
    + exists x. split; [done|]. by intros ?.
  - eapply Forall_impl; [exact Heff|]. intros [f to m|ch ev|t1]; cbn; [done..|].
    intros (pc1 & -> & Hp1). split; [by rewrite Hl'|done].
  - eapply Forall_impl; [exact Heff|]. intros [f to m|ch ev|t1]; cbn; [|done..].
    by intros (? & ? & _).
  - intros e' r i. rewrite Hno; [done|]. intros []; cbn; try done. by left; eexists.
  - intros e' r i. rewrite Hno; [done|]. intros []; cbn; try done. by right; eexists.
  - intros t''. destruct pc' as [pc1|]; [|done]. intros [= <-]. split; [by rewrite Hl'|auto].
Qed.

(** The marks of an instance and the messages sent with them. *)
Lemma sends_marks_core (kind : Z -> Z -> Z -> Message -> bool) (flags : ABA -> gset Z)
    (insts : gmap Z (gmap Z ABA)) (e r : Z) (a a' : ABA) (es : list effect) :
  lookup2 insts e r = Some a -> flags a ⊆ flags a' ->
  sends_marks kind e r (flags a) (flags a') es ->
  forall e' r' i,
    (sends_of (kind e' r' i) es +
     match lookup2 insts e' r' with Some a => mark (flags a) i | None => 0 end =
     match lookup2 (insert2 e r a' insts) e' r' with Some a => mark (flags a) i | None => 0 end)%nat.
Proof using.
  intros Ha Hsub Hm e' r' i. rewrite Hm, lookup2_insert2.
  destruct (decide (e' = e /\ r' = r)) as [[-> ->]|Hne].
  - rewrite decide_True, Ha by done. unfold mark.
    destruct (decide (i ∈ flags a)) as [Hi|]; [rewrite decide_True by auto; done|]. lia.
  - rewrite decide_False by naive_solver. lia.
Qed.

Lemma aba_tstep_spec (e r : Z) (pc : aba_pc) (c : core) :
  core_ok c -> thread_ok c (TABA e r pc) -> wp False (tstep (TABA e r pc)) c (stepped c).
Proof using Hst Ed25519Laws0.
  intros Hc (a & Ha & Hpc). unfold wp, tstep. rewrite Ha.
  destruct (co_aba _ Hc _ _ _ Ha) as [Hok Hep]. rewrite (co_name _ Hc), (co_com _ Hc), (co_srv _ Hc).
  pose proof (aba_step_ok (s_name st) (s_com st) (s_srv st) (st_srv _ Hst) (st_member _ Hst) (st_tbls _ Hst)
    e Hep r pc a Hok Hpc) as Hw.
  unfold wp in Hw. destruct (aba_step _ _ _ _ a) as [[[pc' a'] es]|]; [|done].
  destruct Hw as (Hok' & Hle & Heff & Hcoin & Hmux & Hnext). set (c' := c <| abaInstances := _ |>).
  assert (lookup2 (abaInstances c') e r = Some a') as Hl' by (cbn; by autorewrite with nested).
  split; [split; [|split; [split; try done|done..]]|].
  - destruct Hc as [? ? ? ? ? ? ? ? ? Hsp]. split; try done. intros e' r' x. cbn. rewrite lookup2_insert2.
    case_decide as Hd; [|by apply Hsp]. destruct Hd as (<- & <-). by intros [= <-].
  - split; cbn; [intros e' n' t' x Hx; exists x; split; [done|]; by intros ?|].
    intros e' r' x Hx. rewrite lookup2_insert2. case_decide as Hd; [|eauto using aba_le_refl].
    destruct Hd as (<- & <-). rewrite Ha in Hx. injection Hx as <-. eauto.
  - eapply Forall_impl; [exact Heff|]. by intros [f to m|ch ev|t1].
  - eapply Forall_impl; [exact Heff|]. by intros [f to m|ch ev|t1].
  - apply (sends_marks_core is_coin muxFinFlag _ e r a a'); [done|apply al_fin, Hle|done].
  - apply (sends_marks_core is_mux muxFlag _ e r a a'); [done|apply al_mux, Hle|done].
  - intros t''. destruct pc' as [pc1|]; [|done]. intros [= <-]. exists a'. auto.
Qed.

Lemma mvba_tstep_spec (t : Thread) (c : core) :
  core_ok c -> thread_ok c t -> wp False (tstep t) c (stepped c).
Proof using Hst Ed25519Laws0.
  destruct t; [apply cbc_tstep_spec|apply aba_tstep_spec].
Qed.

(** The invariant with the history of effects. *)
Definition hist_inv (c : core) (log : list effect) : Prop :=
  inv c /\ (forall e r i, sends_of (is_coin e r i) log = fin_mark c e r i) /\
  (forall e r i, sends_of (is_mux e r i) log = mux_mark c e r i) /\ Forall sent_ok log.

Lemma mvba_adv_hist (c c' : core) (log es : list effect) :
  hist_inv c log -> inv c' -> adv c c' es -> step_post hist_inv event_ok thread_ok c log c' es.
Proof using.
  intros (Hi & Hd & Hm & Hs) Hi' Ha. split_and!; [split_and!|by apply (a_eff _ _ _ Ha)|].
  - done.
  - intros e r i. rewrite sends_of_app, Hd, <-(a_coin _ _ _ Ha). lia.
  - intros e r i. rewrite sends_of_app, Hm, <-(a_mux _ _ _ Ha). lia.
  - apply Forall_app. split; [done|]. apply (a_sent _ _ _ Ha).
  - intros t. apply mvba_thread_ok_mono, (a_insts _ _ _ Ha).
Qed.

Lemma mvba_handle_ok (ev : Ev) (c : core) (log : list effect) :
  event_ok ev -> hist_inv c log ->
  wp (doomed c ev) (handle ev) c (fun t' c' es =>
    step_post hist_inv event_ok thread_ok c log c' es /\
    (forall t'', t' = Some t'' -> thread_ok c' t'')).
Proof using Hst Hids Ed25519Laws0.
  intros Hev Hh. eapply wp_mono; [apply mvba_handle_spec; [done|apply Hh]|].
  intros t' c' es [[Hi Ha] ->]. split; [by apply mvba_adv_hist|done].
Qed.

Lemma mvba_tstep_ok (t : Thread) (c : core) (log : list effect) :
  thread_ok c t -> hist_inv c log ->
  wp False (tstep t) c (fun t' c' es =>
    step_post hist_inv event_ok thread_ok c log c' es /\
    (forall t'', t' = Some t'' -> thread_ok c' t'')).
Proof using Hst Ed25519Laws0.
  intros Ht Hh. eapply wp_mono; [apply mvba_tstep_spec; [apply Hh|done]|].
  intros t' c' es [[Hc Hx] Hn]. split; [|done].
  apply mvba_adv_hist; [done|eapply mvba_inv_ext; [apply Hh|done..]|by apply x_adv in Hx].
Qed.

Lemma net_event (ev : Ev) : net_ok (s_com st) ev -> event_ok ev.
Proof using. by intros (m & -> & Hm). Qed.

(** A new node with an empty pool. *)
Definition boot (params : Parameters) (store : Store db) (pool : PoolParams.t) (N Id : Z) : core :=
  NewCore (s_name st) (s_com st) params (s_srv st) store (NewPool pool N Id).

Lemma mvba_boot_inv params store pool N Id : inv (boot params store pool N Id).
Proof using.
  split; [split; cbn; try done|].
  - by intros e [? ?].
  - by intros e [? ?].
Qed.

Lemma mvba_boot_started params store pool N Id :
  exists n0, started (boot params store pool N Id) n0 /\
    node_ok hist_inv event_ok thread_ok n0 /\ sent_inv n0.
Proof using Hst Ed25519Laws0.
  set (c0 := boot params store pool N Id).
  pose proof (mvba_boot_inv params store pool N Id) as Hi. fold c0 in Hi.
  assert (safe Run_start) as Hsafe.
  { unfold Run_start. apply safe_get. intros c Hc. apply safe_bind; [apply safe_generateBlock|].
    intros b. rewrite (co_name _ Hc), (co_srv _ Hc).
    destruct (mvba_NewProposal_own b (Epoch c) (co_epoch _ Hc)) as (p & Hp & Hown).
    eapply safe_lift; [exact Hp|]. by apply mvba_safe_broadcast. }
  pose proof (kept_moved _ c0 False Hi (safe_kept _ c0 False Hsafe (i_core _ Hi))) as Hadv. unfold wp in Hadv.
  destruct (Run_start c0) as [[[[] c] es]|] eqn:Er; [|done]. destruct Hadv as (Hic & Ha).
  exists (start c es). split_and!; [by exists c, es| |apply start_sent].
  apply start_ok; [|by apply (a_eff _ _ _ Ha)]. split_and!; [done| | |by apply (a_sent _ _ _ Ha)].
  - intros e r i. rewrite <-(a_coin _ _ _ Ha). change (fin_mark c0 e r i) with 0%nat. lia.
  - intros e r i. rewrite <-(a_mux _ _ _ Ha). change (mux_mark c0 e r i) with 0%nat. lia.
Qed.

Lemma mvba_started_unique c0 n1 n2 : started (db := db) c0 n1 -> started c0 n2 -> n1 = n2.
Proof using. intros (c & es & H1 & ->) (c' & es' & H2 & ->). congruence. Qed.

Lemma mvba_reachable_ok params store pool N Id n0 n :
  started (boot params store pool N Id) n0 -> node_reachable (net_ok (s_com st)) n0 n ->
  node_ok hist_inv event_ok thread_ok n0 /\ node_ok hist_inv event_ok thread_ok n /\ sent_inv n.
Proof using Hst Hids Ed25519Laws0.
  intros H0 Hr. destruct (mvba_boot_started params store pool N Id) as (n1 & H1 & Hok & Hsent).
  rewrite <-(mvba_started_unique _ _ _ H0 H1) in *. split_and!; [done| |by eapply reachable_sent].
  eapply node_invariant; [apply mvba_handle_ok|apply mvba_tstep_ok|apply net_event|exact Hok|exact Hr].
Qed.

End Safety.

(** ** Theorems on every reachable state *)

Section Theorems.
Context {E : Ed25519} {K : Kyber} {R : MathRand} {db : Type} `{HDB : DB db} {GB : GobBlock}.
Context `{!Ed25519Laws E}.

(** C5. A correctly configured node starts, and from then on, whatever well-formed
    messages arrive and however the main loop and the goroutines are interleaved, it
    crashes only in the main loop, and only on one of four events: a quorum of election
    shares of a later epoch while its own epoch has no leaders yet; a vote for no whose
    leader is not an index of its author's commitment; a halt for no of an agreement
    after which there is no leader; a halt for yes when the pool is full.  No goroutine
    ever panics. *)
Theorem mvba_crash_cause (st : setting) (params : Parameters) (store : Store db)
    (pool : PoolParams.t) (N Id : Z) :
  setting_ok st -> dense (s_com st) ->
  exists n0, started (boot st params store pool N Id) n0 /\
    forall n ch, node_reachable (net_ok (s_com st)) n0 n -> allowed (net_ok (s_com st)) ch ->
      node_step ch n = Crash ->
      exists k ev rest, ch = CHandle k /\ n_main n = [] /\ n_cont n = None /\
        chan n k = ev :: rest /\ doomed (n_core n) ev.
Proof.
  intros Hst Hids. destruct (mvba_boot_started st Hst params store pool N Id) as (n0 & H0 & Hok & _).
  exists n0. split; [done|]. intros n ch Hr Hch Hcr.
  destruct (node_crash_cause _ _ _ _ _ _ _ doomed (mvba_handle_ok st Hst Hids) (mvba_tstep_ok st Hst)
    (net_event st) n0 n ch Hok Hr Hch Hcr) as (k & ev & rest & H). eauto.
Qed.

(** C12. In every reachable state, under every interleaving: every message the node has
    sent is in its own name and verifies; it has sent at most one coin share and at most
    one mux per inner round of an agreement; the flags of an inner round are backed by
    counted messages (a flag by a quorum of vals for its value, a flag without the other
    by a quorum of muxes for its value); the leaders of an epoch are all the nodes in
    some order. *)
Theorem mvba_node_invariant (st : setting) (params : Parameters) (store : Store db)
    (pool : PoolParams.t) (N Id : Z) n0 n :
  setting_ok st -> dense (s_com st) -> started (boot st params store pool N Id) n0 ->
  node_reachable (net_ok (s_com st)) n0 n ->
  (forall f t m, (f, t, m) ∈ n_sent n ->
     f = s_name st /\ msg_author m = Some f /\ Verify (s_com st) m = Ret true) /\
  (forall e r i, (sent_of (is_coin e r i) (n_sent n) <= 1)%nat /\
     (sent_of (is_mux e r i) (n_sent n) <= 1)%nat) /\
  (forall e r a i, lookup2 (abaInstances (n_core n)) e r = Some a ->
     (i ∈ yesFlag a -> HightThreshold (s_com st) <= count (valYesCnt a) i /\
        (i ∉ noFlag a -> HightThreshold (s_com st) <= count (muxYesCnt a) i)) /\
     (i ∈ noFlag a -> HightThreshold (s_com st) <= count (valNoCnt a) i /\
        (i ∉ yesFlag a -> HightThreshold (s_com st) <= count (muxNoCnt a) i))) /\
  (forall e gen, randGen (core_Elector (n_core n)) !! e = Some gen ->
     gen ≡ₚ (Z.of_nat <$> seq 0 (Z.to_nat (Committee_Size (s_com st))))).
Proof.
  intros Hst Hids H0 Hr. destruct (mvba_reachable_ok st Hst Hids _ _ _ _ _ _ _ H0 Hr) as (_ & Hok & Hsent).
  destruct Hok as (([Hc _] & Hd & Hm & Hlog) & _).
  assert (forall f, (sent_of f (n_sent n) <= sends_of f (n_log n))%nat) as Hle.
  { intros f. rewrite sends_of_sends. unfold sent_inv in Hsent. unfold sent_of. rewrite Hsent.
    rewrite filter_app, length_app. lia. }
  split_and!.
  - intros f t m Hin. eapply sent_in_log in Hin; [|exact Hsent].
    rewrite Forall_forall in Hlog. destruct (Hlog _ Hin) as (-> & Ha & Hv & _). done.
  - intros e r i. pose proof (Hle (is_coin e r i)) as H1. pose proof (Hle (is_mux e r i)) as H2.
    rewrite Hd in H1. rewrite Hm in H2. revert H1 H2. unfold fin_mark, mux_mark, mark.
    destruct (lookup2 _ _ _); repeat case_decide; lia.
  - intros e r a i Ha. destruct (co_aba _ _ Hc _ _ _ Ha) as [Hok _]. split; intros Hi.
    + destruct (ao_yes _ _ _ _ Hok i Hi) as (? & _ & ?). auto.
    + destruct (ao_no _ _ _ _ Hok i Hi) as (? & _ & ?). auto.
  - intros e gen Hg. rewrite <-(co_elector _ _ Hc). exact (co_gen _ _ Hc _ _ Hg).
Qed.

(** No step takes anything back: the epoch does not decrease, the delivered
    sequence of blocks only grows at its end, an agreement that has halted stays halted,
    its counters do not decrease, and the flags of a finished inner round, by which its
    coin is answered, never change again. *)
Theorem mvba_step_monotone (st : setting) (params : Parameters) (store : Store db)
    (pool : PoolParams.t) (N Id : Z) n0 n n' ch :
  setting_ok st -> dense (s_com st) -> started (boot st params store pool N Id) n0 ->
  node_reachable (net_ok (s_com st)) n0 n -> node_step ch n = Next n' ->
  Epoch (n_core n) <= Epoch (n_core n') /\
  commitCh (delivery (core_Commitor (n_core n))) `prefix_of` commitCh (delivery (core_Commitor (n_core n'))) /\
  (forall e r a, lookup2 (abaInstances (n_core n)) e r = Some a ->
     exists a', lookup2 (abaInstances (n_core n')) e r = Some a' /\
       (halt a = true -> halt a' = true) /\
       (forall i, count (valYesCnt a) i <= count (valYesCnt a') i /\
                  count (valNoCnt a) i <= count (valNoCnt a') i) /\
       (forall i, i ∈ muxFinFlag a -> i ∈ muxFinFlag a' /\
          (i ∈ yesFlag a' <-> i ∈ yesFlag a) /\ (i ∈ noFlag a' <-> i ∈ noFlag a))).
Proof.
  intros Hst Hids H0 Hr Hs. destruct (mvba_reachable_ok st Hst Hids _ _ _ _ _ _ _ H0 Hr) as (_ & Hok & _).
  pose proof Hok as ((Hi & _) & _).
  assert (exists es, adv st (n_core n) (n_core n') es) as [es [[_ A1] A2 _ _ _ _ _ A3]].
  { destruct (nstep_core _ _ _ _ _ _ _ _ _ Hok Hs) as [->|[(m & u & es & Hm & Hh)|(t & t' & es & Ht & Hh)]].
    - eexists. apply mvba_adv_refl.
    - pose proof (mvba_handle_spec st Hst Hids m _ Hm Hi) as Hw. unfold wp in Hw. rewrite Hh in Hw.
      destruct Hw as [[_ Ha] _]. eauto.
    - pose proof (mvba_tstep_spec st Hst t _ (i_core _ _ Hi) Ht) as Hw. unfold wp in Hw. rewrite Hh in Hw.
      destruct Hw as [[_ [Ha _ _ _]] _]. eauto. }
  split_and!; [done..|]. intros e r a Ha. destruct (A1 _ _ _ Ha) as (a' & Ha' & []).
  exists a'. split_and!; [done..|by split|]. intros i Hf. split_and!; [by apply al_fin|..]; auto.
Qed.

End Theorems.

(** ** Witnesses *)

Section Witness.
Import ToyCrypto ToyNode ToyGob ToyRand.

(** Node 1 of four, on an empty in-memory database. *)
Definition toy_core : Core (db := gmap bytes bytes) :=
  boot toy_setting DefaultParameters (NewStore ∅) toy_pool 4 1.

Definition toy_start : Node :=
  match Run_start toy_core with
  | Ret (_, c, es) => start c es
  | Panic => start toy_core []
  end.

Lemma mvba_toy_started : started toy_core toy_start.
Proof.
  assert (match Run_start toy_core with Ret _ => true | Panic => false end = true) as Hr
    by (vm_compute; reflexivity).
  unfold started, toy_start. by destruct (Run_start toy_core) as [[[[] c] es]|]; [eauto|].
Qed.

Lemma mvba_crash_cause_witness :
  exists n0, started toy_core n0 /\
    forall n ch, node_reachable (net_ok (toy_committee 4)) n0 n -> allowed (net_ok (toy_committee 4)) ch ->
      node_step ch n = Crash ->
      exists k ev rest, ch = CHandle k /\ n_main n = [] /\ n_cont n = None /\
        chan n k = ev :: rest /\ doomed (n_core n) ev.
Proof. apply (mvba_crash_cause toy_setting); [exact toy_setting_ok|exact toy_dense]. Defined.

(** The first message of the node: its proposal for epoch 0. *)
Definition toy_next : Node :=
  match node_step CMain toy_start with Next n => n | _ => toy_start end.
Lemma mvba_toy_next_reachable : node_reachable (net_ok (toy_committee 4)) toy_start toy_next.
Proof.
  eapply reach_step; [apply reach_init|]. exists CMain. split; [done|].
  assert (is_next (node_step CMain toy_start) = true) as Hr by (vm_compute; reflexivity).
  unfold toy_next. change (nstep chan_cap handle tstep) with (node_step (E := toy_ed25519)
    (K := toy_kyber) (R := toy_rand) (db := gmap bytes bytes)).
  by destruct (node_step CMain toy_start).
Qed.

Lemma mvba_node_invariant_witness :
  (forall f t m, (f, t, m) ∈ n_sent toy_next ->
     f = 1 /\ msg_author m = Some f /\ Verify (toy_committee 4) m = Ret true) /\
  length (n_sent toy_next) = 1%nat.
Proof.
  split; [|vm_compute; reflexivity].
  destruct (mvba_node_invariant toy_setting DefaultParameters (NewStore ∅) toy_pool 4 1 toy_start toy_next
    toy_setting_ok toy_dense mvba_toy_started mvba_toy_next_reachable) as (H & _). exact H.
Defined.

Lemma mvba_step_monotone_witness :
  exists n', node_step CMain toy_next = Next n' /\ Epoch (n_core toy_next) <= Epoch (n_core n').
Proof.
  assert (is_next (node_step CMain toy_next) = true) as Hr by (vm_compute; reflexivity).
  destruct (node_step CMain toy_next) as [n'| |] eqn:Es; [|discriminate..]. exists n'. split; [reflexivity|].
  destruct (mvba_step_monotone toy_setting DefaultParameters (NewStore ∅) toy_pool 4 1 toy_start toy_next n'
    CMain toy_setting_ok toy_dense mvba_toy_started mvba_toy_next_reachable Es) as (H & _). exact H.
Defined.

End Witness.
