(* ===== verification/MvbaBehaviour.v ===== *)
(** * mvba: what the handlers do, case by case

    The output of an epoch, what one halt message sets off, which events are sure to
    crash the main loop, and behaviours of the code that break what the protocol
    promises: messages are handled whether they verify or not, the branch for late
    blocks is dead, and election shares that come early crash a node. *)

From S2P Require Import Prelude GoStd Crypto Committee Store Pool Runtime Quorum Deliver Triple.
From S2P Require Import MvbaMessage MvbaAggreator MvbaElector MvbaCommitor.
From S2P Require Import MvbaInstance MvbaInvariant MvbaCore MvbaSafety.

Open Scope Z_scope.

Section Behaviour.
Context {E : Ed25519} {K : Kyber} {R : MathRand} {db : Type} `{HDB : DB db} {GB : GobBlock}.

Abbreviation core := (Core (db := db)).

(** ** Reading blocks *)

(** The block of a digest, given the database. *)
Definition block_at (d : db) (digest : Digest) : option Block :=
  match db_Get d digest with
  | (value, None) => Block_Decode value
  | (_, Some _) => None
  end.

(** No request waits at the store: the core is its only client. *)
Definition store_idle (c : core) (d : db) : Prop := core_Store c = mkStore d [].

Lemma mvba_wp_getBlock p (c : core) (d : db) (digest : Digest) Q :
  store_idle c d ->
  (forall r, match r with (Some b, None) => block_at d digest = Some b | (None, Some _) => block_at d digest = None
             | _ => False end -> Q r c []) ->
  wp p (getBlock digest) c Q.
Proof.
  intros Hs HQ. destruct c. unfold store_idle in Hs. cbn in Hs. subst.
  unfold wp, getBlock, mbind, M_bind, get_st, modify. cbn [core_Store]. rewrite Store_Read_idle.
  unfold block_at in HQ. destruct (db_Get d digest) as [v [err|]]; cbn; [by apply HQ|].
  destruct (Block_Decode v) eqn:Eb; by apply HQ.
Qed.

(** ** Output of an epoch *)

(** The hash a broadcast has stored. *)
Definition cbc_hash (c : core) (e : Z) (n : NodeID) : option Digest :=
  lookup3 (cbcInstances c) e n DATA_CBC ≫= BlockHash.

(** Fields that looking up an instance does not touch. *)
Record same_core (c c' : core) : Prop := {
  sc_name : Name c' = Name c;
  sc_srv : core_SigService c' = core_SigService c;
  sc_commitor : core_Commitor c' = core_Commitor c;
  sc_store : core_Store c' = core_Store c;
  sc_pool : TxPool c' = TxPool c;
  sc_epoch : Epoch c' = Epoch c;
  sc_hash : forall e n, cbc_hash c' e n = cbc_hash c e n
}.

Lemma wp_getCBCInstance p (c : core) (e : Z) (n : NodeID) Q :
  (forall s c', same_core c c' -> BlockHash s = cbc_hash c e n -> Q s c' []) ->
  wp p (getCBCInstance e n DATA_CBC) c Q.
Proof.
  intros HQ. unfold getCBCInstance. wp_steps. destruct (lookup3 _ _ _ _) as [s|] eqn:El; wp_steps.
  - apply HQ; [by split|]. unfold cbc_hash. by rewrite El.
  - apply HQ; [|unfold cbc_hash; by rewrite El]. split; try done. intros e' n'. unfold cbc_hash. cbn.
    rewrite lookup3_insert3. case_decide as Hd; [|done]. destruct Hd as (<- & <- & _). by rewrite El.
Qed.

(** Returning the node's own batch changes nothing but the pool. *)
Lemma mvba_wp_returnBatch (c : core) (d : db) (e : Z) :
  store_idle c d -> (pool_len c < batch_cap)%nat ->
  wp False (returnBatch e) c (fun _ c' es => es = [] /\ Name c' = Name c /\
    core_SigService c' = core_SigService c /\ core_Commitor c' = core_Commitor c /\ Epoch c' = Epoch c).
Proof.
  intros Hs Hp. unfold returnBatch. rewrite wp_bind, wp_get. cbn beta. rewrite wp_bind.
  apply wp_getCBCInstance. intros s c1 [] _. destruct (BlockHash s) as [h|]; [|by wp_steps].
  rewrite wp_bind. apply (mvba_wp_getBlock _ _ d); [unfold store_idle in *; congruence|].
  intros [[b|] [err|]] Hb; try done; wp_steps.
  unfold PutBatch, txQueue_put. rewrite sc_pool0, bool_decide_true by (unfold pool_len in Hp; done).
  cbn [mbind option_bind]. by wp_steps.
Qed.

(** What the output of an epoch under a leader does to the commitor: nothing when the
    leader's proposal was never seen, otherwise a commit, of the leader alone when the
    store does not give the block. *)
Definition outputs (c c' : core) (d : db) (e : Z) (l : NodeID) : Prop :=
  match cbc_hash c e l with
  | None => core_Commitor c' = core_Commitor c
  | Some h => Ret (core_Commitor c') = Commit (core_Commitor c) e l (block_at d h)
  end.

Lemma wp_output_block (c : core) (d : db) (e : Z) (l : NodeID) :
  store_idle c d -> (pool_len c < batch_cap)%nat ->
  wp False (output_block e l) c (fun _ c' es => es = [] /\ outputs c c' d e l /\ Name c' = Name c /\
    core_SigService c' = core_SigService c /\ Epoch c' = Epoch c).
Proof.
  intros Hs Hp. unfold output_block, outputs. rewrite wp_bind. apply wp_getCBCInstance.
  intros s c1 [] Hh. rewrite <-Hh. destruct (BlockHash s) as [h|]; [|by wp_steps].
  rewrite wp_bind. apply (mvba_wp_getBlock _ _ d); [unfold store_idle in *; congruence|].
  assert (forall b, wp False (Commitor_Commit e l b) c1 (fun _ c' es => es = [] /\
    Ret (core_Commitor c') = Commit (core_Commitor c) e l b /\ Name c' = Name c /\
    core_SigService c' = core_SigService c /\ Epoch c' = Epoch c /\
    core_Store c' = core_Store c /\ TxPool c' = TxPool c)) as Hcommit.
  { intros b. unfold Commitor_Commit. wp_steps. rewrite sc_commitor0.
    destruct (mvba_Commit_returns (core_Commitor c) e l b) as (cm & Hcm & _). rewrite Hcm. by wp_steps. }
  intros [[b|] [err|]] Hb; try done; rewrite Hb; cbn beta iota.
  - rewrite wp_bind. eapply wp_mono; [apply Hcommit|].
    intros u c2 es2 (-> & Hc2 & Hn2 & Hs2 & He2 & Hst2 & Hp2). rewrite wp_bind, wp_get. cbn beta.
    destruct (negb _); [|wp_steps; by rewrite Hc2].
    eapply wp_mono; [apply (mvba_wp_returnBatch c2 d)|].
    + unfold store_idle in *. congruence.
    + unfold pool_len in *. by rewrite Hp2.
    + intros u' c3 es3 (-> & Hn3 & Hs3 & Hc3 & He3). cbn. split_and!; congruence.
  - eapply wp_mono; [apply Hcommit|]. intros u c2 es2 (-> & Hc2 & Hn2 & Hs2 & He2 & _). by rewrite Hc2.
Qed.

(** A node proposes a new block of its own for an epoch: one broadcast. *)
Definition proposes (c : core) (e : Z) (es : list effect) : Prop :=
  exists p b, es = [ESend (Name c) NONE (MProposal p); to_self (MProposal p)] /\
    Proposal_Author p = Name c /\ Proposal_B p = Some b /\ Proposal_Epoch p = e /\
    Proposer b = Name c /\ Block_Epoch b = e.

Lemma wp_abvanceNextEpoch (c : core) (e : Z) :
  length (Prikey (PriKey (core_SigService c))) = 64%nat -> Epoch c < e ->
  wp False (abvanceNextEpoch e) c (fun r c' es => r = None /\
    core_Commitor c' = core_Commitor c /\ Epoch c' = e /\ proposes c e es).
Proof.
  intros Hk He. unfold abvanceNextEpoch. rewrite wp_bind, wp_get. cbn beta.
  rewrite (proj2 (Z.leb_gt _ _)) by lia. rewrite wp_bind, wp_modify. cbn beta.
  unfold generateBlock. rewrite !wp_bind, wp_get. cbn beta.
  destruct (pool_get_some (TxPool (c <| Epoch := e |>))) as [[b p] Hg]. rewrite Hg.
  unfold NewProposal, broadcast, send_all. wp_steps. cbn [Proposal_Hash Proposal_B mbind Outcome_bind].
  rewrite RequestSignature_ok by done. cbn [mbind Outcome_bind mret Outcome_ret]. wp_steps.
  split_and!; try done. eexists _, _. by split_and!.
Qed.

(** Where an output of epoch [e] takes the node: to the next epoch with a new block, when
    it was not past [e]; nowhere otherwise. *)
Definition moves_on (c c' : core) (e : Z) (es : list effect) : Prop :=
  if decide (Epoch c <= e) then Epoch c' = e + 1 /\ proposes c (e + 1) es
  else Epoch c' = Epoch c /\ es = [].

Lemma wp_handleOutput (c : core) (d : db) (e : Z) (l : NodeID) :
  length (Prikey (PriKey (core_SigService c))) = 64%nat ->
  store_idle c d -> (pool_len c < batch_cap)%nat -> in_int64 e -> e <> last_epoch ->
  wp False (handleOutput e l) c (fun r c' es => r = None /\
    outputs c c' d e l /\ moves_on c c' e es).
Proof.
  intros Hk Hs Hp He Hl. unfold handleOutput. rewrite wp_bind.
  eapply wp_mono; [by apply (wp_output_block c d)|]. intros u c1 es1 (-> & Hout & Hn & Hsrv & Hep).
  rewrite int64_next by done. unfold moves_on. destruct (decide (Epoch c <= e)).
  - eapply wp_mono; [apply wp_abvanceNextEpoch; [by rewrite Hsrv|lia]|].
    intros r c2 es2 (Hr & Hc2 & He2 & Hpr). split_and!; [done| |done|].
    + unfold outputs in *. by rewrite Hc2.
    + unfold proposes in *. by rewrite Hn in Hpr.
  - unfold abvanceNextEpoch. rewrite wp_bind, wp_get. cbn beta.
    rewrite (proj2 (Z.leb_le _ _)) by lia. by rewrite wp_ret.
Qed.

(** C13. The output of an epoch under the leader its agreement has accepted, on every
    branch.  If the leader's broadcast has a hash and the store the block, the block is
    committed under that epoch; if the store has no block for the hash, the leader alone
    is recorded; without a hash nothing is recorded.  Then a node that was not past the
    epoch goes to the next one and broadcasts a new block of its own; one that was past
    it stays where it is and sends nothing.  The output of an epoch before the last
    integer goes through whenever the pool's channel has room for the batch that may be
    returned to it. *)
Theorem mvba_output (c : core) (d : db) (e : Z) (l : NodeID) :
  length (Prikey (PriKey (core_SigService c))) = 64%nat ->
  store_idle c d -> (pool_len c < batch_cap)%nat -> in_int64 e -> e <> last_epoch ->
  exists c' es, handleOutput e l c = Ret (None, c', es) /\
    outputs c c' d e l /\ moves_on c c' e es.
Proof.
  intros Hk Hs Hp He Hl. pose proof (wp_handleOutput c d e l Hk Hs Hp He Hl) as Hw. unfold wp in Hw.
  destruct (handleOutput e l c) as [[[r c'] es]|]; [|done]. destruct Hw as (-> & Hw). eauto.
Qed.

(** ** One halt message *)

Definition halt_thread (h : ABAHalt) : Thread := TABA (ABAHalt_Epoch h) (ABAHalt_Round h) (AHalt h).
Definition halt_back (h : ABAHalt) : ABABack :=
  mkABABack ABA_HALT (ABAHalt_Epoch h) (ABAHalt_Round h) (ABAHalt_InRound h) (ABAHalt_Flag h)
    (ABAHalt_Leader h).

(** The agreement of the message's round has not halted. *)
Definition undecided (c : core) (h : ABAHalt) : Prop :=
  forall a, lookup2 (abaInstances c) (ABAHalt_Epoch h) (ABAHalt_Round h) = Some a -> halt a = false.

(** Fields that the agreements do not touch. *)
Record same_stage (c c' : core) : Prop := {
  ss_name : Name c' = Name c;
  ss_srv : core_SigService c' = core_SigService c;
  ss_commitor : core_Commitor c' = core_Commitor c;
  ss_store : core_Store c' = core_Store c;
  ss_pool : TxPool c' = TxPool c;
  ss_epoch : Epoch c' = Epoch c;
  ss_cbc : cbcInstances c' = cbcInstances c
}.

Lemma handle_halt (c : core) (h : ABAHalt) (b : bool) :
  Verify (core_Committee c) (MABAHalt h) = Ret b -> Epoch c <= ABAHalt_Epoch h -> undecided c h ->
  exists c1 a, handle (EvMsg (MABAHalt h)) c = Ret (None, c1, [EGo (halt_thread h)]) /\
    lookup2 (abaInstances c1) (ABAHalt_Epoch h) (ABAHalt_Round h) = Some a /\ halt a = false /\
    same_stage c c1.
Proof.
  intros Hv He Hu. unfold handle, handle_ev, handle_msg, dispatch, handleABAHalt, unless_over, messageFilter,
    go_aba, getABAInstance, mbind, M_bind, gets, get_st, lift_outcome, modify, emit, mret, M_ret.
  rewrite Hv. rewrite (proj2 (Z.ltb_ge _ _)) by lia. unfold undecided in Hu.
  destruct (lookup2 (abaInstances c) (ABAHalt_Epoch h) (ABAHalt_Round h)) as [a|] eqn:El; cbn.
  - exists c, a. split_and!; [done|done|by apply Hu|done].
  - eexists _, _. split_and!; [done|cbn; by autorewrite with nested|done|done].
Qed.

Lemma step_halt (c : core) (h : ABAHalt) (a : ABA) :
  length (Prikey (PriKey (core_SigService c))) = 64%nat ->
  lookup2 (abaInstances c) (ABAHalt_Epoch h) (ABAHalt_Round h) = Some a -> halt a = false ->
  exists c2 es, tstep (halt_thread h) c = Ret (None, c2, es) /\
    EPush abaCallBack (EvABA (halt_back h)) ∈ es /\ same_stage c c2.
Proof.
  intros Hk Ha Hh. unfold tstep, halt_thread. rewrite Ha.
  unfold aba_step, halt_step, mbind, M_bind, get_st, modify, lift_outcome, NewABAHalt. rewrite Hh.
  rewrite RequestSignature_ok by done. cbn. do 2 eexists. split_and!; [done| |done].
  do 2 right. by left.
Qed.

(** C36. One halt message ends an epoch, whoever sent it and whether it verifies or not.
    In a node whose agreement has not halted, any halt for yes with a member's name as
    its author starts a goroutine, whose step calls the main loop back; the loop outputs
    the epoch under the leader the message names, and goes to the next one. *)
Theorem mvba_unverified_halt (c : core) (d : db) (h : ABAHalt) (verified : bool) :
  length (Prikey (PriKey (core_SigService c))) = 64%nat ->
  store_idle c d -> (pool_len c < batch_cap)%nat -> - 2 ^ 63 <= Epoch c ->
  Epoch c <= ABAHalt_Epoch h < last_epoch ->
  ABAHalt_Flag h = FLAG_YES -> Verify (core_Committee c) (MABAHalt h) = Ret verified -> undecided c h ->
  exists c1 c2 c3 es2 es3,
    handle (EvMsg (MABAHalt h)) c = Ret (None, c1, [EGo (halt_thread h)]) /\
    tstep (halt_thread h) c1 = Ret (None, c2, es2) /\
    EPush abaCallBack (EvABA (halt_back h)) ∈ es2 /\
    handle (EvABA (halt_back h)) c2 = Ret (None, c3, es3) /\
    outputs c c3 d (ABAHalt_Epoch h) (ABAHalt_Leader h) /\ Epoch c3 = ABAHalt_Epoch h + 1.
Proof.
  intros Hk Hs Hp Hlo He Hf Hv Hu.
  destruct (handle_halt c h verified Hv) as (c1 & a & H1 & Ha & Hh & [A1 A2 A3 A4 A5 A6 A7]); [lia|done|].
  destruct (step_halt c1 h a) as (c2 & es2 & H2 & Hin & [B1 B2 B3 B4 B5 B6 B7]); [by rewrite A2|done|done|].
  pose proof (wp_handleOutput c2 d (ABAHalt_Epoch h) (ABAHalt_Leader h)) as Hw.
  rewrite B2, A2 in Hw.
  assert (pool_len c2 = pool_len c) as Hpl by (unfold pool_len; by rewrite B5, A5). rewrite Hpl in Hw.
  specialize (Hw Hk ltac:(unfold store_idle in *; congruence) Hp).
  specialize (Hw ltac:(unfold in_int64, last_epoch in *; lia) ltac:(lia)). unfold wp in Hw.
  destruct (handleOutput _ _ c2) as [[[r c3] es3]|] eqn:Eo; [|done]. destruct Hw as (-> & Hout & Hm).
  assert (Epoch c3 = ABAHalt_Epoch h + 1) as Hep
    by (revert Hm; unfold moves_on; rewrite decide_True by (rewrite B6, A6; lia); tauto).
  exists c1, c2, c3, es2, (es3 ++ []). split_and!; try done.
  - unfold handle, handle_ev, processABABack, halt_back, mbind, M_bind.
    cbn [ABABack_Typ ABABack_Flag ABABack_Epoch ABABack_Leader]. rewrite Hf. cbn -[handleOutput].
    by rewrite Eo.
  - revert Hout. unfold outputs, cbc_hash. by rewrite B7, A7, B3, A3.
Qed.

(** ** Events that are sure to crash the main loop *)

(** The crashes are real.  A halt for no after which there is no leader (because none
    was elected for that epoch while a broadcast of it is final, or because the rounds
    have used up the committee) panics; so does a vote for no of an epoch that is not
    over whose leader is not an index of its author's commitment. *)
Theorem mvba_doomed_exact (c : core) :
  gen_ok (core_Elector c) -> el_committee (core_Elector c) = core_Committee c ->
  (forall b, ABABack_Typ b = ABA_HALT -> ABABack_Flag b = FLAG_NO ->
     leaderless c (ABABack_Epoch b) (int64 (ABABack_ExRound b + 1)) -> handle (EvABA b) c = Panic) /\
  (forall v verified, Verify (core_Committee c) (MVote v) = Ret verified -> Epoch c <= Vote_Epoch v ->
     short_commitment c v -> handle (EvMsg (MVote v)) c = Panic).
Proof.
  intros Hg Hcom. split.
  - intros b Ht Hf Hl. unfold handle, handle_ev, processABABack, invokeStageTwo, mbind, M_bind, get_st, lift_outcome.
    rewrite Ht, Hf. cbn -[Leader committed_to]. unfold leaderless in Hl.
    destruct (randGen (core_Elector c) !! ABABack_Epoch b) as [gen|] eqn:Eg.
    + destruct (Leader_elected (core_Elector c) _ (int64 (ABABack_ExRound b + 1)) gen Hg Eg) as [_ Hno].
      rewrite Hno by by rewrite Hcom. done.
    + unfold Leader at 1. rewrite Eg. destruct Hl as [l Hl]. unfold committed_to. by rewrite Hl.
  - intros v verified Hv He (Hf & item & l & Hi & Hel & Hat).
    unfold handle, handle_ev, handle_msg, dispatch, handleVote, unless_over, messageFilter, checkVote,
      mbind, M_bind, get_st, gets, lift_outcome.
    rewrite Hv, (proj2 (Z.ltb_ge _ _)) by lia. rewrite Hf. cbn. by rewrite Hi, Hel, Hat.
Qed.

Lemma mvba_run_reachable (env : Ev -> Prop) (n0 n : Node (Core := core) (Ev := Ev) (Msg := Message) (Thread := Thread)) cs :
  Forall (allowed env) cs -> node_run cs n0 = Next n -> node_reachable env n0 n.
Proof. apply nrun_reachable, reach_init. Qed.

(** ** Early shares *)

(** The share is the last one that its epoch's quorum needs. *)
Definition completes_quorum (e : Elector) (share : ElectShare) : Prop :=
  let shares := default [] (electShares e !! ElectShare_Epoch share) ++ [ElectShare_Share share] in
  (ElectShare_Author share ∉ default ∅ (used e !! ElectShare_Epoch share)) /\
  Z.of_nat (length shares) = HightThreshold (el_committee e) /\
  is_Some (CombineIntactTSPartial shares (ShareKey (el_sigService e)) (ElectShare_Hash share)).

Lemma addElectShare_completes (e : Elector) (share : ElectShare) :
  ((addElectShare e share).2 = (true, None)) <-> completes_quorum e share.
Proof.
  unfold addElectShare, completes_quorum. cbn zeta. case_bool_decide as Hu; cbn; [naive_solver|].
  destruct (Z.eqb_spec (Z.of_nat (length (default [] (electShares e !! ElectShare_Epoch share) ++
    [ElectShare_Share share]))) (HightThreshold (el_committee e))); cbn; [|naive_solver].
  destruct (CombineIntactTSPartial _ _ _); cbn; [naive_solver|].
  split; [done|]. intros (_ & _ & [? [=]]).
Qed.

(** C37. Nodes that are ahead crash one that is behind.  [handleElectShare] enters stage
    two with the node's own epoch instead of that of the share.  For a node that has no
    leaders of its epoch yet, a share of a later epoch is fatal exactly when it completes
    the quorum of that later epoch while a broadcast of the node's own epoch is final:
    the node then indexes that epoch's finals with the leader -1.  It makes no difference
    whether the share verifies. *)
Theorem mvba_early_shares_crash (c : core) (share : ElectShare) (verified : bool) :
  length (Prikey (PriKey (core_SigService c))) = 64%nat ->
  Verify (core_Committee c) (MElectShare share) = Ret verified ->
  Epoch c < ElectShare_Epoch share -> randGen (core_Elector c) !! Epoch c = None ->
  (handle (EvMsg (MElectShare share)) c = Panic <->
   completes_quorum (core_Elector c) share /\ is_Some (cbcFinalIndexs c !! Epoch c)).
Proof.
  intros Hk Hv He Hg. rewrite <-addElectShare_completes.
  pose proof (addElectShare_other (core_Elector c) share (Epoch c) ltac:(lia)) as Ho. rewrite Hg in Ho.
  unfold handle, handle_ev, handle_msg, dispatch, handleElectShare, unless_over, messageFilter,
    mbind, M_bind, get_st, gets, lift_outcome, modify.
  rewrite Hv, (proj2 (Z.ltb_ge _ _)) by lia. cbn -[addElectShare invokeStageTwo].
  destruct (addElectShare (core_Elector c) share) as [el [flag err]]. cbn [fst snd] in *.
  destruct err; [naive_solver|]. destruct flag; [|naive_solver].
  unfold invokeStageTwo, mbind, M_bind, get_st, lift_outcome, NewVote.
  cbn -[Leader committed_to]. unfold Leader at 1. rewrite Ho. unfold committed_to. cbn. destruct (cbcFinalIndexs c !! Epoch c) as [l|]; cbn; [naive_solver|].
  rewrite RequestSignature_ok by done. cbn. split; [done|]. intros [_ [? [=]]].
Qed.

End Behaviour.

(** ** Late blocks *)

Section LateBlocks.
Context {E : Ed25519} {K : Kyber} {R : MathRand} {db : Type} `{HDB : DB db} {GB : GobBlock}.
Context `{!Ed25519Laws E}.

Abbreviation core := (Core (db := db)).

(** Everything a proposal sets off but the commit. *)
Lemma wp_store_and_go (p : Proposal) (c : core) :
  wp True (err ← storeBlock (Proposal_B p);
           match err with
           | Some e => mret (Some e)
           | None => go_cbc (Proposal_Epoch p) (Proposal_Author p) DATA_CBC (CProposal p)
           end) c (fun _ c' _ => core_Commitor c' = core_Commitor c).
Proof.
  unfold storeBlock, go_cbc, getCBCInstance. rewrite wp_bind. destruct (Proposal_B p) as [b|]; [|done].
  destruct (Block_Encode b) as [val|]; [|by wp_steps]. wp_steps.
  destruct (Store_Write _ _ _) as [store err]. wp_steps. destruct err; wp_steps; [done|].
  by destruct (lookup3 _ _ _ _); wp_steps.
Qed.

(** C32. The branch that commits a block which arrives after its epoch's output is dead.
    In every reachable state a recorded leader belongs to an epoch that is over (the
    last one of the integers apart), and proposals of such epochs are discarded before
    the leader is looked up: handling a proposal returns and leaves the commitor as it
    was, and a block that was missing at the output does not get there with its proposal. *)
Theorem mvba_late_block_dead (st : setting) (params : Parameters) (store : Store db)
    (pool : PoolParams.t) (N Id : Z) n0 n (p : Proposal) :
  setting_ok st -> dense (s_com st) -> started (boot st params store pool N Id) n0 ->
  node_reachable (net_ok (s_com st)) n0 n ->
  msg_ok (s_com st) (MProposal p) -> Proposal_Epoch p <> last_epoch ->
  exists t c' es, handle (EvMsg (MProposal p)) (n_core n) = Ret (t, c', es) /\
    core_Commitor c' = core_Commitor (n_core n).
Proof.
  intros Hst Hids H0 Hr Hm Hl. pose proof Hm as ((a & [= <-] & Ha) & _ & _).
  destruct (mvba_reachable_ok st Hst Hids _ _ _ _ _ _ _ H0 Hr) as (_ & Hok & _).
  destruct Hok as ((Hinv & _) & _). pose proof Hinv as [_ Hi].
  pose proof (mvba_handle_spec st Hst Hids (EvMsg (MProposal p)) (n_core n) Hm Hinv) as Hret.
  assert (wp True (handle (EvMsg (MProposal p))) (n_core n)
    (fun _ c' _ => core_Commitor c' = core_Commitor (n_core n))) as Hw.
  { unfold handle, handle_ev, handle_msg, dispatch, handleProposal, unless_over, messageFilter.
    rewrite !wp_bind, wp_get. cbn beta. rewrite wp_bind, wp_lift. destruct (Verify _ _); [|done].
    rewrite wp_bind, wp_gets. cbn beta.
    destruct (Z.ltb_spec (Proposal_Epoch p) (Epoch (n_core n))) as [|Hge]; [by wp_steps|].
    rewrite wp_bind, wp_get. cbn beta. rewrite wp_bind.
    destruct (Z.eqb_spec (CommitLeader (core_Commitor (n_core n)) (Proposal_Epoch p)) (Proposal_Author p))
      as [Heq|_].
    - exfalso. specialize (Hids _ Ha). unfold CommitLeader, NONE in Heq. specialize (Hi (Proposal_Epoch p)).
      destruct (commitLeaders _ !! _); [|cbn in Heq; lia]. destruct Hi as [|]; [by eexists|lia|done].
    - rewrite wp_ret. eapply wp_mono; [apply wp_store_and_go|]. intros r c1 es1 Hc. by rewrite wp_ret. }
  unfold wp in Hw, Hret. destruct (handle (EvMsg (MProposal p)) (n_core n)) as [[[t c'] es]|]; [|done].
  by exists t, c', es.
Qed.

End LateBlocks.

(** ** Witnesses *)

Section Race.
Import ToyCrypto ToyNode ToyGob ToyRand.

(** What correct nodes send: the proposal and the final of node 0 in epoch 0, and the
    election shares of nodes 0, 2 and 3 in epoch 1. *)
Definition early_proposal : Message :=
  match NewProposal (toy_service 4 0) 0 (Some (mkBlock 0 (mkBatch 4 None) 0)) 0 with
  | Ret p => MProposal p
  | Panic => MNil ProposalType
  end.
Definition early_final : Message :=
  match NewFinal (toy_service 4 0) 0 0 DATA_CBC with
  | Ret p => MFinal p
  | Panic => MNil FinalType
  end.
Definition early_share (i : nat) : Message :=
  match NewElectShare (toy_service 4 i) (Z.of_nat i) 1 with
  | Ret s => share_msg s
  | Panic => MNil ElectShareType
  end.
Definition early_messages : list Message :=
  [early_proposal; early_final; early_share 0; early_share 2; early_share 3].

(** Node 1 handles its own proposal and all messages but the last in turn; the goroutines
    of node 0's proposal and final run in between, and the loop takes their call back. *)
Definition early_schedule : list choice :=
  [CMain; CMain] ++ (CRecv <$> (EvMsg <$> early_messages)) ++
  [CHandle 0; CMain; CHandle 0; CMain; CHandle 0; CMain; CGo 1; CGo 2; CGo 2; CGo 2; CGo 2; CHandle 1;
   CHandle 0; CHandle 0].
Definition early_node : Node :=
  match node_run early_schedule toy_start with Next n => n | _ => toy_start end.

Lemma early_messages_ok : Forall (msg_ok (toy_committee 4)) early_messages.
Proof.
  assert (forall i : nat, bool_decide (Z.of_nat i ∈ members (toy_committee 4)) ->
    Z.of_nat i ∈ members (toy_committee 4)) as Hmem by (intros i H; by apply bool_decide_unpack in H).
  assert (in_int64 0 /\ in_int64 1) as [H0 H1] by (unfold in_int64; lia).
  assert (forall i : nat, bool_decide (Z.of_nat i ∈ members (toy_committee 4)) ->
    msg_ok (toy_committee 4) (early_share i)) as Hs.
  { intros i Hi. cbn. split_and!; [|done..]. exists (Z.of_nat i). split; [done|]. by apply Hmem. }
  unfold early_messages. repeat apply Forall_cons_2; [..|by apply Forall_nil].
  - unfold early_proposal, NewProposal. cbn [Proposal_Hash Proposal_B mbind Outcome_bind].
    rewrite RequestSignature_ok by done. cbn.
    split_and!; [exists 0; split; [done|by apply (Hmem 0%nat)]|done|]. intros p Hp.
    apply (f_equal (fun m => match m with MProposal q => Proposal_B q | _ => None end)) in Hp.
    cbn [Proposal_B] in Hp. rewrite <-Hp. by eexists.
  - unfold early_final, NewFinal. rewrite RequestSignature_ok by done. cbn.
    split_and!; [exists 0; split; [done|by apply (Hmem 0%nat)]|done|done].
  - by apply Hs.
  - by apply Hs.
  - by apply Hs.
Qed.

Lemma early_schedule_allowed : Forall (allowed (net_ok (toy_committee 4))) early_schedule.
Proof.
  unfold early_schedule. rewrite !Forall_app. split_and!.
  - by repeat constructor.
  - rewrite !Forall_fmap. eapply Forall_impl; [exact early_messages_ok|]. intros m Hm. by exists m.
  - by repeat constructor.
Qed.

Lemma early_node_reachable : node_reachable (net_ok (toy_committee 4)) toy_start early_node.
Proof.
  assert (is_next (node_run early_schedule toy_start) = true) as Hr by (vm_compute; reflexivity).
  unfold early_node. destruct (node_run early_schedule toy_start) as [n| |] eqn:En; [|discriminate..].
  exact (mvba_run_reachable _ _ _ early_schedule early_schedule_allowed En).
Qed.

(** The last share, which is next on the node's channel. *)
Definition early_last : ElectShare :=
  match early_share 3 with MElectShare s => s | _ => mkElectShare 0 0 (mkSignatureShare []) end.

Lemma mvba_early_shares_crash_witness :
  node_reachable (net_ok (toy_committee 4)) toy_start early_node /\
  Verify (toy_committee 4) (MElectShare early_last) = Ret true /\
  handle (EvMsg (MElectShare early_last)) (n_core early_node) = Panic /\
  node_step (CHandle 0) early_node = Crash.
Proof.
  assert (Verify (toy_committee 4) (MElectShare early_last) = Ret true) as Hv by (vm_compute; reflexivity).
  split; [exact early_node_reachable|]. split; [exact Hv|]. split.
  - refine (proj2 (mvba_early_shares_crash (n_core early_node) early_last true _ _ _ _) _).
    + vm_compute. reflexivity.
    + vm_compute. reflexivity.
    + vm_compute. reflexivity.
    + vm_compute. reflexivity.
    + split; [apply addElectShare_completes; vm_compute; reflexivity|]. vm_compute. eexists. reflexivity.
  - assert (match node_step (CHandle 0) early_node with Crash => true | _ => false end = true) as Hc
      by (vm_compute; reflexivity).
    destruct (node_step (CHandle 0) early_node); [discriminate Hc|reflexivity|discriminate Hc].
Defined.
End Race.

(** ** Witnesses *)

Section Witness.
Import ToyCrypto ToyNode ToyGob ToyRand.

Definition toy_stored : Block := mkBlock 2 (mkBatch 7 None) 0.
Definition toy_store : gmap bytes bytes :=
  {[ Block_Hash toy_stored := default [] (Block_Encode toy_stored) ]}.

(** Node 1 with the block of node 2 in its store and the hash in the broadcast. *)
Definition toy_core2 : Core (db := gmap bytes bytes) :=
  let c := boot toy_setting DefaultParameters (NewStore toy_store) toy_pool 4 1 in
  c <| cbcInstances := insert3 0 2 DATA_CBC ((NewCBC 2 0) <| BlockHash := Some (Block_Hash toy_stored) |>) ∅ |>.

Lemma mvba_output_witness :
  exists c' es, handleOutput 0 2 toy_core2 = Ret (None, c', es) /\
    commitCh (delivery (core_Commitor c')) = [(0, toy_stored)] /\ Epoch c' = 1 /\ proposes toy_core2 1 es.
Proof.
  destruct (mvba_output toy_core2 toy_store 0 2) as (c' & es & Hh & Hout & Hm).
  - vm_compute. reflexivity.
  - reflexivity.
  - unfold batch_cap. vm_compute. lia.
  - unfold in_int64. lia.
  - unfold last_epoch. lia.
  - exists c', es. split; [exact Hh|]. split; [|exact Hm]. clear Hh Hm. revert Hout. unfold outputs.
    assert (cbc_hash toy_core2 0 2 = Some (Block_Hash toy_stored)) as -> by reflexivity.
    assert (block_at toy_store (Block_Hash toy_stored) = Some toy_stored) as -> by (vm_compute; reflexivity).
    destruct (Commit (core_Commitor toy_core2) 0 2 (Some toy_stored)) as [cm|] eqn:Ec; [|done].
    intros [= ->]. revert Ec. vm_compute. intros [= <-]. reflexivity.
Defined.

(** A halt of epoch 0 in the name of node 3, with no signature at all. *)
Definition toy_forged : ABAHalt := mkABAHalt 3 2 0 0 0 FLAG_YES (mkSignature []).

Lemma mvba_unverified_halt_witness :
  Verify (toy_committee 4) (MABAHalt toy_forged) = Ret false /\
  exists c1 c2 c3 es2 es3,
    handle (EvMsg (MABAHalt toy_forged)) toy_core2 = Ret (None, c1, [EGo (halt_thread toy_forged)]) /\
    tstep (halt_thread toy_forged) c1 = Ret (None, c2, es2) /\
    EPush abaCallBack (EvABA (halt_back toy_forged)) ∈ es2 /\
    handle (EvABA (halt_back toy_forged)) c2 = Ret (None, c3, es3) /\
    outputs toy_core2 c3 toy_store 0 2 /\ Epoch c3 = 1.
Proof.
  assert (Verify (toy_committee 4) (MABAHalt toy_forged) = Ret false) as Hv by (vm_compute; reflexivity).
  split; [exact Hv|]. apply (mvba_unverified_halt toy_core2 toy_store toy_forged false).
  - vm_compute. reflexivity.
  - reflexivity.
  - unfold batch_cap. vm_compute. lia.
  - cbn. lia.
  - cbn. unfold last_epoch. lia.
  - reflexivity.
  - exact Hv.
  - intros a. cbn. discriminate.
Defined.

Definition toy_no : ABABack := mkABABack ABA_HALT 0 3 0 FLAG_NO 2.
Definition toy_core3 : Core (db := gmap bytes bytes) :=
  toy_core2 <| cbcFinalIndexs := {[0 := [false; false; true; false]]} |>.

Lemma mvba_doomed_exact_witness : handle (EvABA toy_no) toy_core3 = Panic.
Proof.
  destruct (mvba_doomed_exact toy_core3) as [H _].
  - intros e gen. cbn. discriminate.
  - reflexivity.
  - apply H; [reflexivity|reflexivity|]. unfold leaderless. cbn. by eexists.
Defined.

Definition toy_late : Proposal := mkProposal 2 (Some toy_stored) 0 (mkSignature []).

Lemma mvba_late_block_dead_witness :
  exists t c' es, handle (EvMsg (MProposal toy_late)) (n_core toy_next) = Ret (t, c', es) /\
    core_Commitor c' = core_Commitor (n_core toy_next).
Proof.
  apply (mvba_late_block_dead toy_setting DefaultParameters (NewStore ∅) toy_pool 4 1 toy_start toy_next
    toy_late toy_setting_ok toy_dense mvba_toy_started mvba_toy_next_reachable); [|done].
  split_and!; [|unfold in_int64; cbn; lia|].
  - exists 2. split; [reflexivity|]. apply (bool_decide_eq_true_1 _). vm_compute. reflexivity.
  - intros p [= <-]. by eexists.
Defined.

End Witness.
