(* ===== verification/MvbaHistory.v ===== *)
(** * mvba: what a node has handled and what it has said

    [did] summarises what the handling of an event does to stage two (the agreements,
    the coins, the flags of invoked values) and what it emits; the steps of goroutines
    are those of [aba_step].  From both follow, for every reachable node, facts that
    relate its histories to its state: every message of stage two that it emits has a
    cause among those it has handled ([said_ok]), its counters count handled messages,
    and a val for an inner round after a coin is sent once. *)

From S2P Require Import Prelude GoStd Crypto Committee Store Pool Runtime Quorum Deliver Coin History.
From S2P Require Import MvbaMessage MvbaAggreator MvbaElector MvbaCommitor.
From S2P Require Import MvbaInstance MvbaInvariant MvbaCore MvbaSafety.

Open Scope Z_scope.

(** ** Messages of stage two *)

Definition stage_two (m : Message) : bool :=
  match m with
  | MVote _ | MABAVal _ | MABAMux _ | MCoinShare _ | MABAHalt _ => true
  | _ => false
  end.

(** The val, or the mux, for a flag. *)
Definition is_val (e r i w : Z) (m : Message) : bool :=
  match m with
  | MABAVal v => bool_decide ((ABAVal_Epoch v, ABAVal_Round v, ABAVal_InRound v, ABAVal_Flag v) = (e, r, i, w))
  | _ => false
  end.
Definition is_mux_for (e r i w : Z) (m : Message) : bool :=
  match m with
  | MABAMux v => bool_decide ((ABAMux_Epoch v, ABAMux_Round v, ABAMux_InRound v, ABAMux_Flag v) = (e, r, i, w))
  | _ => false
  end.

(** The inner round after [i]. *)
Definition next_round (i : Z) : Z := int64 (i + 1).

(** [parent m' m]: handling [m'] can lead to saying [m], in the same agreement and about
    the same leader. *)
Definition parent (m' m : Message) : Prop :=
  match m', m with
  | MVote x, MABAVal y =>
      ABAVal_Epoch y = Vote_Epoch x /\ ABAVal_Round y = Vote_Round x /\ ABAVal_Leader y = Vote_Leader x /\
      ABAVal_InRound y = 0
  | MABAVal x, MABAVal y =>
      ABAVal_Epoch y = ABAVal_Epoch x /\ ABAVal_Round y = ABAVal_Round x /\
      ABAVal_Leader y = ABAVal_Leader x /\ ABAVal_InRound y = ABAVal_InRound x
  | MABAVal x, MABAMux y =>
      ABAMux_Epoch y = ABAVal_Epoch x /\ ABAMux_Round y = ABAVal_Round x /\
      ABAMux_Leader y = ABAVal_Leader x /\ ABAMux_InRound y = ABAVal_InRound x
  | MABAMux x, MCoinShare y =>
      CoinShare_Epoch y = ABAMux_Epoch x /\ CoinShare_Round y = ABAMux_Round x /\
      CoinShare_Leader y = ABAMux_Leader x /\ CoinShare_InRound y = ABAMux_InRound x
  | MCoinShare x, MABAVal y =>
      ABAVal_Epoch y = CoinShare_Epoch x /\ ABAVal_Round y = CoinShare_Round x /\
      ABAVal_Leader y = CoinShare_Leader x /\ ABAVal_InRound y = next_round (CoinShare_InRound x)
  | MCoinShare x, MABAHalt y =>
      ABAHalt_Epoch y = CoinShare_Epoch x /\ ABAHalt_Round y = CoinShare_Round x /\
      ABAHalt_Leader y = CoinShare_Leader x /\ ABAHalt_InRound y = CoinShare_InRound x
  | MABAHalt x, MABAHalt y =>
      ABAHalt_Epoch y = ABAHalt_Epoch x /\ ABAHalt_Round y = ABAHalt_Round x /\
      ABAHalt_Leader y = ABAHalt_Leader x /\ ABAHalt_InRound y = ABAHalt_InRound x
  | _, _ => False
  end.

Section History.
Context {E : Ed25519} {K : Kyber} {R : MathRand} {db : Type} `{HDB : DB db} {GB : GobBlock}.

Abbreviation core := (Core (db := db)).
Abbreviation node := (Node (Core := core) (Ev := Ev) (Msg := Message) (Thread := Thread)).

(** ** What a core shows of stage two *)

(** The agreement of a round; one that was not made yet has counted nothing. *)
Definition aba_at (c : core) (e r : Z) : ABA :=
  default (NewABA e r) (lookup2 (abaInstances c) e r).

#[local] Arguments aba_at : simpl never.

(** The shares of a coin. *)
Definition shares_at (c : core) (e r i : Z) : list SignatureShare :=
  Shares (default NewCoinAggreator (lookup3 (coins (core_Aggreator c)) e r i)).

(** Leaders of an epoch that a quorum of shares gives. *)
Definition elected (com : Committee) (srv : SigService) (e : Z) (gen : list NodeID) : Prop :=
  exists shares data, CombineIntactTSPartial shares (ShareKey srv)
    (hash_parts [LittleEndian_AppendUint64 e]) = Some data /\
    gen = Shuffle (seed_of int64 data) (Z.of_nat <$> seq 0 (Z.to_nat (Committee_Size com))).

(** A coin for a leader, an epoch and an inner round that a quorum of shares gives. *)
Definition tossed (srv : SigService) (l : NodeID) (e i coin : Z) : Prop :=
  exists shares data, CombineIntactTSPartial shares (ShareKey srv)
    (hash_parts [BigEndian_AppendUint64 l; BigEndian_AppendUint64 e; BigEndian_AppendUint64 i]) = Some data /\
    coin = seed_of uint64 data mod 2.

(** What handlers never change. *)
Record fixed (c c' : core) : Prop := {
  f_name : Name c' = Name c;
  f_com : core_Committee c' = core_Committee c;
  f_srv : core_SigService c' = core_SigService c;
  f_agg_com : agg_committee (core_Aggreator c') = agg_committee (core_Aggreator c);
  f_agg_srv : agg_sigService (core_Aggreator c') = agg_sigService (core_Aggreator c);
  f_el_com : el_committee (core_Elector c') = el_committee (core_Elector c);
  f_el_srv : el_sigService (core_Elector c') = el_sigService (core_Elector c);
  f_aba : forall e r, aba_at c' e r = aba_at c e r
}.

(** What handlers of stage one do not change either. *)
Record same_two (c c' : core) : Prop := {
  st_fixed : fixed c c';
  st_coins : coins (core_Aggreator c') = coins (core_Aggreator c);
  st_invoke : abaInvokeFlag c' = abaInvokeFlag c;
  st_gen : randGen (core_Elector c') = randGen (core_Elector c)
}.

Definition quiet (x : effect) : Prop :=
  match x with
  | ESend _ _ m | EPush _ (EvMsg m) => stage_two m = false
  | EPush _ (EvABA _) | EGo (TABA _ _ _) => False
  | EPush _ (EvCBC _) | EGo (TCBC _ _ _ _) => True
  end.

Lemma fixed_refl (c : core) : fixed c c.
Proof. by split. Qed.

Lemma fixed_trans (c1 c2 c3 : core) : fixed c1 c2 -> fixed c2 c3 -> fixed c1 c3.
Proof. intros [] []. split; try congruence. Qed.

Lemma same_two_refl (c : core) : same_two c c.
Proof. by split. Qed.

(** ** Commands of stage one *)

Section Quiet.
Context (c0 : core).
Abbreviation silent := (keeps True (same_two c0) quiet).

(** A change of other fields. *)
Lemma silent_modify (f : core -> core) :
  (forall c, Name (f c) = Name c /\ core_Committee (f c) = core_Committee c /\
    core_SigService (f c) = core_SigService c /\ core_Aggreator (f c) = core_Aggreator c /\
    core_Elector (f c) = core_Elector c /\ abaInstances (f c) = abaInstances c /\
    abaInvokeFlag (f c) = abaInvokeFlag c) ->
  silent (modify f).
Proof.
  intros H. apply keeps_modify. intros c [Hf Hc Hi Hg]. destruct (H c) as (H1 & H2 & H3 & H4 & H5 & H6 & H7).
  split; rewrite ?H4, ?H5, ?H7; try done. eapply fixed_trans; [exact Hf|].
  split; rewrite ?H4, ?H5; try done. intros e r. unfold aba_at. by rewrite H6.
Qed.

Lemma silent_panic {A : Type} : silent (@panic core effect A).
Proof. by intros c _. Qed.

Lemma silent_broadcast (m : Message) : stage_two m = false -> silent (broadcast m).
Proof.
  intros Hm. unfold broadcast, send_all. apply keeps_bind; [apply keeps_get|]. intros c.
  apply keeps_bind; [|intros _]; apply keeps_emit; exact Hm.
Qed.

Lemma silent_get_bind {A : Type} (k : core -> M core effect A) : (forall c, silent (k c)) -> silent (get_st ≫= k).
Proof. intros Hk. apply keeps_bind; [apply keeps_get|done]. Qed.

Lemma silent_lift_bind {A B : Type} (o : Outcome A) (k : A -> M core effect B) :
  (forall a, silent (k a)) -> silent (lift_outcome o ≫= k).
Proof. intros Hk. apply keeps_bind; [apply keeps_lift|done]. Qed.

Lemma silent_modify_bind {A : Type} (f : core -> core) (k : unit -> M core effect A) :
  silent (modify f) -> silent (k tt) -> silent (modify f ≫= k).
Proof. intros Hf Hk. apply keeps_bind; [done|]. by intros []. Qed.
End Quiet.

Ltac silent :=
  repeat first
    [ apply keeps_ret | apply keeps_lift | apply keeps_get | apply keeps_gets | apply silent_panic
    | apply silent_get_bind; intros ? | apply silent_lift_bind; intros ?
    | apply silent_modify_bind; [by apply silent_modify|] | by apply silent_modify ].

Lemma silent_storeBlock c0 (b : option Block) : keeps True (same_two c0) quiet (storeBlock b).
Proof.
  unfold storeBlock. destruct b as [b|]; [|apply silent_panic]. destruct (Block_Encode b); [|apply keeps_ret].
  apply silent_get_bind. intros c. destruct (Store_Write _ _ _). silent.
Qed.

Lemma silent_getBlock c0 (d : Digest) : keeps True (same_two c0) quiet (getBlock d).
Proof.
  unfold getBlock. apply silent_get_bind. intros c. destruct (Store_Read _ _) as [? [? err]].
  apply silent_modify_bind; [by apply silent_modify|]. destruct err; [apply keeps_ret|].
  destruct (Block_Decode _); apply keeps_ret.
Qed.

Lemma silent_getCBCInstance c0 (e : Z) (n : NodeID) (t : Z) :
  keeps True (same_two c0) quiet (getCBCInstance e n t).
Proof. unfold getCBCInstance. apply silent_get_bind. intros c. destruct (lookup3 _ _ _ _); silent. Qed.

Lemma silent_go_cbc c0 (e : Z) (n : NodeID) (t : Z) (pc : cbc_pc) :
  keeps True (same_two c0) quiet (go_cbc e n t pc).
Proof.
  unfold go_cbc. apply keeps_bind; [apply silent_getCBCInstance|]. intros _.
  apply keeps_bind; [by apply keeps_emit|]. intros _. apply keeps_ret.
Qed.

Lemma silent_unless_over c0 (e : Z) (m : M core effect (option error)) :
  keeps True (same_two c0) quiet m -> keeps True (same_two c0) quiet (unless_over e m).
Proof.
  intros Hm. unfold unless_over, messageFilter. apply keeps_bind; [apply keeps_gets|]. intros [|]; [apply keeps_ret|done].
Qed.

Lemma silent_Commit c0 (e : Z) (l : NodeID) (b : option Block) :
  keeps True (same_two c0) quiet (Commitor_Commit e l b).
Proof. unfold Commitor_Commit. silent. Qed.

Lemma silent_processCBCBack c0 (b : CBCBack) : keeps True (same_two c0) quiet (processCBCBack b).
Proof.
  unfold processCBCBack. apply silent_unless_over. apply keeps_bind.
  { unfold addFinals, ensure_finals. apply keeps_bind.
    { apply silent_get_bind. intros c. destruct (cbcFinalCnts c !! _); silent. }
    intros _. apply silent_get_bind. intros c. apply keeps_bind.
    { destruct (_ =? _); [|apply keeps_ret]. destruct (at_index _ _); silent. }
    intros _. silent. }
  intros cnt. apply keeps_bind; [destruct (_ =? _); unfold addCommitment; silent|]. intros _.
  apply silent_get_bind. intros c. destruct (_ =? _); [|apply keeps_ret]. destruct (_ =? _).
  - apply silent_lift_bind. intros p. apply keeps_bind; [by apply silent_broadcast|]. intros _. apply keeps_ret.
  - destruct (_ =? _); [|apply keeps_ret]. apply silent_lift_bind. intros s.
    apply keeps_bind; [apply silent_broadcast; by destruct s|]. intros _. apply keeps_ret.
Qed.

Lemma silent_handleOutput c0 (e : Z) (l : NodeID) : keeps True (same_two c0) quiet (handleOutput e l).
Proof.
  assert (forall c0 e, keeps True (same_two c0) quiet (returnBatch e)) as Hret.
  { intros c1 e1. unfold returnBatch. apply silent_get_bind. intros c. apply keeps_bind; [apply silent_getCBCInstance|].
    intros s. destruct (BlockHash s); [|apply keeps_ret]. apply keeps_bind; [apply silent_getBlock|].
    intros [[b|] [err|]]; try apply keeps_ret. apply silent_get_bind. intros c'.
    destruct (PutBatch _ _); silent. }
  unfold handleOutput, output_block. apply keeps_bind.
  - apply keeps_bind; [apply silent_getCBCInstance|]. intros s. destruct (BlockHash s); [|apply keeps_ret].
    apply keeps_bind; [apply silent_getBlock|]. intros [[b|] [err|]]; try apply silent_Commit.
    apply keeps_bind; [apply silent_Commit|]. intros _. apply silent_get_bind. intros c.
    destruct (negb _); [apply Hret|apply keeps_ret].
  - intros _. unfold abvanceNextEpoch. apply silent_get_bind. intros c. destruct (_ <=? _); [apply keeps_ret|].
    apply silent_modify_bind; [by apply silent_modify|]. apply keeps_bind.
    { unfold generateBlock. apply silent_get_bind. intros c'. destruct (GetBatch _) as [[b p]|]; silent. }
    intros b. apply silent_lift_bind. intros p. apply keeps_bind; [by apply silent_broadcast|].
    intros _. apply keeps_ret.
Qed.

(** ** What handling an event does *)

(** A broadcast of the node. *)
Definition says (name : NodeID) (m : Message) : list effect := [ESend name NONE m; to_self m].

(** The goroutine a message starts. *)
Definition starts (m : Message) : option (Z * Z * aba_pc) :=
  match m with
  | MABAVal v => Some (ABAVal_Epoch v, ABAVal_Round v, AVal v)
  | MABAMux v => Some (ABAMux_Epoch v, ABAMux_Round v, AMux v)
  | MABAHalt h => Some (ABAHalt_Epoch h, ABAHalt_Round h, AHalt h)
  | _ => None
  end.

Definition val_key (v : ABAVal) : Z * Z * Z * Z :=
  (ABAVal_Epoch v, ABAVal_Round v, ABAVal_InRound v, ABAVal_Flag v).

(** Why a handler sends a val, and why it votes. *)
Definition val_cause (ev : Ev) (v : ABAVal) : Prop :=
  (exists x, ev = EvMsg (MVote x) /\ parent (MVote x) (MABAVal v)) \/
  (exists b, ev = EvABA b /\ ABABack_Typ b = ABA_INVOKE /\
     val_key v = (ABABack_Epoch b, ABABack_ExRound b, ABABack_InRound b, ABABack_Flag b) /\
     ABAVal_Leader v = ABABack_Leader b).
Definition vote_cause (c : core) (ev : Ev) (v : Vote) : Prop :=
  (exists s, ev = EvMsg (MElectShare s) /\ Vote_Epoch v = Epoch c /\ Vote_Round v = 0) \/
  (exists b, ev = EvABA b /\ ABABack_Typ b = ABA_HALT /\ ABABack_Flag b = FLAG_NO /\
     Vote_Epoch v = ABABack_Epoch b /\ Vote_Round v = int64 (ABABack_ExRound b + 1)).

(** The goroutine of a coin, once the shares reach the threshold. *)
Definition coin_started (c c' : core) (s : CoinShare) (es : list effect) : Prop :=
  es = [] \/
  exists data, Z.of_nat (length (shares_at c' (CoinShare_Epoch s) (CoinShare_Round s) (CoinShare_InRound s))) =
      HightThreshold (agg_committee (core_Aggreator c)) /\
    CombineIntactTSPartial (shares_at c' (CoinShare_Epoch s) (CoinShare_Round s) (CoinShare_InRound s))
      (ShareKey (agg_sigService (core_Aggreator c))) (CoinShare_Hash s) = Some data /\
    es = [EGo (TABA (CoinShare_Epoch s) (CoinShare_Round s)
                 (ACoin (CoinShare_InRound s) (seed_of uint64 data mod 2) (CoinShare_Leader s)))].

Definition same_shares (c c' : core) : Prop := forall e r i, shares_at c' e r i = shares_at c e r i.

Inductive did (c : core) (ev : Ev) (c' : core) : list effect -> Prop :=
| did_quiet es :
    Forall quiet es -> same_shares c c' ->
    abaInvokeFlag c' = abaInvokeFlag c -> did c ev c' es
| did_vote v :
    vote_cause c ev v -> Leader (core_Elector c') (Vote_Epoch v) (Vote_Round v) = Ret (Vote_Leader v) ->
    same_shares c c' ->
    abaInvokeFlag c' = abaInvokeFlag c -> did c ev c' (says (Name c) (MVote v))
| did_val v :
    val_cause ev v -> same_shares c c' -> val_key v ∉ abaInvokeFlag c ->
    abaInvokeFlag c' = {[val_key v]} ∪ abaInvokeFlag c -> did c ev c' (says (Name c) (MABAVal v))
| did_go m e r pc :
    ev = EvMsg m -> starts m = Some (e, r, pc) -> same_shares c c' ->
    abaInvokeFlag c' = abaInvokeFlag c -> did c ev c' [EGo (TABA e r pc)]
| did_share s es :
    ev = EvMsg (MCoinShare s) -> abaInvokeFlag c' = abaInvokeFlag c ->
    (forall e r i, shares_at c' e r i =
       shares_at c e r i ++ (if decide (coin_key s = (e, r, i)) then [CoinShare_Share s] else [])) ->
    coin_started c c' s es -> did c ev c' es.

(** New leaders come from a quorum of shares. *)
Definition gens_ok (c c' : core) : Prop :=
  forall e gen, randGen (core_Elector c') !! e = Some gen ->
    randGen (core_Elector c) !! e = Some gen \/
    elected (el_committee (core_Elector c)) (el_sigService (core_Elector c)) e gen.

Definition summary (c : core) (ev : Ev) (c' : core) (es : list effect) : Prop :=
  fixed c c' /\ gens_ok c c' /\ did c ev c' es.

Lemma same_two_shares (c c' : core) : same_two c c' -> same_shares c c'.
Proof. intros [_ Hc _ _] e r i. unfold shares_at. by rewrite Hc. Qed.

Lemma summary_quiet (c : core) (ev : Ev) {A : Type} (m : M core effect A) :
  keeps True (same_two c) quiet m -> wp True m c (fun _ c' es => summary c ev c' es).
Proof.
  intros Hm. eapply wp_mono; [apply Hm, same_two_refl|]. intros a c' es [Hs He].
  pose proof Hs as [Hf Hc Hi Hg]. split_and!; [done| |by apply did_quiet; auto using same_two_shares]. intros e gen. rewrite Hg. auto.
Qed.

Lemma summary_getABAInstance (c : core) (e r : Z) Q :
  (forall a c', same_two c c' -> Q a c' []) -> wp True (getABAInstance e r) c Q.
Proof.
  intros HQ. unfold getABAInstance. wp_steps. destruct (lookup2 _ _ _) as [a|] eqn:El; wp_steps.
  - apply HQ, same_two_refl.
  - apply HQ. split; try done. split; try done. intros e' r'. unfold aba_at. cbn. rewrite lookup2_insert2.
    case_decide as Hd; [|done]. destruct Hd as [<- <-]. by rewrite El.
Qed.

Lemma summary_go_aba (c c1 : core) (e r : Z) (pc : aba_pc) Q :
  same_two c c1 -> (forall c', same_two c c' -> Q None c' [EGo (TABA e r pc)]) -> wp True (go_aba e r pc) c1 Q.
Proof.
  intros Hs HQ. unfold go_aba. rewrite wp_bind. apply summary_getABAInstance. intros a c' [Hf Hc Hi Hg].
  wp_steps. apply HQ. destruct Hs as [Hf1 Hc1 Hi1 Hg1]. split; [by eapply fixed_trans|congruence..].
Qed.

Lemma summary_handle_go (c : core) (m : Message) (e r : Z) (pc : aba_pc) (ep : Z) :
  starts m = Some (e, r, pc) ->
  wp True (unless_over ep (go_aba e r pc)) c (fun _ c' es => summary c (EvMsg m) c' es).
Proof.
  intros Hm. unfold unless_over, messageFilter. rewrite wp_bind, wp_gets. cbn beta.
  destruct (_ <? _); [apply (summary_quiet c (EvMsg m) (mret None)), keeps_ret|].
  eapply summary_go_aba; [apply same_two_refl|]. intros c' Hs. pose proof Hs as [Hf Hc Hi Hg].
  split_and!; [done|intros e' gen; rewrite Hg; auto|by eapply did_go; auto using same_two_shares].
Qed.

Lemma NewVote_fields (srv : SigService) (a l : NodeID) (e r f : Z) (v : Vote) :
  NewVote srv a l e r f = Ret v ->
  Vote_Author v = a /\ Vote_Leader v = l /\ Vote_Epoch v = e /\ Vote_Round v = r /\ Vote_Flag v = f.
Proof. unfold NewVote. destruct (RequestSignature _ _); [|done]. by intros [= <-]. Qed.

Lemma NewABAVal_fields (srv : SigService) (a l : NodeID) (e r i f : Z) (v : ABAVal) :
  NewABAVal srv a l e r i f = Ret v -> ABAVal_Leader v = l /\ val_key v = (e, r, i, f).
Proof. unfold NewABAVal. destruct (RequestSignature _ _); [|done]. by intros [= <-]. Qed.

(** Voting, after changes that stage two does not see. *)
Lemma summary_invokeStageTwo (c c1 : core) (ev : Ev) (e r : Z) :
  fixed c c1 -> gens_ok c c1 -> same_shares c c1 ->
  abaInvokeFlag c1 = abaInvokeFlag c ->
  (forall v, Vote_Epoch v = e -> Vote_Round v = r -> vote_cause c ev v) ->
  wp True (invokeStageTwo e r) c1 (fun _ c' es => summary c ev c' es).
Proof.
  intros Hf Hg Hc Hi Hcause. unfold invokeStageTwo, broadcast, send_all. rewrite wp_bind, wp_get. cbn beta.
  rewrite wp_bind, wp_lift. destruct (Leader (core_Elector c1) e r) as [l|] eqn:El; [|done].
  rewrite wp_bind, wp_lift. destruct (committed_to c1 e l) as [yes|]; [|done].
  rewrite wp_bind, wp_lift. destruct (NewVote _ _ _ _ _ _) as [v|] eqn:Ev; [|done].
  apply NewVote_fields in Ev as (_ & Hl & He & Hr & _). wp_steps. cbn [app].
  split_and!; [done..|]. rewrite (f_name _ _ Hf).
  apply did_vote; [by apply Hcause|by rewrite He, Hr, Hl|done..].
Qed.

Lemma summary_invokeABAVal (c c1 : core) (ev : Ev) (l e r i w : Z) :
  same_two c c1 ->
  (forall v, val_key v = (e, r, i, w) -> ABAVal_Leader v = l -> val_cause ev v) ->
  wp True (invokeABAVal l e r i w) c1 (fun _ c' es => summary c ev c' es).
Proof.
  intros Hs Hcause. pose proof Hs as [Hf Hc Hi Hg]. apply same_two_shares in Hs. unfold invokeABAVal, isInvokeABA, broadcast, send_all.
  rewrite wp_bind, wp_gets. cbn beta. case_bool_decide as Hin.
  { wp_steps. split_and!; [done|intros e' gen; rewrite Hg; auto|]. by apply did_quiet. }
  rewrite wp_bind, wp_get. cbn beta. rewrite wp_bind, wp_modify. cbn beta. rewrite wp_bind, wp_lift.
  destruct (NewABAVal _ _ _ _ _ _ _) as [v|] eqn:Ev; [|done].
  apply NewABAVal_fields in Ev as (Hl & Hk). wp_steps. cbn [app].
  split_and!; [by destruct Hf|intros e' gen; cbn; rewrite Hg; auto|]. cbn. rewrite (f_name _ _ Hf).
  apply did_val; [by apply Hcause|done|by rewrite Hk, <-Hi|by rewrite Hk, <-Hi].
Qed.

Lemma summary_handleElectShare (c : core) (s : ElectShare) :
  wp True (handleElectShare s) c (fun _ c' es => summary c (EvMsg (MElectShare s)) c' es).
Proof.
  unfold handleElectShare, unless_over, messageFilter. rewrite wp_bind, wp_gets. cbn beta.
  destruct (_ <? _); [apply (summary_quiet c _ (mret None)), keeps_ret|]. rewrite wp_bind, wp_get. cbn beta.
  pose proof (addElectShare_committee (core_Elector c) s) as Hcom.
  assert (el_sigService (addElectShare (core_Elector c) s).1 = el_sigService (core_Elector c) /\
    forall e gen, randGen (addElectShare (core_Elector c) s).1 !! e = Some gen ->
      randGen (core_Elector c) !! e = Some gen \/
      elected (el_committee (core_Elector c)) (el_sigService (core_Elector c)) e gen) as [Hsrv Hgen].
  { unfold addElectShare. cbn zeta. destruct (bool_decide _); [by auto|]. destruct (_ =? _); [|by auto].
    destruct (CombineIntactTSPartial _ _ _) as [data|] eqn:Ec; [|by auto]. split; [done|]. cbn.
    intros e gen. rewrite lookup_insert_Some. intros [[<- <-]|[_ Hin]]; [right|auto]. by eexists _, data. }
  destruct (addElectShare _ _) as [el [flag err]]. cbn [fst] in *. rewrite wp_bind, wp_modify. cbn beta.
  set (c1 := c <| core_Elector := el |>). assert (fixed c c1) as Hf by by split.
  destruct err as [err|]; [wp_steps; split_and!; [done|done|by apply did_quiet]|].
  destruct flag; [|wp_steps; split_and!; [done|done|by apply did_quiet]].
  apply (summary_invokeStageTwo c c1); try done.
  intros v He Hr. left. by exists s.
Qed.

Lemma summary_handleVote (c : core) (x : Vote) :
  wp True (handleVote x) c (fun _ c' es => summary c (EvMsg (MVote x)) c' es).
Proof.
  unfold handleVote, unless_over, messageFilter. rewrite wp_bind, wp_gets. cbn beta.
  destruct (_ <? _); [apply (summary_quiet c _ (mret None)), keeps_ret|].
  assert (wp True (checkVote x) c (fun _ c' es => c' = c /\ es = [])) as Hcheck.
  { unfold checkVote. rewrite wp_bind, wp_get. cbn beta. destruct (_ =? _); [|by wp_steps].
    destruct (lookup2 _ _ _); [|by wp_steps]. destruct (elements_of _ _); [|by wp_steps].
    destruct (at_index _ _); by wp_steps. }
  rewrite wp_bind. eapply wp_mono; [exact Hcheck|]. intros bad c0 es0 [-> ->]. cbn [app].
  destruct bad; [apply (summary_quiet c _ (mret _)), keeps_ret|]. rewrite wp_bind, wp_get. cbn beta.
  unfold addVote. destruct (add_item _ _ _ _ _) as [m [flag err]]. rewrite wp_bind, wp_modify. cbn beta.
  set (c1 := c <| core_Aggreator := _ |>). assert (same_two c c1) as Hs by by split.
  destruct err as [err|].
  { wp_steps. pose proof Hs as [Hf Hc Hi Hg].
    split_and!; [done|intros e gen; rewrite Hg; auto|by apply did_quiet; auto using same_two_shares]. }
  destruct (_ =? _).
  { wp_steps. pose proof Hs as [Hf Hc Hi Hg].
    split_and!; [done|intros e gen; rewrite Hg; auto|by apply did_quiet; auto using same_two_shares]. }
  apply (summary_invokeABAVal c c1); [done|].
  intros v [= H1 H2 H3 H4] Hl. left. exists x. by split_and!.
Qed.

Lemma summary_handleCoinShare (c : core) (s : CoinShare) :
  wp True (handleCoinShare s) c (fun _ c' es => summary c (EvMsg (MCoinShare s)) c' es).
Proof.
  unfold handleCoinShare, unless_over, messageFilter. rewrite wp_bind, wp_gets. cbn beta.
  destruct (_ <? _); [apply (summary_quiet c _ (mret None)), keeps_ret|]. rewrite wp_bind, wp_get. cbn beta.
  unfold addCoinShare, add_item3, CoinAggreator_append.
  set (old := default NewCoinAggreator _).
  assert (forall u e r i, shares_at (c <| core_Aggreator := (core_Aggreator c) <| coins :=
      insert3 (CoinShare_Epoch s) (CoinShare_Round s) (CoinShare_InRound s)
        (mkCoinAggreator u (Shares old ++ [CoinShare_Share s])) (coins (core_Aggreator c)) |> |>) e r i =
    shares_at c e r i ++ (if decide (coin_key s = (e, r, i)) then [CoinShare_Share s] else [])) as Hsh.
  { intros u e r i. unfold shares_at. cbn. rewrite lookup3_insert3. unfold coin_key.
    destruct (decide (CoinShare_Epoch s = e /\ CoinShare_Round s = r /\ CoinShare_InRound s = i)) as [(<- & <- & <-)|Hne].
    - by rewrite decide_True.
    - rewrite decide_False by naive_solver. by rewrite app_nil_r. }
  assert (forall m, let c1 := c <| core_Aggreator := (core_Aggreator c) <| coins := m |> |> in
    fixed c c1 /\ gens_ok c c1 /\ abaInvokeFlag c1 = abaInvokeFlag c) as Hfix
    by (intros m; split_and!; [by split|intros e gen; auto|done]).
  case_bool_decide as Hu.
  { rewrite wp_bind, wp_modify. cbn beta iota. wp_steps. split_and!; [by apply Hfix|by apply Hfix|].
    apply did_quiet; [done| |done]. intros e r i. unfold shares_at. cbn. rewrite lookup3_insert3.
    case_decide as Hd; [|done]. destruct Hd as (<- & <- & <-). done. }
  destruct (_ =? _) eqn:Eth; [destruct (CombineIntactTSPartial _ _ _) as [data|] eqn:Ec|];
    rewrite wp_bind, wp_modify; cbn beta iota.
  - set (c1 := c <| core_Aggreator := _ |>). eapply (summary_go_aba c1 c1); [apply same_two_refl|].
    intros c' Hs. pose proof (same_two_shares _ _ Hs) as Hss. destruct Hs as [Hf Hc Hi Hg].
    split_and!; [eapply fixed_trans; [|exact Hf]; apply Hfix|intros e gen; rewrite Hg; auto|].
    eapply did_share; [done|by rewrite Hi|intros e r i; rewrite Hss; apply Hsh|].
    right. exists data.
    assert (shares_at c' (CoinShare_Epoch s) (CoinShare_Round s) (CoinShare_InRound s) =
      Shares old ++ [CoinShare_Share s]) as Hnew.
    { rewrite Hss. unfold c1. rewrite Hsh, decide_True by done. done. }
    rewrite Hnew. split_and!; [by apply Z.eqb_eq|exact Ec|done].
  - wp_steps. split_and!; [by apply Hfix|by apply Hfix|]. eapply did_share; [done|done|apply Hsh|by left].
  - wp_steps. split_and!; [by apply Hfix|by apply Hfix|]. eapply did_share; [done|done|apply Hsh|by left].
Qed.

Lemma summary_handle (c : core) (ev : Ev) :
  wp True (handle ev) c (fun t c' es => t = None /\ summary c ev c' es).
Proof.
  unfold handle. rewrite wp_bind.
  assert (wp True (handle_ev ev) c (fun _ c' es => summary c ev c' es)) as H.
  { destruct ev as [m|b|b]; cbn [handle_ev].
    - unfold handle_msg. rewrite wp_bind, wp_get. cbn beta. rewrite wp_bind, wp_lift.
      destruct (Verify _ _); [|done]. cbn [app]. destruct m; cbn [dispatch].
      + apply summary_quiet. unfold handleProposal. apply silent_unless_over, silent_get_bind. intros c1.
        apply keeps_bind; [destruct (_ =? _); [apply silent_Commit|apply keeps_ret]|]. intros _.
        apply keeps_bind; [apply silent_storeBlock|]. intros [err|]; [apply keeps_ret|apply silent_go_cbc].
      + apply summary_quiet, silent_unless_over, silent_go_cbc.
      + apply summary_quiet, silent_unless_over, silent_go_cbc.
      + apply summary_quiet, silent_unless_over, silent_go_cbc.
      + apply summary_handleElectShare.
      + apply summary_handleVote.
      + by apply summary_handle_go.
      + by apply summary_handle_go.
      + apply summary_handleCoinShare.
      + by apply summary_handle_go.
      + done.
    - apply summary_quiet, silent_processCBCBack.
    - unfold processABABack. destruct (Z.eqb_spec (ABABack_Typ b) ABA_INVOKE) as [Ht|Ht].
      { apply summary_invokeABAVal; [apply same_two_refl|]. intros v Hk Hl. right. by exists b. }
      destruct (Z.eqb_spec (ABABack_Typ b) ABA_HALT) as [Hh|]; [|apply (summary_quiet c _ (mret _)), keeps_ret].
      destruct (Z.eqb_spec (ABABack_Flag b) FLAG_NO) as [Hn|].
      { apply summary_invokeStageTwo; try done; [intros e gen; auto|].
        intros v He Hr. right. by exists b. }
      destruct (_ =? _); [apply summary_quiet, silent_handleOutput|apply (summary_quiet c _ (mret _)), keeps_ret]. }
  eapply wp_mono; [exact H|]. intros r c' es Hs. rewrite wp_ret, app_nil_r. done.
Qed.

Lemma handle_summary (c c' : core) (ev : Ev) (t : option Thread) (es : list effect) :
  handle ev c = Ret (t, c', es) -> t = None /\ summary c ev c' es.
Proof. intros Hh. pose proof (summary_handle c ev) as Hw. unfold wp in Hw. by rewrite Hh in Hw. Qed.

(** ** What a step of a goroutine does *)

Lemma cbc_step_quiet (name : NodeID) (com : Committee) (srv : SigService) (e : Z) (n : NodeID) (t : Z)
    (pc : cbc_pc) (s : CBC) :
  wp True (cbc_step name com srv e n t pc) s (fun _ _ es => Forall quiet es).
Proof.
  unfold cbc_step, send_all. rewrite wp_bind, wp_get. cbn beta. destruct pc.
  - destruct (negb _); [by wp_steps|]. destruct (Proposal_B p); by wp_steps.
  - destruct (negb _); by wp_steps.
  - unfold wp. cbn [app]. apply Forall_app. split; apply Forall_fmap, Forall_forall; done.
  - rewrite wp_bind, wp_lift. destruct (NewReady _ _ _ _ _); [|done].
    destruct (_ =? _); wp_steps; by apply Forall_singleton.
  - by wp_steps.
  - by wp_steps.
  - rewrite wp_bind, wp_modify. cbn beta. destruct (_ =? _); [|by wp_steps].
    rewrite wp_bind, wp_lift. destruct (NewFinal _ _ _ _); [|done]. wp_steps.
    by repeat apply Forall_cons_2.
  - by wp_steps.
  - by wp_steps.
  - by wp_steps.
  - wp_steps. by apply Forall_singleton.
Qed.

(** The value a flag names: its counters, whether an inner round has it, and whether it
    has it alone. *)
Definition cval (w : Z) (a : ABA) (i : Z) : Z :=
  if w =? FLAG_NO then count (valNoCnt a) i else if w =? FLAG_YES then count (valYesCnt a) i else 0.
Definition cmux (w : Z) (a : ABA) (i : Z) : Z :=
  if w =? FLAG_NO then count (muxNoCnt a) i else if w =? FLAG_YES then count (muxYesCnt a) i else 0.
Definition flagged (w : Z) (a : ABA) (i : Z) : Prop :=
  (w = FLAG_YES /\ i ∈ yesFlag a) \/ (w = FLAG_NO /\ i ∈ noFlag a).
Definition only (w : Z) (a : ABA) (i : Z) : Prop :=
  (w = FLAG_YES /\ i ∈ yesFlag a /\ (i ∉ noFlag a)) \/ (w = FLAG_NO /\ i ∈ noFlag a /\ (i ∉ yesFlag a)).

(** The message a goroutine was started with. *)
Definition carried (pc : aba_pc) : option Message :=
  match pc with
  | AVal v | AValCount v | AValMux v => Some (MABAVal v)
  | AMux m | AMuxFin m | AMuxCount m | AMuxVals m _ _ | AMuxDecide m _ _ _ _ => Some (MABAMux m)
  | ACoin _ _ _ => None
  | AHalt h => Some (MABAHalt h)
  end.

Definition halt_key (h : ABAHalt) : Z * Z * Z * Z * NodeID :=
  (ABAHalt_Epoch h, ABAHalt_Round h, ABAHalt_InRound h, ABAHalt_Flag h, ABAHalt_Leader h).

(** A step on the agreement of (e, r) in state [a]. *)
Inductive stepped_aba (com : Committee) (name : NodeID) (e r : Z) (a : ABA) :
    aba_pc -> option aba_pc -> ABA -> list effect -> Prop :=
| sa_quiet pc pc' a' :
    (forall pc1, pc' = Some pc1 -> is_Some (carried pc) /\ carried pc1 = carried pc) ->
    stepped_aba com name e r a pc pc' a' []
| sa_invoke v a' :
    LowThreshold com <= cval (ABAVal_Flag v) a' (ABAVal_InRound v) ->
    stepped_aba com name e r a (AValCount v) None a'
      [EPush abaCallBack (EvABA (mkABABack ABA_INVOKE e r (ABAVal_InRound v) (ABAVal_Flag v) (ABAVal_Leader v)))]
| sa_said pc m m' a' :
    carried pc = Some m' -> parent m' m -> (forall h, m <> MABAHalt h) -> (forall v, m <> MABAVal v) ->
    stepped_aba com name e r a pc None a' (says name m)
| sa_nil pc t a' :
    stepped_aba com name e r a pc None a' (says name (MNil t))
| sa_next i coin l v w :
    val_key v = (e, r, next_round i, w) -> ABAVal_Leader v = l ->
    (w = coin /\ (i ∈ yesFlag a <-> i ∈ noFlag a)) \/ only w a i ->
    stepped_aba com name e r a (ACoin i coin l) None a (says name (MABAVal v))
| sa_halt i coin l h :
    halt_key h = (e, r, i, coin, l) -> only coin a i ->
    stepped_aba com name e r a (ACoin i coin l) None a (says name (MABAHalt h))
| sa_relay x h a' :
    halt_key h = halt_key x -> halt_key x = (e, r, ABAHalt_InRound x, ABAHalt_Flag x, ABAHalt_Leader x) ->
    stepped_aba com name e r a (AHalt x) None a'
      (says name (MABAHalt h) ++
       [EPush abaCallBack (EvABA (mkABABack ABA_HALT (ABAHalt_Epoch x) (ABAHalt_Round x) (ABAHalt_InRound x)
                                    (ABAHalt_Flag x) (ABAHalt_Leader x)))]).

Lemma NewABAHalt_fields (srv : SigService) (n l : NodeID) (e r i f : Z) (h : ABAHalt) :
  NewABAHalt srv n l e r i f = Ret h -> halt_key h = (e, r, i, f, l).
Proof. unfold NewABAHalt. destruct (RequestSignature _ _); [|done]. by intros [= <-]. Qed.

Lemma count_val_cval (v : ABAVal) (a : ABA) :
  (count_val v a).2 = cval (ABAVal_Flag v) (count_val v a).1 (ABAVal_InRound v).
Proof.
  unfold count_val, cval. cbn zeta. destruct (_ =? FLAG_NO); [|destruct (_ =? FLAG_YES)]; cbn; try done;
    unfold incr, count; by rewrite lookup_insert_eq.
Qed.

Lemma coin_stepped (com : Committee) (name : NodeID) (srv : SigService) (e r : Z) (a : ABA) (i coin : Z) (l : NodeID) :
  aba_Epoch a = e -> ExRound a = r ->
  wp True (coin_step name srv i coin l) a (stepped_aba com name e r a (ACoin i coin l)).
Proof.
  intros He Hr. unfold coin_step, send_all. rewrite wp_bind, wp_get. cbn beta zeta.
  assert (forall w, (w = coin /\ (i ∈ yesFlag a <-> i ∈ noFlag a)) \/ only w a i -> wp True
    (v ← lift_outcome (NewABAVal srv name l (aba_Epoch a) (ExRound a) (int64 (i + 1)) w);
     _ ← (_ ← emit (ESend name NONE (MABAVal v)); emit (to_self (MABAVal v))); mret None) a
    (stepped_aba com name e r a (ACoin i coin l))) as Hnext.
  { intros w Hw. rewrite wp_bind, wp_lift. destruct (NewABAVal _ _ _ _ _ _ _) as [v|] eqn:Ev; [|done].
    apply NewABAVal_fields in Ev as [Hl Hk]. rewrite He, Hr in Hk. wp_steps. cbn [app]. by eapply sa_next. }
  destruct (bool_decide_reflect (i ∈ yesFlag a)) as [Hy|Hy], (bool_decide_reflect (i ∈ noFlag a)) as [Hn|Hn];
    cbn [andb orb negb].
  - apply Hnext. left. tauto.
  - case_bool; cbn [orb].
    + rewrite wp_bind, wp_lift. destruct (NewABAHalt _ _ _ _ _ _ _) as [h|] eqn:Eh; [|done].
      apply NewABAHalt_fields in Eh. rewrite He, Hr in Eh. wp_steps. cbn [app]. eapply sa_halt; [done|].
      left. tauto.
    + apply Hnext. right. left. tauto.
  - case_bool; cbn [orb].
    + rewrite wp_bind, wp_lift. destruct (NewABAHalt _ _ _ _ _ _ _) as [h|] eqn:Eh; [|done].
      apply NewABAHalt_fields in Eh. rewrite He, Hr in Eh. wp_steps. cbn [app]. eapply sa_halt; [done|].
      right. tauto.
    + apply Hnext. right. right. tauto.
  - apply Hnext. left. tauto.
Qed.

Lemma aba_stepped (com : Committee) (name : NodeID) (srv : SigService) (e r : Z) (pc : aba_pc) (a : ABA) :
  aba_Epoch a = e -> ExRound a = r -> aba_pc_ok e r a pc ->
  wp True (aba_step name com srv pc) a (stepped_aba com name e r a pc).
Proof.
  intros He Hr Hpc. unfold aba_step, send_all. rewrite wp_bind, wp_get. cbn beta.
  assert (forall pc' a', (forall pc1, pc' = Some pc1 -> is_Some (carried pc) /\ carried pc1 = carried pc) ->
    stepped_aba com name e r a pc pc' a' []) as Hq by (intros; by apply sa_quiet).
  destruct pc as [v|v|v|m|m|m|m yes no|m yes no vyes vno|i coin l|h].
  - wp_steps. apply Hq. destruct (halt a); intros pc1; [done|]. intros [= <-]. by split.
  - pose proof (count_val_cval v a) as Hc. destruct (count_val v a) as [a' cnt]. cbn [fst snd] in Hc.
    rewrite wp_bind, wp_modify. cbn beta. destruct (Z.eqb_spec cnt (LowThreshold com)) as [Hl|]; wp_steps; cbn [app].
    + rewrite He, Hr. apply sa_invoke. lia.
    + apply Hq. destruct (_ =? _); intros pc1; [|done]. intros [= <-]. by split.
  - case_bool_decide; [wp_steps; by apply Hq|]. rewrite wp_bind, wp_modify. cbn beta. rewrite wp_bind, wp_lift.
    unfold NewABAMux. destruct (RequestSignature _ _) as [sig|]; [|done].
    cbn [mbind Outcome_bind mret Outcome_ret]. wp_steps. cbn [app].
    eapply (sa_said _ _ _ _ _ _ (MABAMux _) (MABAVal v)); [done| |done..]. done.
  - wp_steps. apply Hq. destruct (halt a); intros pc1; [done|]. intros [= <-]. by split.
  - wp_steps. apply Hq. destruct (bool_decide _); intros pc1; [done|]. intros [= <-]. by split.
  - wp_steps. cbn [app]. apply Hq. intros pc1 [= <-]. by split.
  - wp_steps. apply Hq. intros pc1 [= <-]. by split.
  - unfold decide_step, send_all. rewrite wp_bind, wp_get. cbn beta.
    case_bool_decide; [wp_steps; by apply Hq|]. destruct (mux_flags _ _ _ _ _) as [y n].
    rewrite wp_bind, wp_modify. cbn beta. destruct (y || n); [|wp_steps; by apply Hq]. rewrite wp_bind, wp_lift.
    unfold NewCoinShare. destruct (RequestTsSugnature _ _) as [[share err]|]; [|done].
    cbn [mbind Outcome_bind mret Outcome_ret]. wp_steps. cbn [app]. destruct err; [apply sa_nil|].
    eapply (sa_said _ _ _ _ _ _ (MCoinShare _) (MABAMux m)); [done| |done..]. done.
  - by apply coin_stepped.
  - unfold halt_step, send_all. rewrite wp_bind, wp_get. cbn beta. destruct (halt a); [wp_steps; by apply Hq|].
    rewrite wp_bind, wp_modify. cbn beta. rewrite wp_bind, wp_lift.
    destruct (NewABAHalt _ _ _ _ _ _ _) as [x|] eqn:Eh; [|done]. apply NewABAHalt_fields in Eh.
    wp_steps. cbn [app]. destruct Hpc as [H1 H2]. rewrite He, Hr in Eh.
    apply (sa_relay _ _ _ _ _ h x); unfold halt_key in *; congruence.
Qed.

(** ** Facts on every reachable node *)

Lemma next_round_inj (i j : Z) : in_int64 i -> in_int64 j -> next_round i = next_round j -> i = j.
Proof.
  unfold next_round. intros Hi Hj. destruct (decide (i = last_epoch)) as [->|Hi'], (decide (j = last_epoch)) as [->|Hj'];
    rewrite ?(int64_next i Hi Hi'), ?(int64_next j Hj Hj'); try done; unfold in_int64, last_epoch in *;
    change (int64 (2 ^ 63 - 1 + 1)) with (- 2 ^ 63); lia.
Qed.

(** The inner round of a message is a 64-bit integer. *)
Definition inner (m : Message) : option Z :=
  match m with
  | MABAVal v => Some (ABAVal_InRound v)
  | MABAMux v => Some (ABAMux_InRound v)
  | MCoinShare v => Some (CoinShare_InRound v)
  | MABAHalt v => Some (ABAHalt_InRound v)
  | _ => None
  end.
Definition inner_ok (m : Message) : Prop := forall i, inner m = Some i -> in_int64 i.

Lemma parent_inner (m' m : Message) : parent m' m -> inner_ok m' -> inner_ok m.
Proof.
  intros Hp Hm i Hi. destruct m', m; cbn in Hp; try done; cbn in Hi; injection Hi as <-;
    destruct Hp as (_ & _ & _ & ->); try (by apply Hm); [unfold in_int64; lia|apply int64_range].
Qed.

Section Facts.
Context (st : setting).
Abbreviation com := (s_com st).
Abbreviation srv := (s_srv st).

(** The coin of an inner round came up [w], for the leader of a share that was handled. *)
Definition coin_came (h : list Ev) (e r i w : Z) : Prop :=
  exists s, EvMsg (MCoinShare s) ∈ h /\ coin_key s = (e, r, i) /\ tossed srv (CoinShare_Leader s) e i w.

Definition heard_parent (h : list Ev) (m : Message) : Prop := exists m', EvMsg m' ∈ h /\ parent m' m.

(** Why a vote, or a halt, was sent. *)
Definition vote_ok (h : list Ev) (v : Vote) : Prop :=
  (Vote_Leader v = NONE \/
   exists gen, elected com srv (Vote_Epoch v) gen /\ 0 <= Vote_Round v /\
     gen !! Z.to_nat (Vote_Round v) = Some (Vote_Leader v)) /\
  (Vote_Round v = 0 \/
   exists x, EvMsg (MABAHalt x) ∈ h /\ ABAHalt_Flag x = FLAG_NO /\ ABAHalt_Epoch x = Vote_Epoch v /\
     Vote_Round v = next_round (ABAHalt_Round x)).
Definition halt_ok (c : core) (h : list Ev) (y : ABAHalt) : Prop :=
  (only (ABAHalt_Flag y) (aba_at c (ABAHalt_Epoch y) (ABAHalt_Round y)) (ABAHalt_InRound y) /\
   coin_came h (ABAHalt_Epoch y) (ABAHalt_Round y) (ABAHalt_InRound y) (ABAHalt_Flag y)) \/
  exists x, EvMsg (MABAHalt x) ∈ h /\ halt_key x = halt_key y.

Definition said_ok (c : core) (h : list Ev) (m : Message) : Prop :=
  match m with
  | MVote v => vote_ok h v
  | MABAHalt y => heard_parent h m /\ halt_ok c h y
  | _ => heard_parent h m
  end.

(** Why a call back was made. *)
Definition back_ok (c : core) (h : list Ev) (b : ABABack) : Prop :=
  (ABABack_Typ b = ABA_INVOKE /\
   LowThreshold com <= cval (ABABack_Flag b) (aba_at c (ABABack_Epoch b) (ABABack_ExRound b)) (ABABack_InRound b) /\
   exists v, EvMsg (MABAVal v) ∈ h /\ ABAVal_Leader v = ABABack_Leader b /\
     val_key v = (ABABack_Epoch b, ABABack_ExRound b, ABABack_InRound b, ABABack_Flag b)) \/
  (ABABack_Typ b = ABA_HALT /\
   exists x, EvMsg (MABAHalt x) ∈ h /\
     halt_key x = (ABABack_Epoch b, ABABack_ExRound b, ABABack_InRound b, ABABack_Flag b, ABABack_Leader b)).

Definition effect_said (c : core) (h : list Ev) (x : effect) : Prop :=
  match x with
  | ESend _ to m => stage_two m = true -> to = NONE /\ said_ok c h m
  | EPush _ (EvMsg m) => stage_two m = true -> said_ok c h m
  | EPush _ (EvABA b) => back_ok c h b
  | _ => True
  end.

(** The events that are messages of a kind. *)
Definition ev_is (f : Message -> bool) (ev : Ev) : bool := match ev with EvMsg m => f m | _ => false end.
Definition pushes_of (f : Message -> bool) (l : list effect) : nat :=
  length (filter (fun ev => ev_is f ev = true) (pushes l)).

Definition inv_mark (c : core) (k : Z * Z * Z * Z) : nat := if decide (k ∈ abaInvokeFlag c) then 1 else 0.

Record facts (c : core) (h : list Ev) (l : list effect) : Prop := {
  fa_agg : agg_committee (core_Aggreator c) = com /\ agg_sigService (core_Aggreator c) = srv;
  fa_el : el_sigService (core_Elector c) = srv;
  fa_gen : forall e gen, randGen (core_Elector c) !! e = Some gen -> elected com srv e gen;
  fa_heard : forall m, EvMsg m ∈ h -> inner_ok m;
  fa_log : Forall (effect_said c h) l;
  fa_pair : forall f, (forall m, f m = true -> stage_two m = true) -> pushes_of f l = sends_of f l;
  fa_invoke : forall e r i w, (e, r, i, w) ∈ abaInvokeFlag c ->
    i = 0 \/ LowThreshold com <= cval w (aba_at c e r) i;
  fa_coin : forall e r i w, in_int64 i ->
    (sends_of (is_val e r (next_round i) w) l <= inv_mark c (e, r, next_round i, w))%nat \/
    only w (aba_at c e r) i \/ coin_came h e r i w
}.

(** A goroutine works on a message that was handled. *)
Definition thread_heard (h : list Ev) (t : Thread) : Prop :=
  match t with
  | TCBC _ _ _ _ => True
  | TABA e r (ACoin i coin l) =>
      exists s, EvMsg (MCoinShare s) ∈ h /\ coin_key s = (e, r, i) /\ CoinShare_Leader s = l /\ tossed srv l e i coin
  | TABA e r pc => forall m, carried pc = Some m -> EvMsg m ∈ h
  end.

(** *** Nothing is taken back *)

Definition grows (c c' : core) : Prop := forall e r, aba_le (aba_at c e r) (aba_at c' e r).

Lemma aba_at_ok (c : core) (e r : Z) : core_ok st c -> aba_ok com e r (aba_at c e r).
Proof.
  intros Hc. unfold aba_at. destruct (lookup2 _ _ _) as [a|] eqn:Ea; [by apply (co_aba _ _ Hc)|].
  split; cbn; try done; set_solver.
Qed.

Lemma cval_mono (w : Z) (a a' : ABA) (i : Z) : aba_le a a' -> cval w a i <= cval w a' i.
Proof. intros []. unfold cval. destruct (_ =? _); [done|]. by destruct (_ =? _). Qed.

Lemma flagged_fin (w e r : Z) (a : ABA) (i : Z) : aba_ok com e r a -> flagged w a i -> i ∈ muxFinFlag a.
Proof. intros [_ _ -> _ _] [[_ H]|[_ H]]; set_solver. Qed.

Lemma only_flagged (w : Z) (a : ABA) (i : Z) : only w a i -> flagged w a i.
Proof. intros [(? & ? & _)|(? & ? & _)]; [by left|by right]. Qed.

Lemma flagged_mono (w e r : Z) (a a' : ABA) (i : Z) :
  aba_ok com e r a -> aba_le a a' -> flagged w a i -> flagged w a' i.
Proof.
  intros Hok Hle Hw. pose proof (flagged_fin _ _ _ _ _ Hok Hw) as Hf.
  destruct Hw as [[-> H]|[-> H]]; [left|right]; (split; [done|]); [by apply (al_yes _ _ Hle)|by apply (al_no _ _ Hle)].
Qed.

Lemma only_mono (w e r : Z) (a a' : ABA) (i : Z) :
  aba_ok com e r a -> aba_le a a' -> only w a i -> only w a' i.
Proof.
  intros Hok Hle Hw. pose proof (flagged_fin _ _ _ _ _ Hok (only_flagged _ _ _ Hw)) as Hf.
  destruct Hw as [(-> & H & H')|(-> & H & H')]; [left|right]; (split; [done|]);
    by rewrite (al_yes _ _ Hle), (al_no _ _ Hle).
Qed.

Lemma effect_said_mono (c c' : core) (h h' : list Ev) (x : effect) :
  core_ok st c -> grows c c' -> h ⊆ h' -> effect_said c h x -> effect_said c' h' x.
Proof.
  intros Hc Hg Hh.
  assert (forall m, heard_parent h m -> heard_parent h' m) as Hp by (intros m (m' & Hm & Hpar); exists m'; auto).
  assert (forall m, said_ok c h m -> said_ok c' h' m) as Hs.
  { intros m. destruct m; cbn; try apply Hp.
    - intros [H1 [H2|(x' & Hx & H2)]]; (split; [done|]); [by left|right; eauto].
    - intros [H1 H2]. split; [by apply Hp|]. destruct H2 as [[Ho (s & Hsh & Hk)]|(x' & Hx & Hk)].
      + left. split; [eapply only_mono; [by apply aba_at_ok|apply Hg|done]|exists s; auto].
      + right. eauto. }
  destruct x as [f to m|ch [m|b|b]|t]; cbn; try done; [naive_solver..|].
  intros [(H1 & H2 & v & Hv & H3)|(H1 & x' & Hx & H2)]; [left|right].
  - split_and!; [done| |eauto]. etrans; [exact H2|]. apply cval_mono, Hg.
  - eauto.
Qed.

Lemma thread_heard_mono (h h' : list Ev) (t : Thread) : h ⊆ h' -> thread_heard h t -> thread_heard h' t.
Proof.
  intros Hh. destruct t as [e n t pc|e r pc]; cbn; [done|]. destruct pc; cbn; try naive_solver.
Qed.

(** *** Counting what is said *)

Lemma pushes_of_app (f : Message -> bool) (l k : list effect) :
  pushes_of f (l ++ k) = (pushes_of f l + pushes_of f k)%nat.
Proof. unfold pushes_of. by rewrite pushes_app, filter_app, length_app. Qed.

Lemma sends_of_says (f : Message -> bool) (n : NodeID) (m : Message) :
  sends_of f (says n m) = if f m then 1%nat else 0%nat.
Proof. unfold sends_of, says, to_self. rewrite !filter_cons, filter_nil. by destruct (f m). Qed.

Lemma pushes_of_says (f : Message -> bool) (n : NodeID) (m : Message) :
  pushes_of f (says n m) = if f m then 1%nat else 0%nat.
Proof.
  unfold pushes_of. change (pushes (says n m)) with [EvMsg m]. rewrite filter_cons, filter_nil. cbn [ev_is].
  by destruct (f m).
Qed.

Lemma quiet_counts (f : Message -> bool) (es : list effect) :
  (forall m, f m = true -> stage_two m = true) -> Forall quiet es -> sends_of f es = 0%nat /\ pushes_of f es = 0%nat.
Proof.
  intros Hf Hq. split.
  - apply sends_of_none. eapply Forall_impl; [exact Hq|]. intros x Hx g t m ->. cbn in Hx.
    destruct (f m) eqn:Ef; [|done]. rewrite (Hf m Ef) in Hx. done.
  - unfold pushes_of. induction Hq as [|x es Hx _ IH]; [done|].
    destruct x as [|ch ev|]; [exact IH| |exact IH].
    change (pushes (EPush ch ev :: es)) with (ev :: pushes es). rewrite filter_cons, decide_False; [exact IH|].
    destruct ev as [m|b|b]; cbn [ev_is]; try done. cbn in Hx. intros Ef. by rewrite (Hf m Ef) in Hx.
Qed.

Lemma is_val_stage (e r i w : Z) (m : Message) : is_val e r i w m = true -> stage_two m = true.
Proof. by destruct m. Qed.

Lemma quiet_said (c : core) (h : list Ev) (es : list effect) : Forall quiet es -> Forall (effect_said c h) es.
Proof.
  intros Hq. eapply Forall_impl; [exact Hq|]. intros [f to m|ch [m|b|b]|t]; cbn; try done; congruence.
Qed.

Lemma quiet_spawned (h : list Ev) (es : list effect) : Forall quiet es -> Forall (thread_heard h) (spawned es).
Proof.
  intros Hq. apply Forall_forall. intros t Ht%elem_of_spawned. rewrite Forall_forall in Hq. specialize (Hq _ Ht).
  by destruct t.
Qed.

Lemma says_said (c : core) (h : list Ev) (n : NodeID) (m : Message) :
  said_ok c h m -> Forall (effect_said c h) (says n m).
Proof. intros Hm. repeat apply Forall_cons_2; [by intros _|by intros _|by apply Forall_nil]. Qed.

(** Facts that only need the log to say nothing new about vals. *)
Lemma facts_coin_same (c c' : core) (h h' : list Ev) (l es : list effect) :
  core_ok st c -> grows c c' -> h ⊆ h' -> abaInvokeFlag c' = abaInvokeFlag c ->
  (forall e r i w, sends_of (is_val e r i w) es = 0%nat) ->
  (forall e r i w, in_int64 i ->
    (sends_of (is_val e r (next_round i) w) l <= inv_mark c (e, r, next_round i, w))%nat \/
    only w (aba_at c e r) i \/ coin_came h e r i w) ->
  forall e r i w, in_int64 i ->
    (sends_of (is_val e r (next_round i) w) (l ++ es) <= inv_mark c' (e, r, next_round i, w))%nat \/
    only w (aba_at c' e r) i \/ coin_came h' e r i w.
Proof.
  intros Hc Hg Hh Hi Hs H e r i w Hin. rewrite sends_of_app, Hs, Nat.add_0_r. unfold inv_mark. rewrite Hi.
  destruct (H e r i w Hin) as [H1|[H1|(s & H1 & H2)]]; [by left|..]; right.
  - left. eapply only_mono; [by apply aba_at_ok|apply Hg|done].
  - right. exists s. auto.
Qed.

Lemma coin_came_mono (h h' : list Ev) (e r i w : Z) : h ⊆ h' -> coin_came h e r i w -> coin_came h' e r i w.
Proof. intros Hh (s & H1 & H2). exists s. auto. Qed.

(** A val that is invoked is marked, and sent, once. *)
Lemma invoked_marks (c c' : core) (v : ABAVal) (name : NodeID) (e r i w : Z) :
  val_key v ∉ abaInvokeFlag c -> abaInvokeFlag c' = {[val_key v]} ∪ abaInvokeFlag c ->
  (sends_of (is_val e r i w) (says name (MABAVal v)) + inv_mark c (e, r, i, w))%nat = inv_mark c' (e, r, i, w).
Proof.
  intros Hk Hi. rewrite sends_of_says. cbn [is_val]. unfold inv_mark. rewrite Hi.
  change ((ABAVal_Epoch v, ABAVal_Round v, ABAVal_InRound v, ABAVal_Flag v)) with (val_key v).
  destruct (bool_decide_reflect (val_key v = (e, r, i, w))) as [Heq|Hne].
  - rewrite <-Heq, decide_False, decide_True by set_solver. done.
  - assert ((e, r, i, w) ∈ {[val_key v]} ∪ abaInvokeFlag c <-> (e, r, i, w) ∈ abaInvokeFlag c) as Hiff by set_solver.
    repeat case_decide; naive_solver.
Qed.

(** Why a handler sends a vote, and a val. *)
Lemma vote_caused (c c' : core) (h : list Ev) (ev : Ev) (v : Vote) :
  (forall e gen, randGen (core_Elector c') !! e = Some gen -> elected com srv e gen) ->
  (forall b, ev = EvABA b -> back_ok c h b) -> vote_cause c ev v ->
  Leader (core_Elector c') (Vote_Epoch v) (Vote_Round v) = Ret (Vote_Leader v) -> vote_ok (h ++ [ev]) v.
Proof.
  intros Hgen Hback Hcause Hlead. split.
  - unfold Leader in Hlead. destruct (randGen _ !! _) as [gen|] eqn:Eg; [|injection Hlead as <-; by left].
    right. exists gen. destruct (Z.ltb_spec (Vote_Round v) 0); [done|]. destruct (gen !! _) eqn:El; [|done].
    injection Hlead as <-. split_and!; [by apply Hgen|lia|done].
  - destruct Hcause as [(s & -> & _ & Hr)|(b & -> & Ht & Hf & He & Hr)]; [by left|]. right.
    destruct (Hback b eq_refl) as [(Ht' & _)|(_ & x & Hx & [= K1 K2 K3 K4 K5])]; [by rewrite Ht in Ht'|].
    exists x. split_and!; [set_solver|congruence|congruence|]. unfold next_round. congruence.
Qed.

Lemma val_caused (c : core) (h : list Ev) (ev : Ev) (v : ABAVal) :
  (forall b, ev = EvABA b -> back_ok c h b) -> val_cause ev v ->
  heard_parent (h ++ [ev]) (MABAVal v) /\
  (ABAVal_InRound v = 0 \/
   LowThreshold com <= cval (ABAVal_Flag v) (aba_at c (ABAVal_Epoch v) (ABAVal_Round v)) (ABAVal_InRound v)).
Proof.
  intros Hback [(x & -> & Hp)|(b & -> & Ht & Hvk & Hl)].
  - split; [|left; apply Hp]. exists (MVote x). split; [set_solver|done].
  - destruct (Hback b eq_refl) as [(_ & Hlow & v' & Hv' & Hl' & Hk')|(Ht' & _)]; [|by rewrite Ht in Ht'].
    injection Hk' as K1 K2 K3 K4. injection Hvk as V1 V2 V3 V4. split; [|right; by rewrite V1, V2, V3, V4].
    exists (MABAVal v'). split; [set_solver|]. cbn. split_and!; congruence.
Qed.

Lemma facts_handle (c c' : core) (h : list Ev) (l es : list effect) (ev : Ev) :
  core_ok st c -> facts c h l -> (forall m, ev = EvMsg m -> inner_ok m) ->
  (forall b, ev = EvABA b -> back_ok c h b) -> summary c ev c' es ->
  facts c' (h ++ [ev]) (l ++ es) /\ Forall (thread_heard (h ++ [ev])) (spawned es).
Proof.
  intros Hc Hfa Hin Hback (Hfix & Hgens & Hdid). pose proof Hfa as [[Ha1 Ha2] Hel Hgen Hheard Hlog Hpair Hinv Hcoin].
  assert (grows c c') as Hg by (intros e r; rewrite (f_aba _ _ Hfix); apply aba_le_refl).
  assert (h ⊆ h ++ [ev]) as Hh by set_solver. assert (ev ∈ h ++ [ev]) as Hev by set_solver.
  assert (Forall (effect_said c' (h ++ [ev])) l) as Hlog'.
  { eapply Forall_impl; [exact Hlog|]. intros x. by eapply effect_said_mono. }
  assert (forall e gen, randGen (core_Elector c') !! e = Some gen -> elected com srv e gen) as Hgen'.
  { intros e gen [Hx|Hx]%Hgens; [by apply Hgen|]. by rewrite (co_elector _ _ Hc), Hel in Hx. }
  assert (forall m, EvMsg m ∈ h ++ [ev] -> inner_ok m) as Hheard'.
  { intros m [Hm|Hm%list_elem_of_singleton]%elem_of_app; [by apply Hheard|]. by apply Hin. }
  destruct Hfix as [F1 F2 F3 F4 F5 F6 F7 F8].
  assert (abaInvokeFlag c' = abaInvokeFlag c ->
    forall e r i w, (e, r, i, w) ∈ abaInvokeFlag c' -> i = 0 \/ LowThreshold com <= cval w (aba_at c' e r) i) as Hinv'.
  { intros Hi e r i w. rewrite Hi, F8. apply Hinv. }
  assert (forall es', (forall e r i w, sends_of (is_val e r i w) es' = 0%nat) -> abaInvokeFlag c' = abaInvokeFlag c ->
    Forall (effect_said c' (h ++ [ev])) es' ->
    (forall f, (forall m, f m = true -> stage_two m = true) -> pushes_of f es' = sends_of f es') ->
    facts c' (h ++ [ev]) (l ++ es')) as Hplain.
  { intros es' H1 H2 H3 H4. split; [split; congruence|congruence|done|done|by apply Forall_app| |by apply Hinv'|].
    - intros f Hf. by rewrite sends_of_app, pushes_of_app, Hpair, H4.
    - by eapply facts_coin_same. }
  destruct Hdid as [es Hq Hs Hi|v Hcause Hlead Hs Hi|v Hcause Hs Hk Hi|m e r pc -> Hst Hs Hi|s es -> Hi Hs Hco].
  - split; [|by apply quiet_spawned]. apply Hplain; [|done|by apply quiet_said|].
    + intros e r i w. apply quiet_counts; [apply is_val_stage|done].
    + intros f Hf. destruct (quiet_counts f es Hf Hq) as [-> ->]. done.
  - split; [|done]. apply Hplain; [intros; by rewrite sends_of_says|done| |intros f _; by rewrite sends_of_says, pushes_of_says].
    apply says_said. by eapply vote_caused.
  - split; [|done]. split; [split; congruence|congruence|done|done| | | |].
    + apply Forall_app. split; [done|]. apply says_said. by eapply val_caused.
    + intros f Hf. by rewrite sends_of_app, pushes_of_app, Hpair, sends_of_says, pushes_of_says.
    + intros e r i w. rewrite Hi, F8, elem_of_union, elem_of_singleton. intros [Hx|Hx]; [|by apply Hinv].
      destruct (val_caused c h ev v Hback Hcause) as [_ Hlow]. by injection Hx as -> -> -> ->.
    + intros e r i w Hi64. rewrite sends_of_app, F8.
      destruct (Hcoin e r i w Hi64) as [H1|[H1|H1]]; [left|by right; left|right; right; by eapply coin_came_mono].
      pose proof (invoked_marks c c' v (Name c) e r (next_round i) w Hk Hi). lia.
  - split; [apply Hplain; [done|done|by apply Forall_singleton|done]|]. apply Forall_singleton.
    destruct m; cbn in Hst; try done; injection Hst as <- <- <-; cbn; by intros m [= <-].
  - destruct Hco as [->|(data & Hlen & Hcomb & ->)].
    { rewrite app_nil_r. split; [|done]. specialize (Hplain []). rewrite app_nil_r in Hplain. by apply Hplain. }
    split; [apply Hplain; [done|done|by apply Forall_singleton|done]|]. apply Forall_singleton. cbn.
    exists s. split_and!; [done..|]. rewrite Ha2 in Hcomb. eexists _, data. split; [exact Hcomb|done].
Qed.

Context `{!Ed25519Laws E} (Hst : setting_ok st).

(** A step on an agreement, and a step on a broadcast. *)
Lemma tstep_aba (c c' : core) (e r : Z) (pc : aba_pc) (t' : option Thread) (es : list effect) :
  core_ok st c -> thread_ok st c (TABA e r pc) -> tstep (TABA e r pc) c = Ret (t', c', es) ->
  exists pc' a', t' = TABA e r <$> pc' /\ c' = c <| abaInstances := insert2 e r a' (abaInstances c) |> /\
    aba_step (Name c) (core_Committee c) (core_SigService c) pc (aba_at c e r) = Ret (pc', a', es) /\
    stepped_aba com (s_name st) e r (aba_at c e r) pc pc' a' es /\ aba_le (aba_at c e r) a' /\
    (forall e' r', aba_at c' e' r' = if decide (e = e' /\ r = r') then a' else aba_at c e' r') /\
    (forall pc1, pc' = Some pc1 -> aba_pc_ok e r a' pc1).
Proof using Hst Ed25519Laws0.
  intros Hc (a & Ha & Hpc) Ht. unfold tstep in Ht. rewrite Ha in Ht.
  assert (aba_at c e r = a) as Hat by (unfold aba_at; by rewrite Ha). rewrite Hat.
  destruct (co_aba _ _ Hc _ _ _ Ha) as [Hok Hep].
  pose proof (aba_step_ok (s_name st) com srv (st_srv _ Hst) (st_member _ Hst) (st_tbls _ Hst)
    e Hep r pc a Hok Hpc) as Hw.
  pose proof (aba_stepped com (s_name st) srv e r pc a (ao_epoch _ _ _ _ Hok) (ao_round _ _ _ _ Hok) Hpc) as Hs.
  rewrite (co_name _ _ Hc), (co_com _ _ Hc), (co_srv _ _ Hc) in *. unfold wp in Hw, Hs.
  destruct (aba_step _ _ _ pc a) as [[[pc' a'] es']|]; [|done]. injection Ht as <- <- <-.
  exists pc', a'. split_and!; try done; [apply Hw| |apply Hw]. intros e' r'. unfold aba_at. cbn. rewrite lookup2_insert2.
  by destruct (decide _).
Qed.

Lemma tstep_cbc (c c' : core) (e : Z) (n : NodeID) (t : Z) (pc : cbc_pc) (t' : option Thread) (es : list effect) :
  tstep (TCBC e n t pc) c = Ret (t', c', es) ->
  Forall quiet es /\ same_two c c' /\ exists pc', t' = TCBC e n t <$> pc'.
Proof using.
  intros Ht. unfold tstep in Ht. destruct (lookup3 _ _ _ _) as [s|]; [|done].
  pose proof (cbc_step_quiet (Name c) (core_Committee c) (core_SigService c) e n t pc s) as Hw. unfold wp in Hw.
  destruct (cbc_step _ _ _ _ _ _ _ s) as [[[pc' s'] es']|]; [|done]. injection Ht as <- <- <-.
  split_and!; [done|by split|eauto].
Qed.

(** What a step of an agreement emits. *)
Lemma stepped_aba_said (c c' : core) (h : list Ev) (e r : Z) (pc : aba_pc) (pc' : option aba_pc) (a' : ABA)
    (es : list effect) :
  aba_ok com e r (aba_at c e r) -> aba_le (aba_at c e r) a' -> aba_at c' e r = a' ->
  aba_pc_ok e r (aba_at c e r) pc -> thread_heard h (TABA e r pc) ->
  stepped_aba com (s_name st) e r (aba_at c e r) pc pc' a' es ->
  Forall (effect_said c' h) es /\ Forall (thread_heard h) (spawned es ++ option_list (TABA e r <$> pc')) /\
  (forall f, (forall m, f m = true -> stage_two m = true) -> pushes_of f es = sends_of f es).
Proof using.
  intros Hok Hle Hat Hpc Hth Hs.
  assert (forall pc m, carried pc = Some m -> thread_heard h (TABA e r pc) -> EvMsg m ∈ h) as Hcar.
  { intros pc1 m1 Hm Ht. destruct pc1; cbn in Ht, Hm; try done; by apply Ht. }
  destruct Hs as [pc pc' a' Hn|v a' Hlow|pc m m' a' Hm Hp Hnh Hnv|pc t a'|i coin l v w Hk Hl Hw|i coin l y Hk Ho|x y a' Hk Hx].
  - split_and!; [done| |done]. cbn. destruct pc' as [pc1|]; [|done]. apply Forall_singleton.
    destruct (Hn pc1 eq_refl) as [[m Hm] Hc1].
    assert (thread_heard h (TABA e r pc1)) as Hg; [|exact Hg].
    pose proof (Hcar _ _ Hm Hth) as Hin. rewrite Hm in Hc1.
    destruct pc1; cbn in *; try done; intros m1 Hm1; congruence.
  - split_and!; [|done|done]. apply Forall_singleton. left. cbn. destruct Hpc as [<- <-]. rewrite Hat.
    split_and!; [done|done|]. exists v. split_and!; [exact (Hcar (AValCount v) _ eq_refl Hth)|done|done].
  - split_and!; [|done|intros f _; by rewrite sends_of_says, pushes_of_says]. apply says_said.
    assert (heard_parent h m) as Hpar by (exists m'; split; [exact (Hcar _ _ Hm Hth)|done]).
    destruct m; try done; [by destruct m'|by edestruct Hnh].
  - split_and!; [|done|intros f _; by rewrite sends_of_says, pushes_of_says].
    by repeat (apply Forall_cons_2; [by intros ?|]).
  - split_and!; [|done|intros f _; by rewrite sends_of_says, pushes_of_says]. apply says_said.
    destruct Hth as (s & Hs & Hks & Hls & _). exists (MCoinShare s). split; [done|].
    injection Hk as K1 K2 K3 K4. injection Hks as S1 S2 S3. cbn. split_and!; congruence.
  - split_and!; [|done|intros f _; by rewrite sends_of_says, pushes_of_says]. apply says_said.
    destruct Hth as (s & Hs & Hks & Hls & Htoss). injection Hk as K1 K2 K3 K4 K5. injection Hks as S1 S2 S3. cbn. split.
    + exists (MCoinShare s). split; [done|]. cbn. split_and!; congruence.
    + left. rewrite K1, K2, K3, K4, Hat. split; [done|]. exists s. split_and!; [done|by rewrite <-S1, <-S2, <-S3|congruence].
  - pose proof (Hcar (AHalt x) _ eq_refl Hth) as Hxin.
    split_and!; [|done|intros f _; rewrite sends_of_app, pushes_of_app, sends_of_says, pushes_of_says; done].
    apply Forall_app. split.
    + apply says_said. cbn. split; [exists (MABAHalt x); split; [done|]|by right; eauto].
      unfold halt_key in *. cbn. injection Hk as K1 K2 K3 K4 K5. done.
    + apply Forall_singleton. cbn. right. split; [done|]. by exists x.
Qed.

(** A val is emitted by an agreement only for the inner round after a coin. *)
Lemma stepped_aba_vals (e r : Z) (a a' : ABA) (pc : aba_pc) (pc' : option aba_pc) (es : list effect) (k : Z * Z * Z * Z) :
  stepped_aba com (s_name st) e r a pc pc' a' es ->
  sends_of (is_val k.1.1.1 k.1.1.2 k.1.2 k.2) es = 0%nat \/
  (sends_of (is_val k.1.1.1 k.1.1.2 k.1.2 k.2) es = 1%nat /\ pc' = None /\
   exists i coin l, pc = ACoin i coin l /\ k.1.1.1 = e /\ k.1.1.2 = r /\ k.1.2 = next_round i /\
     ((k.2 = coin /\ (i ∈ yesFlag a <-> i ∈ noFlag a)) \/ only k.2 a i)).
Proof using.
  destruct k as [[[ke kr] ki] kw]. cbn. intros Hs.
  destruct Hs as [pc pc' a' Hn|v a' Hlow|pc m m' a' Hm Hp Hnh Hnv|pc t a'|i coin l v w Hk Hl Hw|i coin l y Hk Ho|x y a' Hk Hx];
    rewrite ?sends_of_app, ?sends_of_says; cbn [is_val]; try by left.
  - destruct m; try by left. by edestruct Hnv.
  - destruct (bool_decide_reflect ((ABAVal_Epoch v, ABAVal_Round v, ABAVal_InRound v, ABAVal_Flag v) = (ke, kr, ki, kw)))
      as [Heq|]; [|by left]. right. split_and!; [done|done|]. exists i, coin, l. unfold val_key in Hk. rewrite Heq in Hk.
    injection Hk as -> -> -> ->. by split_and!.
Qed.

Lemma facts_tstep (c c' : core) (h : list Ev) (l es : list effect) (t : Thread) (t' : option Thread) :
  core_ok st c -> thread_ok st c t -> facts c h l -> thread_heard h t -> tstep t c = Ret (t', c', es) ->
  facts c' h (l ++ es) /\ Forall (thread_heard h) (spawned es ++ option_list t') /\ grows c c'.
Proof using Hst Ed25519Laws0.
  intros Hc Ht Hfa Hh Hs. pose proof Hfa as [Ha Hel Hgen Hheard Hlog Hpair Hinv Hcoin].
  destruct t as [e n t pc|e r pc].
  - destruct (tstep_cbc _ _ _ _ _ _ _ _ Hs) as (Hq & [Hfix Hco Hi Hg] & pc' & ->).
    assert (grows c c') as Hgr by (intros e' r'; rewrite (f_aba _ _ Hfix); apply aba_le_refl).
    destruct Hfix as [F1 F2 F3 F4 F5 F6 F7 F8]. split_and!; [|apply Forall_app; split; [by apply quiet_spawned|by destruct pc'; cbn; [apply Forall_singleton|]]|done].
    split; [split; [rewrite F4|rewrite F5]; apply Ha|congruence|by rewrite Hg|done| | | |].
    + apply Forall_app. split; [|by apply quiet_said]. eapply Forall_impl; [exact Hlog|].
      intros x. by eapply effect_said_mono.
    + intros f Hf. destruct (quiet_counts f es Hf Hq) as [H1 H2]. by rewrite sends_of_app, pushes_of_app, Hpair, H1, H2.
    + intros e' r' i w. rewrite Hi, F8. apply Hinv.
    + eapply facts_coin_same; try done. intros e' r' i w. apply quiet_counts; [apply is_val_stage|done].
  - pose proof (aba_at_ok c e r Hc) as Hok.
    destruct (tstep_aba _ _ _ _ _ _ _ Hc Ht Hs) as (pc' & a' & -> & Hc' & _ & Hst' & Hle & Hat & _).
    assert (grows c c') as Hgr.
    { intros e' r'. rewrite Hat. case_decide as Hd; [destruct Hd as [<- <-]; done|apply aba_le_refl]. }
    assert (aba_at c' e r = a') as Hat' by by rewrite Hat, decide_True.
    assert (aba_pc_ok e r (aba_at c e r) pc) as Hpc.
    { destruct Ht as (a & Hl & Hp). unfold aba_at. by rewrite Hl. }
    destruct (stepped_aba_said c c' h e r pc pc' a' es Hok Hle Hat' Hpc Hh Hst') as (Hes & Hth & Hpe).
    split_and!; [|done|done]. assert (abaInvokeFlag c' = abaInvokeFlag c) as Hi by by rewrite Hc'.
    split; [by rewrite Hc'|by rewrite Hc'|by rewrite Hc'|done| | | |].
    + apply Forall_app. split; [|done]. eapply Forall_impl; [exact Hlog|]. intros x. by eapply effect_said_mono.
    + intros f Hf. by rewrite sends_of_app, pushes_of_app, Hpair, Hpe.
    + intros e' r' i w. rewrite Hi. intros [->|H]%Hinv; [by left|right]. etrans; [exact H|]. apply cval_mono, Hgr.
    + intros e' r' i w Hi64. rewrite sends_of_app.
      destruct (stepped_aba_vals e r _ _ _ _ _ (e', r', next_round i, w) Hst') as [Hz|(_ & _ & i0 & coin & l0 & -> & Hk)];
        [cbn in Hz; rewrite Hz, Nat.add_0_r|].
      * unfold inv_mark. rewrite Hi. destruct (Hcoin e' r' i w Hi64) as [H1|[H1|H1]]; [by left| |by right; right].
        right. left. eapply only_mono; [by apply aba_at_ok|apply Hgr|done].
      * cbn in Hk. destruct Hk as (-> & -> & Hnx & Hw). destruct Hh as (s & Hsin & Hks & Hls & Htoss).
        assert (i = i0) as ->.
        { apply next_round_inj; [done| |done]. apply (Hheard _ Hsin). cbn. by injection Hks as _ _ ->. }
        right. destruct Hw as [[-> _]|Ho]; [right; exists s; by rewrite Hls|left].
        eapply only_mono; [by apply aba_at_ok|apply Hgr|done].
Qed.

Context (Hids : dense com).

(** What the network of a system delivers. *)
Definition sys_env (ev : Ev) : Prop := net_ok com ev /\ forall m, ev = EvMsg m -> inner_ok m.

Definition node_facts (n : node) : Prop :=
  node_ok (hist_inv st) (event_ok com) (thread_ok st) n /\
  hist_ok facts (fun _ h _ => thread_heard h) n.

Section Started.
Context (params : Parameters) (store : Store db) (pool : PoolParams.t) (N Id : Z) (n0 : node).
Hypothesis H0 : started (boot st params store pool N Id) n0.

Lemma started_facts : node_ok (hist_inv st) (event_ok com) (thread_ok st) n0 /\
  hist_ok facts (fun _ h _ => thread_heard h) n0 /\ event_inv n0 /\ n_recv n0 = [] /\ n_hist n0 = [] /\
  same_two (boot st params store pool N Id) (n_core n0) /\ Forall quiet (n_log n0) /\ Forall quiet (pending n0) /\
  conts n0 = [].
Proof using Hst Hids Ed25519Laws0 H0 HDB GB.
  pose proof (mvba_reachable_ok st Hst Hids _ _ _ _ _ _ _ H0 (reach_init _ _ _ _ _)) as (Hok & _).
  destruct H0 as (c & es & Hrun & ->).
  assert (keeps True (same_two (boot st params store pool N Id)) quiet Run_start) as Hk.
  { unfold Run_start. apply silent_get_bind. intros c1. apply keeps_bind.
    { unfold generateBlock. apply silent_get_bind. intros c2. destruct (GetBatch _) as [[b p]|]; silent. }
    intros b. apply silent_lift_bind. intros p. by apply silent_broadcast. }
  specialize (Hk _ (same_two_refl _)). unfold wp in Hk. rewrite Hrun in Hk. destruct Hk as [Hs Hq].
  split_and!; try done; [|apply start_event_inv|unfold pending; cbn; by rewrite app_nil_r].
  pose proof Hs as [[F1 F2 F3 F4 F5 F6 F7 F8] Hco Hi Hg]. split.
  - cbn. split; [done|done|by rewrite Hg|set_solver|by apply quiet_said| | |].
    + intros f Hf. destruct (quiet_counts f es Hf Hq) as [-> ->]. done.
    + intros e r i w. rewrite Hi. set_solver.
    + intros e r i w _. left. destruct (quiet_counts (is_val e r (next_round i) w) es (is_val_stage _ _ _ _) Hq) as [-> _]. lia.
  - unfold threads, pending, conts. cbn. rewrite !app_nil_r. by apply quiet_spawned.
Qed.

Lemma reachable_facts (n : node) : node_reachable sys_env n0 n -> node_facts n.
Proof using Hst Hids Ed25519Laws0 H0 HDB GB.
  assert (forall n, node_reachable sys_env n0 n -> node_ok (hist_inv st) (event_ok com) (thread_ok st) n) as Hknown.
  { intros n1 Hr. eapply mvba_reachable_ok; [done|done|exact H0|]. eapply reachable_mono; [|exact Hr]. by intros ev [? _]. }
  destruct started_facts as (_ & Hh0 & Hev & Hrecv & _).
  intros Hr. split; [by apply Hknown|].
  eapply (history_invariant chan_cap handle tstep sys_env n0 Hev); [by rewrite Hrecv|exact Hknown| | |exact Hh0|exact Hr].
  - intros n1 ev t s' es Hk [Hfa Hth] Hq Hor Hh. apply handle_summary in Hh as [-> Hs].
    assert (core_ok st (n_core n1)) as Hc by apply Hk.
    destruct (facts_handle (n_core n1) s' (n_hist n1) (n_log n1) es ev Hc Hfa) as [H1 H2]; [| |done|].
    + intros m ->. destruct Hor as [[_ Hi]|[ch Hin]]; [by apply Hi|].
      pose proof (fa_log _ _ _ Hfa) as Hlog. rewrite Forall_forall in Hlog. specialize (Hlog _ Hin). cbn in Hlog.
      destruct (stage_two m) eqn:Em; [|intros i Hi; by destruct m]. specialize (Hlog eq_refl).
      assert (forall m0, heard_parent (n_hist n1) m0 -> inner_ok m0) as Hpar.
      { intros m0 (m' & Hm' & Hp). eapply parent_inner; [exact Hp|]. by apply (fa_heard _ _ _ Hfa). }
      destruct m; try done; [by apply Hpar..|]. by apply Hpar, Hlog.
    + intros b ->. destruct Hor as [[(m & ? & _) _]|[ch Hin]]; [done|].
      pose proof (fa_log _ _ _ Hfa) as Hlog. rewrite Forall_forall in Hlog. exact (Hlog _ Hin).
    + split_and!; [done|by rewrite app_nil_r|]. intros t. apply thread_heard_mono. set_solver.
  - intros n1 t t' s' es Hk [Hfa Hth] Hin Hs. assert (core_ok st (n_core n1)) as Hc by apply Hk.
    pose proof (node_ok_threads _ _ _ _ Hk) as [Htok _]. rewrite Forall_forall in Htok, Hth.
    destruct (facts_tstep (n_core n1) s' (n_hist n1) (n_log n1) es t t' Hc (Htok _ Hin) Hfa (Hth _ Hin) Hs) as (H1 & H2 & _).
    by split_and!.
Qed.

End Started.
End Facts.
End History.

