(* ===== verification/MvbaLedger.v ===== *)
(** * mvba: what a node's counters stand for

    Counters of a reachable node against its histories, by [token_invariant]: every val
    and mux counted is one that was handled, every share of a coin is, and a val for the
    inner round after a coin was sent once by the goroutine of the coin and once, at
    most, when a relay invoked it.  [settled] is what a node keeps once an inner round is
    finished: from then on it goes to the next one only with a value it is flagged
    with. *)

From S2P Require Import Prelude GoStd Crypto Committee Store Pool Runtime Quorum Deliver Coin History.
From S2P Require Import MvbaMessage MvbaAggreator MvbaElector MvbaCommitor MvbaInstance.
From S2P Require Import MvbaInvariant MvbaCore MvbaSafety MvbaHistory.

Open Scope Z_scope.

Section Ledger.
Context {E : Ed25519} {K : Kyber} {R : MathRand} {db : Type} `{HDB : DB db} {GB : GobBlock}.
Context `{!Ed25519Laws E} (st : setting) (Hst : setting_ok st) (Hids : dense (s_com st)).

Abbreviation core := (Core (db := db)).
Abbreviation node := (Node (Core := core) (Ev := Ev) (Msg := Message) (Thread := Thread)).
Abbreviation com := (s_com st).
Abbreviation srv := (s_srv st).

Definition one (b : bool) : Z := if b then 1 else 0.

(** Messages of a kind among the handled events, and among the sent ones. *)
Definition heard_of (f : Message -> bool) (h : list Ev) : Z := sumZ (fun ev => one (ev_is f ev)) h.
Definition sends_cost (f : Message -> bool) (x : effect) : Z :=
  match x with ESend _ _ m => one (f m) | _ => 0 end.

Lemma heard_of_count (f : Message -> bool) (h : list Ev) :
  heard_of f h = Z.of_nat (length (filter (fun ev => ev_is f ev = true) h)).
Proof. apply sumZ_count. Qed.

Lemma sends_cost_count (f : Message -> bool) (es : list effect) :
  sumZ (sends_cost f) es = Z.of_nat (sends_of f es).
Proof.
  induction es as [|x es IH]; [done|]. cbn [sumZ foldr]. fold (sumZ (sends_cost f) es). rewrite IH.
  unfold sends_of. rewrite filter_cons. destruct x as [g t m|ch ev|t]; cbn [sends_cost];
    try (rewrite decide_False by done; lia).
  destruct (f m); [rewrite decide_True by done|rewrite decide_False by done]; cbn [one length]; lia.
Qed.

(** ** Counters of one step *)

(** The messages a goroutine will count. *)
Definition val_weight (f : Message -> bool) (t : Thread) : Z :=
  match t with
  | TABA _ _ (AVal v) | TABA _ _ (AValCount v) => one (f (MABAVal v))
  | _ => 0
  end.
Definition mux_weight (f : Message -> bool) (t : Thread) : Z :=
  match t with
  | TABA _ _ (AMux v) | TABA _ _ (AMuxFin v) | TABA _ _ (AMuxCount v) => one (f (MABAMux v))
  | _ => 0
  end.
Definition coin_weight (e r i : Z) (t : Thread) : Z :=
  match t with
  | TABA e' r' (ACoin i' _ _) => one (bool_decide ((e', r', i') = (e, r, i)))
  | _ => 0
  end.

Lemma count_incr (m : gmap Z Z) (j i : Z) : count (incr m j) i = count m i + one (bool_decide (j = i)).
Proof.
  unfold incr, count, one. rewrite lookup_insert.
  destruct (decide (j = i)) as [->|Hne]; [rewrite bool_decide_true by done|rewrite bool_decide_false by done]; cbn; lia.
Qed.

Lemma one_range (b : bool) : 0 <= one b <= 1.
Proof. destruct b; cbn; lia. Qed.

Lemma one_le (P Q : Prop) `{Decision P} `{Decision Q} : (P -> Q) -> one (bool_decide P) <= one (bool_decide Q).
Proof. intros HPQ. unfold one. repeat case_bool_decide; try lia. tauto. Qed.

Lemma count_val_step (v : ABAVal) (a : ABA) (w i : Z) :
  cval w (count_val v a).1 i <= cval w a i + one (bool_decide ((ABAVal_InRound v, ABAVal_Flag v) = (i, w))) /\
  (forall w i, cmux w (count_val v a).1 i = cmux w a i).
Proof.
  unfold count_val. cbn zeta.
  assert (0 <= one (bool_decide ((ABAVal_InRound v, ABAVal_Flag v) = (i, w)))) as Ho by apply one_range.
  destruct (Z.eqb_spec (ABAVal_Flag v) FLAG_NO) as [Hn|Hn];
    [|destruct (Z.eqb_spec (ABAVal_Flag v) FLAG_YES) as [Hy|Hy]]; cbn [fst]; (split; [|done]); unfold cval; cbn [valNoCnt valYesCnt set_field].
  - destruct (Z.eqb_spec w FLAG_NO) as [->|]; [|lia]. rewrite count_incr.
    pose proof (one_le (ABAVal_InRound v = i) ((ABAVal_InRound v, ABAVal_Flag v) = (i, FLAG_NO))
      ltac:(congruence)). lia.
  - destruct (Z.eqb_spec w FLAG_NO) as [->|]; [lia|]. destruct (Z.eqb_spec w FLAG_YES) as [->|]; [|lia].
    rewrite count_incr. pose proof (one_le (ABAVal_InRound v = i) ((ABAVal_InRound v, ABAVal_Flag v) = (i, FLAG_YES))
      ltac:(congruence)). lia.
  - lia.
Qed.

Lemma count_mux_step (m : ABAMux) (a : ABA) (w i : Z) :
  cmux w (count_mux m a) i <= cmux w a i + one (bool_decide ((ABAMux_InRound m, ABAMux_Flag m) = (i, w))) /\
  (forall w i, cval w (count_mux m a) i = cval w a i).
Proof.
  unfold count_mux. cbn zeta.
  assert (0 <= one (bool_decide ((ABAMux_InRound m, ABAMux_Flag m) = (i, w)))) as Ho by apply one_range.
  destruct (Z.eqb_spec (ABAMux_Flag m) FLAG_NO) as [Hn|Hn];
    [|destruct (Z.eqb_spec (ABAMux_Flag m) FLAG_YES) as [Hy|Hy]]; (split; [|done]); unfold cmux; cbn [muxNoCnt muxYesCnt set_field].
  - destruct (Z.eqb_spec w FLAG_NO) as [->|]; [|lia]. rewrite count_incr.
    pose proof (one_le (ABAMux_InRound m = i) ((ABAMux_InRound m, ABAMux_Flag m) = (i, FLAG_NO))
      ltac:(congruence)). lia.
  - destruct (Z.eqb_spec w FLAG_NO) as [->|]; [lia|]. destruct (Z.eqb_spec w FLAG_YES) as [->|]; [|lia].
    rewrite count_incr. pose proof (one_le (ABAMux_InRound m = i) ((ABAMux_InRound m, ABAMux_Flag m) = (i, FLAG_YES))
      ltac:(congruence)). lia.
  - lia.
Qed.

(** A step counts at most the message of its goroutine. *)
Lemma aba_step_counts (name : NodeID) (com : Committee) (srv : SigService) (e r : Z) (pc : aba_pc) (a : ABA) (i w : Z) :
  aba_pc_ok e r a pc ->
  wp True (aba_step name com srv pc) a (fun pc' a' es =>
    cval w a' i + sumZ (val_weight (is_val e r i w)) (option_list (TABA e r <$> pc')) <=
      cval w a i + val_weight (is_val e r i w) (TABA e r pc) /\
    cmux w a' i + sumZ (mux_weight (is_mux_for e r i w)) (option_list (TABA e r <$> pc')) <=
      cmux w a i + mux_weight (is_mux_for e r i w) (TABA e r pc)).
Proof.
  intros Hpc. unfold aba_step. rewrite wp_bind, wp_get. cbn beta.
  destruct pc as [v|v|v|m|m|m|m yes no|m yes no vyes vno|j coin l|h].
  - wp_steps. cbn. pose proof (one_range (bool_decide ((ABAVal_Epoch v, ABAVal_Round v, ABAVal_InRound v, ABAVal_Flag v) = (e, r, i, w)))).
    destruct (halt a); cbn; lia.
  - destruct (count_val_step v a w i) as [H1 H2]. destruct (count_val v a) as [a' cnt]. cbn [fst] in *.
    specialize (H2 w i). destruct Hpc as [He Hr]. rewrite wp_bind, wp_modify. cbn beta.
    assert (one (bool_decide ((ABAVal_InRound v, ABAVal_Flag v) = (i, w))) <=
      val_weight (is_val e r i w) (TABA e r (AValCount v))) as Hw.
    { cbn. rewrite He, Hr. apply one_le. congruence. }
    destruct (_ =? _); wp_steps; [cbn in *; lia|]. destruct (_ =? _); cbn in *; lia.
  - case_bool_decide; [wp_steps; cbn; lia|]. rewrite wp_bind, wp_modify. cbn beta. rewrite wp_bind, wp_lift.
    destruct (NewABAMux _ _ _ _ _ _ _); [|done]. unfold send_all. wp_steps. unfold cval, cmux. cbn. lia.
  - wp_steps. cbn. pose proof (one_range (bool_decide ((ABAMux_Epoch m, ABAMux_Round m, ABAMux_InRound m, ABAMux_Flag m) = (e, r, i, w)))).
    destruct (halt a); cbn; lia.
  - wp_steps. cbn. pose proof (one_range (bool_decide ((ABAMux_Epoch m, ABAMux_Round m, ABAMux_InRound m, ABAMux_Flag m) = (e, r, i, w)))).
    destruct (bool_decide (_ ∈ _)); cbn; lia.
  - destruct (count_mux_step m a w i) as [H1 H2]. specialize (H2 w i). destruct Hpc as [He Hr].
    assert (one (bool_decide ((ABAMux_InRound m, ABAMux_Flag m) = (i, w))) <=
      mux_weight (is_mux_for e r i w) (TABA e r (AMuxCount m))) as Hw.
    { cbn. rewrite He, Hr. apply one_le. congruence. }
    wp_steps. cbn in *. lia.
  - wp_steps. cbn. lia.
  - unfold decide_step, send_all. rewrite wp_bind, wp_get. cbn beta. case_bool_decide; [wp_steps; cbn; lia|].
    destruct (mux_flags _ _ _ _ _) as [y n]. rewrite wp_bind, wp_modify. cbn beta.
    destruct (set_flags_rest (ABAMux_InRound m) y n a) as (_ & _ & E3 & E4 & E5 & E6 & _).
    destruct (y || n); [|wp_steps; unfold cval, cmux; rewrite E3, E4, E5, E6; cbn; lia]. rewrite wp_bind, wp_lift.
    destruct (NewCoinShare _ _ _ _ _ _); [|done]. wp_steps. unfold cval, cmux. rewrite E3, E4, E5, E6. cbn. lia.
  - unfold coin_step, send_all. rewrite wp_bind, wp_get. cbn beta zeta.
    repeat match goal with |- context [if ?b then _ else _] => destruct b end; rewrite wp_bind, wp_lift;
      (destruct (NewABAVal _ _ _ _ _ _ _) || destruct (NewABAHalt _ _ _ _ _ _ _)); try done; wp_steps; cbn; lia.
  - unfold halt_step, send_all. rewrite wp_bind, wp_get. cbn beta. destruct (halt a); [wp_steps; cbn; lia|].
    rewrite wp_bind, wp_modify. cbn beta. rewrite wp_bind, wp_lift. destruct (NewABAHalt _ _ _ _ _ _ _); [|done].
    wp_steps. unfold cval, cmux. cbn. lia.
Qed.

(** ** The ledgers of a node *)

Lemma sumZ_zero {A : Type} (f : A -> Z) (l : list A) : (forall x, x ∈ l -> f x = 0) -> sumZ f l = 0.
Proof.
  intros H. induction l as [|x l IH]; [done|]. cbn [sumZ foldr]. fold (sumZ f l).
  rewrite IH by (intros y Hy; apply H; by right). rewrite (H x) by left. lia.
Qed.

(** A goroutine of an agreement among those a handler starts. *)
Lemma did_spawned (c c' : core) (ev : Ev) (es : list effect) (f : Thread -> Z) :
  did c ev c' es -> (forall e n t pc, f (TCBC e n t pc) = 0) ->
  sumZ f (spawned es) = 0 \/
  (exists m e r pc, ev = EvMsg m /\ starts m = Some (e, r, pc) /\ es = [EGo (TABA e r pc)]) \/
  (exists s coin, ev = EvMsg (MCoinShare s) /\
     es = [EGo (TABA (CoinShare_Epoch s) (CoinShare_Round s) (ACoin (CoinShare_InRound s) coin (CoinShare_Leader s)))]).
Proof.
  intros [es' Hq _ _|v _ _ _ _|v _ _ _ _|m e r pc -> Hs _ _|s es' -> _ _ Hco] Hf.
  - left. apply sumZ_zero. intros t Ht%elem_of_spawned. rewrite Forall_forall in Hq. specialize (Hq _ Ht).
    destruct t; [apply Hf|done].
  - by left.
  - by left.
  - right. left. exists m, e, r, pc. done.
  - destruct Hco as [->|(data & _ & _ & ->)]; [by left|]. right. right. by eexists _, _.
Qed.

Section Started.
Context (params : Parameters) (store : Store db) (pool : PoolParams.t) (N Id : Z) (n0 : node).
Hypothesis H0 : started (boot st params store pool N Id) n0.

Lemma started_nothing (credit : core -> Z) (weight : Thread -> Z) (earn : Ev -> Z) (cost : effect -> Z) :
  (forall e n t pc, weight (TCBC e n t pc) = 0) -> (forall x, quiet x -> cost x = 0) -> 0 <= credit (n_core n0) ->
  covered credit weight earn cost n0.
Proof using All.
  intros Hw Hx Hcr. destruct (started_facts st Hst Hids _ _ _ _ _ _ H0) as (_ & _ & _ & _ & Hh & _ & Hl & Hp & Hk).
  unfold covered, threads. rewrite Hh, Hk, app_nil_r.
  rewrite (sumZ_zero cost) by (intros x Hin; rewrite Forall_forall in Hl; by apply Hx, Hl).
  rewrite (sumZ_zero weight); [cbn; lia|]. intros t Ht%elem_of_spawned. rewrite Forall_forall in Hp.
  specialize (Hp _ Ht). by destruct t.
Qed.

Abbreviation reach := (node_reachable (sys_env st) n0).

Lemma started_core : same_two (boot st params store pool N Id) (n_core n0).
Proof using All. by eapply started_facts. Qed.

(** A counter that only goroutines with a message to count increase. *)
Section Counter.
Context (e r : Z) (cnt : ABA -> Z) (f : Message -> bool) (weight : Thread -> Z).
Hypothesis weight_pos : forall t, 0 <= weight t.
Hypothesis weight_cbc : forall e n t pc, weight (TCBC e n t pc) = 0.
Hypothesis weight_coin : forall e' r' i' coin l, weight (TABA e' r' (ACoin i' coin l)) = 0.
Hypothesis weight_start : forall m e' r' pc, starts m = Some (e', r', pc) -> weight (TABA e' r' pc) = one (f m).
Hypothesis weight_other : forall e' r' pc a, ~ (e' = e /\ r' = r) -> aba_pc_ok e' r' a pc -> weight (TABA e' r' pc) = 0.
Hypothesis counts_step : forall pc a, aba_pc_ok e r a pc ->
  wp True (aba_step (s_name st) com srv pc) a (fun pc' a' es =>
    cnt a' + sumZ weight (option_list (TABA e r <$> pc')) <= cnt a + weight (TABA e r pc)).

Lemma counter_tstep (c c' : core) (t : Thread) (t' : option Thread) (es : list effect) :
  core_ok st c -> thread_ok st c t -> tstep t c = Ret (t', c', es) ->
  sumZ weight (spawned es ++ option_list t') - cnt (aba_at c e r) <= - cnt (aba_at c' e r) + weight t.
Proof using All.
  intros Hc Htok Hs. destruct t as [e' n' t pc|e' r' pc].
  - destruct (tstep_cbc _ _ _ _ _ _ _ _ Hs) as (Hq & [Hfix _ _ _] & pc' & ->). rewrite (f_aba _ _ Hfix), weight_cbc.
    rewrite sumZ_zero; [lia|]. intros t1 [Ht1%elem_of_spawned|Ht1]%elem_of_app.
    + rewrite Forall_forall in Hq. specialize (Hq _ Ht1). by destruct t1.
    + destruct pc'; cbn in Ht1; [|set_solver]. apply list_elem_of_singleton in Ht1 as ->. apply weight_cbc.
  - destruct (tstep_aba st Hst _ _ _ _ _ _ _ Hc Htok Hs) as (pc' & a' & -> & _ & Hst' & Hsa & _ & Hat & Hpc').
    rewrite (co_name _ _ Hc), (co_com _ _ Hc), (co_srv _ _ Hc) in Hst'.
    assert (aba_pc_ok e' r' (aba_at c e' r') pc) as Hpc.
    { destruct Htok as (a & Hl & Hp). unfold aba_at. by rewrite Hl. }
    assert (spawned es = []) as -> by by destruct Hsa. rewrite Hat. cbn [app].
    destruct (decide (e' = e /\ r' = r)) as [[-> ->]|Hne].
    + specialize (counts_step pc _ Hpc). unfold wp in counts_step. rewrite Hst' in counts_step. lia.
    + rewrite sumZ_zero, (weight_other _ _ _ _ Hne Hpc); [lia|]. intros t1 Ht1.
      destruct pc' as [pc1|]; cbn in Ht1; [|set_solver]. apply list_elem_of_singleton in Ht1 as ->.
      by eapply weight_other, Hpc'.
Qed.

Lemma counter_bounded (n : node) :
  cnt (NewABA e r) = 0 -> reach n -> cnt (aba_at (n_core n) e r) <= heard_of f (n_hist n).
Proof using All.
  intros Hnew Hr.
  assert (covered (fun c => - cnt (aba_at c e r)) weight (fun ev => one (ev_is f ev)) (fun _ => 0) n) as Hcov.
  { eapply (token_invariant chan_cap handle tstep (sys_env st) n0 (node_facts st)); [| | | |exact Hr].
    - intros n2 Hr2. by eapply reachable_facts.
    - intros n2 ev t s' es _ _ Hh. apply handle_summary in Hh as [-> (Hfix & _ & Hd)].
      rewrite (f_aba _ _ Hfix), sumZ_zero by done. cbn [option_list]. rewrite app_nil_r.
      pose proof (one_range (ev_is f ev)).
      destruct (did_spawned _ _ _ _ weight Hd weight_cbc) as [->|[(m & e' & r' & pc & -> & Hs & ->)|(s & coin & -> & ->)]];
        [lia|change (spawned [EGo ?x]) with [x]; cbn [sumZ foldr]..].
      + rewrite (weight_start _ _ _ _ Hs). cbn [ev_is]. lia.
      + rewrite weight_coin. lia.
    - intros n2 t t' s' es [Hok _] Hin Hs. rewrite sumZ_zero by done.
      pose proof (node_ok_threads _ _ _ _ Hok) as [Htok _]. rewrite Forall_forall in Htok. specialize (Htok _ Hin).
      assert (core_ok st (n_core n2)) as Hc by apply Hok.
      pose proof (counter_tstep _ _ _ _ _ Hc Htok Hs). lia.
    - apply started_nothing; [done|done|]. destruct started_core as [Hfix _ _ _]. rewrite (f_aba _ _ Hfix).
      change (aba_at (boot st params store pool N Id) e r) with (NewABA e r). lia. }
  unfold covered in Hcov. rewrite sumZ_zero in Hcov by done. pose proof (sumZ_nonneg weight (threads n) weight_pos).
  unfold heard_of. lia.
Qed.
End Counter.

(** Every counted val, and every counted mux, was handled. *)
Lemma counted (n : node) (e r i w : Z) :
  reach n ->
  cval w (aba_at (n_core n) e r) i <= heard_of (is_val e r i w) (n_hist n) /\
  cmux w (aba_at (n_core n) e r) i <= heard_of (is_mux_for e r i w) (n_hist n).
Proof using All.
  intros Hr. split.
  - apply (counter_bounded e r (fun a => cval w a i) (is_val e r i w) (val_weight (is_val e r i w))); try done.
    + intros [e' n' t pc|e' r' pc]; cbn; [lia|]. destruct pc; cbn; try lia; apply one_range.
    + by intros [] e' r' pc [= <- <- <-].
    + intros e' r' pc a Hne Hpc. destruct pc; cbn in *; try done; destruct Hpc as [-> ->];
        rewrite bool_decide_false by naive_solver; done.
    + intros pc a Hpc. eapply wp_mono; [by apply aba_step_counts|]. by intros ? ? ? [? _].
    + unfold cval. by repeat case_bool.
  - apply (counter_bounded e r (fun a => cmux w a i) (is_mux_for e r i w) (mux_weight (is_mux_for e r i w))); try done.
    + intros [e' n' t pc|e' r' pc]; cbn; [lia|]. destruct pc; cbn; try lia; apply one_range.
    + by intros [] e' r' pc [= <- <- <-].
    + intros e' r' pc a Hne Hpc. destruct pc; cbn in *; try done; destruct Hpc as [-> ->];
        rewrite bool_decide_false by naive_solver; done.
    + intros pc a Hpc. eapply wp_mono; [by apply aba_step_counts|]. by intros ? ? ? [_ ?].
    + unfold cmux. by repeat case_bool.
Qed.

(** Every share of a coin was handled. *)
Lemma shares_heard (n : node) (e r i : Z) :
  reach n -> Z.of_nat (length (shares_at (n_core n) e r i)) <= heard_of (is_coin e r i) (n_hist n).
Proof using All.
  intros Hr. assert (covered (fun c => - Z.of_nat (length (shares_at c e r i))) (fun _ => 0)
    (fun ev => one (ev_is (is_coin e r i) ev)) (fun _ => 0) n) as Hcov.
  { eapply (token_invariant chan_cap handle tstep (sys_env st) n0 (node_facts st)); [| | | |exact Hr].
    - intros n2 Hr2. by eapply reachable_facts.
    - intros n2 ev t s' es _ _ Hh. apply handle_summary in Hh as [-> (_ & _ & Hd)]. rewrite !sumZ_zero by done.
      pose proof (one_range (ev_is (is_coin e r i) ev)).
      destruct Hd as [es' _ Hs _|v _ _ Hs _|v _ Hs _ _|m e' r' pc -> _ Hs _|s es' -> _ Hs _]; rewrite Hs; [lia..|].
      rewrite length_app. cbn [ev_is is_coin]. unfold coin_key.
      destruct (decide _) as [Hd|Hd]; [rewrite bool_decide_true by done|rewrite bool_decide_false by done];
        cbn [length one]; lia.
    - intros n2 t t' s' es [Hok _] Hin Hs. rewrite !sumZ_zero by done.
      pose proof (node_ok_threads _ _ _ _ Hok) as [Htok _]. rewrite Forall_forall in Htok. specialize (Htok _ Hin).
      assert (core_ok st (n_core n2)) as Hc by apply Hok. destruct t as [e' n' t pc|e' r' pc].
      + destruct (tstep_cbc _ _ _ _ _ _ _ _ Hs) as (_ & Hsame & _). rewrite (same_two_shares _ _ Hsame). lia.
      + destruct (tstep_aba st Hst _ _ _ _ _ _ _ Hc Htok Hs) as (pc' & a' & _ & -> & _).
        unfold shares_at. cbn. lia.
    - apply started_nothing; [done|done|]. rewrite (same_two_shares _ _ started_core). done. }
  unfold covered in Hcov. rewrite !sumZ_zero in Hcov by done. unfold heard_of. lia.
Qed.

(** ** Vals: one step *)

(** What a step does to the vals a node has sent: nothing; or a handler invokes one; or
    the goroutine of a coin sends one for the next inner round. *)
Definition val_sends (n : node) (k : Z * Z * Z * Z) : nat :=
  sends_of (is_val k.1.1.1 k.1.1.2 k.1.2 k.2) (n_log n).
Definition invokes (n : node) (k : Z * Z * Z * Z) : nat := inv_mark (n_core n) k.

Inductive val_moved (n n' : node) (k : Z * Z * Z * Z) : Prop :=
| vm_same : val_sends n' k = val_sends n k -> invokes n' k = invokes n k -> val_moved n n' k
| vm_invoked : val_sends n' k = S (val_sends n k) -> invokes n k = 0%nat -> invokes n' k = 1%nat ->
    same_shares (n_core n) (n_core n') ->
    k.1.2 = 0 \/ LowThreshold com <= cval k.2 (aba_at (n_core n) k.1.1.1 k.1.1.2) k.1.2 -> val_moved n n' k
| vm_coin i coin l : val_sends n' k = S (val_sends n k) -> invokes n' k = invokes n k ->
    same_shares (n_core n) (n_core n') ->
    TABA k.1.1.1 k.1.1.2 (ACoin i coin l) ∈ threads n -> k.1.2 = next_round i ->
    (k.2 = coin /\ (i ∈ yesFlag (aba_at (n_core n) k.1.1.1 k.1.1.2) <->
                    i ∈ noFlag (aba_at (n_core n) k.1.1.1 k.1.1.2))) \/
    only k.2 (aba_at (n_core n) k.1.1.1 k.1.1.2) i -> val_moved n n' k.

Lemma grows_refl (c : core) : grows c c.
Proof. intros e r. apply aba_le_refl. Qed.

Lemma queued_back (n : node) (b : ABABack) :
  reach n -> EvABA b ∈ queued n -> back_ok st (n_core n) (n_hist n) b.
Proof using All.
  intros Hr Hin. destruct (started_facts st Hst Hids _ _ _ _ _ _ H0) as (_ & _ & Hev & Hrecv & _).
  destruct (event_origin chan_cap handle tstep (sys_env st) n0 Hev ltac:(by rewrite Hrecv) n (EvABA b) Hr)
    as [[(m & ? & _) _]|[ch Hl]]; [apply elem_of_app; by right|done|].
  destruct (reachable_facts st Hst Hids _ _ _ _ _ _ H0 n Hr) as [_ [Hfa _]].
  pose proof (fa_log _ _ _ _ Hfa) as Hlog. rewrite Forall_forall in Hlog. exact (Hlog _ Hl).
Qed.

Lemma handled_vals (n n' : node) (k : Z * Z * Z * Z) (ev : Ev) (t : option Thread) (es : list effect) :
  reach n -> ev ∈ queued n -> handle ev (n_core n) = Ret (t, n_core n', es) -> n_log n' = n_log n ++ es ->
  val_moved n n' k /\ grows (n_core n) (n_core n').
Proof using All.
  intros Hr Hq Hh El.
  apply handle_summary in Hh as [-> (Hfix & _ & Hd)].
  split; [|intros e r; rewrite (f_aba _ _ Hfix); apply aba_le_refl].
  assert (forall es', Forall quiet es' -> sends_of (is_val k.1.1.1 k.1.1.2 k.1.2 k.2) es' = 0%nat) as Hquiet
    by (intros es' Hq'; by apply quiet_counts; [apply is_val_stage|]).
  destruct Hd as [es' Hq' Hsh Hi|v _ _ Hsh Hi|v Hcause Hsh Hk Hi|m e' r' pc -> _ Hsh Hi|s es' -> Hi _ Hco].
  + apply vm_same; unfold val_sends, invokes, inv_mark; rewrite ?El, ?Hi; [|done].
    rewrite sends_of_app, (Hquiet es' Hq'). lia.
  + apply vm_same; unfold val_sends, invokes, inv_mark; rewrite ?El, ?Hi, ?sends_of_app, ?sends_of_says; cbn; first [done|lia].
  + destruct k as [[[ke kr] ki] kw]. pose proof (invoked_marks _ _ v (Name (n_core n)) ke kr ki kw Hk Hi) as Hm.
    destruct (val_caused st (n_core n) (n_hist n) ev v) as [_ Hlow]; [|done|].
    { intros b ->. by apply queued_back. }
    destruct (decide ((ke, kr, ki, kw) = val_key v)) as [Heq|Hne].
    * injection Heq as -> -> -> ->. rewrite sends_of_says in Hm. cbn [is_val] in Hm. rewrite bool_decide_true in Hm by done.
      unfold inv_mark in Hm. rewrite decide_False in Hm by done.
      apply vm_invoked; unfold val_sends, invokes, inv_mark; cbn; rewrite ?El, ?sends_of_app, ?sends_of_says; try done.
      -- cbn [is_val]. rewrite bool_decide_true by done. lia.
      -- by rewrite decide_False.
    * rewrite sends_of_says in Hm. cbn [is_val] in Hm. rewrite bool_decide_false in Hm by (unfold val_key in Hne; congruence).
      apply vm_same; unfold val_sends, invokes; cbn; rewrite ?El, ?sends_of_app, ?sends_of_says; [|done].
      cbn [is_val]. rewrite bool_decide_false by (unfold val_key in Hne; congruence). lia.
  + apply vm_same; unfold val_sends, invokes, inv_mark; rewrite ?El, ?Hi, ?sends_of_app; cbn; first [done|lia].
  + apply vm_same; unfold val_sends, invokes, inv_mark; rewrite ?El, ?Hi; [|done]. rewrite sends_of_app.
    destruct Hco as [->|(data & _ & _ & ->)]; exact (Nat.add_0_r _).
Qed.

Lemma stepped_vals (n n' : node) (k : Z * Z * Z * Z) (t : Thread) (t' : option Thread) (es : list effect) :
  reach n -> t ∈ threads n -> tstep t (n_core n) = Ret (t', n_core n', es) -> n_log n' = n_log n ++ es ->
  val_moved n n' k /\ grows (n_core n) (n_core n').
Proof using All.
  intros Hr Hin Hst' El. destruct (reachable_facts st Hst Hids _ _ _ _ _ _ H0 n Hr) as [Hok [Hfa Hth]].
  assert (core_ok st (n_core n)) as Hc by apply Hok. pose proof (node_ok_threads _ _ _ _ Hok) as [Htok _].
  rewrite Forall_forall in Htok, Hth.
  specialize (Htok _ Hin). specialize (Hth _ Hin).
  destruct (facts_tstep st Hst _ _ _ _ _ _ _ Hc Htok Hfa Hth Hst') as (_ & _ & Hgr). split; [|done].
  destruct t as [e' n1 t pc|e' r' pc].
  + destruct (tstep_cbc _ _ _ _ _ _ _ _ Hst') as (Hq & [_ _ Hi _] & _).
    apply vm_same; unfold val_sends, invokes, inv_mark; rewrite ?El, ?Hi; [|done]. rewrite sends_of_app.
    destruct (quiet_counts (is_val k.1.1.1 k.1.1.2 k.1.2 k.2) es (is_val_stage _ _ _ _) Hq) as [-> _]. lia.
  + destruct (tstep_aba st Hst _ _ _ _ _ _ _ Hc Htok Hst') as (pc' & a' & -> & Hc' & _ & Hsa & _).
    assert (abaInvokeFlag (n_core n') = abaInvokeFlag (n_core n)) as Hi by by rewrite Hc'.
    assert (same_shares (n_core n) (n_core n')) as Hsh by (intros ? ? ?; by rewrite Hc').
    destruct (stepped_aba_vals st e' r' _ _ _ _ _ k Hsa) as [Hz|(Ho & _ & i & coin & l & -> & K1 & K2 & K3 & Hw)].
    * apply vm_same; unfold val_sends, invokes, inv_mark; rewrite ?El, ?Hi; [|done]. rewrite sends_of_app, Hz. lia.
    * apply (vm_coin _ _ _ i coin l); unfold val_sends, invokes, inv_mark; rewrite ?El, ?Hi, ?K1, ?K2; try done.
      rewrite sends_of_app. rewrite K1, K2 in Ho. lia.
Qed.

Lemma nstep_vals (ch : choice) (n n' : node) (k : Z * Z * Z * Z) :
  reach n -> node_step ch n = Next n' -> val_moved n n' k /\ grows (n_core n) (n_core n').
Proof using All.
  intros Hr Hs.
  destruct (nstep_moves _ _ _ _ _ _ Hs) as ([Ec El Eh Et|ev t es Hq Hh El Eh Et|t t' es rest Hrest Hst' El Eh Et] & _ & _).
  - split; [|rewrite Ec; apply grows_refl]. apply vm_same; unfold val_sends, invokes; congruence.
  - by eapply handled_vals.
  - eapply stepped_vals; [done| |exact Hst'|done]. rewrite Hrest. left.
Qed.

(** The coin of an inner round was tossed: its shares have reached the threshold. *)
Definition full (c : core) (e r i : Z) : bool :=
  HightThreshold com <=? Z.of_nat (length (shares_at c e r i)).

(** Shares come one at a time, and the goroutine of a coin starts with the share that
    reaches the threshold. *)
Lemma full_share (c c' : core) (ev : Ev) (es : list effect) (e r i : Z) :
  agg_committee (core_Aggreator c) = com -> did c ev c' es ->
  one (full c e r i) + sumZ (coin_weight e r i) (spawned es) <= one (full c' e r i).
Proof using.
  intros Hcom Hd.
  assert (same_shares c c' -> full c' e r i = full c e r i) as Hsame by (intros Hs; unfold full; by rewrite Hs).
  destruct Hd as [es' Hq Hs _|v _ _ Hs _|v _ Hs _ _|m e' r' pc -> Hst' Hs _|s es' -> _ Hs Hco].
  - rewrite Hsame, sumZ_zero; [lia| |done]. intros t Ht%elem_of_spawned. rewrite Forall_forall in Hq.
    specialize (Hq _ Ht). by destruct t.
  - rewrite Hsame by done. cbn. lia.
  - rewrite Hsame by done. cbn. lia.
  - rewrite Hsame by done. by destruct m; try done; injection Hst' as <- <- <-; cbn; lia.
  - assert (length (shares_at c e r i) <= length (shares_at c' e r i))%nat as Hle by (rewrite Hs, length_app; lia).
    assert (one (full c e r i) <= one (full c' e r i)) as Hmono.
    { unfold full. destruct (Z.leb_spec (HightThreshold com) (Z.of_nat (length (shares_at c e r i))));
        [rewrite (proj2 (Z.leb_le _ _)) by lia; cbn; lia|apply one_range]. }
    destruct Hco as [->|(data & Hlen & _ & ->)]; [cbn; lia|]. change (spawned [EGo ?x]) with [x].
    cbn [sumZ foldr coin_weight]. case_bool_decide as Hk; [|cbn; lia]. injection Hk as H1 H2 H3.
    rewrite H1, H2, H3, Hcom in Hlen. specialize (Hs e r i). rewrite decide_True in Hs by (unfold coin_key; congruence).
    rewrite Hs, length_app in Hlen. cbn [length] in Hlen. unfold full. rewrite Hs, length_app. cbn [length].
    rewrite (proj2 (Z.leb_gt _ _)), (proj2 (Z.leb_le _ _)) by lia. cbn. lia.
Qed.

(** A val for the inner round after [i] is paid for by the mark of its invocation, or by the
    shares that start the goroutine of the coin. *)
Lemma handled_pays (n : node) (e r i w : Z) (ev : Ev) (t : option Thread) (s' : core) (es : list effect) :
  let k := (e, r, next_round i, w) in
  reach n -> handle ev (n_core n) = Ret (t, s', es) ->
  sumZ (sends_cost (is_val e r (next_round i) w)) es + sumZ (coin_weight e r i) (spawned es ++ option_list t) +
  (Z.of_nat (inv_mark (n_core n) k) + one (full (n_core n) e r i)) <=
  Z.of_nat (inv_mark s' k) + one (full s' e r i) + 0.
Proof using All.
  intros k.
  intros Hr2 Hh. apply handle_summary in Hh as [-> (_ & _ & Hd)].
  destruct (reachable_facts st Hst Hids _ _ _ _ _ _ H0 n Hr2) as [_ [Hfa _]].
  cbn [option_list]. rewrite app_nil_r, sends_cost_count.
  pose proof (full_share _ _ _ _ e r i (proj1 (fa_agg _ _ _ _ Hfa)) Hd) as Hf.
  assert (Z.of_nat (sends_of (is_val e r (next_round i) w) es) + Z.of_nat (inv_mark (n_core n) k) <=
    Z.of_nat (inv_mark s' k)); [|lia]. unfold inv_mark.
  destruct Hd as [es' Hq' _ Hi|v _ _ _ Hi|v _ _ Hk Hi|m e' r' pc -> _ _ Hi|s es' -> Hi _ Hco]; rewrite Hi.
  + destruct (quiet_counts (is_val e r (next_round i) w) es' (is_val_stage _ _ _ _) Hq') as [-> _]. lia.
  + rewrite sends_of_says. cbn. lia.
  + pose proof (invoked_marks _ _ v (Name (n_core n)) e r (next_round i) w Hk Hi) as Hm. unfold inv_mark in Hm.
    rewrite Hi in Hm. unfold k. lia.
  + change (sends_of _ [EGo _]) with 0%nat. lia.
  + destruct Hco as [->|(data & _ & _ & ->)]; change (sends_of _ _) with 0%nat; lia.
Qed.

Lemma stepped_pays (n : node) (e r i w : Z) (t : Thread) (t' : option Thread) (s' : core) (es : list effect) :
  let k := (e, r, next_round i, w) in
  in_int64 i -> reach n -> t ∈ threads n -> tstep t (n_core n) = Ret (t', s', es) ->
  sumZ (sends_cost (is_val e r (next_round i) w)) es + sumZ (coin_weight e r i) (spawned es ++ option_list t') +
  (Z.of_nat (inv_mark (n_core n) k) + one (full (n_core n) e r i)) <=
  Z.of_nat (inv_mark s' k) + one (full s' e r i) + coin_weight e r i t.
Proof using All.
  intros k.
  intros Hi64 Hr2 Hin Hs. rewrite sends_cost_count.
  destruct (reachable_facts st Hst Hids _ _ _ _ _ _ H0 n Hr2) as [Hok [Hfa Hth]].
  pose proof (node_ok_threads _ _ _ _ Hok) as [Htok _]. rewrite Forall_forall in Htok, Hth.
  specialize (Htok _ Hin). specialize (Hth _ Hin). assert (core_ok st (n_core n)) as Hc by apply Hok.
  destruct t as [e' n1 t pc|e' r' pc].
  + destruct (tstep_cbc _ _ _ _ _ _ _ _ Hs) as (Hq & [_ Hco Hi _] & pc' & ->). unfold inv_mark, full, shares_at.
    rewrite Hi, Hco. destruct (quiet_counts (is_val e r (next_round i) w) es (is_val_stage _ _ _ _) Hq) as [-> _].
    rewrite sumZ_zero; [cbn; lia|]. intros t1 [Ht1%elem_of_spawned|Ht1]%elem_of_app.
    * rewrite Forall_forall in Hq. specialize (Hq _ Ht1). by destruct t1.
    * destruct pc'; cbn in Ht1; [|set_solver]. by apply list_elem_of_singleton in Ht1 as ->.
  + destruct (tstep_aba st Hst _ _ _ _ _ _ _ Hc Htok Hs) as (pc' & a' & -> & -> & _ & Hsa & _).
    assert (sumZ (coin_weight e r i) (spawned es ++ option_list (TABA e' r' <$> pc')) = 0) as ->.
    { assert (spawned es = []) as -> by by destruct Hsa. cbn [app]. apply sumZ_zero. intros t1 Ht1.
      destruct pc' as [pc1|]; cbn in Ht1; [|set_solver]. apply list_elem_of_singleton in Ht1 as ->.
      inversion Hsa; subst. destruct (H pc1 eq_refl) as [[m Hm] Hc1]. rewrite Hm in Hc1. by destruct pc1. }
    unfold inv_mark, full, shares_at. cbn [abaInvokeFlag core_Aggreator set_field].
    assert (0 <= coin_weight e r i (TABA e' r' pc)) as Hpos by (destruct pc; cbn; try lia; apply one_range).
    destruct (stepped_aba_vals st e' r' _ _ _ _ _ k Hsa) as [Hz|(Ho & _ & i0 & coin & l & -> & K1 & K2 & K3 & _)].
    * cbn in Hz. rewrite Hz. lia.
    * cbn in Ho, K1, K2, K3. rewrite Ho. subst e' r'.
      destruct Hth as (s & Hsin & Hks & _ & _). assert (i0 = i) as ->.
      { apply next_round_inj; [|done|done]. apply (fa_heard _ _ _ _ Hfa _ Hsin). cbn. by injection Hks as _ _ ->. }
      cbn [coin_weight]. rewrite bool_decide_true by done. cbn [one]. lia.
Qed.

(** A val for the inner round after [i] was sent when it was invoked, and once more at
    most, if the coin of [i] was tossed. *)
Lemma vals_once (n : node) (e r i w : Z) :
  in_int64 i -> reach n ->
  Z.of_nat (val_sends n (e, r, next_round i, w)) <=
  Z.of_nat (invokes n (e, r, next_round i, w)) + one (full (n_core n) e r i).
Proof using All.
  intros Hi64 Hr. set (k := (e, r, next_round i, w)).
  assert (covered (fun c => Z.of_nat (inv_mark c k) + one (full c e r i)) (coin_weight e r i) (fun _ => 0)
    (sends_cost (is_val e r (next_round i) w)) n) as Hcov.
  { eapply (token_invariant chan_cap handle tstep (sys_env st) n0 (fun n => reach n)); [done| | | |exact Hr].
    - intros n2 ev t s' es Hr2 _ Hh. by apply (handled_pays n2 e r i w ev).
    - intros n2 t t' s' es Hr2 Hin Hs. by apply stepped_pays.
    - apply started_nothing; [done| |pose proof (one_range (full (n_core n0) e r i)); lia].
      intros [f to m|ch ev|t] Hx; cbn in *; try done. destruct m; try done. }
  unfold covered in Hcov. rewrite sends_cost_count, (sumZ_zero (fun _ => 0)) in Hcov by done.
  assert (0 <= sumZ (coin_weight e r i) (threads n)) as Hpos.
  { apply sumZ_nonneg. intros [e' n' t pc|e' r' pc]; cbn; [lia|]. destruct pc; cbn; try lia; apply one_range. }
  unfold val_sends, invokes. cbn. fold k. lia.
Qed.

Lemma full_fresh (ch : choice) (n n' : node) (e r i : Z) (k : Z * Z * Z * Z) :
  reach n -> node_step ch n = Next n' -> full (n_core n) e r i = false -> full (n_core n') e r i = true ->
  val_sends n' k = val_sends n k /\ invokes n' k = invokes n k.
Proof using All.
  intros Hr Hs Hf Hf'.
  assert (~ same_shares (n_core n) (n_core n')) as Hns.
  { intros Hsh. unfold full in *. rewrite Hsh in Hf'. congruence. }
  destruct (nstep_vals ch n n' k Hr Hs) as [Hv _]. by destruct Hv.
Qed.

(** A val sent beyond its invocation stays so. *)
Lemma extra_kept (ch : choice) (n n' : node) (k : Z * Z * Z * Z) :
  reach n -> node_step ch n = Next n' ->
  (invokes n k < val_sends n k)%nat -> (invokes n' k < val_sends n' k)%nat.
Proof using All. intros Hr Hs. destruct (nstep_vals ch n n' k Hr Hs) as [Hv _]. destruct Hv; lia. Qed.

Lemma newly_invoked (ch : choice) (n n' : node) (k : Z * Z * Z * Z) :
  reach n -> node_step ch n = Next n' -> invokes n k = 0%nat -> invokes n' k = 1%nat ->
  k.1.2 = 0 \/ LowThreshold com <= cval k.2 (aba_at (n_core n) k.1.1.1 k.1.1.2) k.1.2.
Proof using All. intros Hr Hs. destruct (nstep_vals ch n n' k Hr Hs) as [Hv _]. destruct Hv; [lia|done|lia]. Qed.

(** Finished with the inner round, a node goes to the next one with [w] only if it is
    flagged with [w], relays apart. *)
Definition settled (n : node) (e r i w : Z) : Prop :=
  i ∈ muxFinFlag (aba_at (n_core n) e r) /\
  ((val_sends n (e, r, next_round i, w) <= invokes n (e, r, next_round i, w))%nat \/
   flagged w (aba_at (n_core n) e r) i).

Lemma tossed_flag (l : NodeID) (e i coin : Z) : tossed srv l e i coin -> coin = FLAG_YES \/ coin = FLAG_NO.
Proof using.
  intros (shares & data & _ & ->). pose proof (Z.mod_pos_bound (seed_of uint64 data) 2 ltac:(lia)).
  unfold FLAG_YES, FLAG_NO. lia.
Qed.

Lemma settled_step (ch : choice) (n n' : node) (e r i w : Z) :
  in_int64 i -> reach n -> node_step ch n = Next n' -> settled n e r i w -> settled n' e r i w.
Proof using All.
  intros Hi64 Hr Hs [Hfin Hval]. destruct (reachable_facts st Hst Hids _ _ _ _ _ _ H0 n Hr) as [Hok [Hfa Hth]].
  assert (core_ok st (n_core n)) as Hc by apply Hok.
  destruct (nstep_vals ch n n' (e, r, next_round i, w) Hr Hs) as [Hvm Hgr].
  pose proof (aba_at_ok st _ e r Hc) as Haba. split; [by apply (al_fin _ _ (Hgr e r))|].
  destruct Hval as [Hval|Hfl]; [|right; by eapply flagged_mono].
  destruct Hvm as [H1 H2|H1 H2 H3 ? ?|i0 coin l H1 H2 ? Hin Hnx Hw]; [left; lia|left; lia|].
  right. eapply flagged_mono; [exact Haba|apply Hgr|]. cbn in *. rewrite Forall_forall in Hth.
  destruct (Hth _ Hin) as (s & Hsin & Hks & _ & Htoss).
  assert (i = i0) as <-.
  { apply next_round_inj; [done| |done]. apply (fa_heard _ _ _ _ Hfa _ Hsin). cbn. by injection Hks as _ _ ->. }
  destruct Hw as [[-> Hyn]|Ho]; [|by apply only_flagged]. rewrite (ao_fin _ _ _ _ Haba), elem_of_union in Hfin.
  destruct (tossed_flag _ _ _ _ Htoss) as [-> | ->]; [left|right]; (split; [done|]); tauto.
Qed.

End Started.
End Ledger.
