(* ===== verification/MvbaSystem.v ===== *)
(** * mvba: a committee of correct nodes

    The system of [System] with the nodes of mvba.  [transfer] is the gob encoding of a
    message: empty slices arrive as nil, and of the commitment that shares its slice with
    the sender the content at the time of encoding arrives, whatever it is.

    A [cluster] is a committee of 3f+1 nodes that hold shares of one group key.  This
    file relates what its nodes have handled to what they have emitted: everything
    handled was emitted, every message of stage two has a cause that was emitted before,
    all of an agreement name the leader of its round, and a round is opened when the one
    before it has halted with no. *)

From S2P Require Import Prelude GoStd Crypto Committee Store Pool Runtime Quorum Deliver Coin History System.
From S2P Require Import MvbaMessage MvbaAggreator MvbaElector MvbaCommitor MvbaInstance.
From S2P Require Import MvbaInvariant MvbaCore MvbaSafety MvbaHistory MvbaLedger.

Open Scope Z_scope.

#[local] Instance Proposal_eq_dec : EqDecision Proposal.
Proof. solve_decision. Defined.
#[local] Instance bool_slice_eq_dec : EqDecision bool_slice.
Proof. solve_decision. Defined.
#[local] Instance Commitment_eq_dec : EqDecision Commitment.
Proof. solve_decision. Defined.
#[local] Instance Ready_eq_dec : EqDecision Ready.
Proof. solve_decision. Defined.
#[local] Instance Final_eq_dec : EqDecision Final.
Proof. solve_decision. Defined.
#[local] Instance ElectShare_eq_dec : EqDecision ElectShare.
Proof. solve_decision. Defined.
#[local] Instance Vote_eq_dec : EqDecision Vote.
Proof. solve_decision. Defined.
#[local] Instance ABAVal_eq_dec : EqDecision ABAVal.
Proof. solve_decision. Defined.
#[local] Instance ABAMux_eq_dec : EqDecision ABAMux.
Proof. solve_decision. Defined.
#[local] Instance CoinShare_eq_dec : EqDecision CoinShare.
Proof. solve_decision. Defined.
#[local] Instance ABAHalt_eq_dec : EqDecision ABAHalt.
Proof. solve_decision. Defined.
#[local] Instance Message_eq_dec : EqDecision Message.
Proof. solve_decision. Defined.

(** ** Messages on the wire *)

(** A slice after encoding and decoding; [x] is what a slice of the core holds. *)
Definition gob_slice (x : list bool) (s : bool_slice) : bool_slice :=
  match s with
  | SNil => SNil
  | SVal l => match l with [] => SNil | _ => SVal l end
  | SFinals _ => match x with [] => SNil | _ => SVal x end
  end.

Definition transfer (x : list bool) (m : Message) : Message :=
  match m with
  | MProposal p =>
      MProposal (mkProposal (Proposal_Author p) (gob_norm <$> Proposal_B p) (Proposal_Epoch p) (Proposal_Signature p))
  | MCommitment p =>
      MCommitment (mkCommitment (Commitment_Author p) (gob_slice x (Commitment_C p)) (Commitment_Epoch p)
                     (Commitment_Signature p))
  | m => m
  end.

Lemma transfer_two (x : list bool) (m : Message) : stage_two m = true -> transfer x m = m.
Proof. by destruct m. Qed.

Lemma transfer_kind (f : Message -> bool) (x : list bool) (m : Message) :
  (forall m, f m = true -> stage_two m = true) -> f (transfer x m) = f m.
Proof.
  intros Hf. destruct m; try done; cbn.
  - destruct (f (MProposal _)) eqn:E1; [by apply Hf in E1|]. by destruct (f (MProposal p)) eqn:E2; [apply Hf in E2|].
  - destruct (f (MCommitment _)) eqn:E1; [by apply Hf in E1|]. by destruct (f (MCommitment p)) eqn:E2; [apply Hf in E2|].
Qed.

Lemma transfer_ok (com : Committee) (x : list bool) (m : Message) :
  msg_ok com m -> inner_ok m -> msg_ok com (transfer x m) /\ inner_ok (transfer x m).
Proof.
  intros (Ha & He & Hp) Hi. destruct m; try done; cbn in *; (split; [|done]); (split_and!; [done|done|]).
  intros q [= <-]. destruct (Hp p eq_refl) as [b Hb]. cbn. rewrite Hb. by eexists.
Qed.

Section System.
Context {E : Ed25519} {K : Kyber} {R : MathRand} {db : Type} `{HDB : DB db} {GB : GobBlock}.
Context `{!Ed25519Laws E} `{!KyberLaws K}.

Abbreviation core := (Core (db := db)).
Abbreviation node := (Node (Core := core) (Ev := Ev) (Msg := Message) (Thread := Thread)).
Abbreviation system := (System (Core := core) (Ev := Ev) (Msg := Message) (Thread := Thread)).

(** The committee, and what each node is started with. *)
Record cluster := mkCluster {
  k_com : Committee;
  k_srv : NodeID -> SigService;
  k_params : NodeID -> Parameters;
  k_store : NodeID -> Store db;
  k_pool : NodeID -> PoolParams.t;
  k_N : NodeID -> Z;
  k_Id : NodeID -> Z
}.

Definition at_node (k : cluster) (j : NodeID) : setting := mkSetting j (k_com k) (k_srv k j).

Definition boot_at (k : cluster) (j : NodeID) : core :=
  boot (at_node k j) (k_params k j) (k_store k j) (k_pool k j) (k_N k j) (k_Id k j).

(** Two nodes hold shares of the same group key. *)
Definition same_group (s1 s2 : SigService) : Prop :=
  SSK_PubPoly (ShareKey s2) = SSK_PubPoly (ShareKey s1) /\ SSK_T (ShareKey s2) = SSK_T (ShareKey s1) /\
  SSK_N (ShareKey s2) = SSK_N (ShareKey s1).

Record cluster_ok (k : cluster) : Prop := {
  ck_size : Committee_Size (k_com k) = 3 * max_faults (k_com k) + 1;
  ck_dense : dense (k_com k);
  ck_set : forall j, j ∈ members (k_com k) -> setting_ok (at_node k j);
  ck_key : forall i j, i ∈ members (k_com k) -> j ∈ members (k_com k) -> same_group (k_srv k i) (k_srv k j)
}.

(** Every member has executed [Run_start], and nothing was delivered. *)
Definition deployed_at (k : cluster) (s : system) : Prop :=
  dom (s_nodes s) = members (k_com k) /\ s_done s = ∅ /\
  forall j n, s_nodes s !! j = Some n -> started (boot_at k j) n.

Definition system_step := sstep chan_cap handle tstep EvMsg transfer (Core := core).
Definition system_run := srun chan_cap handle tstep EvMsg transfer (Core := core).
Definition system_reachable := sreachable chan_cap handle tstep EvMsg transfer (Core := core).

(** What the network delivers to a node of the cluster. *)
Definition cluster_env (k : cluster) : Ev -> Prop := sys_env (at_node k 0).

Section Cluster.
Context (k : cluster) (Hk : cluster_ok k) (s0 : system) (Hdep : deployed_at k s0).
Abbreviation com := (k_com k).

(** A message in the log of a node is well-formed. *)
Lemma log_inner (st : setting) (n : node) (f t : NodeID) (m : Message) :
  node_facts st n -> ESend f t m ∈ n_log n -> inner_ok m.
Proof using.
  intros [_ [Hfa _]] Hin. pose proof (fa_log _ _ _ _ Hfa) as Hlog. rewrite Forall_forall in Hlog.
  specialize (Hlog _ Hin). cbn in Hlog. destruct (stage_two m) eqn:Em; [|intros i Hi; by destruct m].
  destruct (Hlog eq_refl) as [_ Hs].
  assert (forall m0, heard_parent (n_hist n) m0 -> inner_ok m0) as Hpar.
  { intros m0 (m' & Hm' & Hp). eapply parent_inner; [exact Hp|]. by apply (fa_heard _ _ _ _ Hfa). }
  destruct m; try done; [by apply Hpar..|]. by apply Hpar, Hs.
Qed.

Lemma member_node (j : NodeID) (n : node) :
  s_nodes s0 !! j = Some n -> j ∈ members com /\ started (boot_at k j) n.
Proof using Hdep.
  intros Hn. destruct Hdep as (Hdom & _ & Hst). split; [|by apply Hst]. rewrite <-Hdom. apply elem_of_dom. eauto.
Qed.

(** What is known of a node that runs on its own. *)
Lemma member_facts (j : NodeID) (n0 n : node) :
  s_nodes s0 !! j = Some n0 -> node_reachable (cluster_env k) n0 n ->
  node_facts (at_node k j) n /\ sent_inv n /\ event_inv n.
Proof using All.
  intros H0 Hr. destruct (member_node j n0 H0) as [Hj Hst]. pose proof (ck_set _ Hk j Hj) as Hset.
  split_and!.
  - exact (reachable_facts (at_node k j) Hset (ck_dense _ Hk) _ _ _ _ _ n0 Hst n Hr).
  - eapply (mvba_reachable_ok (at_node k j) Hset (ck_dense _ Hk)); [exact Hst|].
    eapply reachable_mono; [|exact Hr]. by intros ev [? _].
  - destruct (started_facts (at_node k j) Hset (ck_dense _ Hk) _ _ _ _ _ n0 Hst) as (_ & _ & Hev & Hrecv & _).
    eapply (reachable_events chan_cap handle tstep (cluster_env k) n0 Hev); [by rewrite Hrecv|exact Hr].
Qed.

Lemma member_sends (j : NodeID) (n0 n : node) (f t : NodeID) (m : Message) (x : list bool) :
  s_nodes s0 !! j = Some n0 -> node_reachable (cluster_env k) n0 n -> (f, t, m) ∈ n_sent n ->
  cluster_env k (EvMsg (transfer x m)).
Proof using All.
  intros H0 Hr Hin. destruct (member_facts j n0 n H0 Hr) as (Hfa & Hsent & _).
  apply (sent_in_log n f t m Hsent) in Hin. pose proof (log_inner _ _ _ _ _ Hfa Hin) as Hi.
  pose proof Hfa as [((_ & _ & _ & Hlog) & _) _]. rewrite Forall_forall in Hlog. destruct (Hlog _ Hin) as (_ & Hown).
  destruct (member_node j n0 H0) as [Hj _].
  destruct (transfer_ok com x m (mvba_own_event _ _ _ Hj Hown) Hi) as [H1 H2].
  split; [by eexists|]. by intros m' [= <-].
Qed.

Lemma node_alone (s : system) (j : NodeID) (n : node) :
  system_reachable s0 s -> s_nodes s !! j = Some n ->
  exists n0, s_nodes s0 !! j = Some n0 /\ node_reachable (cluster_env k) n0 n.
Proof using All.
  intros Hr Hn. eapply (project chan_cap handle tstep EvMsg transfer (cluster_env k) s0); [|exact Hr|exact Hn].
  intros k' n0 n1 f t m x H0 Hr1 Hin. by eapply member_sends.
Qed.

(** ** What was emitted *)

(** Some node has said [m]. *)
Definition Emitted (s : system) (m : Message) : Prop :=
  exists j n f t, s_nodes s !! j = Some n /\ ESend f t m ∈ n_log n.

Lemma at_node_facts (s : system) (j : NodeID) (n : node) :
  system_reachable s0 s -> s_nodes s !! j = Some n ->
  j ∈ members com /\ node_facts (at_node k j) n /\ sent_inv n /\ event_inv n.
Proof using All.
  intros Hr Hn. destruct (node_alone s j n Hr Hn) as (n0 & H0 & Hr0).
  split; [by apply (member_node j n0)|]. by eapply member_facts.
Qed.

(** A message of stage two that a node sent to itself it also sent to the others. *)
Lemma pushed_sent (st : setting) (n : node) (ch : nat) (m : Message) :
  node_facts st n -> stage_two m = true -> EPush ch (EvMsg m) ∈ n_log n -> exists f t, ESend f t m ∈ n_log n.
Proof using All.
  intros [_ [Hfa _]] Hm Hin. set (f := fun m' => bool_decide (m' = m)).
  assert (forall m', f m' = true -> stage_two m' = true) as Hf by by intros m' ->%bool_decide_eq_true.
  pose proof (fa_pair _ _ _ _ Hfa f Hf) as Hp.
  assert (0 < pushes_of f (n_log n))%nat as Hpos.
  { unfold pushes_of. destruct (filter _ _) eqn:Ef; [|cbn; lia]. exfalso.
    assert (EvMsg m ∈ filter (fun ev => ev_is f ev = true) (pushes (n_log n))) as Hx.
    { apply list_elem_of_filter. split; [by apply bool_decide_eq_true|]. apply elem_of_pushes. eauto. }
    rewrite Ef in Hx. set_solver. }
  rewrite Hp in Hpos. unfold sends_of in Hpos. destruct (filter _ _) as [|x l] eqn:Ef; [cbn in Hpos; lia|].
  assert (x ∈ x :: l) as Hx by left. rewrite <-Ef in Hx. apply list_elem_of_filter in Hx as [Hx Hl].
  destruct x as [g t m'| |]; try done. apply bool_decide_eq_true in Hx as ->. eauto.
Qed.

(** Where a message that a node has handled, or is about to, comes from. *)
Lemma handled_from (s : system) (j : NodeID) (n : node) (m : Message) :
  system_reachable s0 s -> s_nodes s !! j = Some n -> EvMsg m ∈ n_hist n ++ queued n ->
  (exists j' n' f t m0 x, s_nodes s !! j' = Some n' /\ ESend f t m0 ∈ n_log n' /\ m = transfer x m0) \/
  exists ch, EPush ch (EvMsg m) ∈ n_log n.
Proof using All.
  intros Hr Hn Hin. destruct (at_node_facts s j n Hr Hn) as (_ & Hfa & _ & Hev).
  assert (EvMsg m ∈ n_recv n ++ pushes (n_log n)) as Hx.
  { unfold event_inv in Hev. rewrite <-Hev, (assoc (++)). apply elem_of_app. by left. }
  apply elem_of_app in Hx as [Hx|Hx]; [left|right; by apply elem_of_pushes].
  destruct Hdep as (_ & Hdone & Hst).
  assert (forall j n, s_nodes s0 !! j = Some n -> n_recv n = []) as Hrecv.
  { intros j' n' Hn'. destruct (Hst j' n' Hn') as (c & es & _ & ->). done. }
  destruct (deliveries chan_cap handle tstep EvMsg transfer s0 Hdone Hrecv s Hr j n Hn) as [_ Hf].
  apply list_elem_of_lookup in Hx as [i Hi]. destruct (Forall2_lookup_r _ _ _ _ _ Hf Hi) as (y & _ & Hd).
  destruct Hd as (nk & fr & to & m0 & x & Hnk & Hsent & _ & [= Heq]).
  exists y.1, nk, fr, to, m0, x. split_and!; [done| |done].
  destruct (at_node_facts s y.1 nk Hr Hnk) as (_ & _ & Hs & _).
  apply sent_in_log; [done|]. by eapply list_elem_of_lookup_2.
Qed.

(** What a node has handled, or is about to, was emitted. *)
Lemma handled_emitted (s : system) (j : NodeID) (n : node) (m : Message) :
  system_reachable s0 s -> s_nodes s !! j = Some n -> stage_two m = true ->
  EvMsg m ∈ n_hist n ++ queued n -> Emitted s m.
Proof using All.
  intros Hr Hn Hm Hin. destruct (handled_from s j n m Hr Hn Hin) as [(j' & n' & f & t & m0 & x & Hn' & Hl & Heq)|[ch Hx]].
  - assert (m = m0) as ->.
    { rewrite Heq. apply transfer_two. rewrite <-Hm, Heq. symmetry. by apply (transfer_kind stage_two). }
    by exists j', n', f, t.
  - destruct (at_node_facts s j n Hr Hn) as (_ & Hfa & _ & _).
    destruct (pushed_sent _ _ _ _ Hfa Hm Hx) as (f & t & He). by exists j, n, f, t.
Qed.

(** A node has handled at most as many messages of a kind as all have said. *)
Lemma heard_total (s : system) (j : NodeID) (n : node) (f : Message -> bool) :
  (forall m, f m = true -> stage_two m = true) -> system_reachable s0 s -> s_nodes s !! j = Some n ->
  heard_of f (n_hist n) <= Z.of_nat (total (fun n => sends_of f (n_log n)) (s_nodes s)).
Proof using All.
  intros Hf Hr Hn. destruct (at_node_facts s j n Hr Hn) as (_ & Hfa & _ & Hev). rewrite heard_of_count.
  destruct Hdep as (_ & Hdone & Hst).
  assert (forall j n, s_nodes s0 !! j = Some n -> n_recv n = []) as Hrecv.
  { intros j' n' Hn'. destruct (Hst j' n' Hn') as (c & es & _ & ->). done. }
  assert (forall n : node, emitted f n = sends_of f (n_log n)) as Hem by (intros n'; by rewrite sends_of_sends).
  pose proof (heard chan_cap handle tstep EvMsg transfer s0 Hdone Hrecv f (ev_is f) (fun m => eq_refl)
    (fun x m => transfer_kind f x m Hf) s j n Hr Hn Hev) as Hheard. rewrite Hem in Hheard.
  apply Nat2Z.inj_le. etrans; [apply Hheard|].
  - pose proof Hfa as [_ [Hfacts _]]. pose proof (fa_pair _ _ _ _ Hfacts f Hf) as Hp. unfold pushes_of in Hp. lia.
  - intros k' nk Hnk. destruct (at_node_facts s k' nk Hr Hnk) as (_ & [_ [Hfk _]] & Hs & _). split; [done|].
    intros fr to m Hin Hm. apply (sent_in_log nk fr to m Hs) in Hin.
    pose proof (fa_log _ _ _ _ Hfk) as Hlog. rewrite Forall_forall in Hlog. specialize (Hlog _ Hin). cbn in Hlog.
    by apply Hlog, Hf.
  - apply total_mono. intros k' n' _. by rewrite Hem.
Qed.

(** ** Causes *)

(** The leader of a round, as a quorum of shares of some member gives it. *)
Definition leads (e r : Z) (l : NodeID) : Prop :=
  exists j gen, j ∈ members com /\ elected com (k_srv k j) e gen /\ 0 <= r /\ gen !! Z.to_nat r = Some l.

(** The coin of an inner round came up [w], for the leader of a share that was sent. *)
Definition coin_up (s : system) (e r i w : Z) : Prop :=
  exists j x, j ∈ members com /\ Emitted s (MCoinShare x) /\ coin_key x = (e, r, i) /\
    tossed (k_srv k j) (CoinShare_Leader x) e i w.

(** A node is flagged with [w] alone, and the coin came up [w]. *)
Definition halted (s : system) (e r i w : Z) : Prop :=
  (exists j n, s_nodes s !! j = Some n /\ only w (aba_at (n_core n) e r) i) /\ coin_up s e r i w.

Lemma elected_agree (i j : NodeID) (e : Z) (g1 g2 : list NodeID) :
  i ∈ members com -> j ∈ members com -> elected com (k_srv k i) e g1 -> elected com (k_srv k j) e g2 -> g1 = g2.
Proof using All.
  intros Hi Hj (sh1 & d1 & H1 & ->) (sh2 & d2 & H2 & ->). destruct (ck_key _ Hk i j Hi Hj) as (P1 & P2 & P3).
  by rewrite (coins_agree _ _ _ _ _ _ _ P1 P2 P3 H1 H2).
Qed.

Lemma leads_agree (e r : Z) (l1 l2 : NodeID) : leads e r l1 -> leads e r l2 -> l1 = l2.
Proof using All.
  intros (i & g1 & Hi & H1 & _ & L1) (j & g2 & Hj & H2 & _ & L2).
  rewrite (elected_agree i j e g1 g2 Hi Hj H1 H2) in L1. congruence.
Qed.

Lemma tossed_agree (i j l : NodeID) (e r w1 w2 : Z) :
  i ∈ members com -> j ∈ members com -> tossed (k_srv k i) l e r w1 -> tossed (k_srv k j) l e r w2 -> w1 = w2.
Proof using All.
  intros Hi Hj (sh1 & d1 & H1 & ->) (sh2 & d2 & H2 & ->). destruct (ck_key _ Hk i j Hi Hj) as (P1 & P2 & P3).
  by rewrite (coins_agree _ _ _ _ _ _ _ P1 P2 P3 H1 H2).
Qed.

(** *** Steps *)

Lemma nstep_log (ch : choice) (n n' : node) : node_step ch n = Next n' -> n_log n `prefix_of` n_log n'.
Proof using.
  intros Hs. destruct (nstep_moves _ _ _ _ _ _ Hs) as ([? -> ? ?|? ? ? ? ? -> ? ?|? ? ? ? ? ? -> ? ?] & _ & _);
    [done|by apply prefix_app_r..].
Qed.

(** The node that moves, and that the others do not. *)
Lemma system_step_node (a : act) (s s' : system) :
  system_reachable s0 s -> system_step a s = Some s' ->
  exists j n n' ch, s_nodes s !! j = Some n /\ node_step ch n = Next n' /\ s_nodes s' = <[j := n']> (s_nodes s) /\
    s_nodes s' !! j = Some n' /\ system_reachable s0 s' /\
    exists n0, s_nodes s0 !! j = Some n0 /\ node_reachable (cluster_env k) n0 n /\ started (boot_at k j) n0 /\
      setting_ok (at_node k j).
Proof using All.
  intros Hr Hs. destruct (sstep_node _ _ _ _ _ a s s' Hs) as (j & n & n' & ch & Hn & Hc & Hnodes & _).
  destruct (node_alone s j n Hr Hn) as (n0 & H0 & Hr0). destruct (member_node j n0 H0) as [Hj Hst].
  exists j, n, n', ch. split_and!; [done|done|done|by rewrite Hnodes, lookup_insert_eq|by eapply sreach_step|].
  exists n0. split_and!; [done|done|done|by apply (ck_set _ Hk)].
Qed.

(** A node of the state after a step, and the state it was in before. *)
Lemma system_step_back (a : act) (s s' : system) (j : NodeID) (n' : node) :
  system_reachable s0 s -> system_step a s = Some s' -> s_nodes s' !! j = Some n' ->
  exists n, s_nodes s !! j = Some n /\ (n' = n \/ exists ch, node_step ch n = Next n').
Proof using All.
  intros Hr Hs Hn'. destruct (system_step_node a s s' Hr Hs) as (j1 & n1 & n1' & ch & Hn1 & Hc & Hnodes & _).
  rewrite Hnodes in Hn'. apply lookup_insert_Some in Hn' as [[<- <-]|[_ Hn']]; [|by exists n'; auto].
  exists n1. eauto.
Qed.

Lemma system_step_forth (a : act) (s s' : system) (j : NodeID) (n : node) :
  system_reachable s0 s -> system_step a s = Some s' -> s_nodes s !! j = Some n ->
  exists n', s_nodes s' !! j = Some n' /\ (n' = n \/ exists ch, node_step ch n = Next n').
Proof using All.
  intros Hr Hs Hn. destruct (system_step_node a s s' Hr Hs) as (j1 & n1 & n1' & ch & Hn1 & Hc & Hnodes & Hn1' & _).
  destruct (decide (j = j1)) as [->|Hne].
  - rewrite Hn1 in Hn. injection Hn as <-. exists n1'. eauto.
  - exists n. split; [|by left]. by rewrite Hnodes, lookup_insert_ne.
Qed.

Lemma emitted_step (a : act) (s s' : system) (m : Message) :
  system_reachable s0 s -> system_step a s = Some s' -> Emitted s m -> Emitted s' m.
Proof using All.
  intros Hr Hs (j & n & f & t & Hn & Hin). destruct (system_step_forth a s s' j n Hr Hs Hn) as (n' & Hn' & [->|[ch Hc]]).
  - exists j, n, f, t. done.
  - exists j, n', f, t. split; [done|]. destruct (nstep_log ch n n' Hc) as [l ->]. apply elem_of_app. by left.
Qed.

Lemma coin_up_step (a : act) (s s' : system) (e r i w : Z) :
  system_reachable s0 s -> system_step a s = Some s' -> coin_up s e r i w -> coin_up s' e r i w.
Proof using All. intros Hr Hs (j & x & Hj & Hx & H). exists j, x. split_and!; try apply H; [done|by eapply emitted_step]. Qed.

Lemma grows_step (s : system) (j : NodeID) (n n' : node) (ch : choice) :
  system_reachable s0 s -> s_nodes s !! j = Some n -> node_step ch n = Next n' -> grows (n_core n) (n_core n').
Proof using All.
  intros Hr Hn Hc. destruct (node_alone s j n Hr Hn) as (n0 & H0 & Hr0). destruct (member_node j n0 H0) as [Hj Hst].
  eapply (nstep_vals (at_node k j) (ck_set _ Hk j Hj) (ck_dense _ Hk) _ _ _ _ _ n0 Hst ch n n' (0, 0, 0, 0) Hr0 Hc).
Qed.

Lemma aba_ok_at (s : system) (j : NodeID) (n : node) (e r : Z) :
  system_reachable s0 s -> s_nodes s !! j = Some n -> aba_ok com e r (aba_at (n_core n) e r).
Proof using All.
  intros Hr Hn. destruct (at_node_facts s j n Hr Hn) as (_ & [Hok _] & _).
  apply (aba_at_ok (at_node k j)). apply Hok.
Qed.

Lemma halted_step (a : act) (s s' : system) (e r i w : Z) :
  system_reachable s0 s -> system_step a s = Some s' -> halted s e r i w -> halted s' e r i w.
Proof using All.
  intros Hr Hs [(j & n & Hn & Ho) Hc]. split; [|by eapply coin_up_step].
  destruct (system_step_forth a s s' j n Hr Hs Hn) as (n' & Hn' & [->|[ch Hch]]); [by exists j, n|].
  exists j, n'. split; [done|]. eapply (only_mono (at_node k j)); [by eapply aba_ok_at|by eapply grows_step|done].
Qed.

(** *** The first time a message is said *)

(** What was emitted before a message was said for the first time; [s'] is the state
    after. *)
Definition cause (s s' : system) (m : Message) : Prop :=
  match m with
  | MVote v =>
      (Vote_Leader v = NONE \/ leads (Vote_Epoch v) (Vote_Round v) (Vote_Leader v)) /\
      (Vote_Round v = 0 \/
       exists x, Emitted s (MABAHalt x) /\ ABAHalt_Flag x = FLAG_NO /\ ABAHalt_Epoch x = Vote_Epoch v /\
         Vote_Round v = next_round (ABAHalt_Round x))
  | _ => exists m', Emitted s m' /\ parent m' m
  end /\
  forall y, m = MABAHalt y ->
    halted s' (ABAHalt_Epoch y) (ABAHalt_Round y) (ABAHalt_InRound y) (ABAHalt_Flag y) \/
    exists x, Emitted s (MABAHalt x) /\ halt_key x = halt_key y.

Lemma parent_stage (m' m : Message) : parent m' m -> stage_two m' = true.
Proof using. by destruct m', m. Qed.

(** What a node has handled after a step was emitted before it. *)
Lemma step_heard (a : act) (s s' : system) (j : NodeID) (n' : node) (m : Message) :
  system_reachable s0 s -> system_step a s = Some s' -> s_nodes s' !! j = Some n' -> stage_two m = true ->
  EvMsg m ∈ n_hist n' -> Emitted s m.
Proof using All.
  intros Hr Hs Hn' Hm Hin. destruct (system_step_back a s s' j n' Hr Hs Hn') as (n & Hn & Hst).
  apply (handled_emitted s j n m Hr Hn Hm). destruct Hst as [-> |[ch Hst]]; [apply elem_of_app; by left|].
  destruct (nstep_moves _ _ _ _ _ _ Hst) as ([? _ Hh ?|ev t es ? Hq _ Hh ?|? ? ? ? ? ? _ Hh ?] & _ & _);
    rewrite Hh in Hin; [apply elem_of_app; by left| |apply elem_of_app; by left].
  apply elem_of_app in Hin as [Hin|Hin]; [apply elem_of_app; by left|].
  apply elem_of_app. right. apply list_elem_of_singleton in Hin as ->. done.
Qed.

Lemma said_cause (a : act) (s s' : system) (m : Message) :
  system_reachable s0 s -> system_step a s = Some s' -> stage_two m = true -> Emitted s' m -> cause s s' m.
Proof using All.
  intros Hr Hs Hm (j & n' & f & t & Hn' & Hin).
  assert (system_reachable s0 s') as Hr' by by eapply sreach_step.
  destruct (at_node_facts s' j n' Hr' Hn') as (Hj & [_ [Hfa _]] & _ & _).
  pose proof (fa_log _ _ _ _ Hfa) as Hlog. rewrite Forall_forall in Hlog. specialize (Hlog _ Hin). cbn in Hlog.
  destruct (Hlog Hm) as [_ Hsaid].
  pose proof (fun m H1 H2 => step_heard a s s' j n' m Hr Hs Hn' H1 H2) as Hh.
  assert (heard_parent (n_hist n') m -> exists m', Emitted s m' /\ parent m' m) as Hpar.
  { intros (m' & Hm' & Hp). exists m'. split; [|done]. apply Hh; [by eapply parent_stage|done]. }
  split.
  - destruct m as [| | | | |v| | | | |]; try done; try (by apply Hpar); [|by apply Hpar, Hsaid].
    destruct Hsaid as [Hl Hrd]. split.
    + destruct Hl as [Hl|(gen & He & H0 & Hg)]; [by left|right]. exists j, gen. done.
    + destruct Hrd as [Hz|(x & Hx & Hrest)]; [by left|right]. exists x. split; [by apply Hh|done].
  - intros y ->. destruct Hsaid as [_ [[Ho (x & Hx & Hkey & Ht)]|(x & Hx & Hkey)]].
    + left. split; [by exists j, n'|]. exists j, x. split_and!; [done| |done|done].
      apply (emitted_step a s s'); [done|done|]. by apply Hh.
    + right. exists x. split; [by apply Hh|done].
Qed.

(** ** Rounds and leaders *)

(** Runs in which every vote names a leader (a node that has not elected one votes for
    [NONE]) and in which epochs and inner rounds stay below the largest 64-bit
    integer. *)
Definition regular_msg (m : Message) : Prop :=
  msg_epoch m < last_epoch /\
  match m with
  | MVote v => Vote_Leader v <> NONE
  | MCoinShare x => CoinShare_InRound x < last_epoch
  | _ => True
  end.
Definition regular (s : system) : Prop := forall m, Emitted s m -> regular_msg m.

(** Round [r] of epoch [e] was opened after [d] rounds that halted with no. *)
Inductive opened (s : system) (e : Z) : nat -> Z -> Prop :=
| op_first : opened s e 0 0
| op_next d x : opened s e d (ABAHalt_Round x) -> Emitted s (MABAHalt x) -> ABAHalt_Flag x = FLAG_NO ->
    ABAHalt_Epoch x = e -> opened s e (S d) (next_round (ABAHalt_Round x)).

(** The epoch, the round and the leader of a message of stage two. *)
Definition place (m : Message) : Z * Z * NodeID :=
  match m with
  | MVote v => (Vote_Epoch v, Vote_Round v, Vote_Leader v)
  | MABAVal v => (ABAVal_Epoch v, ABAVal_Round v, ABAVal_Leader v)
  | MABAMux v => (ABAMux_Epoch v, ABAMux_Round v, ABAMux_Leader v)
  | MCoinShare v => (CoinShare_Epoch v, CoinShare_Round v, CoinShare_Leader v)
  | MABAHalt v => (ABAHalt_Epoch v, ABAHalt_Round v, ABAHalt_Leader v)
  | _ => (0, 0, 0)
  end.

Record placed (s : system) (m : Message) (e r : Z) (l : NodeID) : Prop := {
  pl_leads : leads e r l;
  pl_open : exists d, opened s e d r;
  pl_inner : forall i, inner m = Some i -> 0 <= i;
  pl_halted : forall y, m = MABAHalt y -> halted s e r (ABAHalt_InRound y) (ABAHalt_Flag y)
}.

Lemma parent_place (m' m : Message) : parent m' m -> place m = place m'.
Proof using. destruct m', m; cbn; try done; by intros (-> & -> & -> & _). Qed.

Lemma opened_det (s : system) (e : Z) (d : nat) (r1 r2 : Z) : opened s e d r1 -> opened s e d r2 -> r1 = r2.
Proof using.
  intros H. revert r2. induction H as [|d x H IH]; intros r2 Ho; inversion Ho; subst; [done|]. by erewrite IH.
Qed.

(** An earlier round of an open one has halted with no. *)
Lemma opened_before (s : system) (e : Z) (d d' : nat) (r : Z) :
  opened s e d r -> (d' < d)%nat ->
  exists x, Emitted s (MABAHalt x) /\ ABAHalt_Flag x = FLAG_NO /\ ABAHalt_Epoch x = e /\ opened s e d' (ABAHalt_Round x).
Proof using.
  induction 1 as [|d x H IH Hx Hf He]; intros Hlt; [lia|]. destruct (decide (d' = d)) as [-> |Hne]; [by exists x|].
  apply IH. lia.
Qed.

Lemma regular_step (a : act) (s s' : system) :
  system_reachable s0 s -> system_step a s = Some s' -> regular s' -> regular s.
Proof using All. intros Hr Hs Hreg m Hm. by eapply Hreg, emitted_step. Qed.

Lemma opened_step (a : act) (s s' : system) (e : Z) (d : nat) (r : Z) :
  system_reachable s0 s -> system_step a s = Some s' -> opened s e d r -> opened s' e d r.
Proof using All.
  intros Hr Hs. induction 1 as [|d x H IH Hx Hf He]; [constructor|].
  apply op_next; [done| |done|done]. by eapply emitted_step.
Qed.

Lemma placed_parent (a : act) (s s' : system) (m' m : Message) (e r : Z) (l : NodeID) :
  system_reachable s0 s -> system_step a s = Some s' -> regular_msg m' -> parent m' m ->
  (forall y, m = MABAHalt y -> halted s' e r (ABAHalt_InRound y) (ABAHalt_Flag y)) ->
  placed s m' e r l -> placed s' m e r l.
Proof using All.
  intros Hr Hs Hreg Hp Hh [Hl [d Ho] Hi _]. split; [done|exists d; by eapply opened_step| |done].
  intros i Hm. destruct m', m; cbn in Hp; try done; cbn in Hm; injection Hm as <-;
    destruct Hp as (_ & _ & _ & ->); try (by apply Hi); [lia|]. destruct Hreg as [_ Hreg]. cbn in *. specialize (Hi _ eq_refl).
  unfold next_round. rewrite int64_next; [lia| |]; unfold in_int64, last_epoch in *; lia.
Qed.

(** Nothing of stage two was said before anything was handled. *)
Lemma nothing_emitted (m : Message) : stage_two m = true -> ~ Emitted s0 m.
Proof using All.
  intros Hm (j & n & f & t & Hn & Hin). destruct (member_node j n Hn) as [Hj Hst].
  destruct (started_facts (at_node k j) (ck_set _ Hk j Hj) (ck_dense _ Hk) _ _ _ _ _ n Hst)
    as (_ & _ & _ & _ & _ & _ & Hq & _). rewrite Forall_forall in Hq. specialize (Hq _ Hin). cbn in Hq. congruence.
Qed.

Lemma emitted_placed (s : system) (m : Message) (e r : Z) (l : NodeID) :
  system_reachable s0 s -> regular s -> stage_two m = true -> Emitted s m -> place m = (e, r, l) -> placed s m e r l.
Proof using All.
  intros Hr. revert m e r l. induction Hr as [|s s' a Hr IH Hs]; intros m e r l Hreg Hm He Hp;
    [by apply nothing_emitted in He|].
  pose proof (regular_step a s s' Hr Hs Hreg) as Hreg0.
  destruct (said_cause a s s' m Hr Hs Hm He) as [Hc Hh].
  assert ((forall y, m = MABAHalt y -> halted s' e r (ABAHalt_InRound y) (ABAHalt_Flag y)) ->
    (exists m', Emitted s m' /\ parent m' m) -> placed s' m e r l) as Hmade.
  { intros Hhalt (m' & Hm' & Hpar). eapply placed_parent; [done|exact Hs|by apply Hreg0|exact Hpar|done|].
    apply IH; [done|by eapply parent_stage|done|]. by rewrite <-(parent_place _ _ Hpar). }
  destruct m as [| | | | |v| | | | |]; try done; [|by apply Hmade..|].
  - injection Hp as <- <- <-. destruct Hc as [Hl Ho]. split; try done.
    + destruct Hl as [Hl|Hl]; [|done]. destruct (Hreg _ He) as [_ Hv]. by destruct Hv.
    + destruct Ho as [-> |(x & Hx & Hf & <- & ->)]; [exists 0%nat; constructor|].
      destruct (pl_open _ _ _ _ _ (IH (MABAHalt x) _ _ _ Hreg0 eq_refl Hx eq_refl)) as [d Hd].
      exists (S d). apply op_next; [by eapply opened_step|by eapply emitted_step|done|done].
  - apply Hmade; [|done]. intros y [= <-]. injection Hp as <- <- <-.
    destruct (Hh _ eq_refl) as [Hh1|(x & Hx & Hkey)]; [done|].
    eapply halted_step; [done|exact Hs|]. injection Hkey as <- <- <- <- _.
    by apply (pl_halted _ _ _ _ _ (IH (MABAHalt x) _ _ _ Hreg0 eq_refl Hx eq_refl)).
Qed.

(** A node has run on its own from where it started. *)
Lemma node_run (s : system) (j : NodeID) (n : node) :
  system_reachable s0 s -> s_nodes s !! j = Some n ->
  exists n0, setting_ok (at_node k j) /\ started (boot_at k j) n0 /\ node_reachable (sys_env (at_node k j)) n0 n.
Proof using All.
  intros Hr Hn. destruct (node_alone s j n Hr Hn) as (n0 & H0 & Hr0). destruct (member_node j n0 H0) as [Hj Hst].
  exists n0. split_and!; [by apply (ck_set _ Hk)|done|exact Hr0].
Qed.

End Cluster.
End System.
