(* ===== verification/Wire.v ===== *)
(** * The messages of the protocols on the wire

    The network code serves four protocols, each of which gives it a map from type
    numbers to message types (DefaultMessageTypeMap in the message.go of its package).
    This file discharges the interface [Wire] of [Network] for each of them and proves
    against the interface what a receiver delivers of what the peers have written.  Gob
    omits empty slices: the block of a proposal, and in mvba the bits of a commitment,
    may arrive with nil for an empty slice, all other messages arrive as they are. *)

From S2P Require Import Prelude GoStd Crypto Committee Pool Network.
From S2P Require Import SmvbaMessage MercuryMessage VabaMessage MvbaMessage MvbaSystem.

Open Scope Z_scope.

(** ** The four packages *)

(** A message is a pointer; a nil one has a type and no contents. *)
Definition smvba_arrived (m : SmvbaMessage.Message) : SmvbaMessage.Message :=
  match m with
  | SmvbaMessage.MSPBProposal (SmvbaMessage.mkSPBProposal a b e r ph sig) =>
      SmvbaMessage.MSPBProposal (SmvbaMessage.mkSPBProposal a (SmvbaMessage.gob_norm <$> b) e r ph sig)
  | m => m
  end.
#[export] Instance smvba_wire : Wire SmvbaMessage.Message := {
  wire_types := SmvbaMessage.DefaultMessageTypes;
  wire_MsgType := SmvbaMessage.MsgType;
  wire_ok m := forall t, m <> SmvbaMessage.MNil t;
  wire_arrived := smvba_arrived
}.

Definition mercury_arrived (m : MercuryMessage.Message) : MercuryMessage.Message :=
  match m with
  | MercuryMessage.MSPBProposal (MercuryMessage.mkSPBProposal a b e r ph sig) =>
      MercuryMessage.MSPBProposal (MercuryMessage.mkSPBProposal a (MercuryMessage.gob_norm <$> b) e r ph sig)
  | m => m
  end.
#[export] Instance mercury_wire : Wire MercuryMessage.Message := {
  wire_types := MercuryMessage.DefaultMessageTypes;
  wire_MsgType := MercuryMessage.MsgType;
  wire_ok m := forall t, m <> MercuryMessage.MNil t;
  wire_arrived := mercury_arrived
}.

Definition vaba_arrived (m : VabaMessage.Message) : VabaMessage.Message :=
  match m with
  | VabaMessage.MProposal (VabaMessage.mkProposal a e ph b sig) =>
      VabaMessage.MProposal (VabaMessage.mkProposal a e ph (VabaMessage.gob_norm <$> b) sig)
  | m => m
  end.
#[export] Instance vaba_wire : Wire VabaMessage.Message := {
  wire_types := VabaMessage.DefaultMessageTypes;
  wire_MsgType := VabaMessage.MsgType;
  wire_ok m := forall t, m <> VabaMessage.MNil t;
  wire_arrived := vaba_arrived
}.

(** A commitment of mvba may share its bits with the core that made it; what is encoded
    of it are the bits at that time, so that the encoder is given values only. *)
Definition mvba_value (m : MvbaMessage.Message) : Prop :=
  (forall t, m <> MvbaMessage.MNil t) /\
  (forall p e, m = MvbaMessage.MCommitment p -> MvbaMessage.Commitment_C p <> MvbaMessage.SFinals e).
#[export] Instance mvba_wire : Wire MvbaMessage.Message := {
  wire_types := MvbaMessage.DefaultMessageTypes;
  wire_MsgType := MvbaMessage.MsgType;
  wire_ok := mvba_value;
  wire_arrived := MvbaSystem.transfer []
}.

(** Every type of message is in the package's map. *)
#[export] Instance smvba_wire_laws : WireLaws SmvbaMessage.Message.
Proof. intros [] Hm; try by (apply (bool_decide_eq_true_1 _); vm_compute). by destruct (Hm t). Qed.
#[export] Instance mercury_wire_laws : WireLaws MercuryMessage.Message.
Proof. intros [] Hm; try by (apply (bool_decide_eq_true_1 _); vm_compute). by destruct (Hm t). Qed.
#[export] Instance vaba_wire_laws : WireLaws VabaMessage.Message.
Proof. intros [] Hm; try by (apply (bool_decide_eq_true_1 _); vm_compute). by destruct (Hm t). Qed.
#[export] Instance mvba_wire_laws : WireLaws MvbaMessage.Message.
Proof. intros [] [Hm _]; try by (apply (bool_decide_eq_true_1 _); vm_compute). by destruct (Hm t). Qed.

(** ** What a receiver delivers *)

(** C29. What the peers of a node write, the node's receiver delivers.  For each of the four
    protocols: when the address can be bound and each connection carries the encoding of
    messages that are not nil, each connection's goroutine puts exactly these messages on
    the channel, in the order they were written and each as gob decodes it (an empty slice
    of transactions or bits as nil, everything else unchanged), and ends at the end of the
    stream; calls of Accept that fail are skipped. *)
Theorem receiver_delivers {Msg : Type} `{WireLaws Msg} (gob_into : Z -> Msg -> option Msg)
    (peers : list (option (list Msg))) (fuel : nat) :
  gob_decodes gob_into ->
  Forall (fun p => Forall wire_ok (default [] p) /\ (length (default [] p) < fuel)%nat) peers ->
  Receiver_Run wire_types gob_into true fuel
    (map (option_map (fun ms => write_all wire_MsgType ms [])) peers) =
  Ret (map (map wire_arrived) (omap (fun p => p) peers)).
Proof.
  intros Hgob Hp. apply accept_all_delivers. eapply Forall_impl; [exact Hp|]. intros p [Hms Hl].
  split; [|done]. eapply Forall_impl; [exact Hms|]. intros m Hm. split; [by apply wire_registered|by apply Hgob].
Qed.

(** ** Witness *)

(** A decoder for smvba with the promised behaviour, and a connection with a vote and a
    proposal of a block whose slice of transactions is empty. *)
Definition toy_gob_into (t : Z) (m : SmvbaMessage.Message) : option SmvbaMessage.Message :=
  if t =? SmvbaMessage.MsgType m then Some (smvba_arrived m) else None.
Definition toy_vote : SmvbaMessage.Message :=
  SmvbaMessage.MSPBVote (SmvbaMessage.mkSPBVote 1 2 [] 0 0 0 (mkSignature [])).
Definition toy_empty (txs : option (list Transaction)) : SmvbaMessage.Message :=
  SmvbaMessage.MSPBProposal
    (SmvbaMessage.mkSPBProposal 2 (Some (SmvbaMessage.mkBlock 2 (mkBatch 7 txs) 0)) 0 0 0 (mkSignature [])).

Definition toy_peers : list (option (list SmvbaMessage.Message)) :=
  [Some [toy_vote; toy_empty (Some [])]; None; Some [toy_vote]].

Lemma receiver_delivers_witness :
  Receiver_Run SmvbaMessage.DefaultMessageTypes toy_gob_into true 3
    (map (option_map (fun ms => write_all SmvbaMessage.MsgType ms [])) toy_peers) =
  Ret [[toy_vote; toy_empty None]; [toy_vote]].
Proof.
  etrans; [refine (receiver_delivers toy_gob_into toy_peers 3 _ _)|reflexivity].
  - intros m _. unfold toy_gob_into. cbn [wire_MsgType smvba_wire]. by rewrite Z.eqb_refl.
  - repeat constructor; cbn; try lia; discriminate.
Defined.
