(* ===== verification/MvbaAgreement.v ===== *)
(** * mvba: a binary agreement agrees

    For a committee of correct nodes, in every reachable state: what the halts of a round
    say is one value, whatever inner rounds they come from.

    Two counts carry the argument.  A node whose coin of an inner round is tossed knows a
    quorum of members that have finished the round ([finished_quorum]): from then on each
    of these goes to the next round with a value it is flagged with.  And a value that is
    relayed into an inner round was brought there by [LowThreshold] members
    ([relayed_brought]).  After an inner round halted with [v], nobody brings the other
    value to the next one ([lock_first]), and in later ones at most [max_faults] members
    do ([lock_later]). *)

From S2P Require Import Prelude GoStd Crypto Committee Store Pool Runtime Quorum Deliver Coin History System.
From S2P Require Import MvbaMessage MvbaAggreator MvbaElector MvbaCommitor MvbaInstance MvbaInvariant.
From S2P Require Import MvbaCore MvbaSafety MvbaHistory MvbaLedger MvbaSystem.

Open Scope Z_scope.

Section Agreement.
Context {E : Ed25519} {K : Kyber} {R : MathRand} {db : Type} `{HDB : DB db} {GB : GobBlock}.
Context `{!Ed25519Laws E} `{!KyberLaws K}.

Abbreviation core := (Core (db := db)).
Abbreviation node := (Node (Core := core) (Ev := Ev) (Msg := Message) (Thread := Thread)).
Abbreviation system := (System (Core := core) (Ev := Ev) (Msg := Message) (Thread := Thread)).

Context (k : cluster) (Hk : cluster_ok k) (s0 : system) (Hdep : deployed_at k s0).
Abbreviation com := (k_com k).
Abbreviation sreach := (system_reachable s0).
Abbreviation faults := (max_faults com).

(** ** Counters, sent messages and members *)

Lemma sys_dom (s : system) : sreach s -> dom (s_nodes s) = members com.
Proof using All. intros Hr. rewrite (project_dom _ _ _ _ _ s0 s Hr). apply Hdep. Qed.

Lemma sys_members (s : system) (p : node -> bool) : sreach s -> holders p (s_nodes s) ⊆ members com.
Proof using All. intros Hr. rewrite <-(sys_dom s Hr). apply holders_dom. Qed.

Lemma is_mux_for_stage (e r i w : Z) (m : Message) : is_mux_for e r i w m = true -> stage_two m = true.
Proof using. by destruct m. Qed.
Lemma is_coin_stage (e r i : Z) (m : Message) : is_coin e r i m = true -> stage_two m = true.
Proof using. by destruct m. Qed.

Lemma cval_total (s : system) (j : NodeID) (n : node) (e r i w : Z) :
  sreach s -> s_nodes s !! j = Some n ->
  cval w (aba_at (n_core n) e r) i <= Z.of_nat (total (fun n => val_sends n (e, r, i, w)) (s_nodes s)).
Proof using All.
  intros Hr Hn. destruct (node_run k Hk s0 Hdep s j n Hr Hn) as (n0 & Hset & Hst & Hr0).
  etrans; [apply (counted _ Hset (ck_dense _ Hk) _ _ _ _ _ n0 Hst n e r i w Hr0)|].
  apply (heard_total k Hk s0 Hdep s j n); [apply is_val_stage|done|done].
Qed.

Lemma cmux_total (s : system) (j : NodeID) (n : node) (e r i w : Z) :
  sreach s -> s_nodes s !! j = Some n ->
  cmux w (aba_at (n_core n) e r) i <= Z.of_nat (total (fun n => sends_of (is_mux_for e r i w) (n_log n)) (s_nodes s)).
Proof using All.
  intros Hr Hn. destruct (node_run k Hk s0 Hdep s j n Hr Hn) as (n0 & Hset & Hst & Hr0).
  etrans; [apply (counted _ Hset (ck_dense _ Hk) _ _ _ _ _ n0 Hst n e r i w Hr0)|].
  apply (heard_total k Hk s0 Hdep s j n); [apply is_mux_for_stage|done|done].
Qed.

Lemma shares_total (s : system) (j : NodeID) (n : node) (e r i : Z) :
  sreach s -> s_nodes s !! j = Some n ->
  Z.of_nat (length (shares_at (n_core n) e r i)) <=
  Z.of_nat (total (fun n => sends_of (is_coin e r i) (n_log n)) (s_nodes s)).
Proof using All.
  intros Hr Hn. destruct (node_run k Hk s0 Hdep s j n Hr Hn) as (n0 & Hset & Hst & Hr0).
  etrans; [apply (shares_heard _ Hset (ck_dense _ Hk) _ _ _ _ _ n0 Hst n e r i Hr0)|].
  apply (heard_total k Hk s0 Hdep s j n); [apply is_coin_stage|done|done].
Qed.

(** A node sends one share of a coin, when it finishes the inner round, and one mux. *)
Lemma marks_at (c : core) (e r i : Z) :
  fin_mark c e r i = mark (muxFinFlag (aba_at c e r)) i /\ mux_mark c e r i = mark (muxFlag (aba_at c e r)) i.
Proof using.
  unfold fin_mark, mux_mark, aba_at. destruct (lookup2 _ _ _); [done|]. cbn. unfold mark.
  by rewrite (decide_False (P := i ∈ ∅)) by apply not_elem_of_empty.
Qed.

Lemma share_once (s : system) (j : NodeID) (n : node) (e r i : Z) :
  sreach s -> s_nodes s !! j = Some n ->
  sends_of (is_coin e r i) (n_log n) = mark (muxFinFlag (aba_at (n_core n) e r)) i /\
  sends_of (is_mux e r i) (n_log n) = mark (muxFlag (aba_at (n_core n) e r)) i.
Proof using All.
  intros Hr Hn. destruct (at_node_facts k Hk s0 Hdep s j n Hr Hn) as (_ & [((_ & Hc & Hm & _) & _) _] & _).
  destruct (marks_at (n_core n) e r i) as [<- <-]. split; [apply Hc|apply Hm].
Qed.

(** ** The quorum that finished an inner round *)

Definition all_settled (s : system) (e r i : Z) (D : gset NodeID) : Prop :=
  forall j, j ∈ D -> exists n, s_nodes s !! j = Some n /\ forall w, settled n e r i w.

(** The members whose coin of the inner round was tossed. *)
Definition tossers (s : system) (e r i : Z) : gset NodeID :=
  holders (fun n => full (at_node k 0) (n_core n) e r i) (s_nodes s).

Lemma step_reach (a : act) (s s' : system) : sreach s -> system_step a s = Some s' -> sreach s'.
Proof using. intros Hr Hs. by eapply sreach_step. Qed.

Lemma settled_sys (a : act) (s s' : system) (e r i : Z) (D : gset NodeID) :
  in_int64 i -> sreach s -> system_step a s = Some s' -> all_settled s e r i D -> all_settled s' e r i D.
Proof using All.
  intros Hi Hr Hs HD j Hj. destruct (HD j Hj) as (n & Hn & Hset).
  destruct (system_step_forth k Hk s0 Hdep a s s' j n Hr Hs Hn) as (n' & Hn' & [-> |[ch Hc]]); [by exists n|].
  exists n'. split; [done|]. intros w. destruct (node_run k Hk s0 Hdep s j n Hr Hn) as (n0 & Hok & Hst & Hr0).
  exact (settled_step _ Hok (ck_dense _ Hk) _ _ _ _ _ n0 Hst ch n n' e r i w Hi Hr0 Hc (Hset w)).
Qed.

(** When no coin was tossed before the step, nobody has gone on to the next inner round
    because of it. *)
Lemma not_gone_on (a : act) (s s' : system) (j : NodeID) (n' : node) (e r i w : Z) :
  in_int64 i -> sreach s -> system_step a s = Some s' -> tossers s e r i = ∅ -> s_nodes s' !! j = Some n' ->
  (val_sends n' (e, r, next_round i, w) <= invokes n' (e, r, next_round i, w))%nat.
Proof using All.
  intros Hi Hr Hs Hnf Hn'. destruct (system_step_back k Hk s0 Hdep a s s' j n' Hr Hs Hn') as (n & Hn & Hstep).
  destruct (node_run k Hk s0 Hdep s j n Hr Hn) as (n0 & Hok & Hst & Hr0).
  destruct (full (at_node k j) (n_core n) e r i) eqn:Hf; [|clear Hnf].
  { assert (j ∈ tossers s e r i) as Hin by (apply elem_of_holders; by exists n). rewrite Hnf in Hin. set_solver. }
  pose proof (vals_once _ Hok (ck_dense _ Hk) _ _ _ _ _ n0 Hst n e r i w Hi Hr0) as Hv. rewrite Hf in Hv. cbn in Hv.
  destruct Hstep as [-> |[ch Hc]]; [lia|].
  destruct (full (at_node k j) (n_core n') e r i) eqn:Hf'.
  - destruct (full_fresh _ Hok (ck_dense _ Hk) _ _ _ _ _ n0 Hst ch n n' e r i (e, r, next_round i, w) Hr0 Hc Hf Hf'). lia.
  - destruct (node_run k Hk s0 Hdep s' j n' (step_reach a s s' Hr Hs) Hn') as (n1 & _ & Hst1 & Hr1).
    pose proof (vals_once _ Hok (ck_dense _ Hk) _ _ _ _ _ n1 Hst1 n' e r i w Hi Hr1) as Hv'. rewrite Hf' in Hv'.
    cbn in Hv'. lia.
Qed.

Lemma finished_quorum (s : system) (e r i : Z) :
  in_int64 i -> sreach s -> tossers s e r i <> ∅ ->
  exists D, D ⊆ members com /\ HightThreshold com <= Z.of_nat (size D) /\ all_settled s e r i D.
Proof using All.
  intros Hi Hr. induction Hr as [|s s' a Hr IH Hs]; intros Hne;
    apply set_choose_L in Hne as [j (n' & Hn' & Hf)%elem_of_holders].
  { apply Z.leb_le in Hf. destruct (member_node k s0 Hdep j n' Hn') as [Hj Hst].
    pose proof (shares_heard _ (ck_set _ Hk j Hj) (ck_dense _ Hk) _ _ _ _ _ n' Hst n' e r i (reach_init _ _ _ _ _)) as Hsh.
    destruct (started_facts _ (ck_set _ Hk j Hj) (ck_dense _ Hk) _ _ _ _ _ n' Hst) as (_ & _ & _ & _ & Hh & _).
    rewrite Hh in Hsh. cbn in Hsh, Hf. pose proof (thresholds_pos com). lia. }
  destruct (decide (tossers s e r i = ∅)) as [Hnew|Hold]; cycle 1.
  { destruct (IH Hold) as (D & HD & Hsz & Hall). exists D. split_and!; [done|done|by eapply settled_sys]. }
  pose proof (step_reach a s s' Hr Hs) as Hr'. set (p := fun n : node => bool_decide (i ∈ muxFinFlag (aba_at (n_core n) e r))).
  exists (holders p (s_nodes s')). split_and!; [by apply sys_members| |].
  - apply Z.leb_le in Hf. cbn in Hf. etrans; [exact Hf|]. etrans; [apply (shares_total s' j n' e r i Hr' Hn')|].
    apply Nat2Z.inj_le, total_le_holders. intros j1 n1 Hn1.
    destruct (share_once s' j1 n1 e r i Hr' Hn1) as [-> _]. unfold mark, p.
    case_decide; [by rewrite bool_decide_true|]. apply Nat.le_0_l.
  - intros j1 (n1 & Hn1 & Hp)%elem_of_holders. apply bool_decide_eq_true in Hp. exists n1. split; [done|].
    intros w. split; [done|]. left. exact (not_gone_on a s s' j1 n1 e r i w Hi Hr Hs Hnew Hn1).
Qed.

(** ** Values that are brought to an inner round *)

(** The members that sent the val beyond relaying it. *)
Definition bringers (s : system) (q : Z * Z * Z * Z) : gset NodeID :=
  holders (fun n => bool_decide (invokes n q < val_sends n q)%nat) (s_nodes s).
Definition relayers (s : system) (q : Z * Z * Z * Z) : gset NodeID :=
  holders (fun n => bool_decide (0 < invokes n q)%nat) (s_nodes s).

Lemma bringers_step (a : act) (s s' : system) (q : Z * Z * Z * Z) :
  sreach s -> system_step a s = Some s' -> bringers s q ⊆ bringers s' q.
Proof using All.
  intros Hr Hs j (n & Hn & Hp)%elem_of_holders. apply bool_decide_eq_true in Hp. apply elem_of_holders.
  destruct (system_step_forth k Hk s0 Hdep a s s' j n Hr Hs Hn) as (n' & Hn' & [-> |[ch Hc]]).
  { exists n. split; [done|]. by apply bool_decide_eq_true. }
  destruct (node_run k Hk s0 Hdep s j n Hr Hn) as (n0 & Hok & Hst & Hr0). exists n'. split; [done|].
  apply bool_decide_eq_true. exact (extra_kept _ Hok (ck_dense _ Hk) _ _ _ _ _ n0 Hst ch n n' q Hr0 Hc Hp).
Qed.

(** With no relays, everyone who sent the val brought it, and sent it once. *)
Lemma vals_brought (s : system) (e r i w : Z) :
  in_int64 i -> sreach s -> relayers s (e, r, next_round i, w) = ∅ ->
  (total (fun n => val_sends n (e, r, next_round i, w)) (s_nodes s) <= size (bringers s (e, r, next_round i, w)))%nat.
Proof using All.
  intros Hi Hr Hno. apply total_le_holders. intros j n Hn.
  destruct (node_run k Hk s0 Hdep s j n Hr Hn) as (n0 & Hok & Hst & Hr0).
  pose proof (vals_once _ Hok (ck_dense _ Hk) _ _ _ _ _ n0 Hst n e r i w Hi Hr0) as Hv.
  pose proof (one_range (full (at_node k j) (n_core n) e r i)).
  destruct (decide (0 < invokes n (e, r, next_round i, w))%nat) as [Hin|Hin].
  { assert (j ∈ relayers s (e, r, next_round i, w)) as Hj.
    { apply elem_of_holders. exists n. split; [done|]. by apply bool_decide_eq_true. }
    rewrite Hno in Hj. set_solver. }
  destruct (val_sends n (e, r, next_round i, w)) as [|[|v]]; [apply Nat.le_0_l| |lia].
  rewrite bool_decide_true by lia. done.
Qed.

Lemma relayed_brought (s : system) (e r i w : Z) :
  0 <= i < last_epoch -> sreach s -> relayers s (e, r, next_round i, w) <> ∅ ->
  LowThreshold com <= Z.of_nat (size (bringers s (e, r, next_round i, w))).
Proof using All.
  intros Hi Hr. assert (in_int64 i) as Hi64 by (unfold in_int64, last_epoch in *; lia).
  assert (next_round i <> 0) as Hnz by (unfold next_round; rewrite int64_next; [lia|done|lia]).
  set (q := (e, r, next_round i, w)). induction Hr as [|s s' a Hr IH Hs]; intros Hne.
  { apply set_choose_L in Hne as [j (n & Hn & Hp)%elem_of_holders]. apply bool_decide_eq_true in Hp.
    destruct (member_node k s0 Hdep j n Hn) as [Hj Hst].
    destruct (started_facts _ (ck_set _ Hk j Hj) (ck_dense _ Hk) _ _ _ _ _ n Hst) as (_ & _ & _ & _ & _ & Hsame & _).
    unfold invokes, inv_mark in Hp. rewrite (st_invoke _ _ Hsame) in Hp. case_decide; [set_solver|lia]. }
  etrans; [|apply Nat2Z.inj_le, subseteq_size, (bringers_step a s s' q Hr Hs)].
  destruct (decide (relayers s q = ∅)) as [Hnew|Hold]; [|by apply IH].
  apply set_choose_L in Hne as [j (n' & Hn' & Hp)%elem_of_holders]. apply bool_decide_eq_true in Hp.
  destruct (system_step_back k Hk s0 Hdep a s s' j n' Hr Hs Hn') as (n & Hn & Hstep).
  destruct (decide (0 < invokes n q)%nat) as [Hq|Hq].
  { assert (j ∈ relayers s q) as Hj by (apply elem_of_holders; exists n; split; [done|by apply bool_decide_eq_true]).
    rewrite Hnew in Hj. set_solver. }
  destruct Hstep as [-> |[ch Hc]]; [lia|]. destruct (node_run k Hk s0 Hdep s j n Hr Hn) as (n0 & Hok & Hst & Hr0).
  assert (invokes n' q = 1%nat) as Hone by (revert Hp; unfold invokes, inv_mark; case_decide; lia).
  destruct (newly_invoked _ Hok (ck_dense _ Hk) _ _ _ _ _ n0 Hst ch n n' q Hr0 Hc ltac:(lia) Hone) as [?|Hlow]; [done|].
  etrans; [exact Hlow|]. etrans; [apply (cval_total s j n e r _ _ Hr Hn)|]. by apply Nat2Z.inj_le, vals_brought.
Qed.

(** ** The lock *)

Lemma mux_split (e r i w1 w2 : Z) (l : list effect) :
  w1 <> w2 ->
  (sends_of (is_mux_for e r i w1) l + sends_of (is_mux_for e r i w2) l <= sends_of (is_mux e r i) l)%nat.
Proof using.
  intros Hne. unfold sends_of. induction l as [|x l IH]; [done|]. rewrite !filter_cons.
  destruct x as [f t [| | | | | | |m| | |]| |]; cbn; try exact IH.
  repeat (destruct (decide (bool_decide _ = true)) as [?%bool_decide_eq_true|?%not_true_is_false%bool_decide_eq_false];
    cbn); try lia; exfalso; naive_solver.
Qed.

(** Two nodes are not flagged with different values alone: each would have counted a
    quorum of muxes, and a member sends one. *)
Lemma only_mux (s : system) (j : NodeID) (n : node) (e r i w : Z) :
  sreach s -> s_nodes s !! j = Some n -> only w (aba_at (n_core n) e r) i ->
  HightThreshold com <=
  Z.of_nat (size (holders (fun n => bool_decide (0 < sends_of (is_mux_for e r i w) (n_log n))%nat) (s_nodes s))).
Proof using All.
  intros Hr Hn Ho. pose proof (aba_ok_at k Hk s0 Hdep s j n e r Hr Hn) as Ha.
  assert (HightThreshold com <= cmux w (aba_at (n_core n) e r) i) as Hc.
  { destruct Ho as [(-> & Hy & Hno)|(-> & Hno & Hy)]; [by apply (ao_yes _ _ _ _ Ha)|by apply (ao_no _ _ _ _ Ha)]. }
  etrans; [exact Hc|]. etrans; [apply (cmux_total s j n e r i w Hr Hn)|]. apply Nat2Z.inj_le, total_le_holders.
  intros j1 n1 Hn1. destruct (share_once s j1 n1 e r i Hr Hn1) as [_ Hm].
  pose proof (mux_split e r i w (w + 1) (n_log n1) ltac:(lia)) as Hle.
  revert Hle. rewrite Hm. unfold mark. case_decide; case_bool_decide; lia.
Qed.

Lemma only_agree (s : system) (j1 j2 : NodeID) (n1 n2 : node) (e r i w1 w2 : Z) :
  sreach s -> s_nodes s !! j1 = Some n1 -> s_nodes s !! j2 = Some n2 ->
  only w1 (aba_at (n_core n1) e r) i -> only w2 (aba_at (n_core n2) e r) i -> w1 = w2.
Proof using All.
  intros Hr Hn1 Hn2 Ho1 Ho2. destruct (decide (w1 = w2)) as [|Hne]; [done|exfalso].
  destruct (quorum_intersection com ∅ _ _ (ck_size _ Hk) ltac:(rewrite size_empty; pose proof (max_faults_bounds com); lia)
    (sys_members s _ Hr) (sys_members s _ Hr) (only_mux s j1 n1 e r i w1 Hr Hn1 Ho1) (only_mux s j2 n2 e r i w2 Hr Hn2 Ho2))
    as (x & (n & Hn & H1)%elem_of_holders & (n' & Hn' & H2)%elem_of_holders & _).
  rewrite Hn in Hn'. injection Hn' as <-. apply bool_decide_eq_true in H1, H2.
  destruct (share_once s x n e r i Hr Hn) as [_ Hm].
  pose proof (mux_split e r i w1 w2 (n_log n) Hne) as Hle.
  revert Hle. rewrite Hm. unfold mark. case_decide; lia.
Qed.

Lemma coin_agree (s : system) (e r i w1 w2 : Z) :
  sreach s -> regular s -> coin_up k s e r i w1 -> coin_up k s e r i w2 -> w1 = w2.
Proof using All.
  intros Hr Hreg (j1 & x1 & Hj1 & Hx1 & Hk1 & Ht1) (j2 & x2 & Hj2 & Hx2 & Hk2 & Ht2).
  injection Hk1 as He1 Hr1 _. injection Hk2 as He2 Hr2 _.
  pose proof (pl_leads _ _ _ _ _ _ (emitted_placed k Hk s0 Hdep s (MCoinShare x1) e r (CoinShare_Leader x1) Hr Hreg eq_refl Hx1
    ltac:(cbn; by rewrite He1, Hr1))) as Hl1.
  pose proof (pl_leads _ _ _ _ _ _ (emitted_placed k Hk s0 Hdep s (MCoinShare x2) e r (CoinShare_Leader x2) Hr Hreg eq_refl Hx2
    ltac:(cbn; by rewrite He2, Hr2))) as Hl2.
  rewrite (leads_agree k Hk s0 Hdep e r _ _ Hl1 Hl2) in Ht1. by eapply (tossed_agree k Hk s0 Hdep j1 j2).
Qed.

(** When nobody brings the value, nobody sends it. *)
Lemma not_brought (s : system) (e r i w : Z) :
  0 <= i < last_epoch -> sreach s ->
  Z.of_nat (size (bringers s (e, r, next_round i, w))) <= faults ->
  relayers s (e, r, next_round i, w) = ∅ /\
  Z.of_nat (total (fun n => val_sends n (e, r, next_round i, w)) (s_nodes s)) <= faults.
Proof using All.
  intros Hi Hr Hb. assert (relayers s (e, r, next_round i, w) = ∅) as Hno.
  { destruct (decide (relayers s (e, r, next_round i, w) = ∅)) as [|Hne]; [done|].
    pose proof (relayed_brought s e r i w Hi Hr Hne) as Hlow. rewrite LowThreshold_eq in Hlow. lia. }
  split; [done|]. etrans; [|exact Hb]. apply Nat2Z.inj_le, vals_brought; [|done|done].
  unfold in_int64, last_epoch in *. lia.
Qed.

Lemma lock_first (s : system) (e r i v w : Z) :
  0 <= i < last_epoch -> sreach s -> regular s -> halted k s e r i v -> w <> v ->
  Z.of_nat (total (fun n => val_sends n (e, r, next_round i, w)) (s_nodes s)) <= faults.
Proof using All.
  intros Hi Hr Hreg [(j0 & n0 & Hn0 & Ho) Hup] Hne. apply not_brought; [done|done|].
  assert (bringers s (e, r, next_round i, w) = ∅) as ->;
    [|rewrite size_empty; pose proof (max_faults_bounds com); lia].
  apply elem_of_equiv_empty_L. intros j (n & Hn & Hp)%elem_of_holders. apply bool_decide_eq_true in Hp.
  destruct (at_node_facts k Hk s0 Hdep s j n Hr Hn) as (Hj & Hfacts & _). pose proof Hfacts as [_ [Hfa _]].
  assert (in_int64 i) as Hi64 by (unfold in_int64, last_epoch in *; lia).
  destruct (fa_coin _ _ _ _ Hfa e r i w Hi64) as [Hv|[Ho'|(x & Hx & Hkey & Ht)]].
  - unfold invokes, val_sends in Hp. cbn in Hp. lia.
  - exact (Hne (only_agree s j j0 n n0 e r i w v Hr Hn Hn0 Ho' Ho)).
  - destruct Hne. eapply (coin_agree s e r i); [done|done| |done]. exists j, x. split_and!; [done| |done|done].
    eapply (handled_emitted k Hk s0 Hdep s j n); [done|done|done|]. apply elem_of_app. by left.
Qed.

(** A node flagged with a value has counted a quorum of vals for it. *)
Lemma not_flagged (s : system) (j : NodeID) (n : node) (e r i w : Z) :
  sreach s -> s_nodes s !! j = Some n ->
  Z.of_nat (total (fun n => val_sends n (e, r, i, w)) (s_nodes s)) <= faults ->
  ~ flagged w (aba_at (n_core n) e r) i.
Proof using All.
  intros Hr Hn Ht Hf. pose proof (aba_ok_at k Hk s0 Hdep s j n e r Hr Hn) as Ha.
  pose proof (cval_total s j n e r i w Hr Hn) as Hc. pose proof (max_faults_bounds com) as [Hm _].
  assert (HightThreshold com <= cval w (aba_at (n_core n) e r) i) as Hh.
  { destruct Hf as [[-> Hy]|[-> Hy]]; [by apply (ao_yes _ _ _ _ Ha)|by apply (ao_no _ _ _ _ Ha)]. }
  rewrite HightThreshold_eq in Hh. lia.
Qed.

Lemma lock_next (s : system) (e r i w : Z) :
  0 <= i < last_epoch -> sreach s ->
  Z.of_nat (total (fun n => val_sends n (e, r, i, w)) (s_nodes s)) <= faults ->
  Z.of_nat (total (fun n => val_sends n (e, r, next_round i, w)) (s_nodes s)) <= faults.
Proof using All.
  intros Hi Hr Ht. apply not_brought; [done|done|]. assert (in_int64 i) as Hi64 by (unfold in_int64, last_epoch in *; lia).
  destruct (decide (tossers s e r i = ∅)) as [Hno|Hfull].
  - assert (bringers s (e, r, next_round i, w) = ∅) as ->;
      [|rewrite size_empty; pose proof (max_faults_bounds com); lia].
    apply elem_of_equiv_empty_L. intros j (n & Hn & Hp)%elem_of_holders. apply bool_decide_eq_true in Hp.
    destruct (node_run k Hk s0 Hdep s j n Hr Hn) as (n0 & Hok & Hst & Hr0).
    pose proof (vals_once _ Hok (ck_dense _ Hk) _ _ _ _ _ n0 Hst n e r i w Hi64 Hr0) as Hv.
    destruct (full (at_node k j) (n_core n) e r i) eqn:Hf; cbn in Hv; [|lia].
    assert (j ∈ tossers s e r i) as Hin by (apply elem_of_holders; by exists n). rewrite Hno in Hin. set_solver.
  - destruct (finished_quorum s e r i Hi64 Hr Hfull) as (D & HD & Hsz & Hall).
    assert (bringers s (e, r, next_round i, w) ⊆ members com ∖ D) as Hsub.
    { intros j Hj. apply elem_of_difference. split; [by apply (sys_members s _ Hr) in Hj|]. intros HjD.
      apply elem_of_holders in Hj as (n & Hn & Hp). apply bool_decide_eq_true in Hp.
      destruct (Hall j HjD) as (n' & Hn' & Hset). rewrite Hn in Hn'. injection Hn' as <-.
      destruct (Hset w) as [_ [Hle|Hf]]; [lia|]. by eapply not_flagged. }
    apply subseteq_size in Hsub. rewrite size_difference in Hsub by done.
    pose proof (ck_size _ Hk) as Hsize. rewrite Committee_Size_members in Hsize. rewrite HightThreshold_eq in Hsz. lia.
Qed.

Lemma lock_later (s : system) (e r i v w : Z) (d : nat) :
  0 <= i -> i + Z.of_nat d < last_epoch -> sreach s -> regular s -> halted k s e r i v -> w <> v ->
  Z.of_nat (total (fun n => val_sends n (e, r, i + Z.of_nat d + 1, w)) (s_nodes s)) <= faults.
Proof using All.
  intros Hi Hd Hr Hreg Hh Hne. induction d as [|d IH].
  - pose proof (lock_first s e r i v w ltac:(lia) Hr Hreg Hh Hne) as Hl. revert Hl.
    unfold next_round. rewrite int64_next; [|unfold in_int64, last_epoch in *; lia|lia]. by rewrite Z.add_0_r.
  - pose proof (lock_next s e r (i + Z.of_nat d + 1) w ltac:(lia) Hr (IH ltac:(lia))) as Hl. revert Hl.
    unfold next_round. rewrite int64_next; [|unfold in_int64, last_epoch in *; lia|lia].
    by replace (i + Z.of_nat (S d) + 1) with (i + Z.of_nat d + 1 + 1) by lia.
Qed.

(** ** Agreement *)

Lemma halted_below (s : system) (e r i v : Z) : sreach s -> regular s -> halted k s e r i v -> 0 <= i < last_epoch.
Proof using All.
  intros Hr Hreg [_ (j & x & Hj & Hx & Hkey & _)]. injection Hkey as _ _ <-. split; [|by apply (Hreg _ Hx)].
  by apply (pl_inner _ _ _ _ _ _ (emitted_placed k Hk s0 Hdep s (MCoinShare x) _ _ _ Hr Hreg eq_refl Hx eq_refl)).
Qed.

Lemma halted_lt (s : system) (e r i1 i2 v1 v2 : Z) :
  sreach s -> regular s -> halted k s e r i1 v1 -> halted k s e r i2 v2 -> i1 < i2 -> v1 = v2.
Proof using All.
  intros Hr Hreg Hh1 Hh2 Hlt. destruct (decide (v1 = v2)) as [|Hne]; [done|exfalso].
  pose proof (halted_below s e r i1 v1 Hr Hreg Hh1). pose proof (halted_below s e r i2 v2 Hr Hreg Hh2).
  destruct Hh2 as [(j & n & Hn & Ho) _].
  eapply (not_flagged s j n e r i2 v2); [done|done| |by apply only_flagged].
  replace i2 with (i1 + Z.of_nat (Z.to_nat (i2 - i1 - 1)) + 1) by lia.
  eapply lock_later; [lia|lia|done|done|exact Hh1|done].
Qed.

Lemma halted_agree (s : system) (e r i1 i2 v1 v2 : Z) :
  sreach s -> regular s -> halted k s e r i1 v1 -> halted k s e r i2 v2 -> v1 = v2.
Proof using All.
  intros Hr Hreg Hh1 Hh2. destruct (Z.lt_trichotomy i1 i2) as [Hlt|[-> |Hlt]].
  - by eapply (halted_lt s e r i1 i2).
  - destruct Hh1 as [_ H1], Hh2 as [_ H2]. by eapply (coin_agree s e r i2).
  - symmetry. by eapply (halted_lt s e r i2 i1).
Qed.

(** What was said of one round, and that only one round of an epoch halts with yes. *)
Lemma halts_agree (s : system) (y1 y2 : ABAHalt) :
  sreach s -> regular s -> Emitted s (MABAHalt y1) -> Emitted s (MABAHalt y2) ->
  ABAHalt_Epoch y1 = ABAHalt_Epoch y2 -> ABAHalt_Round y1 = ABAHalt_Round y2 ->
  ABAHalt_Flag y1 = ABAHalt_Flag y2 /\ ABAHalt_Leader y1 = ABAHalt_Leader y2.
Proof using All.
  intros Hr Hreg Hy1 Hy2 He Hrd.
  pose proof (emitted_placed k Hk s0 Hdep s (MABAHalt y1) _ _ _ Hr Hreg eq_refl Hy1 eq_refl) as [L1 _ _ P1].
  pose proof (emitted_placed k Hk s0 Hdep s (MABAHalt y2) _ _ _ Hr Hreg eq_refl Hy2 eq_refl) as [L2 _ _ P2].
  rewrite <-He, <-Hrd in L2, P2. split; [by eapply halted_agree; [..|apply P1|apply P2]|].
  by eapply (leads_agree k Hk s0 Hdep).
Qed.

Lemma yes_rounds_lt (s : system) (y1 y2 : ABAHalt) (d1 d2 : nat) :
  sreach s -> regular s -> Emitted s (MABAHalt y1) -> ABAHalt_Flag y1 = FLAG_YES ->
  opened s (ABAHalt_Epoch y1) d1 (ABAHalt_Round y1) -> opened s (ABAHalt_Epoch y1) d2 (ABAHalt_Round y2) ->
  ~ (d1 < d2)%nat.
Proof using All.
  intros Hr Hreg Hy1 Hf1 Ho1 Ho2 Hlt.
  destruct (opened_before s _ _ _ _ Ho2 Hlt) as (x & Hx & Hf & He & Ho).
  destruct (halts_agree s x y1 Hr Hreg Hx Hy1 He (opened_det s _ _ _ _ Ho Ho1)) as [Hff _].
  rewrite Hf, Hf1 in Hff. done.
Qed.

Lemma yes_agree (s : system) (y1 y2 : ABAHalt) :
  sreach s -> regular s -> Emitted s (MABAHalt y1) -> Emitted s (MABAHalt y2) ->
  ABAHalt_Epoch y1 = ABAHalt_Epoch y2 -> ABAHalt_Flag y1 = FLAG_YES -> ABAHalt_Flag y2 = FLAG_YES ->
  ABAHalt_Round y1 = ABAHalt_Round y2.
Proof using All.
  intros Hr Hreg Hy1 Hy2 He Hf1 Hf2.
  pose proof (emitted_placed k Hk s0 Hdep s (MABAHalt y1) _ _ _ Hr Hreg eq_refl Hy1 eq_refl) as [_ [d1 D1] _ _].
  pose proof (emitted_placed k Hk s0 Hdep s (MABAHalt y2) _ _ _ Hr Hreg eq_refl Hy2 eq_refl) as [_ [d2 D2] _ _].
  rewrite <-He in D2. destruct (Nat.lt_trichotomy d1 d2) as [Hlt|[-> |Hlt]].
  - by destruct (yes_rounds_lt s y1 y2 d1 d2 Hr Hreg Hy1 Hf1 D1 D2).
  - by eapply opened_det.
  - rewrite He in D1, D2. by destruct (yes_rounds_lt s y2 y1 d2 d1 Hr Hreg Hy2 Hf2 D2 D1).
Qed.

End Agreement.
