(* ===== verification/MvbaBlocks.v ===== *)
(** * mvba: which blocks a node commits

    What is kept of proposals, on one node: the store holds blocks of proposals that were
    handled, under their hashes; the hash of a broadcast is that of a block its proposer
    proposed for the epoch; the commitor was called for epochs that halted with yes, with
    a block that has the hash of the leader's; and the node itself has proposed one block
    in an epoch. *)

From S2P Require Import Prelude GoStd Crypto Committee Store Pool Runtime Quorum Deliver Coin History System.
From S2P Require Import MvbaMessage MvbaAggreator MvbaElector MvbaCommitor MvbaInstance.
From S2P Require Import MvbaInvariant MvbaCore MvbaSafety MvbaHistory.

Open Scope Z_scope.

Definition is_prop (m : Message) : bool := match m with MProposal _ => true | _ => false end.

Section Blocks.
Context {E : Ed25519} {K : Kyber} {R : MathRand} {db : Type} `{HDB : DB db} {GB : GobBlock}.

Abbreviation core := (Core (db := db)).
Abbreviation node := (Node (Core := core) (Ev := Ev) (Msg := Message) (Thread := Thread)).

(** ** What a core shows of blocks *)

(** The hash the broadcast of a proposer's block has. *)
Definition bhash (c : core) (e : Z) (n : NodeID) : option Digest :=
  lookup3 (cbcInstances c) e n DATA_CBC ≫= BlockHash.

Definition idle (c : core) : Prop := st_reqCh (core_Store c) = [].

(** The store has [val] under [key]. *)
Definition has (c : core) (key val : bytes) : Prop := db_Get (st_db (core_Store c)) key = (val, None).

(** Commands that leave blocks alone. *)
Record same_one (c c' : core) : Prop := {
  so_name : Name c' = Name c;
  so_store : core_Store c' = core_Store c;
  so_commitor : core_Commitor c' = core_Commitor c;
  so_epoch : Epoch c' = Epoch c;
  so_hash : forall e n, bhash c' e n = bhash c e n
}.

Definition mild (x : effect) : Prop :=
  match x with
  | ESend _ _ m | EPush _ (EvMsg m) => is_prop m = false
  | EGo (TCBC _ _ _ (CProposal _)) => False
  | _ => True
  end.

Lemma same_one_refl (c : core) : same_one c c.
Proof. by split. Qed.

Lemma same_one_trans (c1 c2 c3 : core) : same_one c1 c2 -> same_one c2 c3 -> same_one c1 c3.
Proof. intros [] []. split; congruence. Qed.

Section Mild.
Context (c0 : core).
Abbreviation gentle := (keeps True (same_one c0) mild).

Lemma mild_modify (f : core -> core) :
  (forall c, Name (f c) = Name c /\ core_Store (f c) = core_Store c /\ core_Commitor (f c) = core_Commitor c /\
    Epoch (f c) = Epoch c /\ cbcInstances (f c) = cbcInstances c) ->
  gentle (modify f).
Proof.
  intros H. apply keeps_modify. intros c Hs. destruct (H c) as (H1 & H2 & H3 & H4 & H5).
  eapply same_one_trans; [exact Hs|]. split; try done. intros e n. unfold bhash. by rewrite H5.
Qed.

Lemma mild_panic {A : Type} : gentle (@panic core effect A).
Proof. by intros c _. Qed.

Lemma mild_broadcast (m : Message) : is_prop m = false -> gentle (broadcast m).
Proof.
  intros Hm. unfold broadcast, send_all. apply keeps_bind; [apply keeps_get|]. intros c.
  apply keeps_bind; [|intros _]; apply keeps_emit; exact Hm.
Qed.

Lemma mild_get_bind {A : Type} (k : core -> M core effect A) : (forall c, gentle (k c)) -> gentle (get_st ≫= k).
Proof. intros Hk. apply keeps_bind; [apply keeps_get|done]. Qed.

Lemma mild_lift_bind {A B : Type} (o : Outcome A) (k : A -> M core effect B) :
  (forall a, gentle (k a)) -> gentle (lift_outcome o ≫= k).
Proof. intros Hk. apply keeps_bind; [apply keeps_lift|done]. Qed.

Lemma mild_gets_bind {A B : Type} (g : core -> A) (k : A -> M core effect B) :
  (forall a, gentle (k a)) -> gentle (gets g ≫= k).
Proof. intros Hk. apply keeps_bind; [apply keeps_gets|done]. Qed.

Lemma mild_modify_bind {A : Type} (f : core -> core) (k : unit -> M core effect A) :
  gentle (modify f) -> gentle (k tt) -> gentle (modify f ≫= k).
Proof. intros Hf Hk. apply keeps_bind; [done|]. by intros []. Qed.

Lemma mild_broadcast_bind {A : Type} (m : Message) (k : unit -> M core effect A) :
  is_prop m = false -> gentle (k tt) -> gentle (broadcast m ≫= k).
Proof. intros Hm Hk. apply keeps_bind; [by apply mild_broadcast|]. by intros []. Qed.
End Mild.

Ltac mild :=
  repeat first
    [ apply keeps_ret | apply keeps_lift | apply keeps_get | apply keeps_gets | apply mild_panic
    | apply mild_get_bind; intros ? | apply mild_lift_bind; intros ? | apply mild_gets_bind; intros ?
    | apply mild_broadcast_bind; [by repeat case_match|]
    | apply mild_modify_bind; [by apply mild_modify|] | by apply mild_modify
    | match goal with |- keeps _ _ _ (match ?x with _ => _ end) => destruct x end ].

Lemma getCBC_spec (c : core) (e : Z) (n : NodeID) (t : Z) :
  wp True (getCBCInstance e n t) c (fun s c' es =>
    es = [] /\ same_one c c' /\ (t = DATA_CBC -> BlockHash s = bhash c e n)).
Proof.
  unfold getCBCInstance. wp_steps. destruct (lookup3 (cbcInstances c) e n t) eqn:El; wp_steps.
  - split_and!; [done|apply same_one_refl|]. intros ->. unfold bhash. by rewrite El.
  - split_and!; [done| |intros ->; unfold bhash; by rewrite El]. split; try done. intros e' n'. unfold bhash. cbn.
    rewrite lookup3_insert3. case_decide as Hd; [|done]. destruct Hd as (-> & -> & ->). by rewrite El.
Qed.

Lemma mild_getCBCInstance c0 (e : Z) (n : NodeID) (t : Z) : keeps True (same_one c0) mild (getCBCInstance e n t).
Proof.
  intros c Hs. eapply wp_mono; [apply getCBC_spec|]. intros s c' es (-> & Hs' & _).
  split; [by eapply same_one_trans|done].
Qed.

Lemma mild_getABAInstance c0 (e r : Z) : keeps True (same_one c0) mild (getABAInstance e r).
Proof. unfold getABAInstance. mild. Qed.

Lemma mild_go_cbc c0 (e : Z) (n : NodeID) (t : Z) (pc : cbc_pc) :
  (forall p, pc <> CProposal p) -> keeps True (same_one c0) mild (go_cbc e n t pc).
Proof.
  intros Hpc. unfold go_cbc. apply keeps_bind; [apply mild_getCBCInstance|]. intros _.
  apply keeps_bind; [|intros _; apply keeps_ret]. apply keeps_emit. cbn. destruct pc; try done. by destruct (Hpc p).
Qed.

Lemma mild_go_aba c0 (e r : Z) (pc : aba_pc) : keeps True (same_one c0) mild (go_aba e r pc).
Proof.
  unfold go_aba. apply keeps_bind; [apply mild_getABAInstance|]. intros _.
  apply keeps_bind; [|intros _; apply keeps_ret]. by apply keeps_emit.
Qed.

Lemma mild_unless_over c0 (e : Z) (m : M core effect (option error)) :
  keeps True (same_one c0) mild m -> keeps True (same_one c0) mild (unless_over e m).
Proof.
  intros Hm. unfold unless_over, messageFilter. apply keeps_bind; [apply keeps_gets|]. intros [|]; [apply keeps_ret|done].
Qed.

Lemma mild_processCBCBack c0 (b : CBCBack) : keeps True (same_one c0) mild (processCBCBack b).
Proof.
  unfold processCBCBack. apply mild_unless_over. apply keeps_bind.
  { unfold addFinals, ensure_finals. apply keeps_bind; [mild|]. intros _. apply mild_get_bind. intros c.
    apply keeps_bind; [mild|]. intros _. mild. }
  intros cnt. apply keeps_bind; [unfold addCommitment; mild|]. intros _. mild.
  apply mild_broadcast_bind; [|apply keeps_ret]. unfold share_msg. by case_match.
Qed.

Lemma mild_invokeStageTwo c0 (e r : Z) : keeps True (same_one c0) mild (invokeStageTwo e r).
Proof. unfold invokeStageTwo. mild. Qed.

Lemma mild_invokeABAVal c0 (l : NodeID) (e r i w : Z) : keeps True (same_one c0) mild (invokeABAVal l e r i w).
Proof. unfold invokeABAVal, isInvokeABA. mild. Qed.

Lemma mild_handleElectShare c0 (s : ElectShare) : keeps True (same_one c0) mild (handleElectShare s).
Proof.
  unfold handleElectShare. apply mild_unless_over. mild.
Qed.

Lemma mild_handleVote c0 (x : Vote) : keeps True (same_one c0) mild (handleVote x).
Proof.
  unfold handleVote. apply mild_unless_over. apply keeps_bind; [unfold checkVote; mild|]. intros [|]; mild;
    apply mild_invokeABAVal.
Qed.

Lemma mild_handleCoinShare c0 (s : CoinShare) : keeps True (same_one c0) mild (handleCoinShare s).
Proof. unfold handleCoinShare. apply mild_unless_over. mild. apply mild_go_aba. Qed.

(** ** What a step does to blocks *)

(** Why the commitor was called: an epoch has halted with yes, and the block under the
    hash of the leader's broadcast was read from the store; or the block of a leader
    came after the halt. *)
Definition commit_cause (c : core) (ev : Ev) (e : Z) (b : Block) : Prop :=
  match ev with
  | EvABA x =>
      ABABack_Typ x = ABA_HALT /\ ABABack_Flag x = FLAG_YES /\ ABABack_Epoch x = e /\
      exists d v, bhash c e (ABABack_Leader x) = Some d /\ has c d v /\ Block_Decode v = Some b
  | EvMsg (MProposal p) =>
      Proposal_Epoch p = e /\ Epoch c <= e /\ CommitLeader (core_Commitor c) e = Proposal_Author p
  | _ => False
  end.

Definition committed (c : core) (ev : Ev) (c' : core) : Prop :=
  delivery (core_Commitor c') = delivery (core_Commitor c) \/
  exists e b, Deliver.Commit fst (delivery (core_Commitor c)) (Some (e, b)) = Ret (delivery (core_Commitor c')) /\
    commit_cause c ev e b.

(** A proposal is sent with a new epoch. *)
Definition proposed (c c' : core) (es : list effect) : Prop :=
  (Epoch c' = Epoch c /\
   Forall (fun x => match x with ESend _ _ m | EPush _ (EvMsg m) => is_prop m = false | _ => True end) es) \/
  exists p, es = says (Name c) (MProposal p) /\ Epoch c < Proposal_Epoch p /\ Epoch c' = Proposal_Epoch p.

Record one_step (c : core) (ev : Ev) (c' : core) (es : list effect) : Prop := {
  os_name : Name c' = Name c;
  os_idle : idle c';
  os_store : forall key val, has c' key val -> has c key val \/
    exists p b, ev = EvMsg (MProposal p) /\ Proposal_B p = Some b /\ key = Block_Hash b /\ Block_Encode b = Some val;
  os_hash : forall e n, bhash c' e n = bhash c e n;
  os_commit : committed c ev c';
  os_sent : proposed c c' es;
  os_go : forall e n t p, EGo (TCBC e n t (CProposal p)) ∈ es ->
    ev = EvMsg (MProposal p) /\ e = Proposal_Epoch p /\ n = Proposal_Author p
}.

Lemma one_step_mild (c : core) (ev : Ev) {A : Type} (m : M core effect A) :
  idle c -> keeps True (same_one c) mild m -> wp True m c (fun _ c' es => one_step c ev c' es).
Proof.
  intros Hi Hm. eapply wp_mono; [apply Hm, same_one_refl|]. intros a c' es [[H1 H2 H3 H4 H5] He].
  rewrite Forall_forall in He. split; [done|by unfold idle; rewrite H2| |done|left; by rewrite H3| |].
  - intros key val. unfold has. rewrite H2. by left.
  - left. split; [done|]. apply Forall_forall. intros x Hx. specialize (He x Hx). by destruct x as [| ? []|].
  - intros e n t p Hx. by specialize (He _ Hx).
Qed.

(** *** Reading and writing blocks *)

Lemma getBlock_spec (c : core) (d : Digest) :
  idle c -> wp True (getBlock d) c (fun r c' es =>
    es = [] /\ idle c' /\ same_one c c' /\ forall b, r = (Some b, None) -> exists v, has c d v /\ Block_Decode v = Some b).
Proof.
  intros Hi. unfold getBlock. wp_steps. destruct (core_Store c) as [dd q] eqn:Es. unfold idle in *. rewrite Es in Hi.
  cbn in Hi. subst q. rewrite Store_Read_idle. destruct (db_Get dd d) as [v err] eqn:Eg. wp_steps.
  assert (same_one c (c <| core_Store := mkStore dd [] |>)) as Hs by (by split; cbn; rewrite ?Es).
  destruct err; wp_steps; [by split_and!|].
  destruct (Block_Decode v) eqn:Ev; wp_steps; (split_and!; [done|done|done|]); intros b' [= <-].
  exists v. split; [|done]. unfold has. by rewrite Es.
Qed.

Lemma storeBlock_spec `{!DBLaws db} (c : core) (b : option Block) :
  idle c -> wp True (storeBlock b) c (fun _ c' es =>
    es = [] /\ idle c' /\ Name c' = Name c /\ core_Commitor c' = core_Commitor c /\ Epoch c' = Epoch c /\
    cbcInstances c' = cbcInstances c /\
    forall key val, has c' key val -> has c key val \/
      exists b', b = Some b' /\ key = Block_Hash b' /\ Block_Encode b' = Some val).
Proof.
  intros Hi. unfold storeBlock. destruct b as [b|]; [|done].
  destruct (Block_Encode b) as [v|] eqn:Ev; wp_steps; [|split_and!; auto].
  destruct (core_Store c) as [dd q] eqn:Es. unfold idle in *. rewrite Es in Hi. cbn in Hi. subst q.
  rewrite Store_Write_idle. destruct (db_Put dd (Block_Hash b) v) as [d' err] eqn:Ep. wp_steps. split_and!; try done.
  intros key val. unfold has. rewrite Es. cbn. destruct err as [err|].
  { rewrite (get_put_err _ _ _ _ _ key Ep). by left. }
  destruct (decide (Block_Hash b = key)) as [<-|Hne].
  - rewrite (get_put_eq _ _ _ _ Ep). intros [= <-]. right. eauto.
  - rewrite (get_put_ne _ _ _ _ key Hne Ep). by left.
Qed.

Lemma Commitor_Commit_spec (c : core) (e : Z) (l : NodeID) (b : option Block) :
  wp True (Commitor_Commit e l b) c (fun _ c' es =>
    es = [] /\ core_Store c' = core_Store c /\ Name c' = Name c /\ Epoch c' = Epoch c /\
    cbcInstances c' = cbcInstances c /\
    (delivery (core_Commitor c') = delivery (core_Commitor c) \/
     exists b', b = Some b' /\
       Deliver.Commit fst (delivery (core_Commitor c)) (Some (e, b')) = Ret (delivery (core_Commitor c')))).
Proof.
  unfold Commitor_Commit. wp_steps. destruct b as [b|].
  - destruct (mvba_Commit_deliver (core_Commitor c) e l b) as (d & Hd & ->). wp_steps. split_and!; try done.
    right. exists b. by rewrite Hd.
  - unfold Commit. destruct (_ <? _); wp_steps; (split_and!; [done..|by left]).
Qed.

(** *** Handlers that touch blocks *)

Section Laws.
Context `{!DBLaws db}.

(** Handling a proposal, once the commitor was called and the block was stored. *)
Lemma one_stored (c c1 c2 c3 : core) (p : Proposal) (es : list effect) :
  core_Store c1 = core_Store c /\ Name c1 = Name c /\ Epoch c1 = Epoch c /\ cbcInstances c1 = cbcInstances c /\
    committed c (EvMsg (MProposal p)) c1 ->
  idle c2 /\ Name c2 = Name c1 /\ core_Commitor c2 = core_Commitor c1 /\ Epoch c2 = Epoch c1 /\
    cbcInstances c2 = cbcInstances c1 ->
  (forall key val, has c2 key val -> has c1 key val \/
     exists b, Proposal_B p = Some b /\ key = Block_Hash b /\ Block_Encode b = Some val) ->
  same_one c2 c3 ->
  (forall x, x ∈ es -> x = EGo (TCBC (Proposal_Epoch p) (Proposal_Author p) DATA_CBC (CProposal p))) ->
  one_step c (EvMsg (MProposal p)) c3 es.
Proof using.
  intros (Hst & Hnm & Hep & Hcb & Hcm) (Hi2 & Hnm2 & Hcm2 & Hep2 & Hcb2) Hst2 [S1 S2 S3 S4 S5] Hes.
  split; [congruence|unfold idle; by rewrite S2| | | | |].
  - intros key val. unfold has. rewrite S2. intros [Hh|(b & Hb & Hrest)]%Hst2.
    + left. unfold has in Hh. by rewrite <-Hst.
    + right. by exists p, b.
  - intros e n. rewrite S5. unfold bhash. by rewrite Hcb2, Hcb.
  - unfold committed. rewrite S3, Hcm2. exact Hcm.
  - left. split; [congruence|]. apply Forall_forall. by intros x ->%Hes.
  - intros e n t q Hin%Hes. by injection Hin as -> -> -> ->.
Qed.

Lemma one_handleProposal (c : core) (p : Proposal) :
  idle c -> wp True (handleProposal p) c (fun _ c' es => one_step c (EvMsg (MProposal p)) c' es).
Proof using All.
  intros Hi. unfold handleProposal, unless_over, messageFilter. rewrite wp_bind, wp_gets. cbn beta.
  destruct (_ <? _) eqn:Eo; [apply (one_step_mild c (EvMsg (MProposal p)) (mret None)); [done|apply keeps_ret]|].
  apply Z.ltb_ge in Eo. rewrite wp_bind, wp_get. cbn beta. rewrite wp_bind.
  assert (wp True (if CommitLeader (core_Commitor c) (Proposal_Epoch p) =? Proposal_Author p
    then Commitor_Commit (Proposal_Epoch p) (Proposal_Author p) (Proposal_B p) else mret tt) c (fun _ c1 es =>
    es = [] /\ core_Store c1 = core_Store c /\ Name c1 = Name c /\ Epoch c1 = Epoch c /\
    cbcInstances c1 = cbcInstances c /\ committed c (EvMsg (MProposal p)) c1)) as Hc.
  { destruct (_ =? _) eqn:El; [|wp_steps; split_and!; try done; by left]. apply Z.eqb_eq in El.
    eapply wp_mono; [apply Commitor_Commit_spec|]. intros _ c1 es (-> & ? & ? & ? & ? & Hd). split_and!; try done.
    destruct Hd as [Hd|(b & Hb & Hd)]; [by left|right]. exists (Proposal_Epoch p), b. done. }
  eapply wp_mono; [exact Hc|]. intros _ c1 es1 (-> & H1). rewrite wp_bind.
  eapply wp_mono; [apply storeBlock_spec; unfold idle; by rewrite (proj1 H1)|].
  intros err c2 es2 (-> & Hi2 & Hnm2 & Hcm2 & Hep2 & Hcb2 & Hst2).
  destruct err as [err|]; wp_steps.
  { eapply (one_stored c c1 c2); [done|done|done|apply same_one_refl|set_solver]. }
  unfold go_cbc. rewrite wp_bind. eapply wp_mono; [apply getCBC_spec|]. intros s c3 es3 (-> & Hs3 & _). wp_steps.
  eapply (one_stored c c1 c2); [done|done|done|done|]. intros x Hx. apply list_elem_of_singleton in Hx as ->. done.
Qed.

(** Commands of the output leave the rest alone. *)
Definition calm {A : Type} (m : M core effect A) : Prop :=
  forall c, idle c -> wp True m c (fun _ c' es => es = [] /\ idle c' /\ same_one c c').

Lemma calm_returnBatch (e : Z) : calm (returnBatch e).
Proof using.
  intros c Hi. unfold returnBatch. wp_steps. eapply wp_mono; [apply getCBC_spec|]. intros s c1 es1 (-> & Hs1 & _).
  assert (idle c1) as Hi1 by (unfold idle; by rewrite (so_store _ _ Hs1)).
  destruct (BlockHash s); wp_steps; [|done]. eapply wp_mono; [by apply getBlock_spec|].
  intros [b err] c2 es2 (-> & Hi2 & Hs2 & _). pose proof (same_one_trans _ _ _ Hs1 Hs2) as Hs.
  destruct err, b; wp_steps; try done. destruct (PutBatch _ _) as [pl|]; wp_steps; [|done]. split_and!; [done|done|].
  eapply same_one_trans; [exact Hs|]. by split.
Qed.

(** What the output of an epoch may do before the next one starts. *)
Record output_post (c : core) (b : ABABack) (c' : core) : Prop := {
  op_idle : idle c';
  op_name : Name c' = Name c;
  op_store : core_Store c' = core_Store c;
  op_epoch : Epoch c' = Epoch c;
  op_hash : forall e n, bhash c' e n = bhash c e n;
  op_commit : committed c (EvABA b) c'
}.

Lemma output_post_same (c c' c'' : core) (b : ABABack) :
  output_post c b c' -> same_one c' c'' -> output_post c b c''.
Proof using.
  intros [P1 P2 P3 P4 P5 P6] [S1 S2 S3 S4 S5].
  split; [unfold idle; by rewrite S2|congruence..|intros; by rewrite S5|unfold committed; by rewrite S3].
Qed.

(** The block, or nothing, is committed. *)
Lemma output_commit (c c2 : core) (b : ABABack) (o : option Block) :
  idle c -> ABABack_Typ b = ABA_HALT -> ABABack_Flag b = FLAG_YES -> same_one c c2 ->
  (forall b', o = Some b' -> exists d v, bhash c (ABABack_Epoch b) (ABABack_Leader b) = Some d /\ has c d v /\
     Block_Decode v = Some b') ->
  wp True (Commitor_Commit (ABABack_Epoch b) (ABABack_Leader b) o) c2 (fun _ c' es => es = [] /\ output_post c b c').
Proof using.
  intros Hi Ht Hf [S1 S2 S3 S4 S5] Ho. eapply wp_mono; [apply Commitor_Commit_spec|].
  intros _ c' es (-> & E1 & E2 & E3 & E4 & Hd). split; [done|]. split; [|congruence..| |].
  - unfold idle. by rewrite E1, S2.
  - intros e n. rewrite <-S5. unfold bhash. by rewrite E4.
  - rewrite S3 in Hd. destruct Hd as [Hd|(b1 & -> & Hd)]; [by left|right].
    exists (ABABack_Epoch b), b1. split; [done|]. split_and!; try done. by apply Ho.
Qed.

Lemma blk_output_spec (c : core) (b : ABABack) :
  idle c -> ABABack_Typ b = ABA_HALT -> ABABack_Flag b = FLAG_YES ->
  wp True (output_block (ABABack_Epoch b) (ABABack_Leader b)) c (fun _ c' es => es = [] /\ output_post c b c').
Proof using.
  intros Hi Ht Hf. unfold output_block. wp_steps. eapply wp_mono; [apply getCBC_spec|].
  intros s c1 es1 (-> & Hs1 & Hh). specialize (Hh eq_refl). pose proof Hs1 as [T1 T2 T3 T4 T5].
  assert (idle c1) as Hi1 by (unfold idle; by rewrite T2).
  destruct (BlockHash s) as [d|]; wp_steps; [|by split; [|split; try congruence; left; rewrite T3]].
  eapply wp_mono; [by apply getBlock_spec|]. intros [b' err] c2 es2 (-> & Hi2 & Hs2 & Hb).
  pose proof (same_one_trans _ _ _ Hs1 Hs2) as Hs.
  destruct err as [err|], b' as [b'|]; wp_steps; [by apply output_commit..| |by apply output_commit].
  eapply wp_mono; [apply (output_commit c c2); try done|].
  - intros b0 [= <-]. destruct (Hb b' eq_refl) as (v & Hv & Hdec). exists d, v. split_and!; [by rewrite <-Hh| |done].
    unfold has in *. by rewrite <-T2.
  - intros _ c3 es3 (-> & Hok). wp_steps. destruct (negb _); wp_steps; [|done].
    eapply wp_mono; [apply calm_returnBatch, Hok|]. intros _ c4 es4 (-> & Hi4 & Hs4).
    split; [done|]. by eapply output_post_same.
Qed.

(** The next epoch starts with a proposal. *)
Lemma advance_spec (c : core) (e : Z) :
  wp True (abvanceNextEpoch e) c (fun _ c' es =>
    Name c' = Name c /\ core_Store c' = core_Store c /\ core_Commitor c' = core_Commitor c /\
    cbcInstances c' = cbcInstances c /\ proposed c c' es /\ forall x, x ∈ es -> forall t, x <> EGo t).
Proof using All.
  unfold abvanceNextEpoch, generateBlock, NewProposal. wp_steps.
  destruct (_ <=? _) eqn:Ele; wp_steps; [split_and!; try done; [by left|set_solver]|]. apply Z.leb_gt in Ele.
  destruct (GetBatch _) as [[bt pl]|]; wp_steps; [|done]. destruct (Proposal_Hash _); cbn; [|done].
  destruct (RequestSignature _ _); cbn; [|done]. wp_steps. unfold broadcast, send_all. wp_steps. split_and!; try done.
  - right. eexists. split_and!; [done|done|done].
  - intros x Hx t ->. set_solver.
Qed.

Lemma one_handleOutput (c : core) (b : ABABack) :
  idle c -> ABABack_Typ b = ABA_HALT -> ABABack_Flag b = FLAG_YES ->
  wp True (handleOutput (ABABack_Epoch b) (ABABack_Leader b)) c (fun _ c' es => one_step c (EvABA b) c' es).
Proof using All.
  intros Hi Ht Hf. unfold handleOutput. rewrite wp_bind. eapply wp_mono; [by apply blk_output_spec|].
  intros _ c1 es1 (-> & [P1 P2 P3 P4 P5 P6]). eapply wp_mono; [apply advance_spec|].
  intros _ c2 es2 (A1 & A2 & A3 & A4 & A5 & A6). cbn [app]. split; [congruence|..].
  - unfold idle. by rewrite A2.
  - intros key val. unfold has. rewrite A2, P3. by left.
  - intros e n. rewrite <-P5. unfold bhash. by rewrite A4.
  - unfold committed. by rewrite A3.
  - unfold proposed in *. by rewrite P2, P4 in A5.
  - intros e n t p Hin. by destruct (A6 _ Hin _ eq_refl).
Qed.

Lemma handle_one (c c' : core) (ev : Ev) (t : option Thread) (es : list effect) :
  idle c -> handle ev c = Ret (t, c', es) -> one_step c ev c' es.
Proof using All.
  intros Hi Hh.
  assert (wp True (handle_ev ev) c (fun _ c' es => one_step c ev c' es)) as H.
  { destruct ev as [m|b|b]; cbn [handle_ev].
    - unfold handle_msg. rewrite wp_bind, wp_get. cbn beta. rewrite wp_bind, wp_lift.
      destruct (Verify _ _); [|done]. cbn [app]. destruct m; cbn [dispatch]; [by apply one_handleProposal|..|done];
        apply one_step_mild; try done; (apply mild_unless_over; by apply mild_go_cbc) ||
        (apply mild_unless_over; apply mild_go_aba) || idtac.
      + apply mild_handleElectShare.
      + apply mild_handleVote.
      + apply mild_handleCoinShare.
    - apply one_step_mild; [done|]. apply mild_processCBCBack.
    - unfold processABABack. destruct (_ =? _); [apply one_step_mild; [done|apply mild_invokeABAVal]|].
      destruct (Z.eqb_spec (ABABack_Typ b) ABA_HALT) as [Ht|]; [|apply (one_step_mild c _ (mret None)); [done|apply keeps_ret]].
      destruct (_ =? _); [apply one_step_mild; [done|apply mild_invokeStageTwo]|].
      destruct (Z.eqb_spec (ABABack_Flag b) FLAG_YES); [by apply one_handleOutput|].
      apply (one_step_mild c _ (mret None)); [done|apply keeps_ret]. }
  revert Hh. unfold handle, mbind, M_bind. unfold wp in H. destruct (handle_ev ev c) as [[[r c1] es1]|]; [|done].
  cbn. rewrite app_nil_r. by intros [= _ <- <-].
Qed.
End Laws.

(** *** Steps of goroutines *)

Lemma cbc_step_hash (name : NodeID) (com : Committee) (srv : SigService) (e : Z) (n : NodeID) (t : Z)
    (pc : cbc_pc) (s : CBC) :
  wp True (cbc_step name com srv e n t pc) s (fun pc' s' es =>
    Forall mild es /\ (forall p, pc' <> Some (CProposal p)) /\
    (BlockHash s' = BlockHash s \/
     exists p b, pc = CProposal p /\ Proposal_B p = Some b /\ BlockHash s' = Some (Block_Hash b))).
Proof.
  unfold cbc_step, send_all. rewrite wp_bind, wp_get. cbn beta. destruct pc.
  - destruct (negb _); [wp_steps; split_and!; auto|]. destruct (Proposal_B p) eqn:Eb; wp_steps; [|done].
    split_and!; [done|done|]. right. eauto.
  - destruct (negb _); wp_steps; split_and!; auto.
  - unfold wp. cbn [app]. split_and!; [|done|by left].
    apply Forall_app. split; apply Forall_fmap, Forall_forall; done.
  - rewrite wp_bind, wp_lift. destruct (NewReady _ _ _ _ _); [|done].
    destruct (_ =? _); wp_steps; (split_and!; [by apply Forall_singleton|done|by left]).
  - wp_steps. split_and!; [done| |by left]. by destruct (waits _ _).
  - wp_steps. split_and!; auto.
  - rewrite wp_bind, wp_modify. cbn beta. destruct (_ =? _); [|by wp_steps; split_and!; auto].
    rewrite wp_bind, wp_lift. destruct (NewFinal _ _ _ _); [|done]. wp_steps.
    split_and!; [by repeat apply Forall_cons_2|done|by left].
  - wp_steps. split_and!; [done| |by left]. by destruct (waits _ _).
  - wp_steps. split_and!; auto.
  - wp_steps. split_and!; [done| |by left]. by destruct (_ =? _).
  - wp_steps. split_and!; [by apply Forall_singleton|done|by left].
Qed.

(** Nothing but the hash of a broadcast changes, and only to that of the proposal the
    goroutine was started with. *)
Record one_tstep (c : core) (t : Thread) (c' : core) (es : list effect) (t' : option Thread) : Prop := {
  ot_name : Name c' = Name c;
  ot_store : core_Store c' = core_Store c;
  ot_commitor : core_Commitor c' = core_Commitor c;
  ot_epoch : Epoch c' = Epoch c;
  ot_mild : Forall mild es;
  ot_next : forall e n tag p, t' <> Some (TCBC e n tag (CProposal p));
  ot_hash : forall e n, bhash c' e n = bhash c e n \/
    exists p b, t = TCBC e n DATA_CBC (CProposal p) /\ Proposal_B p = Some b /\ bhash c' e n = Some (Block_Hash b)
}.

Lemma tstep_one (st : setting) `{!Ed25519Laws E} (c c' : core) (t : Thread) (t' : option Thread) (es : list effect) :
  setting_ok st -> core_ok st c -> thread_ok st c t -> tstep t c = Ret (t', c', es) -> one_tstep c t c' es t'.
Proof.
  intros Hst Hc Hth Ht. destruct t as [e n tag pc|e r pc].
  - unfold tstep in Ht. destruct (lookup3 (cbcInstances c) e n tag) as [s|] eqn:El; [|done].
    pose proof (cbc_step_hash (Name c) (core_Committee c) (core_SigService c) e n tag pc s) as Hw. unfold wp in Hw.
    destruct (cbc_step _ _ _ _ _ _ _ s) as [[[pc' s'] es']|]; [|done]. injection Ht as <- <- <-.
    destruct Hw as (Hm & Hnx & Hh). split; try done.
    + intros e1 n1 tag1 p Heq. destruct pc' as [pc'|]; [|done]. cbn in Heq. injection Heq as _ _ _ ->. by apply (Hnx p).
    + intros e1 n1. unfold bhash. cbn. rewrite lookup3_insert3. case_decide as Hd; [|by left].
      destruct Hd as (<- & <- & ->). rewrite El. cbn.
      destruct Hh as [->|(p & b & -> & Hb & ->)]; [by left|right]. by exists p, b.
  - destruct (tstep_aba st Hst _ _ _ _ _ _ _ Hc Hth Ht) as (pc' & a' & -> & -> & _ & Hs & _).
    split; try done; [|by destruct pc'|by left].
    assert (forall name m, is_prop m = false -> Forall mild (says name m)) as Hsay.
    { intros name m Hm. unfold says, to_self. by repeat apply Forall_cons_2. }
    destruct Hs as [| |? m m' ? _ Hp _ _| | | |]; try done; try by apply Hsay.
    + by repeat apply Forall_cons_2.
    + apply Hsay. by destruct m', m.
    + apply Forall_app. split; [by apply Hsay|by apply Forall_singleton].
Qed.

(** ** Blocks and what was handled *)

(** A proposal was handled. *)
Definition heard_block (h : list Ev) (e : Z) (l : NodeID) (b : Block) : Prop :=
  exists p, EvMsg (MProposal p) ∈ h /\ Proposal_Author p = l /\ Proposal_Epoch p = e /\ Proposal_B p = Some b.

(** A block was committed for an epoch: it halted with yes for a leader, and the block
    has the hash of the leader's. *)
Definition call_ok (h : list Ev) (x : Z * Block) : Prop :=
  (x.1 = last_epoch /\ exists l b, heard_block h x.1 l b) \/
  exists y b0 e1 l1 b1, EvMsg (MABAHalt y) ∈ h /\ ABAHalt_Flag y = FLAG_YES /\ ABAHalt_Epoch y = x.1 /\
    heard_block h x.1 (ABAHalt_Leader y) b0 /\ heard_block h e1 l1 b1 /\ Block_Hash b1 = Block_Hash b0 /\
    x.2 = gob_norm b1.

Record blocks (c : core) (h : list Ev) (l : list effect) : Prop := {
  bl_idle : idle c;
  bl_store : forall key val, has c key val ->
    exists e n b, heard_block h e n b /\ key = Block_Hash b /\ Block_Encode b = Some val;
  bl_hash : forall e n d, bhash c e n = Some d -> exists b, heard_block h e n b /\ d = Block_Hash b;
  bl_calls : exists bs, commit_all fst NewCommittor bs = Ret (delivery (core_Commitor c)) /\ Forall (call_ok h) bs;
  bl_sent : forall f t p, ESend f t (MProposal p) ∈ l -> Proposal_Epoch p <= Epoch c;
  bl_once : forall f t p f' t' q, ESend f t (MProposal p) ∈ l -> ESend f' t' (MProposal q) ∈ l ->
    Proposal_Epoch p = Proposal_Epoch q -> p = q;
  bl_push : forall ch p, EPush ch (EvMsg (MProposal p)) ∈ l -> exists f t, ESend f t (MProposal p) ∈ l
}.

Definition thread_block (h : list Ev) (t : Thread) : Prop :=
  forall e n tag p, t = TCBC e n tag (CProposal p) ->
    EvMsg (MProposal p) ∈ h /\ e = Proposal_Epoch p /\ n = Proposal_Author p.

Lemma heard_block_mono (h h' : list Ev) (e : Z) (l : NodeID) (b : Block) :
  h ⊆ h' -> heard_block h e l b -> heard_block h' e l b.
Proof. intros Hh (p & Hp & Hrest). exists p. auto. Qed.

Lemma call_ok_mono (h h' : list Ev) (x : Z * Block) : h ⊆ h' -> call_ok h x -> call_ok h' x.
Proof.
  intros Hh [(Hx & l & b & Hb)|(y & b0 & e1 & l1 & b1 & H1 & H2 & H3 & H4 & H5 & H6)].
  { left. split; [done|]. exists l, b. by eapply heard_block_mono. }
  right.
  exists y, b0, e1, l1, b1. split_and!; try apply H6; [by apply Hh|done|done|by eapply heard_block_mono..].
Qed.

Lemma commit_all_snoc (d d1 d2 : Committor (Z * Block)) (bs : list (Z * Block)) (x : Z * Block) :
  commit_all fst d bs = Ret d1 -> Deliver.Commit fst d1 (Some x) = Ret d2 -> commit_all fst d (bs ++ [x]) = Ret d2.
Proof.
  revert d. induction bs as [|b bs IH]; intros d; cbn [commit_all app].
  - intros [= ->] ->. done.
  - destruct (Deliver.Commit fst d (Some b)) as [d'|]; [|done]. cbn [mbind Outcome_bind]. apply IH.
Qed.

(** Effects without a proposal, and a proposal for a new epoch. *)
Lemma sent_kept (c c' : core) (l es : list effect) :
  proposed c c' es ->
  (forall f t p, ESend f t (MProposal p) ∈ l -> Proposal_Epoch p <= Epoch c) ->
  (forall f t p f' t' q, ESend f t (MProposal p) ∈ l -> ESend f' t' (MProposal q) ∈ l ->
     Proposal_Epoch p = Proposal_Epoch q -> p = q) ->
  (forall ch p, EPush ch (EvMsg (MProposal p)) ∈ l -> exists f t, ESend f t (MProposal p) ∈ l) ->
  (forall f t p, ESend f t (MProposal p) ∈ l ++ es -> Proposal_Epoch p <= Epoch c') /\
  (forall f t p f' t' q, ESend f t (MProposal p) ∈ l ++ es -> ESend f' t' (MProposal q) ∈ l ++ es ->
     Proposal_Epoch p = Proposal_Epoch q -> p = q) /\
  (forall ch p, EPush ch (EvMsg (MProposal p)) ∈ l ++ es -> exists f t, ESend f t (MProposal p) ∈ l ++ es).
Proof.
  intros Hp Hs Ho Hpu. destruct Hp as [[He Hes]|(p0 & -> & Hlt & He)].
  - rewrite Forall_forall in Hes.
    assert (forall f t p, ESend f t (MProposal p) ∈ l ++ es -> ESend f t (MProposal p) ∈ l) as Hin.
    { intros f t p [H|H]%elem_of_app; [done|]. by specialize (Hes _ H). }
    rewrite He. split_and!; [eauto|eauto|]. intros ch p [H|H]%elem_of_app; [|by specialize (Hes _ H)].
    destruct (Hpu ch p H) as (f & t & Hft). exists f, t. apply elem_of_app. by left.
  - assert (forall f t p, ESend f t (MProposal p) ∈ l ++ says (Name c) (MProposal p0) ->
      ESend f t (MProposal p) ∈ l /\ Proposal_Epoch p <= Epoch c \/ p = p0) as Hin.
    { intros f t p [H|H]%elem_of_app; [left; eauto|right]. unfold says, to_self in H. set_solver. }
    rewrite He. split_and!.
    + intros f t p [[_ H]| ->]%Hin; lia.
    + intros f t p f' t' q [[H1 H2]| ->]%Hin [[H3 H4]| ->]%Hin Heq; [eauto|lia|lia|done].
    + intros ch p [H|H]%elem_of_app.
      * destruct (Hpu ch p H) as (f & t & Hft). exists f, t. apply elem_of_app. by left.
      * exists (Name c), NONE. apply elem_of_app. right. unfold says, to_self in *. set_solver.
Qed.

Section Invariant.
Context `{!Ed25519Laws E} `{!DBLaws db} `{!GobBlockLaws GB}.
Context (st : setting) (Hst : setting_ok st) (Hids : dense (s_com st)).

(** Why the commitor was called, in terms of what was handled. *)
Lemma cause_ok (c : core) (h : list Ev) (l : list effect) (ev : Ev) (e : Z) (b : Block) :
  inv st c -> event_ok (s_com st) ev -> blocks c h l -> (forall x, ev = EvABA x -> back_ok st c h x) ->
  commit_cause c ev e b -> call_ok (h ++ [ev]) (e, b).
Proof using All.
  intros Hinv Hev Hbl Hback Hc. destruct ev as [[p| | | | | | | | | |]| |x]; try done.
  - destruct Hc as (<- & Hep & Hl). left. cbn. destruct Hev as ((a & [= <-] & Ha) & _ & Hw).
    destruct (Hw p eq_refl) as [b0 Hb0]. split; [|exists (Proposal_Author p), b0, p; split_and!; try done; set_solver].
    specialize (Hids _ Ha). unfold CommitLeader, NONE in Hl.
    destruct (commitLeaders (core_Commitor c) !! Proposal_Epoch p) eqn:El; [|cbn in Hl; lia].
    destruct (i_commit _ _ Hinv (Proposal_Epoch p)); [by eexists|lia|done].
  - destruct Hc as (Ht & Hf & <- & d & v & Hd & Hv & Hdec). right. cbn.
    destruct (Hback x eq_refl) as [[Ht' _]|(_ & y & Hy & Hkey)]; [rewrite Ht in Ht'; done|].
    destruct (bl_hash _ _ _ Hbl _ _ _ Hd) as (b0 & Hb0 & ->).
    destruct (bl_store _ _ _ Hbl _ _ Hv) as (e1 & l1 & b1 & Hb1 & Heq & Henc).
    injection Hkey as K1 _ _ K2 K3. assert (h ⊆ h ++ [EvABA x]) as Hsub by set_solver.
    exists y, b0, e1, l1, b1. rewrite K3. split_and!; try done; [by apply Hsub|by rewrite K2|by eapply heard_block_mono..|].
    unfold Block_Encode in Henc. unfold Block_Decode in Hdec. rewrite (gob_block_roundtrip _ _ Henc) in Hdec.
    by injection Hdec.
Qed.

Lemma blocks_handle (c c' : core) (h : list Ev) (l es : list effect) (ev : Ev) :
  inv st c -> event_ok (s_com st) ev -> (forall x, ev = EvABA x -> back_ok st c h x) ->
  one_step c ev c' es -> blocks c h l -> blocks c' (h ++ [ev]) (l ++ es).
Proof using All.
  intros Hinv Hev Hback [O1 O2 O3 O4 O5 O6 O7] Hbl. assert (h ⊆ h ++ [ev]) as Hsub by set_solver.
  destruct (sent_kept c c' l es O6 (bl_sent _ _ _ Hbl) (bl_once _ _ _ Hbl) (bl_push _ _ _ Hbl)) as (S1 & S2 & S3).
  split; try done.
  - intros key val [Hh|(p & b & -> & Hb & Hk)]%O3.
    + destruct (bl_store _ _ _ Hbl _ _ Hh) as (e & n & b & Hhb & Hrest). exists e, n, b.
      split; [by eapply heard_block_mono|done].
    + exists (Proposal_Epoch p), (Proposal_Author p), b. split; [|done]. exists p. split_and!; try done. set_solver.
  - intros e n d. rewrite O4. intros Hd. destruct (bl_hash _ _ _ Hbl _ _ _ Hd) as (b & Hb & ->).
    exists b. split; [by eapply heard_block_mono|done].
  - destruct (bl_calls _ _ _ Hbl) as (bs & Hbs & Hok).
    assert (Forall (call_ok (h ++ [ev])) bs) as Hok' by (eapply Forall_impl; [exact Hok|]; intros x; by apply call_ok_mono).
    destruct O5 as [-> |(e & b & Hcm & Hca)]; [by exists bs|]. exists (bs ++ [(e, b)]). split; [by eapply commit_all_snoc|].
    apply Forall_app. split; [done|]. apply Forall_singleton. by eapply cause_ok.
Qed.

Lemma blocks_tstep (c c' : core) (h : list Ev) (l es : list effect) (t : Thread) (t' : option Thread) :
  thread_block h t -> one_tstep c t c' es t' -> blocks c h l -> blocks c' h (l ++ es).
Proof using.
  intros Hth [T1 T2 T3 T4 T5 T6 T7] Hbl.
  assert (proposed c c' es) as Hp.
  { left. split; [done|]. eapply Forall_impl; [exact T5|]. by intros [| ? []|]. }
  destruct (sent_kept c c' l es Hp (bl_sent _ _ _ Hbl) (bl_once _ _ _ Hbl) (bl_push _ _ _ Hbl)) as (S1 & S2 & S3).
  split; try done.
  - unfold idle. rewrite T2. apply Hbl.
  - intros key val. unfold has. rewrite T2. apply Hbl.
  - intros e n d Hd. destruct (T7 e n) as [Heq|(p & b & -> & Hb & Heq)]; rewrite Heq in Hd; [by apply (bl_hash _ _ _ Hbl)|].
    injection Hd as <-. exists b. split; [|done]. destruct (Hth _ _ _ _ eq_refl) as (Hp1 & -> & ->). by exists p.
  - rewrite T3. apply Hbl.
Qed.

Lemma mild_spawned (h : list Ev) (es : list effect) : Forall mild es -> Forall (thread_block h) (spawned es).
Proof using.
  intros Hm. rewrite Forall_forall in Hm. apply Forall_forall. intros t Ht%elem_of_spawned e n tag p ->.
  by specialize (Hm _ Ht).
Qed.

(** *** Reachable nodes *)

(** The store of a node that was never run. *)
Definition store_new (store : Store db) : Prop :=
  st_reqCh store = [] /\ forall key val, db_Get (st_db store) key <> (val, None).

Section Started.
Context (params : Parameters) (store : Store db) (pool : PoolParams.t) (N Id : Z) (n0 : node).
Hypothesis H0 : started (boot st params store pool N Id) n0.
Hypothesis Hnew : store_new store.

Lemma run_start_spec (c0 : core) :
  wp True Run_start c0 (fun _ c es =>
    same_one c0 c /\ exists p, es = says (Name c0) (MProposal p) /\ Proposal_Epoch p = Epoch c0).
Proof using.
  unfold Run_start, generateBlock, NewProposal, broadcast, send_all. wp_steps.
  destruct (GetBatch _) as [[bt pl]|]; wp_steps; [|done]. destruct (Proposal_Hash _); cbn; [|done].
  destruct (RequestSignature _ _); cbn; [|done]. split; [by split|]. eexists. split; done.
Qed.

Lemma started_blocks : hist_ok blocks (fun _ h _ => thread_block h) n0.
Proof using All.
  destruct H0 as (c & es & Hrun & ->). pose proof (run_start_spec (boot st params store pool N Id)) as Hw.
  unfold wp in Hw. rewrite Hrun in Hw. destruct Hw as ([S1 S2 S3 S4 S5] & p & -> & He). destruct Hnew as [Hidle Hno].
  cbn in S2, S3, S4, He. split; cbn [start n_core n_hist n_log].
  - split.
    + unfold idle. by rewrite S2.
    + intros key val. unfold has. rewrite S2. intros Hv. by destruct (Hno key val).
    + intros e n d. rewrite S5. done.
    + exists []. by rewrite S3.
    + intros f t q Hin. unfold says, to_self in Hin. apply elem_of_cons in Hin as [[= _ _ ->]|Hin]; [lia|set_solver].
    + intros f t q f' t' q' H1 H2 _. unfold says, to_self in H1, H2. set_solver.
    + intros ch q Hin. exists (Name (boot st params store pool N Id)), NONE. unfold says, to_self in *. set_solver.
  - unfold threads, pending, conts. cbn. constructor.
Qed.

Lemma reachable_blocks (n : node) :
  node_reachable (sys_env st) n0 n -> blocks (n_core n) (n_hist n) (n_log n).
Proof using All.
  destruct (started_facts st Hst Hids _ _ _ _ _ n0 H0) as (_ & _ & Hev & Hrecv & _). intros Hr.
  eapply (history_invariant chan_cap handle tstep (sys_env st) n0 Hev) with
    (known := node_facts st) (G := fun _ h _ => thread_block h);
    [by rewrite Hrecv|by intros n1 Hr1; eapply reachable_facts| | |exact started_blocks|exact Hr].
  - intros n1 ev t s' es [Hok [Hfa _]] [Hbl Hth] Hq Hor Hh.
    pose proof (handle_one _ _ _ _ _ (bl_idle _ _ _ Hbl) Hh) as Hone. apply handle_summary in Hh as [-> _].
    pose proof (node_ok_threads _ _ _ _ Hok) as [_ Hevs]. rewrite Forall_forall in Hevs.
    split_and!.
    + eapply blocks_handle; [apply Hok|by apply Hevs| |exact Hone|exact Hbl]. intros x ->.
      destruct Hor as [[(m & ? & _) _]|[ch Hin]]; [done|].
      pose proof (fa_log _ _ _ _ Hfa) as Hlog. rewrite Forall_forall in Hlog. exact (Hlog _ Hin).
    + rewrite app_nil_r. apply Forall_forall. intros t Ht%elem_of_spawned e n' tag p ->.
      destruct (os_go _ _ _ _ Hone _ _ _ _ Ht) as (-> & -> & ->). split_and!; [set_solver|done|done].
    + intros t Ht e n' tag p Heq. destruct (Ht _ _ _ _ Heq) as (H1 & H2 & H3). split_and!; [set_solver|done|done].
  - intros n1 t t' s' es [Hok _] [Hbl Hth] Hin Hs.
    pose proof (node_ok_threads _ _ _ _ Hok) as [Htok _]. rewrite Forall_forall in Htok, Hth.
    pose proof (tstep_one st _ _ _ _ _ Hst (i_core _ _ (proj1 (proj1 Hok))) (Htok _ Hin) Hs) as Hone.
    split_and!; [by eapply blocks_tstep; [apply Hth|..]| |done]. apply Forall_app.
    split; [by apply mild_spawned, (ot_mild _ _ _ _ _ Hone)|]. destruct t' as [t'|]; cbn; [|done].
    apply Forall_singleton. intros e n' tag p ->. by destruct (ot_next _ _ _ _ _ Hone e n' tag p).
Qed.

End Started.
End Invariant.
End Blocks.
