(* ===== verification/MvbaRun.v ===== *)
(** * mvba: a run of four nodes

    The system of [MvbaSystem], executed: four nodes with the concrete keys, store and
    encoding of the witnesses, and a scheduler that lets every goroutine that can move
    make one step and then delivers everything that is on its way.  Evaluating it from
    the start, through broadcast, election and agreement, ends in a state in which all
    four have delivered a block. *)

From S2P Require Import Prelude GoStd Crypto Committee Store Pool Runtime Quorum Deliver Coin History System.
From S2P Require Import MvbaMessage MvbaAggreator MvbaElector MvbaCommitor MvbaInstance MvbaInvariant.
From S2P Require Import MvbaCore MvbaSafety MvbaHistory MvbaLedger MvbaSystem.
Import ToyCrypto ToyNode ToyGob ToyRand.

Open Scope Z_scope.

Abbreviation core := (Core (db := gmap bytes bytes)).
Abbreviation node := (Node (Core := core) (Ev := Ev) (Msg := Message) (Thread := Thread)).
Abbreviation system := (System (Core := core) (Ev := Ev) (Msg := Message) (Thread := Thread)).
Abbreviation action := (act (Ev := Ev) (X := list bool)).

(** ** The cluster *)

Definition toy_cluster : cluster (db := gmap bytes bytes) :=
  mkCluster (toy_committee 4) (fun j => toy_service 4 (Z.to_nat j)) (fun _ => DefaultParameters)
    (fun _ => NewStore ∅) (fun _ => toy_pool) (fun _ => 4) (fun j => j).

Definition toy_node (j : NodeID) : node :=
  match Run_start (boot_at toy_cluster j) with
  | Ret (_, c, es) => start c es
  | Panic => start (boot_at toy_cluster j) []
  end.

Definition toy_system : system :=
  mkSystem (list_to_map ((fun j => (j, toy_node j)) <$> [0; 1; 2; 3])) ∅.

(** ** The scheduler *)

Definition attempt (s : system) (a : action) : system := default s (system_step a s).

Definition local_acts (j : NodeID) (n : node) : list action :=
  match n_main n, n_cont n with
  | [], None => (fun ch => ALocal j (CHandle ch)) <$> [0; 1; 2]%nat
  | _, _ => [ALocal j CMain]
  end ++
  concat (imap (fun i g => match g with mkGo [] None => [] | _ => [ALocal j (CGo i)] end) (n_gos n)).

(** A commitment is encoded when the sender has seen all broadcasts end. *)
Definition net_acts (s : system) : list action :=
  '(j, _) ← map_to_list (s_nodes s); '(k, nk) ← map_to_list (s_nodes s);
  concat (imap (fun i _ => if bool_decide ((k, i) ∈ delivered s j) then []
                           else [ADeliver k j i [true; true; true; true]]) (n_sent nk)).

Definition wave (s : system) : system :=
  foldl attempt s ((x ← map_to_list (s_nodes s); local_acts x.1 x.2) ++ net_acts s).

Lemma attempts_reachable (s0 s : system) (l : list action) :
  system_reachable s0 s -> system_reachable s0 (foldl attempt s l).
Proof.
  revert s. induction l as [|a l IH]; intros s Hr; [done|]. cbn. apply IH. unfold attempt.
  destruct (system_step a s) as [s'|] eqn:Es; [|done]. by eapply sreach_step.
Qed.

Lemma waves_reachable (s0 : system) (n : nat) : system_reachable s0 (Nat.iter n wave s0).
Proof. induction n as [|n IH]; [constructor|]. cbn [Nat.iter nat_rect]. by apply attempts_reachable. Qed.

(** ** The start *)

Lemma toy_members (j : NodeID) : j ∈ members (toy_committee 4) -> j = 0 \/ j = 1 \/ j = 2 \/ j = 3.
Proof. intros Hj%toy_dense. change (Committee_Size (toy_committee 4)) with 4 in Hj. lia. Qed.

Lemma toy_member_ok (j : NodeID) : j ∈ members (toy_committee 4) -> setting_ok (at_node toy_cluster j).
Proof.
  intros Hj. split; [done|apply toy_committee_sized| |intros sh m; by eexists].
  apply toy_members in Hj as [-> |[-> |[-> | ->]]];
    [apply (toy_service_for 4 0)|apply (toy_service_for 4 1)|apply (toy_service_for 4 2)|apply (toy_service_for 4 3)];
    vm_compute; done.
Qed.

Lemma toy_cluster_ok : cluster_ok toy_cluster.
Proof. split; [vm_compute; reflexivity|apply toy_dense|apply toy_member_ok|by intros i j _ _]. Qed.

Lemma toy_node_started (j : NodeID) :
  match Run_start (boot_at toy_cluster j) with Ret _ => true | Panic => false end = true ->
  started (boot_at toy_cluster j) (toy_node j).
Proof.
  unfold started, toy_node. destruct (Run_start (boot_at toy_cluster j)) as [[[[] c] es]|]; [|done]. intros _. eauto.
Qed.

Lemma toy_deployed : deployed_at toy_cluster toy_system.
Proof.
  split_and!; [|done|].
  - unfold toy_system. cbn [s_nodes]. rewrite dom_list_to_map_L, <-list_fmap_compose.
    change (list_to_set ([0; 1; 2; 3] : list NodeID) = members (toy_committee 4)).
    apply (bool_decide_eq_true_1 _). vm_compute. reflexivity.
  - intros j n Hn. apply elem_of_list_to_map_2, list_elem_of_fmap in Hn as (i & [= -> ->] & Hi).
    assert (Forall (fun i => match Run_start (boot_at toy_cluster i) with Ret _ => true | Panic => false end = true)
      [0; 1; 2; 3]) as Hall by (repeat constructor; vm_compute; reflexivity).
    rewrite Forall_forall in Hall. by apply toy_node_started, Hall.
Qed.

(** ** The end *)

Definition regular_msgb (m : Message) : bool :=
  (msg_epoch m <? last_epoch) &&
  match m with
  | MVote v => negb (Vote_Leader v =? NONE)
  | MCoinShare x => CoinShare_InRound x <? last_epoch
  | _ => true
  end.

Definition sent_msgs (n : node) : list Message :=
  omap (fun x => match x with ESend _ _ m => Some m | _ => None end) (n_log n).

(** The blocks a node has proposed, its halts of epoch 0 with yes, and what it has
    delivered. *)
Definition own_blocks (n : node) : list Block :=
  omap (fun m => match m with MProposal p => Proposal_B p | _ => None end) (sent_msgs n).
Definition yes_halts (n : node) : list ABAHalt :=
  omap (fun m => match m with
                 | MABAHalt y => if (ABAHalt_Flag y =? FLAG_YES) && (ABAHalt_Epoch y =? 0) then Some y else None
                 | _ => None
                 end) (sent_msgs n).
Definition out (n : node) : list (Z * Block) := commitCh (delivery (core_Commitor (n_core n))).

Definition all_nodes (s : system) : list node := (map_to_list (s_nodes s)).*2.

(** All votes name a leader; the proposed blocks have different hashes; and every node has
    said yes and has delivered one block. *)
Definition good_end (s : system) : bool :=
  forallb (fun n => forallb regular_msgb (sent_msgs n)) (all_nodes s) &&
  bool_decide (NoDup (Block_Hash <$> mjoin (own_blocks <$> all_nodes s))) &&
  forallb (fun n => (1 <=? length (yes_halts n))%nat && (length (out n) =? 1)%nat) (all_nodes s) &&
  (length (all_nodes s) =? 4)%nat.

(** It takes 130 waves. *)
Lemma toy_run : exists s, system_reachable toy_system s /\ good_end s = true.
Proof. exists (Nat.iter 130 wave toy_system). split; [apply waves_reachable|]. vm_compute. reflexivity. Qed.

Section Good.
Context (s : system) (Hgood : good_end s = true).

Lemma all_nodes_in (j : NodeID) (n : node) : s_nodes s !! j = Some n -> n ∈ all_nodes s.
Proof using. intros Hn. apply list_elem_of_fmap. exists (j, n). split; [done|]. by apply elem_of_map_to_list. Qed.

Lemma sent_msgs_in (n : node) (f t : NodeID) (m : Message) : ESend f t m ∈ n_log n -> m ∈ sent_msgs n.
Proof using. intros Hin. apply list_elem_of_omap. by exists (ESend f t m). Qed.

Lemma good_regular : regular s.
Proof using Hgood.
  intros m (j & n & f & t & Hn & Hin). unfold good_end in Hgood. rewrite !andb_true_iff in Hgood.
  destruct Hgood as [[[Hreg _] _] _]. rewrite forallb_forall in Hreg.
  specialize (Hreg n (proj1 (list_elem_of_In _ _) (all_nodes_in j n Hn))). rewrite forallb_forall in Hreg.
  specialize (Hreg m (proj1 (list_elem_of_In _ _) (sent_msgs_in n f t m Hin))).
  unfold regular_msgb in Hreg. apply andb_true_iff in Hreg as [He Hm]. split; [by apply Z.ltb_lt|].
  destruct m; try done; [|by apply Z.ltb_lt]. by apply negb_true_iff, Z.eqb_neq in Hm.
Qed.

Lemma good_hashes (b b' : Block) (j j' : NodeID) (n n' : node) :
  s_nodes s !! j = Some n -> s_nodes s !! j' = Some n' -> b ∈ own_blocks n -> b' ∈ own_blocks n' ->
  Block_Hash b = Block_Hash b' -> b = b'.
Proof using Hgood.
  intros Hn Hn' Hb Hb' Heq. unfold good_end in Hgood. rewrite !andb_true_iff in Hgood.
  destruct Hgood as [[[_ Hnd] _] _]. apply bool_decide_eq_true in Hnd.
  set (l := mjoin (own_blocks <$> all_nodes s)) in *.
  assert (forall b j n, s_nodes s !! j = Some n -> b ∈ own_blocks n -> b ∈ l) as Hin.
  { intros b1 j1 n1 Hn1 Hb1. apply list_elem_of_join. exists (own_blocks n1). split; [done|].
    apply list_elem_of_fmap. exists n1. split; [done|]. by eapply all_nodes_in. }
  apply (Hin b j n Hn) in Hb. apply (Hin b' j' n' Hn') in Hb'.
  apply list_elem_of_lookup in Hb as [i Hi], Hb' as [i' Hi'].
  assert (i = i') as <-; [|congruence]. eapply NoDup_lookup; [exact Hnd| |]; rewrite list_lookup_fmap.
  - by rewrite Hi.
  - rewrite Hi'. exact (f_equal Some (eq_sym Heq)).
Qed.

Lemma good_node (j : NodeID) (n : node) :
  s_nodes s !! j = Some n ->
  (exists y f t, ESend f t (MABAHalt y) ∈ n_log n /\ ABAHalt_Flag y = FLAG_YES /\ ABAHalt_Epoch y = 0) /\ length (out n) = 1%nat.
Proof using Hgood.
  intros Hn. unfold good_end in Hgood. rewrite !andb_true_iff in Hgood. destruct Hgood as [[_ Hall] _].
  rewrite forallb_forall in Hall. specialize (Hall n (proj1 (list_elem_of_In _ _) (all_nodes_in j n Hn))).
  apply andb_true_iff in Hall as [Hy Ho]. split; [|by apply Nat.eqb_eq].
  apply Nat.leb_le in Hy. destruct (yes_halts n) as [|y l] eqn:Ey; [cbn in Hy; lia|].
  assert (y ∈ yes_halts n) as Hin by (rewrite Ey; left).
  apply list_elem_of_omap in Hin as (m & Hm & Heq). destruct m as [| | | | | | | | |y'|]; try done.
  destruct (Z.eqb_spec (ABAHalt_Flag y') FLAG_YES), (Z.eqb_spec (ABAHalt_Epoch y') 0); try done. injection Heq as ->.
  apply list_elem_of_omap in Hm as (x & Hx & Hs). destruct x as [f t m| |]; try done. injection Hs as ->.
  by exists y, f, t.
Qed.
End Good.
