(* ===== verification/MvbaOrder.v ===== *)
(** * mvba: agreement and total order

    The theorems on a committee of 3f+1 correct nodes that share a group key, over a
    network that delivers what was sent, in any order, with any delay, once at most: the
    binary agreement of a round gives one answer, the agreement of an epoch one leader,
    and the sequences of blocks that two nodes deliver are equal as far as both go. *)

From S2P Require Import Prelude GoStd Crypto Committee Store Pool Runtime Quorum Deliver Coin History System.
From S2P Require Import MvbaMessage MvbaAggreator MvbaElector MvbaCommitor MvbaInstance MvbaInvariant MvbaCore.
From S2P Require Import MvbaSafety MvbaHistory MvbaLedger MvbaSystem MvbaAgreement MvbaBlocks MvbaRun.

Open Scope Z_scope.

Section Order.
Context {E : Ed25519} {K : Kyber} {R : MathRand} {db : Type} `{HDB : DB db} {GB : GobBlock}.
Context `{!Ed25519Laws E} `{!KyberLaws K} `{!DBLaws db} `{!GobBlockLaws GB}.

Abbreviation core := (Core (db := db)).
Abbreviation node := (Node (Core := core) (Ev := Ev) (Msg := Message) (Thread := Thread)).
Abbreviation system := (System (Core := core) (Ev := Ev) (Msg := Message) (Thread := Thread)).

(** Node [l] has proposed block [b] for epoch [e]. *)
Definition proposal_of (s : system) (l : NodeID) (e : Z) (b : Block) : Prop :=
  exists n f t p, s_nodes s !! l = Some n /\ ESend f t (MProposal p) ∈ n_log n /\ Proposal_Epoch p = e /\
    Proposal_B p = Some b.

(** No two different blocks that were proposed have the same hash. *)
Definition distinct_hashes (s : system) : Prop :=
  forall l e b l' e' b', proposal_of s l e b -> proposal_of s l' e' b' -> Block_Hash b = Block_Hash b' -> b = b'.

(** Every node starts with an empty store. *)
Definition stores_new (k : cluster) : Prop := forall j, j ∈ members (k_com k) -> store_new (k_store k j).

Lemma gob_norm_idem (b : Block) : gob_norm (gob_norm b) = gob_norm b.
Proof. unfold gob_norm. cbn. by destruct (Batch_Txs (Block_Batch b)) as [[|]|]. Qed.

Section Cluster.
Context (k : cluster) (Hk : cluster_ok k) (Hnew : stores_new k) (s0 : system) (Hdep : deployed_at k s0).

Lemma node_blocks (s : system) (j : NodeID) (n : node) :
  system_reachable s0 s -> s_nodes s !! j = Some n -> blocks (n_core n) (n_hist n) (n_log n).
Proof using All.
  intros Hr Hn. destruct (at_node_facts k Hk s0 Hdep s j n Hr Hn) as (Hj & _).
  destruct (node_run k Hk s0 Hdep s j n Hr Hn) as (n0 & Hok & Hst & Hr0).
  eapply (reachable_blocks (at_node k j) Hok (ck_dense _ Hk)); [exact Hst|by apply Hnew|exact Hr0].
Qed.

(** A node proposes one block in an epoch. *)
Lemma proposal_unique (s : system) (l : NodeID) (e : Z) (b b' : Block) :
  system_reachable s0 s -> proposal_of s l e b -> proposal_of s l e b' -> b = b'.
Proof using All.
  intros Hr (n & f & t & p & Hn & Hp & He & Hb) (n' & f' & t' & q & Hn' & Hq & He' & Hb').
  rewrite Hn in Hn'. injection Hn' as <-.
  rewrite (bl_once _ _ _ (node_blocks s l n Hr Hn) f t p f' t' q Hp Hq ltac:(congruence)) in Hb. congruence.
Qed.

(** A block that was handled is the proposer's, up to encoding. *)
Lemma heard_proposed (s : system) (j : NodeID) (n : node) (e : Z) (l : NodeID) (b : Block) :
  system_reachable s0 s -> s_nodes s !! j = Some n -> heard_block (n_hist n) e l b ->
  exists b0, proposal_of s l e b0 /\ gob_norm b = gob_norm b0 /\ Block_Hash b = Block_Hash b0.
Proof using All.
  intros Hr Hn (p & Hp & Hl & He & Hb).
  assert (forall j' n' f t q, s_nodes s !! j' = Some n' -> ESend f t (MProposal q) ∈ n_log n' -> Proposal_Author q = j')
    as Hown.
  { intros j' n' f t q Hn' Hq. destruct (at_node_facts k Hk s0 Hdep s j' n' Hr Hn') as (_ & [((_ & _ & _ & Hs) & _) _] & _).
    rewrite Forall_forall in Hs. destruct (Hs _ Hq) as (_ & [Ha _]). by injection Ha. }
  destruct (handled_from k Hk s0 Hdep s j n (MProposal p) Hr Hn) as [(j' & n' & f & t & m0 & x & Hn' & Hl' & Heq)|[ch Hx]];
    [apply elem_of_app; by left|..].
  - destruct m0 as [q| | | | | | | | | |]; try done. cbn in Heq. injection Heq as ->. cbn in *.
    destruct (Proposal_B q) as [b0|] eqn:Eb; [|done]. cbn in Hb. injection Hb as <-.
    exists b0. split_and!; [|by rewrite gob_norm_idem|done].
    rewrite <-Hl, (Hown _ _ _ _ _ Hn' Hl'). by exists n', f, t, q.
  - destruct (bl_push _ _ _ (node_blocks s j n Hr Hn) ch p Hx) as (f & t & Hin). exists b. split_and!; [|done|done].
    rewrite <-Hl, (Hown _ _ _ _ _ Hn Hin). by exists n, f, t, p.
Qed.

(** What two nodes commit for an epoch is one block. *)
Lemma calls_agree (s : system) (j1 j2 : NodeID) (n1 n2 : node) (x1 x2 : Z * Block) :
  system_reachable s0 s -> regular s -> distinct_hashes s ->
  s_nodes s !! j1 = Some n1 -> s_nodes s !! j2 = Some n2 ->
  call_ok (n_hist n1) x1 -> call_ok (n_hist n2) x2 -> x1.1 = x2.1 -> x1.1 < last_epoch -> x1 = x2.
Proof using All.
  intros Hr Hreg Hdist Hn1 Hn2 [[Hx1 _]|H1] [[Hx2 _]|H2] Heq Hlt; try lia.
  destruct H1 as (y1 & b1 & e1 & l1 & c1 & Y1 & F1 & E1 & B1 & C1 & K1 & R1).
  destruct H2 as (y2 & b2 & e2 & l2 & c2 & Y2 & F2 & E2 & B2 & C2 & K2 & R2).
  assert (forall n j y, s_nodes s !! j = Some n -> EvMsg (MABAHalt y) ∈ n_hist n -> Emitted s (MABAHalt y)) as Hem.
  { intros n j y Hn Hy. apply (handled_emitted k Hk s0 Hdep s j n); [done|done|done|]. apply elem_of_app. by left. }
  pose proof (Hem _ _ _ Hn1 Y1) as M1. pose proof (Hem _ _ _ Hn2 Y2) as M2.
  assert (ABAHalt_Epoch y1 = ABAHalt_Epoch y2) as HE by congruence.
  pose proof (yes_agree k Hk s0 Hdep s y1 y2 Hr Hreg M1 M2 HE F1 F2) as HR.
  destruct (halts_agree k Hk s0 Hdep s y1 y2 Hr Hreg M1 M2 HE HR) as [_ HL].
  destruct (heard_proposed s j1 n1 _ _ _ Hr Hn1 B1) as (p1 & P1 & _ & Q1).
  destruct (heard_proposed s j2 n2 _ _ _ Hr Hn2 B2) as (p2 & P2 & _ & Q2).
  destruct (heard_proposed s j1 n1 _ _ _ Hr Hn1 C1) as (q1 & S1 & N1 & T1).
  destruct (heard_proposed s j2 n2 _ _ _ Hr Hn2 C2) as (q2 & S2 & N2 & T2).
  rewrite HL, Heq in P1. pose proof (proposal_unique s _ _ _ _ Hr P1 P2) as ->.
  assert (q1 = p2) as -> by (eapply Hdist; [exact S1|exact P2|congruence]).
  assert (q2 = p2) as -> by (eapply Hdist; [exact S2|exact P2|congruence]).
  destruct x1 as [z1 x1], x2 as [z2 x2]. cbn in *. congruence.
Qed.

Lemma calls_below (s : system) (j : NodeID) (n : node) (x : Z * Block) :
  system_reachable s0 s -> regular s -> s_nodes s !! j = Some n -> call_ok (n_hist n) x -> x.1 < last_epoch.
Proof using All.
  intros Hr Hreg Hn [(Hx & l & b & Hb)|(y & _ & _ & _ & _ & Y & _ & <- & _)].
  - destruct (heard_proposed s j n _ _ _ Hr Hn Hb) as (b0 & (n' & f & t & q & Hn' & Hq & <- & _) & _).
    apply (Hreg (MProposal q)). by exists l, n', f, t.
  - apply (Hreg (MABAHalt y)), (handled_emitted k Hk s0 Hdep s j n); [done|done|done|]. apply elem_of_app. by left.
Qed.

End Cluster.

(** C2. Agreement of a committee of 3f+1 correct nodes that hold shares of one group key, in
    the runs in which every vote that was sent names a leader and no epoch or inner round
    has reached the largest 64-bit integer ([regular]; a node that gets a halt for no of
    an epoch before it has elected that epoch's leaders votes with the leader [NONE], and
    about runs with such votes nothing is claimed).  Of all halts that were ever sent,
    those of one agreement (an epoch and a round) carry one flag and one leader, whatever
    inner rounds of whatever nodes they come from; and those of an epoch that carry yes
    are all of one round. *)
Theorem mvba_agreement (k : cluster) (s0 s : system) :
  cluster_ok k -> deployed_at k s0 -> system_reachable s0 s -> regular s ->
  forall y1 y2, Emitted s (MABAHalt y1) -> Emitted s (MABAHalt y2) -> ABAHalt_Epoch y1 = ABAHalt_Epoch y2 ->
  (ABAHalt_Round y1 = ABAHalt_Round y2 ->
   ABAHalt_Flag y1 = ABAHalt_Flag y2 /\ ABAHalt_Leader y1 = ABAHalt_Leader y2) /\
  (ABAHalt_Flag y1 = FLAG_YES -> ABAHalt_Flag y2 = FLAG_YES -> ABAHalt_Round y1 = ABAHalt_Round y2).
Proof using Ed25519Laws0 KyberLaws0.
  intros Hk Hdep Hr Hreg y1 y2 H1 H2 He. split; intros.
  - by apply (halts_agree k Hk s0 Hdep s).
  - by apply (yes_agree k Hk s0 Hdep s).
Qed.

(** C1. Total order of a committee of 3f+1 correct nodes that hold shares of one group key
    and start with empty stores: at any time, of the sequences of blocks that two nodes
    have delivered one is a prefix of the other.  The run so far is one in which no two
    different proposed blocks share a hash ([distinct_hashes]), every vote that was sent
    names a leader and no epoch or inner round has reached the largest 64-bit integer
    ([regular]); about runs in which a node votes without a leader, because it got a halt
    for no of an epoch before it elected that epoch's leaders, nothing is claimed. *)
Theorem mvba_total_order (k : cluster) (s0 s : system) (j1 j2 : NodeID) (n1 n2 : node) :
  cluster_ok k -> stores_new k -> deployed_at k s0 -> system_reachable s0 s -> regular s -> distinct_hashes s ->
  s_nodes s !! j1 = Some n1 -> s_nodes s !! j2 = Some n2 ->
  let out n := commitCh (delivery (core_Commitor (n_core n))) in
  out n1 `prefix_of` out n2 \/ out n2 `prefix_of` out n1.
Proof using All.
  intros Hk Hnew Hdep Hr Hreg Hdist Hn1 Hn2 out.
  destruct (bl_calls _ _ _ (node_blocks k Hk Hnew s0 Hdep s j1 n1 Hr Hn1)) as (bs1 & C1 & F1).
  destruct (bl_calls _ _ _ (node_blocks k Hk Hnew s0 Hdep s j2 n2 Hr Hn2)) as (bs2 & C2 & F2).
  assert (forall j n bs, s_nodes s !! j = Some n -> Forall (call_ok (n_hist n)) bs -> Forall (epoch_ok fst) bs) as Hep.
  { intros j n bs Hn HF. eapply Forall_impl; [exact HF|]. intros x Hx. by eapply (calls_below k Hk Hnew s0 Hdep s j n). }
  eapply (deliver_total_order fst bs1 bs2); [exact (Hep j1 n1 bs1 Hn1 F1)|exact (Hep j2 n2 bs2 Hn2 F2)| |exact C1|exact C2].
  rewrite Forall_forall in F1, F2. intros x1 x2 H1 H2 Heq.
  eapply (calls_agree k Hk Hnew s0 Hdep s j1 j2 n1 n2); try done; [by apply F1|by apply F2|].
  eapply (calls_below k Hk Hnew s0 Hdep s j1 n1); [done..|by apply F1].
Qed.

End Order.

(** ** Witnesses *)

Section Witness.
Import ToyCrypto ToyNode ToyGob ToyRand.

Lemma toy_run_node (s : system) (j : NodeID) :
  system_reachable toy_system s -> j ∈ members (toy_committee 4) -> exists n, s_nodes s !! j = Some n.
Proof.
  intros Hr Hj. apply elem_of_dom. rewrite (project_dom _ _ _ _ _ toy_system s Hr), (proj1 toy_deployed). exact Hj.
Qed.

Lemma good_distinct (s : system) : good_end s = true -> distinct_hashes s.
Proof.
  intros Hg l e b l' e' b' (n & f & t & p & Hn & Hp & _ & Hb) (n' & f' & t' & p' & Hn' & Hp' & _ & Hb') Heq.
  assert (forall n f t p b, ESend f t (MProposal p) ∈ n_log n -> Proposal_B p = Some b -> b ∈ own_blocks n) as Hin.
  { intros n1 f1 t1 p1 b1 H1 H2. apply list_elem_of_omap. exists (MProposal p1). split; [|exact H2].
    exact (sent_msgs_in n1 f1 t1 _ H1). }
  exact (good_hashes s Hg b b' l l' n n' Hn Hn' (Hin _ _ _ _ _ Hp Hb) (Hin _ _ _ _ _ Hp' Hb') Heq).
Qed.

Lemma toy_01 : 0 ∈ members (toy_committee 4) /\ 1 ∈ members (toy_committee 4).
Proof. split; apply (bool_decide_eq_true_1 _); vm_compute; reflexivity. Qed.

Lemma toy_stores_new : stores_new toy_cluster.
Proof. intros j _. split; [reflexivity|]. intros key val. cbn. rewrite lookup_empty. discriminate. Qed.

(** In the run of [toy_run] nodes 0 and 1 have both said yes. *)
Lemma mvba_agreement_witness :
  exists s n0 n1 y0 y1 f0 t0 f1 t1, system_reachable toy_system s /\
    s_nodes s !! 0 = Some n0 /\ s_nodes s !! 1 = Some n1 /\
    ESend f0 t0 (MABAHalt y0) ∈ n_log n0 /\ ESend f1 t1 (MABAHalt y1) ∈ n_log n1 /\
    ABAHalt_Flag y0 = FLAG_YES /\ ABAHalt_Round y0 = ABAHalt_Round y1.
Proof.
  destruct toy_run as (s & Hr & Hg).
  destruct (toy_run_node s 0 Hr (proj1 toy_01)) as [n0 Hn0], (toy_run_node s 1 Hr (proj2 toy_01)) as [n1 Hn1].
  destruct (good_node s Hg 0 n0 Hn0) as [(y0 & f0 & t0 & H0 & F0 & E0) _].
  destruct (good_node s Hg 1 n1 Hn1) as [(y1 & f1 & t1 & H1 & F1 & E1) _].
  exists s, n0, n1, y0, y1, f0, t0, f1, t1.
  refine (conj Hr (conj Hn0 (conj Hn1 (conj H0 (conj H1 (conj F0 _)))))).
  refine (proj2 (mvba_agreement toy_cluster toy_system s toy_cluster_ok toy_deployed Hr (good_regular s Hg) y0 y1
    _ _ (eq_trans E0 (eq_sym E1))) F0 F1).
  - exists 0, n0, f0, t0. exact (conj Hn0 H0).
  - exists 1, n1, f1, t1. exact (conj Hn1 H1).
Defined.

(** They have delivered the same block. *)
Lemma mvba_total_order_witness :
  exists s n0 n1, system_reachable toy_system s /\ s_nodes s !! 0 = Some n0 /\ s_nodes s !! 1 = Some n1 /\
    length (out n0) = 1%nat /\ out n0 = out n1.
Proof.
  destruct toy_run as (s & Hr & Hg).
  destruct (toy_run_node s 0 Hr (proj1 toy_01)) as [n0 Hn0], (toy_run_node s 1 Hr (proj2 toy_01)) as [n1 Hn1].
  pose proof (proj2 (good_node s Hg 0 n0 Hn0)) as L0. pose proof (proj2 (good_node s Hg 1 n1 Hn1)) as L1.
  exists s, n0, n1. refine (conj Hr (conj Hn0 (conj Hn1 (conj L0 _)))).
  destruct (mvba_total_order toy_cluster toy_system s 0 1 n0 n1 toy_cluster_ok toy_stores_new toy_deployed
    Hr (good_regular s Hg) (good_distinct s Hg) Hn0 Hn1) as [Hp|Hp].
  - apply (prefix_length_eq _ _ Hp). exact (Nat.eq_le_incl _ _ (eq_trans L1 (eq_sym L0))).
  - symmetry. apply (prefix_length_eq _ _ Hp). exact (Nat.eq_le_incl _ _ (eq_trans L0 (eq_sym L1))).
Defined.

End Witness.
