(* ===== verification/Boot.v ===== *)
(** * node: from the files to a running protocol

    Models NewNode of src/node/node.go and the Consensus functions of the four protocol
    packages (consensus.go), which differ in what they log only.  A node reads its keys,
    the committee and the parameters, makes a pool and a store, and starts the protocol
    the parameters name.  Opening the database and the sockets is input and output:
    [open] is what opening the database gives, the address to listen at is a result,
    and the wait for the other nodes leaves no trace.  The theorem says that from the
    files the program's own commands have generated every node boots into the initial
    state that the theorems of its protocol start from, correctly configured. *)

From Stdlib Require Import Strings.Byte.
From stdpp Require Import strings.
From S2P Require Import Prelude GoStd Crypto Committee Store Pool Config Logger.
From S2P Require Import SmvbaCore SmvbaSafety.
From S2P Require Import MercuryCore MercurySafety.
From S2P Require Import VabaCore VabaSafety.
From S2P Require Import MvbaElector MvbaCore MvbaSafety.

Open Scope Z_scope.

(** ** Definitions *)

(** [strings.Split(s, sep)] for a separator of one byte *)
Fixpoint Split (s : bytes) (sep : byte) : list bytes :=
  match s with
  | [] => [[]]
  | b :: s' =>
      if Byte.eqb b sep then [] :: Split s' sep
      else match Split s' sep with
           | [] => [[b]]
           | w :: ws => (b :: w) :: ws
           end
  end.

Definition colon : byte := x3a.

(** What starting a node does besides logging: goroutines, the sleep (in nanoseconds),
    and a connection to a peer after a number of refused ones. *)
Inductive boot_ev :=
| GoSender
| GoReceiver (addr : bytes)
| Sleep (d : Z)
| Online (addr : string) (refused : nat)
| PoolRun
| GoCore.

(** Code that logs, starts goroutines and may panic. *)
Abbreviation B := (M Logger.Host boot_ev).

Section Boot.
Context {E : Ed25519} {K : Kyber} {R : MathRand} {J : Json} {db : Type}.

(** [fmt.Sprintf(":%s", strings.Split(committee.Address(id), ":")[1])] *)
Definition listen_addr (committee : Committee) (id : NodeID) : Outcome bytes :=
  match Split (text (Committee_Address committee id)) colon !! 1%nat with
  | Some port => Ret (colon :: port)
  | None => Panic
  end.

Definition on_host (f : Logger.Host -> Outcome Logger.Host) : B unit := fun h =>
  match f h with Ret h' => Ret (tt, h', []) | Panic => Panic end.

(** The header of a log line; whether the [k]-th dial to an address succeeds; the order
    of the [range] over the committee; how many dials are looked at. *)
Context (header : nat -> bytes) (dial : string -> nat -> bool) (order : list NodeID) (fuel : nat).

Definition log (k : Logger.Logger) (s : bytes) : B unit := modify (Logger.Println header k s).

Definition newline : bytes := [x0a].
Definition bool_text (b : bool) : bytes := text (if b then "true" else "false").

(** One goroutine of the wait: dial until it succeeds.  [None]: it still tries. *)
Fixpoint dial_peer (fuel : nat) (dial : nat -> bool) (refused : nat) : option nat :=
  match fuel with
  | O => None
  | S fuel' => if dial refused then Some refused else dial_peer fuel' dial (S refused)
  end.

(** [wg.Wait()]: every goroutine is done. *)
Definition wait_online (addrs : list string) : option (list boot_ev) :=
  mapM (fun a => k ← dial_peer fuel (dial a) 0; Some (Online a k)) addrs.

Fixpoint emit_all (es : list boot_ev) : B unit :=
  match es with [] => mret tt | e :: es' => emit e;; emit_all es' end.

(** [Consensus], with the name of the protocol it logs and the [NewCore] of its package:
    the address the receiver listens at and the core that runs, or nothing as long as
    some peer is not online. *)
Definition Consensus {C : Type} (protocol : string)
    (NewCore : NodeID -> Committee -> Parameters -> SigService -> Store db -> Pool -> C)
    (id : NodeID) (committee : Committee) (parameters : Parameters) (txpool : Pool)
    (store : Store db) (sigService : SigService) : B (option (bytes * C)) :=
  log Logger.Info (text "Consensus Node ID: " ++ Itoa id ++ newline);;
  log Logger.Info (text "Consensus DDos: " ++ bool_text (DDos parameters) ++ text ", Faults: "
                     ++ Itoa (Faults parameters) ++ text " " ++ newline);;
  log Logger.Info (text protocol ++ newline);;
  (if id <? Faults parameters then log Logger.Info (text "Byzantine Node" ++ newline)
   else log Logger.Info (text "Honest Node" ++ newline));;
  addr ← lift_outcome (listen_addr committee id);
  emit GoSender;;
  emit (GoReceiver addr);;
  log Logger.Info (text "Waiting for all nodes to be online..." ++ newline);;
  emit (Sleep (int64 (1000000 * SyncTimeout parameters)));;
  match wait_online (BroadCast committee order id) with
  | None => mret None
  | Some peers =>
      emit_all peers;;
      emit PoolRun;;
      let core := NewCore id committee parameters sigService store txpool in
      emit GoCore;;
      mret (Some (addr, core))
  end.

Definition Mvba_Consensus := Consensus "Protocol: MVBA01" (MvbaCore.NewCore (db := db)).
Definition Smvba_Consensus := Consensus "Protocol: SMVBA" (SmvbaCore.NewCore (db := db)).
Definition Mercury_Consensus := Consensus "Protocol: Mercury" (MercuryCore.NewCore (db := db)).
Definition Vaba_Consensus := Consensus "Protocol VABA" (VabaCore.NewCore (db := db)).

(** What a node runs.  A number that names no protocol starts none. *)
Inductive Running :=
| RunMvba (addr : bytes) (c : MvbaCore.Core (db := db))
| RunSmvba (addr : bytes) (c : SmvbaCore.Core (db := db))
| RunMercury (addr : bytes) (c : MercuryCore.Core (db := db))
| RunVaba (addr : bytes) (c : VabaCore.Core (db := db))
| RunNothing.

(** The switch on [coreParameters.Protocol]. *)
Definition start_protocol (id : NodeID) (committee : Committee) (parameters : Parameters)
    (txpool : Pool) (store : Store db) (sigService : SigService) : B (option Running) :=
  if Protocol parameters =? MVBA then
    x ← Mvba_Consensus id committee parameters txpool store sigService;
    mret (uncurry RunMvba <$> x)
  else if Protocol parameters =? SMVBA then
    x ← Smvba_Consensus id committee parameters txpool store sigService;
    mret (uncurry RunSmvba <$> x)
  else if Protocol parameters =? MERCURY then
    x ← Mercury_Consensus id committee parameters txpool store sigService;
    mret (uncurry RunMercury <$> x)
  else if Protocol parameters =? VABA then
    x ← Vaba_Consensus id committee parameters txpool store sigService;
    mret (uncurry RunVaba <$> x)
  else mret (Some RunNothing).

(** [pool.NewPool] with what it logs; it makes a slice of [MaxQueueSize] transactions. *)
Definition make_pool (parameters : PoolParams.t) (N Id : Z) : B Pool :=
  let says what v := log Logger.Info (text "Transaction pool " ++ text what ++ text " set to "
                                        ++ Itoa v ++ text " " ++ newline) in
  says "queue capacity"%string (PoolParams.MaxQueueSize parameters);;
  says "tx size"%string (PoolParams.TxSize parameters);;
  says "batch size"%string (PoolParams.BatchSize parameters);;
  says "tx rate"%string (PoolParams.Rate parameters);;
  if PoolParams.MaxQueueSize parameters <? 0 then panic else mret (NewPool parameters N Id).

(** [encoding/json] on the threshold keys and on the parameters; opening the database;
    the paths a file can be written at; the text of an error. *)
Context (unjson_partial : bytes -> option TSPartialMarshalled)
        (unjson_public : bytes -> option TSPublicMarshalled)
        (unjson_params : bytes -> option ConfigParameters)
        (open : bytes -> Outcome db) (writable : bytes -> bool) (err_text : error -> bytes).

(** The next step of [NewNode], unless the last one has returned an error. *)
Definition or_error {A : Type} (m : Outcome (A + error)) (f : A -> B (option (Running + error))) :
    B (option (Running + error)) :=
  r ← lift_outcome m;
  match r with
  | inl a => f a
  | inr e => log Logger.Error (err_text e ++ newline);; mret (Some (inr e))
  end.

(** [NewNode]; no result as long as the protocol waits for its peers. *)
Definition NewNode (keysFile tssKeyFile committeeFile parametersFile storePath logPath : bytes)
    (logLevel nodeID : Z) : B (option (Running + error)) :=
  on_host (Logger.init_log writable logPath logLevel nodeID);;
  fs ← gets Logger.h_files;
  or_error (GenKeysFromFile fs keysFile) (fun keys =>
  or_error (GenTsKeyFromFile unjson_partial unjson_public fs tssKeyFile) (fun shareKey =>
  or_error (GenCommitteeFromFile fs committeeFile) (fun committee =>
  or_error (Ret (GenParamatersFromFile unjson_params fs parametersFile)) (fun parameters =>
    txpool ← make_pool parameters.1 (Committee_Size committee) nodeID;
    d ← lift_outcome (open storePath);
    r ← start_protocol nodeID committee parameters.2 txpool (NewStore d) (mkSigService keys.2 shareKey);
    match r with
    | None => mret None
    | Some run =>
        log Logger.Info (text "Node " ++ Itoa nodeID ++ text " successfully booted " ++ newline);;
        mret (Some (inl run))
    end)))).

End Boot.

(** ** Specifications *)

(** There is a second part exactly when the separator occurs. *)
Lemma Split_length (s : bytes) (sep : byte) : (0 < length (Split s sep))%nat.
Proof. destruct s as [|b s]; cbn; [lia|]. repeat case_match; cbn; lia. Qed.

Lemma Split_second (s : bytes) (sep : byte) : is_Some (Split s sep !! 1%nat) <-> sep ∈ s.
Proof.
  rewrite lookup_lt_is_Some. induction s as [|b s IH]; cbn [Split].
  { split; [cbn; lia|by intros ?%elem_of_nil]. }
  rewrite elem_of_cons, <-IH. pose proof (Split_length s sep) as Hl.
  destruct (Byte.eqb b sep) eqn:Hb.
  - apply Byte.byte_dec_bl in Hb as ->. cbn [length]. split; [by left|lia].
  - assert (b <> sep) as Hne by (intros ->; by rewrite Byte.byte_dec_lb in Hb).
    destruct (Split s sep) as [|w ws]; cbn [length] in *; [lia|].
    split; [auto|]. intros [->|?]; [done|lia].
Qed.

Lemma listen_addr_spec (c : Committee) (id : NodeID) :
  if bool_decide (colon ∈ text (Committee_Address c id))
  then exists port, listen_addr c id = Ret (colon :: port) else listen_addr c id = Panic.
Proof.
  unfold listen_addr. case_bool_decide as H; rewrite <-Split_second in H.
  - destruct H as [port ->]. eauto.
  - destruct (Split _ _ !! 1%nat); [by destruct H|done].
Qed.

(** *** Waiting for the peers *)

Section Wait.
Context (header : nat -> bytes) (dial : string -> nat -> bool) (order : list NodeID) (fuel : nat).

(** The loop ends with the first dial that succeeds, if it is one of the first [fuel]. *)
Lemma dial_peer_spec (d : nat -> bool) (f r : nat) :
  match dial_peer f d r with
  | Some k => (r <= k < r + f)%nat /\ d k = true /\ forall j, (r <= j < k)%nat -> d j = false
  | None => forall j, (r <= j < r + f)%nat -> d j = false
  end.
Proof using Type.
  revert r. induction f as [|f IH]; intros r; cbn [dial_peer]; [lia|].
  destruct (d r) eqn:Hr; [split_and!; [lia..|done|lia]|].
  specialize (IH (S r)). destruct (dial_peer f d (S r)) as [k|].
  - destruct IH as (? & ? & IH). split_and!; [lia..|done|]. intros j Hj.
    destruct (decide (j = r)) as [->|]; [done|]. apply IH. lia.
  - intros j Hj. destruct (decide (j = r)) as [->|]; [done|]. apply IH. lia.
Qed.

(** A connection made after the refused ones. *)
Definition connected (a : string) (e : boot_ev) : Prop :=
  exists k, e = Online a k /\ dial a k = true /\ forall j, (j < k)%nat -> dial a j = false.

(** The peers that accept a connection in time. *)
Definition answers (a : string) : Prop := exists k, (k < fuel)%nat /\ dial a k = true.

(** The wait ends when every peer has accepted a connection, and only then. *)
Lemma wait_online_spec (addrs : list string) :
  match wait_online dial fuel addrs with
  | Some es => Forall2 connected addrs es /\ Forall answers addrs
  | None => ~ Forall answers addrs
  end.
Proof using Type.
  unfold wait_online. induction addrs as [|a addrs IH]; cbn; [by split; constructor|].
  pose proof (dial_peer_spec (dial a) fuel 0) as Ha. destruct (dial_peer fuel (dial a) 0) as [k|]; cbn.
  - destruct (mapM _ addrs) as [es|]; cbn.
    + destruct IH, Ha as (? & ? & Hj). split; constructor; try done.
      * exists k. split_and!; [done..|]. intros j ?. apply Hj. lia.
      * exists k. split; [lia|done].
    + by intros [_ ?]%Forall_cons.
  - intros [(k & Hk & Hd) _]%Forall_cons. rewrite Ha in Hd by lia. done.
Qed.

Lemma emit_all_eq (es : list boot_ev) (h : Logger.Host) : emit_all es h = Ret (tt, h, es).
Proof using Type.
  revert h. induction es as [|e es IH]; intros h; [done|].
  cbn [emit_all]. unfold mbind, M_bind, emit. by rewrite IH.
Qed.

(** What a start does until the wait, and after it. *)
Definition preparing (addr : bytes) (p : Parameters) : list boot_ev :=
  [GoSender; GoReceiver addr; Sleep (int64 (1000000 * SyncTimeout p))].

Lemma Consensus_spec {E : Ed25519} {K : Kyber} {db C : Type} (protocol : string)
    (NewCore : NodeID -> Committee -> Parameters -> SigService -> Store db -> Pool -> C)
    (id : NodeID) (c : Committee) (p : Parameters) (txpool : Pool) (st : Store db) (sig : SigService)
    (h : Logger.Host) : exists h',
  Consensus header dial order fuel protocol NewCore id c p txpool st sig h =
  match listen_addr c id with
  | Panic => Panic
  | Ret addr =>
      match wait_online dial fuel (BroadCast c order id) with
      | None => Ret (None, h', preparing addr p)
      | Some peers => Ret (Some (addr, NewCore id c p sig st txpool), h',
                           preparing addr p ++ peers ++ [PoolRun; GoCore])
      end
  end.
Proof using Type.
  unfold Consensus, log, modify, emit, lift_outcome, mbind, M_bind.
  destruct (id <? Faults p), (listen_addr c id) as [addr|]; cbn; try by exists h.
  all: destruct (wait_online _ _ _) as [peers|]; [rewrite emit_all_eq|]; cbn; eexists; reflexivity.
Qed.
End Wait.

(** *** NewNode *)

Section NewNodeSpec.
Context {E : Ed25519} {K : Kyber} {R : MathRand} {J : Json} {db : Type}.
Context (header : nat -> bytes) (dial : string -> nat -> bool) (order : list NodeID) (fuel : nat).
Context (unpartial : bytes -> option TSPartialMarshalled) (unpublic : bytes -> option TSPublicMarshalled)
        (unparams : bytes -> option ConfigParameters) (open : bytes -> Outcome db) (writable : bytes -> bool)
        (err_text : error -> bytes).

(** The core of the protocol the parameters name. *)
Definition running (id : NodeID) (c : Committee) (p : Parameters) (txpool : Pool) (st : Store db)
    (sig : SigService) (addr : bytes) : Running (db := db) :=
  if Protocol p =? MVBA then RunMvba addr (MvbaCore.NewCore id c p sig st txpool)
  else if Protocol p =? SMVBA then RunSmvba addr (SmvbaCore.NewCore id c p sig st txpool)
  else if Protocol p =? MERCURY then RunMercury addr (MercuryCore.NewCore id c p sig st txpool)
  else if Protocol p =? VABA then RunVaba addr (VabaCore.NewCore id c p sig st txpool)
  else RunNothing.

(** What starting a protocol of the four does, and what it leaves running. *)
Lemma start_protocol_spec (id : NodeID) (c : Committee) (p : Parameters) (txpool : Pool) (st : Store db)
    (sig : SigService) (h : Logger.Host) :
  MVBA <= Protocol p <= MERCURY -> exists h',
    start_protocol header dial order fuel id c p txpool st sig h =
    match listen_addr c id with
    | Panic => Panic
    | Ret addr =>
        match wait_online dial fuel (BroadCast c order id) with
        | None => Ret (None, h', preparing addr p)
        | Some peers => Ret (Some (running id c p txpool st sig addr), h',
                             preparing addr p ++ peers ++ [PoolRun; GoCore])
        end
    end.
Proof using E.
  intros Hp. unfold start_protocol, running, Mvba_Consensus, Smvba_Consensus, Mercury_Consensus, Vaba_Consensus.
  assert (Protocol p = MVBA \/ Protocol p = SMVBA \/ Protocol p = MERCURY \/ Protocol p = VABA) as Hc
    by (unfold MVBA, SMVBA, MERCURY, VABA in *; lia).
  destruct Hc as [-> | [-> | [-> | ->]]]; cbn [Z.eqb Pos.eqb MVBA SMVBA MERCURY VABA];
    match goal with |- context [Consensus _ _ _ _ ?t ?N _ _ _ _ _ _] =>
      destruct (Consensus_spec header dial order fuel t N id c p txpool st sig h) as [h' Hs]
    end; exists h'; unfold mbind, M_bind; rewrite Hs;
    (destruct (listen_addr c id); [|done]); destruct (wait_online _ _ _); cbn; by rewrite ?app_nil_r.
Qed.

Lemma start_protocol_none (id : NodeID) (c : Committee) (p : Parameters) (txpool : Pool) (st : Store db)
    (sig : SigService) (h : Logger.Host) :
  ~ MVBA <= Protocol p <= MERCURY ->
  start_protocol header dial order fuel id c p txpool st sig h = Ret (Some RunNothing, h, []).
Proof using E.
  intros Hp. unfold start_protocol. unfold MVBA, SMVBA, MERCURY, VABA in *. by repeat (case_bool; [lia|]).
Qed.

(** With files that are read, a node comes as far as its protocol. *)
Lemma NewNode_reads (h : Logger.Host) (kf tf cf pf store logPath : bytes) (level id : Z) (d : db)
    (keys : PublickKey * PrivateKey) (share : SecretShareKey) (c : Committee) (pool : PoolParams.t)
    (params : Parameters) (fs : files) :
  Logger.wired h -> (forall k, writable (Logger.log_file logPath id k) = true) ->
  fs = Logger.touched logPath id (Logger.h_files h) ->
  GenKeysFromFile fs kf = Ret (inl keys) -> GenTsKeyFromFile unpartial unpublic fs tf = Ret (inl share) ->
  GenCommitteeFromFile fs cf = Ret (inl c) -> GenParamatersFromFile unparams fs pf = inl (pool, params) ->
  0 <= PoolParams.MaxQueueSize pool -> open store = Ret d -> exists h1 f,
    NewNode header dial order fuel unpartial unpublic unparams open writable err_text kf tf cf pf store logPath
      level id h =
    match start_protocol header dial order fuel id c params (NewPool pool (Committee_Size c) id) (NewStore d)
            (mkSigService keys.2 share) h1 with
    | Panic => Panic
    | Ret (None, h2, es) => Ret (None, h2, es)
    | Ret (Some r, h2, es) => Ret (Some (inl r), f h2, es)
    end.
Proof using Type.
  intros Hw Hl -> Hk Ht Hc Hp Hq Ho.
  destruct (Logger.init_log_spec writable logPath level id Hl h Hw) as (h0 & Hi & _ & _ & Hfs & _).
  unfold NewNode, on_host, mbind at 1, M_bind at 1. rewrite Hi. cbn [app].
  unfold gets, mbind at 1, M_bind at 1. rewrite Hfs.
  unfold or_error, make_pool, lift_outcome, log, modify, panic, mbind, M_bind.
  rewrite Hk, Ht, Hc, Hp, Ho. cbn [fst snd app]. rewrite (proj2 (Z.ltb_ge _ _)) by done.
  cbn [mret M_ret app].
  match goal with |- exists h1 f, match ?m with _ => _ end = _ =>
    lazymatch m with context [start_protocol _ _ _ _ _ _ _ _ _ _ ?H] => exists H end end.
  eexists. destruct (start_protocol _ _ _ _ _ _ _ _ _ _ _) as [[[[r|] h2] es]|]; cbn;
    [by rewrite !app_nil_r..|done].
Qed.

(** A node that is not a member, or whose address has no port, does not start; one with a
    peer that does not accept connections waits, without an end if it never does. *)
Lemma NewNode_not_ready (h : Logger.Host) (kf tf cf pf store logPath : bytes) (level id : Z) (d : db)
    (keys : PublickKey * PrivateKey) (share : SecretShareKey) (c : Committee) (pool : PoolParams.t)
    (params : Parameters) (fs : files) :
  Logger.wired h -> (forall k, writable (Logger.log_file logPath id k) = true) ->
  fs = Logger.touched logPath id (Logger.h_files h) ->
  GenKeysFromFile fs kf = Ret (inl keys) -> GenTsKeyFromFile unpartial unpublic fs tf = Ret (inl share) ->
  GenCommitteeFromFile fs cf = Ret (inl c) -> GenParamatersFromFile unparams fs pf = inl (pool, params) ->
  0 <= PoolParams.MaxQueueSize pool -> open store = Ret d -> MVBA <= Protocol params <= MERCURY ->
  let node := NewNode header dial order fuel unpartial unpublic unparams open writable err_text kf tf cf pf store
                logPath level id h in
  (colon ∉ text (Committee_Address c id) -> node = Panic) /\
  (colon ∈ text (Committee_Address c id) -> ~ Forall (answers dial fuel) (BroadCast c order id) ->
   exists h' es, node = Ret (None, h', es) /\ GoCore ∉ es).
Proof using E.
  intros Hw Hl Hfs Hk Ht Hc Hp Hq Ho Hpr node.
  destruct (NewNode_reads h kf tf cf pf store logPath level id d keys share c pool params fs)
    as (h1 & f & Hn); [done..|]. subst node. rewrite Hn.
  destruct (start_protocol_spec id c params (NewPool pool (Committee_Size c) id) (NewStore d)
    (mkSigService keys.2 share) h1 Hpr) as (h' & ->).
  pose proof (listen_addr_spec c id) as Ha. split; intros Hcol.
  - rewrite bool_decide_false in Ha by done. by rewrite Ha.
  - rewrite bool_decide_true in Ha by done. destruct Ha as [port ->]. intros Hno.
    pose proof (wait_online_spec dial fuel (BroadCast c order id)) as Hs.
    destruct (wait_online _ _ _); [by destruct Hs|]. do 2 eexists. split; [done|].
    unfold preparing. intros Hin. repeat (apply elem_of_cons in Hin as [?|Hin]; [done|]). by apply elem_of_nil in Hin.
Qed.
End NewNodeSpec.

(** ** Deployment *)

Section Deploy.
Context {E : Ed25519} {K : Kyber} {R : MathRand} {J : Json} {db : Type}.
Context `{!Ed25519Laws E} `{!KyberLaws K} `{!JsonLaws J}.
Context (json_partial : TSPartialMarshalled -> option bytes) (unjson_partial : bytes -> option TSPartialMarshalled)
        (json_public : TSPublicMarshalled -> option bytes) (unjson_public : bytes -> option TSPublicMarshalled)
        (unjson_params : bytes -> option ConfigParameters) (writable : bytes -> bool).

(** The keys drawn for [n] nodes, their committee, and where its files are. *)
Context (keys : nat -> bytes * bytes) (n : nat) (shares : nat -> PriShare) (pub : PubPoly) (T : Z)
        (c : Committee) (path cfile pfile : bytes).

(** The two key commands of src/main.go, and the file of the committee. *)
Definition deploy (fs : files) : Outcome files :=
  fs1 ← GenerateKeyFiles writable keys n path fs;
  fs2 ← GenerateTsKeyFiles writable json_partial json_public shares pub n T path fs1;
  savetoFile writable fs2 cfile (committee_json c).

(** The committee lists the [n] nodes under their numbers, with the keys drawn for them
    and addresses with a port; the files can be written and are different ones; the
    parameters are there. *)
Record deployable (fs : files) (p : ConfigParameters) : Prop := {
  dp_size : Z.of_nat n <= 2 ^ 53;
  dp_threshold : 0 <= T <= 2 ^ 53;
  dp_keys : forall i, (i < n)%nat -> length (keys i).1 = 64%nat /\ (keys i).2 = ed_Public (keys i).1;
  dp_shares : forall i, (i < n)%nat -> is_Some (EncodeTSPartialKey json_partial (shares i));
  dp_pub : is_Some (EncodeTSPublicKey json_public pub);
  dp_sign : forall sh m, is_Some (tbls_Sign sh m);
  dp_listed : forall i, (i < n)%nat -> is_Some (Authorities c !! Z.of_nat i);
  dp_members : forall id a, Authorities c !! id = Some a ->
    member_ok id a /\ colon ∈ text (Authority_Addr a) /\
    exists i, (i < n)%nat /\ id = Z.of_nat i /\ Authority_Name a = mkPublickKey (keys i).2;
  dp_writable : writable cfile = true /\
    forall i, (i < n)%nat -> writable (key_file path i) = true /\ writable (ts_key_file path i) = true;
  dp_files : cfile <> pfile /\ forall i, (i < n)%nat ->
    cfile <> key_file path i /\ cfile <> ts_key_file path i /\
    pfile <> key_file path i /\ pfile <> ts_key_file path i;
  dp_params : exists content, fs !! pfile = Some content /\ unjson_params content = Some p;
  dp_queue : 0 <= PoolParams.MaxQueueSize (cfg_Pool p)
}.

(** The configuration of a node, and its protocol's initial state. *)
Definition setting_of (i : nat) : setting :=
  mkSetting (Z.of_nat i) c
    (mkSigService (mkPrivateKey (keys i).1) (mkSecretShareKey pub (shares i) (Z.of_nat n) T)).

Definition booted (st : setting) (p : ConfigParameters) (d : db) (addr : bytes) : Running (db := db) :=
  let boots {C : Type} (boot : setting -> Parameters -> Store db -> PoolParams.t -> Z -> Z -> C) : C :=
    boot st (cfg_Consensus p) (NewStore d) (cfg_Pool p) (Committee_Size (s_com st)) (s_name st) in
  if Protocol (cfg_Consensus p) =? MVBA then RunMvba addr (boots MvbaSafety.boot)
  else if Protocol (cfg_Consensus p) =? SMVBA then RunSmvba addr (boots SmvbaSafety.boot)
  else if Protocol (cfg_Consensus p) =? MERCURY then RunMercury addr (boots MercurySafety.boot)
  else if Protocol (cfg_Consensus p) =? VABA then RunVaba addr (boots VabaSafety.boot)
  else RunNothing.

Section Deployable.
Context (fs : files) (p : ConfigParameters) (Hd : deployable fs p).

Lemma deploy_files :
  exists fs', deploy fs = Ret fs' /\
    (forall i, (i < n)%nat -> exists old,
       fs' !! key_file path i = Some (overwrite (json_encode (key_json (keys i).1 (keys i).2)) old)) /\
    (forall i, (i < n)%nat -> exists old, fs' !! ts_key_file path i = Some (overwrite (json_encode
       (ts_key_json json_partial json_public (shares i) pub (Z.of_nat n) T)) old)) /\
    (exists old, fs' !! cfile = Some (overwrite (json_encode (committee_json c)) old)) /\
    fs' !! pfile = fs !! pfile.
Proof using Hd.
  pose proof (dp_size _ _ Hd) as Hn. destruct (dp_writable _ _ Hd) as [Hwc Hw].
  destruct (dp_files _ _ Hd) as [Hcp Hf].
  destruct (save_all_spec writable (key_file path) (fun i => key_json (keys i).1 (keys i).2) n 0 fs)
    as (fs1 & H1 & Hin1 & Hout1); [intros j k ? ?; apply key_file_inj; lia|intros j ?; apply Hw; lia|].
  destruct (save_all_spec writable (ts_key_file path)
    (fun i => ts_key_json json_partial json_public (shares i) pub (Z.of_nat n) T) n 0 fs1)
    as (fs2 & H2 & Hin2 & Hout2); [intros j k ? ?; apply ts_key_file_inj; lia|intros j ?; apply Hw; lia|].
  eexists. split.
  { unfold deploy, GenerateKeyFiles. rewrite H1. cbn [mbind Outcome_bind]. unfold GenerateTsKeyFiles.
    rewrite H2. cbn [mbind Outcome_bind]. unfold savetoFile. rewrite Hwc. reflexivity. }
  split_and!.
  - intros i Hi. rewrite lookup_insert_ne by apply Hf, Hi. rewrite Hout2; [apply Hin1; lia|].
    intros j _. apply key_file_not_ts.
  - intros i Hi. rewrite lookup_insert_ne by apply Hf, Hi. apply Hin2. lia.
  - eexists. by rewrite lookup_insert_eq.
  - rewrite lookup_insert_ne by done.
    rewrite Hout2, Hout1; [done|..]; intros j Hj; apply (Hf j); lia.
Qed.

Lemma deploy_members : members c = list_to_set (Z.of_nat <$> seq 0 n).
Proof using Hd.
  apply set_eq. intros id. unfold members.
  rewrite elem_of_dom, elem_of_list_to_set, list_elem_of_fmap. split.
  - intros [a Ha]. destruct (dp_members _ _ Hd _ _ Ha) as (_ & _ & i & Hi & -> & _).
    exists i. split; [done|]. apply elem_of_seq. lia.
  - intros (i & -> & Hi%elem_of_seq). apply (dp_listed _ _ Hd). lia.
Qed.

Lemma deploy_dense : dense c.
Proof using Hd.
  assert (Committee_Size c = Z.of_nat n) as Hs.
  { unfold Committee_Size. f_equal. rewrite <-size_dom. change (dom (Authorities c)) with (members c).
    rewrite deploy_members, size_list_to_set, length_fmap, length_seq; [done|].
    apply NoDup_fmap_2; [apply _|apply NoDup_seq]. }
  intros id Hid. rewrite deploy_members, elem_of_list_to_set, list_elem_of_fmap in Hid.
  destruct Hid as (i & -> & Hi%elem_of_seq). lia.
Qed.

Lemma deploy_setting (i : nat) : (i < n)%nat -> setting_ok (setting_of i).
Proof using Hd Ed25519Laws0.
  intros Hi. destruct (dp_listed _ _ Hd i Hi) as [a Ha].
  assert (Committee_Name c (Z.of_nat i) = mkPublickKey (keys i).2) as Hname.
  { unfold Committee_Name. rewrite Ha. change (default Authority0 (Some a)) with a.
    destruct (dp_members _ _ Hd _ _ Ha) as (_ & _ & j & _ & Hj%Nat2Z.inj & ->). by subst j. }
  split; cbn [setting_of s_name s_com s_srv].
  - unfold members. by apply elem_of_dom.
  - intros id Hid. unfold members in Hid. apply elem_of_dom in Hid as [b Hb].
    unfold Committee_Name. rewrite Hb. change (default Authority0 (Some b)) with b.
    destruct (dp_members _ _ Hd _ _ Hb) as (_ & _ & j & Hj & _ & ->). cbn [Pubkey].
    destruct (dp_keys _ _ Hd j Hj) as [Hl ->]. by apply ed_public_size.
  - rewrite Hname. by split; apply (dp_keys _ _ Hd).
  - apply (dp_sign _ _ Hd).
Qed.

Lemma deploy_listens (i : nat) : (i < n)%nat -> exists addr, listen_addr c (Z.of_nat i) = Ret addr.
Proof using Hd.
  intros Hi. destruct (dp_listed _ _ Hd i Hi) as [a Ha].
  pose proof (listen_addr_spec c (Z.of_nat i)) as Hl. rewrite bool_decide_true in Hl; [by destruct Hl; eauto|].
  unfold Committee_Address. rewrite Ha. by apply (dp_members _ _ Hd _ _ Ha).
Qed.
End Deployable.

Lemma touched_keeps (logPath : bytes) (id : Z) (fs : files) (f content : bytes) :
  fs !! f = Some content -> Logger.touched logPath id fs !! f = Some content.
Proof. intros Hf. unfold Logger.touched. by do 4 apply Logger.touch_keeps. Qed.

(** The database opens, the log files can be written, and every member accepts a
    connection in time. *)
Record surroundings (open : bytes -> Outcome db) (dial : string -> nat -> bool) (order : list NodeID)
    (fuel : nat) (store logPath : bytes) (d : db) : Prop := {
  sr_open : open store = Ret d;
  sr_logs : forall i k, (i < n)%nat -> writable (Logger.log_file logPath (Z.of_nat i) k) = true;
  sr_order : order ≡ₚ (map_to_list (Authorities c)).*1;
  sr_answers : forall id a, Authorities c !! id = Some a -> answers dial fuel (Authority_Addr a)
}.

(** What a node's start does: the goroutines of the network, the sleep, a connection to
    every other member after the refused ones, and only then the pool and the core. *)
Definition started (dial : string -> nat -> bool) (order : list NodeID) (id : NodeID) (p : Parameters)
    (addr : bytes) (es : list boot_ev) : Prop :=
  exists peers, es = preparing addr p ++ peers ++ [PoolRun; GoCore] /\
    Forall2 (connected dial) (BroadCast c order id) peers.

Lemma peers_answer open dial order fuel store logPath (d : db) (id : NodeID) :
  surroundings open dial order fuel store logPath d -> Forall (answers dial fuel) (BroadCast c order id).
Proof.
  intros Hs. unfold BroadCast. apply Forall_fmap, Forall_forall. intros j [_ Hj]%list_elem_of_filter.
  rewrite (sr_order _ _ _ _ _ _ _ Hs) in Hj. apply list_elem_of_fmap in Hj as ([j' a] & -> & Ha%elem_of_map_to_list).
  cbn. unfold Committee_Address. rewrite Ha. by eapply (sr_answers _ _ _ _ _ _ _ Hs).
Qed.

(** Every node of a deployment boots.  After the commands that generate the files of
    [n] nodes, each node's files give it the keys, the committee and the parameters that
    were meant for it; it is correctly configured, and it starts the protocol the
    parameters name in the state from which the theorems on that protocol's nodes start.
    It does so after it has connected to every other member once, and not before.  A
    number that names no protocol starts none, and the node is reported as booted. *)
Lemma node_boots (header : nat -> bytes) (err_text : error -> bytes) (open : bytes -> Outcome db)
    (dial : string -> nat -> bool) (order : list NodeID) (fuel : nat) (store logPath : bytes) (logLevel : Z)
    (fs : files) (p : ConfigParameters) (d : db) :
  ts_codec json_partial unjson_partial json_public unjson_public -> deployable fs p ->
  surroundings open dial order fuel store logPath d ->
  exists fs', deploy fs = Ret fs' /\ dense c /\
    forall i, (i < n)%nat -> setting_ok (setting_of i) /\ exists addr h es,
      NewNode header dial order fuel unjson_partial unjson_public unjson_params open writable err_text
        (key_file path i) (ts_key_file path i) cfile pfile store logPath logLevel (Z.of_nat i)
        (Logger.start fs') = Ret (Some (inl (booted (setting_of i) p d addr)), h, es) /\
      if decide (MVBA <= Protocol (cfg_Consensus p) <= MERCURY)
      then started dial order (Z.of_nat i) (cfg_Consensus p) addr es else es = [].
Proof using Type*.
  intros Hcodec Hd Hsr. destruct (deploy_files fs p Hd) as (fs' & Hdep & Hk & Ht & [oc Hc] & Hp).
  exists fs'. split_and!; [done|by eapply deploy_dense|]. intros i Hi.
  split; [by eapply deploy_setting|]. destruct (deploy_listens fs p Hd i Hi) as [addr Ha]. exists addr.
  destruct (Hk i Hi) as [ok Hki], (Ht i Hi) as [ot Hti]. pose proof (dp_size _ _ Hd) as Hn.
  pose proof (dp_threshold _ _ Hd) as HT. destruct (dp_params _ _ Hd) as (content & Hpf & Hpp).
  rewrite <-Hp in Hpf. apply (touched_keeps logPath (Z.of_nat i)) in Hki, Hti, Hc, Hpf.
  edestruct (NewNode_reads header dial order fuel unjson_partial unjson_public unjson_params open writable
    err_text (Logger.start fs') (key_file path i) (ts_key_file path i) cfile pfile store logPath logLevel
    (Z.of_nat i) d) as (h1 & f & ->); [done|intros; by apply (sr_logs _ _ _ _ _ _ _ Hsr)|done|..].
  { apply (GenKeysFromFile_saved _ _ _ _ _ Hki). }
  { apply (GenTsKeyFromFile_saved _ _ _ _ Hcodec _ _ ot (shares i) pub (Z.of_nat n) T);
      [by apply (dp_shares _ _ Hd)|apply (dp_pub _ _ Hd)|lia|exact HT|exact Hti]. }
  { eapply GenCommitteeFromFile_saved; [by intros; eapply dp_members|exact Hc]. }
  { unfold GenParamatersFromFile. cbn [Logger.h_files Logger.start]. by rewrite Hpf, Hpp. }
  { apply (dp_queue _ _ Hd). }
  { apply (sr_open _ _ _ _ _ _ _ Hsr). }
  cbn [fst snd]. case_decide as Hpr.
  2: { rewrite start_protocol_none by done. do 2 eexists. split; [|done].
       unfold booted, MVBA, SMVBA, MERCURY, VABA in *. by repeat (case_bool; [lia|]). }
  destruct (start_protocol_spec header dial order fuel (Z.of_nat i) c (cfg_Consensus p)
    (NewPool (cfg_Pool p) (Committee_Size c) (Z.of_nat i)) (NewStore d) (s_srv (setting_of i)) h1 Hpr)
    as (h' & Hstart). cbn [setting_of s_srv] in Hstart. rewrite Hstart, Ha.
  pose proof (wait_online_spec dial fuel (BroadCast c order (Z.of_nat i))) as Hw.
  destruct (wait_online _ _ _) as [peers|]; [|by destruct Hw; eapply peers_answer].
  do 2 eexists. split; [|by exists peers; destruct Hw]. reflexivity.
Qed.
End Deploy.

(** ** Witness *)

Section Witness.
Import ToyCrypto ToyNode ToyJson ToyRand.

(** Four nodes of the default committee, with the default parameters in a file. *)
Definition toy_parameters : bytes := text "parameters".
Definition toy_unparams (b : bytes) : option ConfigParameters := Some GenDefaultParameters.
Definition toy_shares (i : nat) : PriShare := @mkPriShare toy_kyber 1 x00.
Definition toy_pub : PubPoly := @mkPubPoly toy_kyber x00 [x00].
Definition toy_cfile : bytes := text "./.committee.json".
Definition toy_disk : gmap bytes bytes := {[ toy_parameters := [] ]}.

Lemma toy_names (i : nat) :
  toy_cfile <> key_file (text ".") i /\ toy_cfile <> ts_key_file (text ".") i /\
  toy_parameters <> key_file (text ".") i /\ toy_parameters <> ts_key_file (text ".") i.
Proof. by split_and!. Qed.

Lemma toy_addr_colon (i : nat) : colon ∈ text (Authority_Addr (default_authority toy_keys i)).
Proof.
  unfold default_authority, text. cbn [Authority_Addr]. rewrite String.list_byte_of_string_of_list_byte.
  apply elem_of_app. left. apply (bool_decide_eq_true_1 _). by vm_compute.
Qed.

Lemma toy_deployable :
  deployable (E := toy_ed25519) toy_partial toy_public toy_unparams anywhere toy_keys 4 toy_shares toy_pub 3
    (default_committee toy_keys 4) (text ".") toy_cfile toy_parameters toy_disk GenDefaultParameters.
Proof.
  split.
  - lia.
  - lia.
  - intros i _. split; reflexivity.
  - intros i _. by eexists.
  - by eexists.
  - intros sh m. by eexists.
  - intros i Hi. exists (default_authority toy_keys i). apply default_committee_lookup. eauto.
  - intros id a (i & Hi & -> & ->)%default_committee_lookup.
    split_and!; [by apply (default_member_ok toy_keys 4)|apply toy_addr_colon|by exists i].
  - by split.
  - split; [done|]. intros i _. apply toy_names.
  - by exists [].
  - by vm_compute.
Qed.

Definition toy_order : list NodeID := (map_to_list (Authorities (default_committee toy_keys 4))).*1.

Lemma toy_surroundings :
  surroundings anywhere 4 (default_committee toy_keys 4) (fun _ => Ret (∅ : gmap bytes bytes))
    (fun _ k => (2 <=? k)%nat) toy_order 5 [] (text "logs") ∅.
Proof. split; try done. intros id a _. exists 2%nat. split; [lia|done]. Qed.

End Witness.
