(* ===== verification/Main.v ===== *)
(** * main: the command line

    Models src/main.go: the flags with their defaults, the four commands and the panics on
    errors.  Parsing the arguments is cobra's ([parse]).  The theorem composes the
    commands as a deployment does: the key files one process writes, those of the
    threshold keys another, and then a process for each node. *)

From Stdlib Require Import Strings.Byte.
From stdpp Require Import strings.
From S2P Require Import Prelude GoStd Crypto Committee Store Pool Config Logger.
From S2P Require Import SmvbaSafety MvbaElector MvbaSafety Boot.

Open Scope Z_scope.

(** ** Definitions *)

(** The variables the flags are stored in. *)
Record flags := mkFlags {
  f_loglevel : Z; f_nodes : Z; f_N : Z; f_T : Z; f_nodeID : Z;
  f_path : bytes; f_keyFile : bytes; f_tssKeyFile : bytes; f_committeeFile : bytes;
  f_parametersFile : bytes; f_storePath : bytes; f_logPath : bytes
}.

Definition default_flags : flags := mkFlags Logger.DeployLevel 4 4 3 0 [] [] [] [] [] [] [].

(** The commands; [RootCmd] and [deployCmd] have no [Run]. *)
Inductive Command := RootCmd | KeyCmd | TssKeyCmd | RunCmd | DeployCmd.

Section Main.
Context {E : Ed25519} {K : Kyber} {S : Sharing K} {R : MathRand} {J : Json} {db : Type}.

(** How a process ends or goes on: it has printed its usage, it has written files, or it
    runs a node and waits in [AnalyzeBlock]. *)
Inductive Process :=
| Usage
| Generated
| Serving (r : Running (db := db)).

(** [encoding/json] on the threshold keys. *)
Context (json_partial : TSPartialMarshalled -> option bytes) (unjson_partial : bytes -> option TSPartialMarshalled)
        (json_public : TSPublicMarshalled -> option bytes) (unjson_public : bytes -> option TSPublicMarshalled)
        (unjson_params : bytes -> option ConfigParameters).
(** The surroundings of a process. *)
Context (header : nat -> bytes) (err_text : error -> bytes) (writable : bytes -> bool)
        (open : bytes -> Outcome db) (dial : string -> nat -> bool) (order : list NodeID) (fuel : nat).
(** The random draws of the key generators. *)
Context (draws : nat -> option (bytes * bytes)) (stream1 stream2 : RandomStream).

(** [config.GenerateKeyFiles] with its draws: a failed one panics. *)
Definition key_cmd (f : flags) : B unit :=
  let pairs := Z.to_nat (f_nodes f) in
  lift_outcome (foldr (fun i rest => _ ← GenED25519Keys (draws i); rest) (Ret tt) (seq 0 pairs));;
  let keys i := match GenED25519Keys (draws i) with Ret k => k | Panic => ([], []) end in
  on_host (fun h => fs ← GenerateKeyFiles writable keys pairs (f_path f) (Logger.h_files h);
                    mret (h <| Logger.h_files := fs |>)).

(** [config.GenerateTsKeyFiles] with its draws: [shares[i]] out of range panics. *)
Definition tss_key_cmd (f : flags) : B unit :=
  x ← lift_outcome (GenTSKeys stream1 stream2 (f_T f) (f_N f));
  let N := Z.to_nat (f_N f) in
  match x.1 with
  | [] => if bool_decide (N = 0%nat) then mret tt else panic
  | s0 :: _ =>
      if bool_decide (length x.1 < N)%nat then panic
      else on_host (fun h => fs ← GenerateTsKeyFiles writable json_partial json_public
                                    (fun i => default s0 (x.1 !! i)) x.2 N (f_T f) (f_path f) (Logger.h_files h);
                             mret (h <| Logger.h_files := fs |>))
  end.

Definition run_cmd (f : flags) : B (option Process) :=
  r ← NewNode header dial order fuel unjson_partial unjson_public unjson_params open writable err_text
        (f_keyFile f) (f_tssKeyFile f) (f_committeeFile f) (f_parametersFile f) (f_storePath f) (f_logPath f)
        (f_loglevel f) (f_nodeID f);
  match r with
  | None => mret None
  | Some (inr err) => log header Logger.Error (err_text err ++ newline);; panic
  | Some (inl node) => mret (Some (Serving node))
  end.

(** [main] on what cobra makes of the arguments. *)
Definition main (parsed : (Command * flags) + error) : B (option Process) :=
  match parsed with
  | inr err => log header Logger.Error (err_text err ++ newline);; panic
  | inl (RootCmd, _) | inl (DeployCmd, _) => mret (Some Usage)
  | inl (KeyCmd, f) => key_cmd f;; mret (Some Generated)
  | inl (TssKeyCmd, f) => tss_key_cmd f;; mret (Some Generated)
  | inl (RunCmd, f) => run_cmd f
  end.

End Main.

(** ** Deployment *)

Section Deploy.
Context {E : Ed25519} {K : Kyber} {S : Sharing K} {R : MathRand} {J : Json} {db : Type}.
Context `{!Ed25519Laws E} `{!KyberLaws K} `{!JsonLaws J}.
Context (json_partial : TSPartialMarshalled -> option bytes) (unjson_partial : bytes -> option TSPartialMarshalled)
        (json_public : TSPublicMarshalled -> option bytes) (unjson_public : bytes -> option TSPublicMarshalled)
        (unjson_params : bytes -> option ConfigParameters).
Context (header : nat -> bytes) (err_text : error -> bytes) (writable : bytes -> bool)
        (open : bytes -> Outcome db) (dial : string -> nat -> bool) (order : list NodeID) (fuel : nat).
Context (draws : nat -> option (bytes * bytes)) (stream1 stream2 : RandomStream).

Abbreviation command := (main json_partial unjson_partial json_public unjson_public unjson_params header err_text
                           writable open dial order fuel draws stream1 stream2).

(** The keys drawn for [n] nodes, their committee, and where its files are. *)
Context (keys : nat -> bytes * bytes) (n : nat) (shares : nat -> PriShare) (pub : PubPoly) (T : Z)
        (c : Committee) (path cfile pfile store logPath : bytes) (level : Z).

(** The flags of the three commands. *)
Definition key_flags : flags :=
  mkFlags Logger.DeployLevel (Z.of_nat n) 4 3 0 path [] [] [] [] [] [].
Definition tss_flags : flags :=
  mkFlags Logger.DeployLevel 4 (Z.of_nat n) T 0 path [] [] [] [] [] [].
Definition run_flags (i : nat) : flags :=
  mkFlags level 4 4 3 (Z.of_nat i) [] (key_file path i) (ts_key_file path i) cfile pfile store logPath.

(** What the generators return. *)
Record generated : Prop := {
  gn_some : (0 < n)%nat;
  gn_keys : forall i, (i < n)%nat -> draws i = Some ((keys i).2, (keys i).1);
  gn_shares : GenTSKeys stream1 stream2 T (Z.of_nat n) = Ret (shares <$> seq 0 n, pub)
}.

Lemma save_all_ext (file : nat -> bytes) (data data' : nat -> json) (m i : nat) (fs : files) :
  (forall j, (i <= j < i + m)%nat -> data j = data' j) ->
  save_all writable file data m i fs = save_all writable file data' m i fs.
Proof using Type.
  revert i fs. induction m as [|m IH]; intros i fs Hd; cbn [save_all]; [done|].
  rewrite Hd by lia. unfold mbind, Outcome_bind. destruct (savetoFile _ _ _ _); [|done].
  apply IH. intros j Hj. apply Hd. lia.
Qed.

Section Generated.
Context (Hg : generated).

Lemma key_cmd_spec (fs : files) :
  command (inl (KeyCmd, key_flags)) (Logger.start fs) =
  match GenerateKeyFiles writable keys n path fs with
  | Ret fs' => Ret (Some Generated, (Logger.start fs) <| Logger.h_files := fs' |>, [])
  | Panic => Panic
  end.
Proof using Hg.
  cbn [main]. unfold key_cmd. cbn [f_nodes f_path key_flags]. rewrite Nat2Z.id.
  assert (forall l, (forall i, i ∈ l -> (i < n)%nat) ->
    foldr (fun i rest => _ ← GenED25519Keys (draws i); rest) (Ret tt) l = Ret tt) as Hl.
  { induction l as [|i l IH]; intros Hi; cbn; [done|]. rewrite (gn_keys Hg) by (apply Hi, elem_of_cons; by left).
    apply IH. intros j Hj. apply Hi, elem_of_cons. by right. }
  rewrite Hl by (intros i ?%elem_of_seq; lia).
  unfold GenerateKeyFiles, on_host, lift_outcome, mbind, M_bind. cbn [Logger.h_files Logger.start].
  rewrite (save_all_ext _ _ (fun i => key_json (keys i).1 (keys i).2)).
  - unfold Outcome_bind. by destruct (save_all _ _ _ _ _ _).
  - intros j Hj. by rewrite (gn_keys Hg) by lia.
Qed.

Lemma tss_key_cmd_spec (fs : files) :
  command (inl (TssKeyCmd, tss_flags)) (Logger.start fs) =
  match GenerateTsKeyFiles writable json_partial json_public shares pub n T path fs with
  | Ret fs' => Ret (Some Generated, (Logger.start fs) <| Logger.h_files := fs' |>, [])
  | Panic => Panic
  end.
Proof using Hg.
  cbn [main]. unfold tss_key_cmd. cbn [f_N f_T f_path tss_flags]. rewrite (gn_shares Hg), Nat2Z.id.
  unfold lift_outcome, mbind at 1 2, M_bind at 1 2. cbn [fst snd].
  destruct (shares <$> seq 0 n) as [|s0 l] eqn:Hl.
  { destruct Hg as [? _ _]. destruct n; [lia|done]. }
  assert (length (s0 :: l) = n) as Hlen by by rewrite <-Hl, length_fmap, length_seq.
  rewrite bool_decide_false by lia. unfold GenerateTsKeyFiles, on_host. cbn [Logger.h_files Logger.start].
  rewrite (save_all_ext _ _ (fun i => ts_key_json json_partial json_public (shares i) pub (Z.of_nat n) T)).
  - unfold mbind, Outcome_bind. by destruct (save_all _ _ _ _ _ _).
  - intros j Hj. rewrite <-Hl, list_lookup_fmap, lookup_seq_lt by lia. done.
Qed.
End Generated.

(** A node that cannot read its configuration takes its process down. *)
Lemma run_cmd_fails (f : flags) (h h' : Logger.Host) (es : list boot_ev) (e : error) :
  NewNode header dial order fuel unjson_partial unjson_public unjson_params open writable err_text
    (f_keyFile f) (f_tssKeyFile f) (f_committeeFile f) (f_parametersFile f) (f_storePath f) (f_logPath f)
    (f_loglevel f) (f_nodeID f) h = Ret (Some (inr e), h', es) ->
  command (inl (RunCmd, f)) h = Panic.
Proof using Type. intros Hn. cbn [main]. unfold run_cmd, mbind, M_bind. by rewrite Hn. Qed.

(** C25. A deployment runs.  The command that generates [n] key pairs and the one that
    generates the threshold keys write their files; with a file of the committee of these
    keys and one of the parameters, the command that runs node [i] reads the keys, the
    committee and the parameters that were meant for it.  The node is correctly
    configured.  It starts the protocol the parameters name in the state from which the
    theorems on that protocol's nodes start, after it has connected to every other member
    and not before; a number that names no protocol starts none and is not noticed. *)
Theorem main_deploys (fs : files) (p : ConfigParameters) (d : db) :
  ts_codec json_partial unjson_partial json_public unjson_public ->
  deployable json_partial json_public unjson_params writable keys n shares pub T c path cfile pfile fs p ->
  surroundings writable n c open dial order fuel store logPath d -> generated ->
  exists h1 h2 fs',
    command (inl (KeyCmd, key_flags)) (Logger.start fs) = Ret (Some Generated, h1, []) /\
    command (inl (TssKeyCmd, tss_flags)) (Logger.start (Logger.h_files h1)) = Ret (Some Generated, h2, []) /\
    savetoFile writable (Logger.h_files h2) cfile (committee_json c) = Ret fs' /\ dense c /\
    forall i, (i < n)%nat -> setting_ok (setting_of keys n shares pub T c i) /\ exists addr h es,
      command (inl (RunCmd, run_flags i)) (Logger.start fs') =
        Ret (Some (Serving (booted (setting_of keys n shares pub T c i) p d addr)), h, es) /\
      if decide (MVBA <= Protocol (cfg_Consensus p) <= MERCURY)
      then started c dial order (Z.of_nat i) (cfg_Consensus p) addr es else es = [].
Proof using Type*.
  intros Hcodec Hd Hs Hg.
  destruct (node_boots json_partial unjson_partial json_public unjson_public unjson_params writable keys n shares
    pub T c path cfile pfile header err_text open dial order fuel store logPath level fs p d Hcodec Hd Hs)
    as (fs' & Hdep & Hdense & Hn).
  unfold deploy, mbind, Outcome_bind in Hdep.
  destruct (GenerateKeyFiles writable keys n path fs) as [fs1|] eqn:H1; [|done].
  destruct (GenerateTsKeyFiles _ _ _ _ _ _ _ _ fs1) as [fs2|] eqn:H2; [|done].
  eexists _, _, fs'. split; [rewrite key_cmd_spec, H1 by done; reflexivity|].
  split; [cbn [Logger.h_files]; rewrite tss_key_cmd_spec by done; cbn; rewrite H2; reflexivity|].
  split_and!; [exact Hdep|exact Hdense|]. intros i Hi. destruct (Hn i Hi) as (Hset & addr & h & es & Hr & He).
  split; [exact Hset|]. exists addr, h, es. split; [|exact He].
  cbn [main]. unfold run_cmd, mbind, M_bind. cbn [run_flags f_keyFile f_tssKeyFile f_committeeFile f_parametersFile
    f_storePath f_logPath f_loglevel f_nodeID]. rewrite Hr. cbn. by rewrite app_nil_r.
Qed.
End Deploy.

(** ** Witness *)

Section Witness.
Import ToyCrypto ToyNode ToyJson ToyRand.

(** A sharing that gives every node the same share. *)
#[local] Instance toy_sharing : Sharing toy_kyber := {|
  RandomStream := unit; PriPoly := unit; Pick := fun _ => x00; NewPriPoly := fun _ _ _ => tt;
  PriPoly_Commit := fun _ => toy_pub; PriPoly_Shares := fun _ n => Ret (toy_shares <$> seq 0 (Z.to_nat n))
|}.

Definition toy_draws (i : nat) : option (bytes * bytes) := Some ((toy_keys i).2, (toy_keys i).1).

Lemma toy_generated : generated toy_draws tt tt toy_keys 4 toy_shares toy_pub 3.
Proof. split; [lia|done|done]. Qed.

Lemma main_deploys_witness :
  exists (fs' : files) (addr : bytes) (h : Logger.Host) (es : list boot_ev),
    main toy_partial toy_unpartial toy_public toy_unpublic toy_unparams (fun _ => []) (fun _ => []) anywhere
      (fun _ => Ret (∅ : gmap bytes bytes)) (fun _ k => (2 <=? k)%nat) toy_order 5 toy_draws tt tt
      (inl (RunCmd, run_flags (text ".") toy_cfile toy_parameters [] (text "logs") Logger.DeployLevel 2))
      (Logger.start fs') =
    Ret (Some (Serving (booted (setting_of toy_keys 4 toy_shares toy_pub 3 (default_committee toy_keys 4) 2)
                          GenDefaultParameters (∅ : gmap bytes bytes) addr)), h, es) /\
    started (default_committee toy_keys 4) (fun _ k => (2 <=? k)%nat) toy_order 2
      (cfg_Consensus GenDefaultParameters) addr es.
Proof.
  destruct (main_deploys (S := toy_sharing) toy_partial toy_unpartial toy_public toy_unpublic toy_unparams (fun _ => []) (fun _ => [])
    anywhere (fun _ => Ret (∅ : gmap bytes bytes)) (fun _ k => (2 <=? k)%nat) toy_order 5 toy_draws tt tt toy_keys 4
    toy_shares toy_pub 3 (default_committee toy_keys 4) (text ".") toy_cfile toy_parameters [] (text "logs")
    Logger.DeployLevel toy_disk GenDefaultParameters (∅ : gmap bytes bytes) toy_codec toy_deployable
    toy_surroundings toy_generated) as (h1 & h2 & fs' & _ & _ & _ & _ & Hn).
  exists fs'. destruct (Hn 2%nat) as [_ Ha]; [lia|]. exact Ha.
Defined.
End Witness.
